(* ===== verification/_CoqProject ===== *)
-Q . S2P
Prelude.v
GoNet.v
GoTime.v
ProxyTypes.v
ChangeTracking.v
Services.v
ServicesFacts.v
ServicesClaims.v
EndpointsMap.v
EndpointsFacts.v
EndpointsClaims.v
Ipvs.v
FakeIpvs.v
EnnIpvs.v
RefKernel.v
Host.v
Strconv.v
Ports.v
Conntrack.v
Nodes.v
Proxier.v
ProxierFacts.v
FullSync.v
SyncSpec.v
EndpointSync.v
IncrSync.v
WfCheck.v
TestBed.v
SyncClaims.v
SyncFlush.v
EnnClaims.v
IpvsHistory.v
Events.v
EventsClaims.v
Interleave.v
Returns.v
Robust.v
Config.v
ConfigClaims.v
Version.v
VersionClaims.v
GoIptables.v
IptablesFacts.v
Masquerade.v
MasqClaims.v
SaveRestore.v
SaveRestoreClaims.v
Healthcheck.v
HealthClaims.v
HealthServing.v
HealthServingClaims.v
Startup.v
StartupClaims.v
Dbus.v
Iptables.v
IptablesSpec.v
IptablesClaims.v
IptablesText.v
IptablesLocks.v
FakeIptables.v
Async.v
AsyncClaims.v
Watchers.v
WatchersClaims.v
IpvsTool.v
IpvsToolClaims.v
Server.v
ServerClaims.v
ServerRun.v
ServerCleanup.v
