(* ===== verification/Prelude.v ===== *)
(** * kube-enn-proxy: a verification development

    kube-enn-proxy runs on every node of a Kubernetes cluster and programs the
    kernel's IPVS table so that the virtual addresses of services (cluster IPs,
    external IPs, node ports) are balanced over their endpoints. This library
    models the program in Rocq, function by function, and proves what makes it
    correct.

    ** The program and the files that model it

    Informers report the services and endpoints of the API server
    (pkg/proxy/config). The proxier records them as pending changes
    (pkg/proxy/util/services.go, endpoints.go) and, once both initial listings
    have arrived, [syncProxyRules] (pkg/proxy/ipvs/proxier.go) applies the
    changes to its maps and brings the kernel in line, through the IPVS
    interface (pkg/util/ipvs), holding local ports and flushing connections on
    the way; a loop repeats this periodically and keeps the masquerade rules in
    iptables.

    - [Prelude]: errors, the panicking state monad [M] with its total-correctness
      rules ([wp]), the iteration order of Go maps ([MapRange]: every theorem
      holds for every order), shared lemmas and tactics. [GoNet], [Strconv]: what
      is used of packages strings, strconv and net. [Host]: the operating system
      as numbered questions and a trace of effects. [ProxyTypes]: API objects and
      names.
    - [ChangeTracking]: the change maps (ServiceChangeMap, EndpointsChangeMap) as
      one machine, and its histories as step relations: whole syncs, and one
      step per hold of a lock, where what is recorded between applying and
      clearing may be missed. [Services],
      [ServicesFacts], [ServicesClaims]: services.go. [EndpointsMap],
      [EndpointsFacts], [EndpointsClaims]: endpoints.go.
    - [Ipvs]: the IPVS interface as a class, its contract ([IpvsSpec]: each
      operation acts on an abstract table of virtual services, bound addresses
      and the dummy device; [IpvsRobust]: redundant requests do no harm), and the
      record conversions. [FakeIpvs]: the in-memory implementation
      (pkg/util/ipvs/testing), which meets [IpvsSpec]. [EnnIpvs]: the real one
      (pkg/util/ipvs/ipvs.go) over the netlink and libipvs calls, which meets both
      under the documented behaviour of the kernel ([KernelSpec]), and whose
      constructor panics when libipvs cannot be opened ([Handle]); [RefKernel]: a
      kernel that behaves so; [EnnClaims]: its properties; [IpvsHistory]: whole
      histories of calls, of it and of the test double.
    - [Ports] (ports.go), [Conntrack] (conntrack.go), [Nodes] (nodes.go).
    - [Proxier]: the proxier's state, [syncProxyRules] in the order of the source
      (apply changes, snapshots, full or incremental programming, ports and
      connections) and the event handlers. [ProxierFacts], [FullSync],
      [SyncSpec]: the sync without pending changes against the contract.
      [EndpointSync]: the sync of endpoint changes. [IncrSync]: every sync
      completes. [WfCheck], [TestBed]: checkers and a concrete node for the
      witnesses. [SyncClaims], [SyncFlush]: the properties, of the
      kernel's table and of what is closed and flushed on the host.
    - [Events], [EventsClaims]: histories of handler calls, from the announced
      objects to the kernel. [Interleave]: the same at the granularity of the
      locks: a handler records its change and syncs later, and a sync has five
      gaps (between the two updates, before and during the programming of the
      services, after it, after that of the endpoints) where others record.
      [Returns]: what each part of a sync leaves alone over an IPVS that only
      returns; [Robust]: histories of any objects, with recordings in any gap.
      [Config], [ConfigClaims]: pkg/proxy/config, and that the informer callbacks
      are those handler calls.
    - [GoIptables], [IptablesFacts] (pkg/util/coreos/go-iptables), [Masquerade],
      [MasqClaims]: the masquerade rules, the sync loop and the cleanup.
      [SaveRestore], [SaveRestoreClaims] (pkg/util/iptables/save_restore.go).
      [Version], [VersionClaims] (pkg/util/version). [Healthcheck],
      [HealthClaims] (pkg/proxy/healthcheck), and [HealthServing],
      [HealthServingClaims]: the same with the goroutines that accept connections,
      which are kept alive, and run the handlers. [Startup], [StartupClaims]: the
      options and flags (app/options), NewProxier, the kernel settings and the
      construction of the server (app/server.go).
    - [Server]: main, [Run] with its goroutines as activities in any order
      (handlers whole or in halves, syncs with what is recorded in their gaps,
      ticks), the stop value and the cleanup (kube-enn-proxy.go, app/server.go).
      [ServerClaims]: how it stops. [ServerRun]: from main, that its world
      simulates the histories of [Interleave], with iptables beside them.
      [ServerCleanup]: main asked to clean up.
    - Packages the program links but no longer calls, and its tool: [Dbus]
      (pkg/util/dbus: the interface as a class, both implementations);
      [Iptables] (pkg/util/iptables: the runner over the commands, the lock
      files and the bus), [IptablesSpec] (its contract and what each operation
      does), [IptablesClaims], [IptablesText] (looking for a rule in the text of
      iptables-save), [IptablesLocks] (restoring under the locks),
      [FakeIptables] (its test double); [GoTime] (package time) and [Async]
      (pkg/util/async: the bounded frequency runner as one state with its timer
      and clock), [AsyncClaims]; [Watchers], [WatchersClaims] (pkg/watchers: the
      callbacks and the broadcaster with its goroutines); [IpvsTool],
      [IpvsToolClaims] (tools/ipvs-tool).

    ** What the theorems show

    - The whole program ([ServerRun]): main with any flags, when the server is
      constructed and the sync period is positive, and however its goroutines
      then go on, as long as nothing is recorded between a map's update and its
      clearing, the objects can be programmed and the local ports opened: two
      ticks after both listings the kernel and the masquerade rules are what the
      announced objects and the settings ask for. It never stops in order, though
      ([ServerClaims]): it panics on its nil watchers or blocks on the stop
      channel. Asked to clean up, main panics when it cannot open IPVS, and
      otherwise empties the kernel and exits ([ServerCleanup]).
    - End to end ([EventsClaims]), handler after handler, for objects that can be
      programmed: after both listings two syncs lead the kernel to exactly the
      announced virtual services, endpoints and bound addresses; before that
      nothing is programmed. [Interleave] shows it for handlers that record
      their change while another goroutine syncs, outside the windows in which
      the code loses one. [Robust] drops all of that: for any objects, any
      answers of IPVS and recordings anywhere, no step panics, the state stays
      well typed, and the maps with their pending changes are the ports of every
      object that was not announced in a window; which objects those are is
      computed from the history.
    - The sync ([SyncClaims]): without pending changes it converges from any
      kernel state and is idempotent; with endpoint changes it is exact; it ends
      by closing the ports it gives up and flushing exactly the stale UDP
      addresses ([SyncFlush]).
    - The change maps: applying the pending changes gives the announced ports,
      but for what is recorded between applying and clearing, equals the rebuild,
      and reports exactly the stale addresses.
    - Every history of calls to the IPVS implementation acts on the kernel as on
      the abstract table, errors included, and the test double answers as it does
      ([IpvsHistory]), for the operations of its [call]. The health check server,
      with its goroutines, makes the steps of its specification as long as no
      handler runs for a health check that was removed
      ([HealthServingClaims]).
    - The IPVS implementation, ports, node addresses, conntrack commands,
      masquerade rules, health checks, version and iptables-save parsing:
      functional behaviour, round trips and error paths of each.
    - The iptables runner: a rule is ensured once and deleted again, chains come
      and go without a trace, lost rules are made again after FirewallD's
      signals, the old way of checking says yes exactly when a line fits, in
      whatever spelling, and restoring takes, holds and releases the locks in a
      bounded number of attempts and names the one that failed. The bounded
      frequency runner: in every reachable state the function runs again once
      maxInterval, and a request is honoured once minInterval, and the wait of
      the limiter have passed. The watchers: one delivery per update and handler,
      removals in tombstones apart. The tool: what its four commands do to the
      kernel, and which arguments make it panic.
    - Where the code does not do what it means to, a theorem shows it on a general
      or concrete run: [OnEndpointsSynced] leaves the proxier uninitialized; a
      service update loses its endpoints until the next sync; an incremental sync
      closes ports of other services; a service announced during a sync is lost;
      changes that are not cleared leak; the rebuild drops subsets; cleanup
      deletes rules of other programs; a health request blocks the server;
      comparison ignores components; unterminated lines lose bytes; the old rule
      check confuses chains and ignores IPv6; a long run is followed by the next
      at once; a runner with equal intervals can stall; watchers reorder updates
      and drop tombstones; the tool adds real servers at the port of the service. These theorems stand beside the
      properties of their files.

    ** Choices, bounds and fuel

    Maps are gmap; a Go map or pointer that may be nil is an option. Integers are
    Z with conversions to 16 bits written out where the code converts ([uint16]);
    ports of well-formed objects are in range by hypothesis. Code outside the
    repository (libipvs, netlink, sockets, exec, the API client, the iptables
    binary, files) is a class or an argument; its documented behaviour is a
    specification class with an instance that meets it. Syncs run one at a
    time, as the proxier's mutex makes them. In [Events] and [SyncClaims] a
    handler is one step; in [Interleave], [Robust] and [Server] recording a
    change is a step of its own, also in the middle of a sync. A permutation of
    the node's addresses is as good as another ([NodeIPSpec]), since the code
    lists them from a map. A rate is a float32, as SpecFloat computes it
    ([GoTime]), so the wait of a token bucket is the bucket's and not the
    interval it was made for. Other goroutines are explicit: a list of activities in any order ([Server]), events
    of the environment between and during the steps of a loop ([Async]),
    goroutines not yet run as part of the state ([Watchers]). A send nobody
    receives ends a theorem's run as [Blocked] or as the run time's deadlock.
    Polling loops run as often as the library's poller ticks, which is a
    parameter. Loops over lists are structural; [parseIPv6] has the fuel of its
    input and the loops of [GetChainLines] the length of the data, which is shown
    to be enough. Error messages are built as the code builds them; logging is
    left out.

    ** Not modelled

    Libraries: client-go's informers, its token bucket and its event recorder,
    the HTTP server (its connections are steps of [HealthServing]), godbus, the
    parsing of flags, logging. Of the limiter of client-go that throttles the
    proxier's syncs only the construction is modelled, which can panic
    ([Throttling]); it delays syncs. Of a ticker only that its period must be
    positive; that it ticks is part of a history. The other half of the IPVS
    interface that [IpvsHistory] leaves out (reading one service back, making,
    raising and deleting the device, local addresses) is modelled, and only
    what the clean-up and the node addresses use of it is proved.
    iptables_unsupported.go, which Linux builds leave out. Memory: slices are
    lists, and an aliased slice is modelled only where the code writes to it. *)

From stdpp Require Export base gmap fin_maps sets list strings pretty.
From stdpp Require Export options.
From Stdlib Require Export ZArith Lia.

Declare Scope go_scope.
Delimit Scope go_scope with go.
Open Scope go_scope.

(** ** Errors and results

    A Go [error] is nil or a value whose only observation in this program is
    its message; a function returning [(T, error)] whose value is meaningful
    only when the error is nil returns a [result T]. *)

Abbreviation error := (option string).

Inductive result (A : Type) : Type :=
| OK (a : A)
| Err (msg : string).
Arguments OK {A} a.
Arguments Err {A} msg.

(** ** Panicking state monad

    Stateful code is explicit state passing; a panic (explicit, a nil
    dereference, a write to a nil map) ends the computation and keeps the
    state reached. *)

Inductive outcome (A : Type) : Type :=
| Ret (a : A)
| Panic (msg : string).
Arguments Ret {A} a.
Arguments Panic {A} msg.

Definition M (S A : Type) : Type := S → outcome A * S.

Global Instance M_ret (S : Type) : MRet (M S) := λ A a s, (Ret a, s).
Global Instance M_bind (S : Type) : MBind (M S) := λ A B f c s,
  match c s with
  | (Ret a, s') => f a s'
  | (Panic msg, s') => (Panic msg, s')
  end.

Definition panic {S A} (msg : string) : M S A := λ s, (Panic msg, s).
Definition get {S} : M S S := λ s, (Ret s, s).
Definition gets {S A} (f : S → A) : M S A := λ s, (Ret (f s), s).
Definition modify {S} (f : S → S) : M S unit := λ s, (Ret tt, f s).

(** [for _, x := range l { body }]: [continue] is returning from the body. *)
Fixpoint for_each {S A} (l : list A) (body : A → M S unit) : M S unit :=
  match l with
  | [] => mret tt
  | x :: l => body x ;; for_each l body
  end.

(** A Go loop that may [return] from the enclosing function: the body gives
    [Some r] to return [r]. *)
Fixpoint for_return {S A R} (l : list A) (body : A → M S (option R)) : M S (option R) :=
  match l with
  | [] => mret None
  | x :: l => r ← body x;
      match r with
      | Some r => mret (Some r)
      | None => for_return l body
      end
  end.

(** Running a computation on a component of a larger state. *)
Definition zoom {S T A} (prj : S → T) (upd : T → S → S) (c : M T A) : M S A := λ s,
  let '(o, t) := c (prj s) in (o, upd t s).

(** ** Total correctness

    [wp c Q s]: from [s], [c] returns (it does not panic) and its result and
    final state satisfy [Q]. *)

Definition wp {S A} (c : M S A) (Q : A → S → Prop) (s : S) : Prop :=
  match c s with
  | (Ret a, s') => Q a s'
  | (Panic _, _) => False
  end.

Section wp.
Context {S : Type}.
Implicit Types s : S.

Lemma wp_ret {A} (a : A) (Q : A → S → Prop) s : Q a s → wp (mret a) Q s.
Proof. done. Qed.

Lemma wp_bind {A B} (c : M S A) (f : A → M S B) (Q : B → S → Prop) s :
  wp c (λ a, wp (f a) Q) s → wp (c ≫= f) Q s.
Proof. unfold wp, mbind, M_bind. by destruct (c s) as [[]]. Qed.

Lemma wp_bind_inv {A B} (c : M S A) (f : A → M S B) (Q : B → S → Prop) s :
  wp (c ≫= f) Q s → wp c (λ a, wp (f a) Q) s.
Proof. unfold wp, mbind, M_bind. by destruct (c s) as [[]]. Qed.

Lemma wp_mono {A} (c : M S A) (Q Q' : A → S → Prop) s :
  wp c Q s → (∀ a s', Q a s' → Q' a s') → wp c Q' s.
Proof. unfold wp. destruct (c s) as [[]]; eauto. Qed.

Lemma wp_and {A} (c : M S A) (P Q : A → S → Prop) s :
  wp c P s → wp c Q s → wp c (λ a s', P a s' ∧ Q a s') s.
Proof. unfold wp. by destruct (c s) as [[]]. Qed.

Lemma wp_get (Q : S → S → Prop) s : Q s s → wp get Q s.
Proof. done. Qed.

Lemma wp_gets {A} (f : S → A) (Q : A → S → Prop) s : Q (f s) s → wp (gets f) Q s.
Proof. done. Qed.

Lemma wp_modify (f : S → S) (Q : unit → S → Prop) s : Q tt (f s) → wp (modify f) Q s.
Proof. done. Qed.

Lemma wp_zoom {T A} (prj : S → T) (upd : T → S → S) (c : M T A) (Q : A → S → Prop) s :
  wp c (λ a t, Q a (upd t s)) (prj s) → wp (zoom prj upd c) Q s.
Proof. unfold wp, zoom. by destruct (c (prj s)) as [[]]. Qed.

(** Loop rule: the invariant is indexed by the part of the list already
    traversed. *)
Lemma wp_for_each {A} (I : list A → S → Prop) (l : list A) (body : A → M S unit)
    (Q : unit → S → Prop) s :
  I [] s →
  (∀ done x rest s, l = done ++ x :: rest → I done s →
     wp (body x) (λ _, I (done ++ [x])) s) →
  (∀ s, I l s → Q tt s) →
  wp (for_each l body) Q s.
Proof.
  intros H0 Hstep Hend.
  cut (∀ todo done s, l = done ++ todo → I done s → wp (for_each todo body) Q s).
  { intros Hcut. by apply (Hcut l []). }
  clear s H0. induction todo as [|x todo IH]; intros done s Hl Hi; simpl.
  { apply wp_ret, Hend. by rewrite app_nil_r in Hl; subst. }
  apply wp_bind. eapply wp_mono; [by eapply Hstep|].
  intros [] s' Hi'. apply (IH (done ++ [x])); [|done].
  by rewrite <-app_assoc.
Qed.

(** A loop whose body keeps an invariant that does not mention progress. *)
Lemma wp_for_each_inv {A} (I : S → Prop) (l : list A) (body : A → M S unit) s :
  I s →
  (∀ x s, x ∈ l → I s → wp (body x) (λ _, I) s) →
  wp (for_each l body) (λ _, I) s.
Proof.
  intros H0 Hstep. apply (wp_for_each (λ _, I)); [done| |done].
  intros done x rest s' -> Hi. apply Hstep; [|done].
  rewrite elem_of_app, elem_of_cons. auto.
Qed.

Lemma wp_for_each_app {A} (l l' : list A) (body : A → M S unit) (Q : unit → S → Prop) s :
  wp (for_each l body) (λ _, wp (for_each l' body) Q) s → wp (for_each (l ++ l') body) Q s.
Proof.
  revert s. induction l as [|x l IH]; intros s H; [exact H|]. apply wp_bind_inv in H. apply wp_bind.
  eapply wp_mono; [exact H|]. intros [] s' H'. by apply IH.
Qed.

Lemma wp_run {A} (c : M S A) (Q : A → S → Prop) s :
  wp c Q s → ∃ a s', c s = (Ret a, s') ∧ Q a s'.
Proof. unfold wp. destruct (c s) as [[a|msg] s']; naive_solver. Qed.
End wp.

(** ** Partial correctness

    If the computation returns, [Q] holds. *)
Definition wlp {S A} (c : M S A) (Q : A → S → Prop) (s : S) : Prop :=
  match c s with (Ret a, s') => Q a s' | (Panic _, _) => True end.

Section wlp.
Context {S : Type}.
Lemma wlp_ret {A} (a : A) (Q : A → S → Prop) s : Q a s → wlp (mret a) Q s.
Proof. done. Qed.
Lemma wlp_bind {A B} (c : M S A) (f : A → M S B) (Q : B → S → Prop) s :
  wlp c (λ a, wlp (f a) Q) s → wlp (c ≫= f) Q s.
Proof. unfold wlp, mbind, M_bind. by destruct (c s) as [[]]. Qed.
Lemma wlp_mono {A} (c : M S A) (Q Q' : A → S → Prop) s :
  wlp c Q s → (∀ a s', Q a s' → Q' a s') → wlp c Q' s.
Proof. unfold wlp. destruct (c s) as [[]]; eauto. Qed.
Lemma wlp_for_each {A} (I : S → Prop) (l : list A) (body : A → M S unit) s :
  I s → (∀ x s, I s → wlp (body x) (λ _, I) s) → wlp (for_each l body) (λ _, I) s.
Proof.
  intros H0 Hstep. revert s H0. induction l as [|x l IH]; intros s H0; [done|]. apply wlp_bind.
  eapply wlp_mono; [by apply Hstep|]. intros [] s' H. by apply IH.
Qed.
Lemma wp_wlp {A} (c : M S A) (Q : A → S → Prop) s : wp c Q s → wlp c Q s.
Proof. unfold wp, wlp. by destruct (c s) as [[]]. Qed.
Lemma wlp_zoom {T A} (prj : S → T) (upd : T → S → S) (c : M T A) (Q : A → S → Prop) s :
  wlp c (λ a t, Q a (upd t s)) (prj s) → wlp (zoom prj upd c) Q s.
Proof. unfold wlp, zoom. by destruct (c (prj s)) as [[]]. Qed.
Lemma wlp_any {A} (c : M S A) s : wlp c (λ _ _, True) s.
Proof. unfold wlp. by destruct (c s) as [[]]. Qed.
Lemma wlp_run {A} (c : M S A) (Q : A → S → Prop) s a s' : wlp c Q s → c s = (Ret a, s') → Q a s'.
Proof. unfold wlp. intros H E. by rewrite E in H. Qed.
End wlp.

Ltac wp_step :=
  match goal with
  | |- wp (mret _) _ _ => apply wp_ret
  | |- wp (_ ≫= _) _ _ => apply wp_bind
  | |- wp get _ _ => apply wp_get
  | |- wp (gets _) _ _ => apply wp_gets
  | |- wp (modify _) _ _ => apply wp_modify
  | |- wp (zoom _ _ _) _ _ => apply wp_zoom
  | |- wp (let '(_, _) := ?p in _) _ _ => destruct p
  end.
Ltac wp_steps := repeat (wp_step; simpl).

(** ** Iteration order of Go maps

    [range] over a map visits every entry once, in an order the language does
    not specify. [map_range n m] is the order chosen for the [n]-th [range]
    executed; everything is proved for every instance of [MapRange]. *)

Class MapRange := {
  map_range : ∀ {K V : Type} {HE : EqDecision K} {HC : @Countable K HE},
    nat → gmap K V → list (K * V);
  map_range_perm : ∀ {K V : Type} {HE : EqDecision K} {HC : @Countable K HE}
    (n : nat) (m : gmap K V), map_range n m ≡ₚ map_to_list m;
}.
Arguments map_range {_ _ _ _ _} n m.

(** The order used by witnesses: the one of [map_to_list]. *)
Definition canonical_range : MapRange :=
  {| map_range _ _ _ _ _ m := map_to_list m;
     map_range_perm _ _ _ _ _ m := reflexivity (map_to_list m) |}.

Section map_range.
Context `{MR : MapRange} {K V : Type} `{Countable K}.
Implicit Types m : gmap K V.

Lemma elem_of_map_range n m k v : (k, v) ∈ map_range n m ↔ m !! k = Some v.
Proof. rewrite map_range_perm. apply elem_of_map_to_list. Qed.

Lemma NoDup_map_range n m : NoDup (map_range n m).*1.
Proof. rewrite map_range_perm. apply NoDup_fst_map_to_list. Qed.

Lemma map_range_empty n : map_range n (∅ : gmap K V) = [].
Proof.
  apply Permutation_nil_r. rewrite map_range_perm. by rewrite map_to_list_empty.
Qed.

Lemma list_to_map_map_range n m : (list_to_map (map_range n m) : gmap K V) = m.
Proof.
  etrans; [|apply list_to_map_to_list].
  apply list_to_map_proper; [apply NoDup_map_range | apply map_range_perm].
Qed.

(** Ranging over a set. *)
Lemma set_range_elements n (v : V) (X : gset K) : (map_range n (gset_to_gmap v X)).*1 ≡ₚ elements X.
Proof.
  apply NoDup_Permutation; [apply NoDup_map_range|apply NoDup_elements|]. intros x.
  rewrite elem_of_elements, list_elem_of_fmap. split.
  - intros ([y u] & -> & Hin). by apply elem_of_map_range, lookup_gset_to_gmap_Some in Hin as [? _].
  - intros Hx. exists (x, v). split; [done|]. by apply elem_of_map_range, lookup_gset_to_gmap_Some.
Qed.

Lemma elem_of_set_range n (v : V) (X : gset K) x : x ∈ (map_range n (gset_to_gmap v X)).*1 ↔ x ∈ X.
Proof. by rewrite set_range_elements, elem_of_elements. Qed.
End map_range.

(** Computations whose only effect is to consume iteration orders. *)
Definition T (A : Type) : Type := nat → A * nat.
Global Instance T_ret : MRet T := λ A a n, (a, n).
Global Instance T_bind : MBind T := λ A B f c n, let '(a, n') := c n in f a n'.

Definition range `{MapRange} `{Countable K} {V} (m : gmap K V) : T (list (K * V)) :=
  λ n, (map_range n m, S n).

Fixpoint foldT {A B} (f : B → A → T B) (b : B) (l : list A) : T B :=
  match l with
  | [] => mret b
  | x :: l => b ← f b x; foldT f b l
  end.

Lemma foldT_cons {A B} (f : B → A → T B) b x l n b' n' :
  f b x n = (b', n') → foldT f b (x :: l) n = foldT f b' l n'.
Proof. intros H. simpl. unfold mbind, T_bind. by rewrite H. Qed.

(** ** Go maps with a nil value: reads of a nil map see an empty map. *)
Abbreviation gomap K V := (option (gmap K V)).
Definition gm `{Countable K} {V} (m : gomap K V) : gmap K V := default ∅ m.

Lemma gm_Some `{Countable K} {V} (m : gmap K V) : gm (Some m) = m.
Proof. done. Qed.

Lemma alter_lookup_Some `{Countable K} {V} (f : V → V) (m : gmap K V) k x :
  m !! k = Some x → alter f k m = <[k := f x]> m.
Proof.
  intros Hk. apply map_eq. intros k'. destruct (decide (k' = k)) as [->|Hne].
  - by rewrite lookup_alter_eq, lookup_insert_eq, Hk.
  - by rewrite lookup_alter_ne, lookup_insert_ne.
Qed.

Lemma alter_lookup_None `{Countable K} {V} (f : V → V) (m : gmap K V) k :
  m !! k = None → alter f k m = m.
Proof.
  intros Hk. apply map_eq. intros k'. destruct (decide (k' = k)) as [->|Hne].
  - by rewrite lookup_alter_eq, Hk.
  - by rewrite lookup_alter_ne.
Qed.

(** ** Integer conversions *)
Definition uint16 (z : Z) : Z := (z `mod` 2 ^ 16)%Z.

Lemma uint16_id z : (0 ≤ z < 65536)%Z → uint16 z = z.
Proof. intros. unfold uint16. apply Z.mod_small. lia. Qed.

Lemma uint16_range z : (0 ≤ uint16 z < 65536)%Z.
Proof. unfold uint16. apply Z.mod_pos_bound. lia. Qed.

(** Prove a closed decidable proposition by evaluating its decision. *)
Ltac by_eval := eapply bool_decide_eq_true_1; vm_compute; reflexivity.

Create HintDb goproxy.
#[export] Hint Resolve NoDup_map_range uint16_range : goproxy.
