(* ===== verification/GoNet.v ===== *)
(** * The parts of Go's [strings], [strconv] and [net] packages the proxy uses

    Strings are byte strings ([String.string]). [ToLower] and [TrimSpace] treat
    bytes outside ASCII as themselves. [net.IP] is a byte slice: the empty list
    stands for a nil [IP]; [ParseIP] returns nil or 16 bytes, an IPv4 address
    being its IPv4-in-IPv6 form. *)

From S2P Require Import Prelude.
From Stdlib Require Import Ascii.

Abbreviation IP := (list Z).

Module Strings.
Definition to_lower_ascii (c : ascii) : ascii :=
  let n := nat_of_ascii c in
  if (65 <=? n)%nat && (n <=? 90)%nat then ascii_of_nat (n + 32) else c.

Fixpoint ToLower (s : string) : string :=
  match s with
  | EmptyString => EmptyString
  | String c s => String (to_lower_ascii c) (ToLower s)
  end.

Definition HasPrefix (s prefix : string) : bool := String.prefix prefix s.

Fixpoint Contains (s sub : string) : bool :=
  HasPrefix s sub ||
  match s with
  | EmptyString => false
  | String _ s => Contains s sub
  end.

(** [strings.Split(s, sep)] for a separator of one byte: never empty. *)
Fixpoint Split (s : string) (sep : ascii) : list string :=
  match s with
  | EmptyString => [EmptyString]
  | String c s =>
      if decide (c = sep) then EmptyString :: Split s sep
      else match Split s sep with
           | [] => [String c EmptyString]
           | w :: ws => String c w :: ws
           end
  end.

Definition is_space (c : ascii) : bool :=
  let n := nat_of_ascii c in
  (n =? 32)%nat || ((9 <=? n)%nat && (n <=? 13)%nat).

Fixpoint trim_left (s : string) : string :=
  match s with
  | EmptyString => EmptyString
  | String c s' => if is_space c then trim_left s' else s
  end.

Fixpoint trim_right (s : string) : string :=
  match s with
  | EmptyString => EmptyString
  | String c s =>
      match trim_right s with
      | EmptyString => if is_space c then EmptyString else String c EmptyString
      | s' => String c s'
      end
  end.

Definition TrimSpace (s : string) : string := trim_right (trim_left s).

(** [byteIndex] of package net: position of the first [c]. *)
Fixpoint byteIndex (s : string) (c : ascii) : option nat :=
  match s with
  | EmptyString => None
  | String d s => if decide (d = c) then Some 0%nat else S <$> byteIndex s c
  end.

(** [last] of package net: position of the last [c]. *)
Fixpoint last (s : string) (c : ascii) : option nat :=
  match s with
  | EmptyString => None
  | String d s =>
      match last s c with
      | Some i => Some (S i)
      | None => if decide (d = c) then Some 0%nat else None
      end
  end.

(** Slices [s[:n]] and [s[n:]]. *)
Fixpoint take (n : nat) (s : string) : string :=
  match n, s with
  | S n, String c s => String c (take n s)
  | _, _ => EmptyString
  end.
Fixpoint drop (n : nat) (s : string) : string :=
  match n, s with
  | O, _ => s
  | S n, String _ s => drop n s
  | S _, EmptyString => EmptyString
  end.
End Strings.

(** [strconv.Itoa]. *)
Definition Itoa (z : Z) : string := pretty z.

Module Net.
(** ** Number scanners of package net *)
Definition big : Z := 16777215.

Definition digit_val (c : ascii) : option Z :=
  let n := Z.of_nat (nat_of_ascii c) in
  if (48 <=? n)%Z && (n <=? 57)%Z then Some (n - 48)%Z else None.

Definition xdigit_val (c : ascii) : option Z :=
  let n := Z.of_nat (nat_of_ascii c) in
  if (48 <=? n)%Z && (n <=? 57)%Z then Some (n - 48)%Z
  else if (97 <=? n)%Z && (n <=? 102)%Z then Some (n - 97 + 10)%Z
  else if (65 <=? n)%Z && (n <=? 70)%Z then Some (n - 65 + 10)%Z
  else None.

(** Scan a number in base [base]; the value and the rest of the string. *)
Fixpoint scan_num (val : ascii → option Z) (base : Z) (s : string) (n : Z) (seen : bool)
    : option (Z * string) :=
  match s with
  | EmptyString => if seen then Some (n, s) else None
  | String c s' =>
      match val c with
      | Some d =>
          let n := (n * base + d)%Z in
          if (big <=? n)%Z then None else scan_num val base s' n true
      | None => if seen then Some (n, s) else None
      end
  end.

Definition dtoi (s : string) : option (Z * string) := scan_num digit_val 10 s 0 false.
Definition xtoi (s : string) : option (Z * string) := scan_num xdigit_val 16 s 0 false.

(** ** ParseIP *)
Definition v4InV6Prefix : list Z := [0; 0; 0; 0; 0; 0; 0; 0; 0; 0; 255; 255]%Z.
Definition IPv4 (p : list Z) : IP := v4InV6Prefix ++ p.

(** The loop of [parseIPv4]: [todo] numbers left, each but the first after
    a dot. *)
Fixpoint parseIPv4_loop (todo : nat) (first : bool) (s : string) : option (list Z) :=
  match todo with
  | O => if decide (s = "") then Some [] else None
  | S todo =>
      if decide (s = "") then None else
      s ← (if first then Some s
           else match s with
                | String c s' => if decide (c = "."%char) then Some s' else None
                | EmptyString => None
                end);
      '(n, rest) ← dtoi s;
      if (255 <? n)%Z then None else
      p ← parseIPv4_loop todo false rest;
      Some (n :: p)
  end.

Definition parseIPv4 (s : string) : IP :=
  match parseIPv4_loop 4 true s with
  | Some p => IPv4 p
  | None => []
  end.

(** The loop of [parseIPv6]; [acc] is [ip[:i]]. Every round but the last
    adds two bytes, so nine rounds reach [i = 16]. *)
Fixpoint parseIPv6_loop (fuel : nat) (s : string) (ellipsis : option nat) (acc : list Z)
    : option (string * option nat * list Z) :=
  match fuel with
  | O => Some (s, ellipsis, acc)
  | S fuel =>
      if (16 <=? length acc)%nat then Some (s, ellipsis, acc) else
      match xtoi s with
      | None => None
      | Some (n, rest) =>
          if (65535 <? n)%Z then None else
          match rest with
          | String "." _ =>
              if bool_decide (ellipsis = None) && negb (length acc =? 12)%nat then None
              else if (16 <? length acc + 4)%nat then None
              else match parseIPv4 s with
                   | [] => None
                   | ip4 => Some ("", ellipsis, acc ++ drop 12 ip4)
                   end
          | EmptyString => Some ("", ellipsis, acc ++ [Z.shiftr n 8; Z.land n 255])
          | String c rest =>
              let acc := acc ++ [Z.shiftr n 8; Z.land n 255] in
              if negb (bool_decide (c = ":"%char)) || bool_decide (rest = "") then None
              else match rest with
                   | String ":" rest =>
                       if bool_decide (ellipsis ≠ None) then None
                       else if decide (rest = "") then Some ("", Some (length acc), acc)
                       else parseIPv6_loop fuel rest (Some (length acc)) acc
                   | _ => parseIPv6_loop fuel rest ellipsis acc
                   end
          end
      end
  end.

Definition parseIPv6_finish (r : option (string * option nat * list Z)) : IP :=
  match r with
  | None => []
  | Some (s, ellipsis, acc) =>
      if negb (bool_decide (s = "")) then []
      else if (length acc <? 16)%nat then
        match ellipsis with
        | None => []
        | Some e => take e acc ++ replicate (16 - length acc) 0%Z ++ drop e acc
        end
      else match ellipsis with
           | Some _ => []
           | None => acc
           end
  end.

Definition parseIPv6 (s : string) : IP :=
  match s with
  | String ":" (String ":" s) =>
      if decide (s = "") then replicate 16 0%Z
      else parseIPv6_finish (parseIPv6_loop 9 s (Some 0%nat) [])
  | _ => parseIPv6_finish (parseIPv6_loop 9 s None [])
  end.

(** The first dot or colon decides the address family. *)
Fixpoint ParseIP_scan (s0 s : string) : IP :=
  match s with
  | EmptyString => []
  | String c s =>
      if decide (c = "."%char) then parseIPv4 s0
      else if decide (c = ":"%char) then parseIPv6 s0
      else ParseIP_scan s0 s
  end.
Definition ParseIP (s : string) : IP := ParseIP_scan s s.

(** ** Observations of an [IP] *)
Definition To4 (ip : IP) : IP :=
  if (length ip =? 4)%nat then ip
  else if (length ip =? 16)%nat && bool_decide (take 12 ip = v4InV6Prefix) then drop 12 ip
  else [].

Definition hex_digit (d : Z) : ascii :=
  if (d <? 10)%Z then ascii_of_nat (Z.to_nat (d + 48)) else ascii_of_nat (Z.to_nat (d + 87)).

(** [appendHex]: no leading zeros. *)
Fixpoint hex_go (fuel : nat) (n : Z) (acc : string) : string :=
  match fuel with
  | O => acc
  | S fuel =>
      let acc := String (hex_digit (n `mod` 16)) acc in
      if (n `div` 16 =? 0)%Z then acc else hex_go fuel (n `div` 16) acc
  end.
Definition appendHex (n : Z) : string := hex_go 8 n "".

Fixpoint hexString (ip : IP) : string :=
  match ip with
  | [] => ""
  | b :: ip => String (hex_digit (b `div` 16)) (String (hex_digit (b `mod` 16)) (hexString ip))
  end.

Definition join_dots (p : list Z) : string :=
  match p with
  | [a; b; c; d] => Itoa a +:+ "." +:+ Itoa b +:+ "." +:+ Itoa c +:+ "." +:+ Itoa d
  | _ => ""
  end.

(** The eight 16-bit groups of an IPv6 address. *)
Fixpoint groups (ip : IP) : list Z :=
  match ip with
  | a :: b :: ip => (a * 256 + b)%Z :: groups ip
  | _ => []
  end.

Fixpoint zero_run (gs : list Z) : nat :=
  match gs with
  | 0%Z :: gs => S (zero_run gs)
  | _ => O
  end.

(** Longest run of zero groups, the first of several: start and length. *)
Fixpoint longest_run (fuel i : nat) (gs : list Z) (best : nat * nat) : nat * nat :=
  match fuel, gs with
  | S fuel, _ :: gs' =>
      let n := zero_run gs in
      if (best.2 <? n)%nat
      then longest_run fuel (i + n + 1) (drop (n + 1) gs) (i, n)
      else longest_run fuel (i + 1) gs' best
  | _, _ => best
  end.

Fixpoint join_colons (gs : list Z) : string :=
  match gs with
  | [] => ""
  | [g] => appendHex g
  | g :: gs => appendHex g +:+ ":" +:+ join_colons gs
  end.

Definition IPv6_String (ip : IP) : string :=
  let gs := groups ip in
  let '(e0, n) := longest_run 8 0 gs (0%nat, 0%nat) in
  if (n <=? 1)%nat then join_colons gs
  else join_colons (take e0 gs) +:+ "::" +:+ join_colons (drop (e0 + n) gs).

(** [func (ip IP) String() string]. *)
Definition IP_String (ip : IP) : string :=
  match ip with
  | [] => "<nil>"
  | _ =>
      match To4 ip with
      | [] => if (length ip =? 16)%nat then IPv6_String ip else "?" +:+ hexString ip
      | p4 => join_dots p4
      end
  end.

(** [func (ip IP) Equal(x IP) bool]. *)
Definition IP_Equal (ip x : IP) : bool :=
  if (length ip =? length x)%nat then bool_decide (ip = x)
  else if (length ip =? 4)%nat && (length x =? 16)%nat
  then bool_decide (take 12 x = v4InV6Prefix) && bool_decide (ip = drop 12 x)
  else if (length ip =? 16)%nat && (length x =? 4)%nat
  then bool_decide (take 12 ip = v4InV6Prefix) && bool_decide (drop 12 ip = x)
  else false.

(** ** host:port strings *)
Definition JoinHostPort (host port : string) : string :=
  match Strings.byteIndex host ":", Strings.byteIndex host "%" with
  | None, None => host +:+ ":" +:+ port
  | _, _ => "[" +:+ host +:+ "]:" +:+ port
  end.

Definition addrErr (hostport why : string) : result (string * string) :=
  Err ("address " +:+ hostport +:+ ": " +:+ why).

Definition SplitHostPort (hostport : string) : result (string * string) :=
  let missingPort := "missing port in address" in
  let tooManyColons := "too many colons in address" in
  match Strings.last hostport ":" with
  | None => addrErr hostport missingPort
  | Some i =>
      let finish host (j k : nat) :=
        match Strings.byteIndex (Strings.drop j hostport) "[",
              Strings.byteIndex (Strings.drop k hostport) "]" with
        | Some _, _ => addrErr hostport "unexpected '[' in address"
        | None, Some _ => addrErr hostport "unexpected ']' in address"
        | None, None => OK (host, Strings.drop (i + 1) hostport)
        end in
      match hostport with
      | String "[" _ =>
          match Strings.byteIndex hostport "]" with
          | None => addrErr hostport "missing ']' in address"
          | Some e =>
              if (e + 1 =? String.length hostport)%nat then addrErr hostport missingPort
              else if (e + 1 =? i)%nat
              then finish (Strings.drop 1 (Strings.take e hostport)) 1%nat (e + 1)%nat
              else match Strings.drop (e + 1) hostport with
                   | String ":" _ => addrErr hostport tooManyColons
                   | _ => addrErr hostport missingPort
                   end
          end
      | _ =>
          let host := Strings.take i hostport in
          match Strings.byteIndex host ":" with
          | Some _ => addrErr hostport tooManyColons
          | None => finish host 0%nat 0%nat
          end
      end
  end.

(** [net.ParseCIDR], of which the callers use the address only. *)
Definition ParseCIDR (s : string) : result IP :=
  let bad := Err ("invalid CIDR address: " +:+ s) in
  match Strings.byteIndex s "/" with
  | None => bad
  | Some i =>
      let addr := Strings.take i s in
      let mask := Strings.drop (i + 1) s in
      let v4 := parseIPv4 addr in
      let '(ip, iplen) := match v4 with [] => (parseIPv6 addr, 16%Z) | _ => (v4, 4%Z) end in
      match ip, dtoi mask with
      | _ :: _, Some (n, "") => if (8 * iplen <? n)%Z then bad else OK ip
      | _, _ => bad
      end
  end.

(** ** Well-formed IPv4 addresses in the form [ParseIP] gives them *)
Definition is_byte (b : Z) : Prop := (0 ≤ b < 256)%Z.

Definition wf_ip4 (ip : IP) : Prop :=
  ∃ a b c d, ip = IPv4 [a; b; c; d] ∧ Forall is_byte [a; b; c; d].

(** An IPv4 address in either form [net.IP] has for it. *)
Definition wf_addr (ip : IP) : Prop :=
  ∃ p, length p = 4%nat ∧ Forall is_byte p ∧ (ip = p ∨ ip = IPv4 p).
End Net.

(** ** Lemmas on strings *)

Module StringFacts.
Import Strings.

Fixpoint all (P : ascii → bool) (s : string) : bool :=
  match s with
  | EmptyString => true
  | String c s => P c && all P s
  end.

Definition is_digit (c : ascii) : bool := bool_decide (is_Some (Net.digit_val c)).

Lemma sapp_nil s : "" +:+ s = s.
Proof. done. Qed.
Lemma sapp_cons c s1 s2 : String c s1 +:+ s2 = String c (s1 +:+ s2).
Proof. done. Qed.
Ltac ssimpl := repeat first [rewrite sapp_nil | rewrite sapp_cons | progress simpl].

Lemma sapp_assoc s1 s2 s3 : s1 +:+ (s2 +:+ s3) = (s1 +:+ s2) +:+ s3.
Proof. induction s1 as [|c s1 IH]; [done|]. rewrite !sapp_cons. by rewrite IH. Qed.

Lemma all_app P s1 s2 : all P (s1 +:+ s2) = all P s1 && all P s2.
Proof. induction s1 as [|c s1 IH]; ssimpl; [done|]. by rewrite IH, andb_assoc. Qed.

Lemma all_impl (P Q : ascii → bool) s :
  (∀ c, P c = true → Q c = true) → all P s = true → all Q s = true.
Proof.
  intros HPQ. induction s as [|c s IH]; simpl; [done|].
  rewrite !andb_true_iff. naive_solver.
Qed.

Lemma byteIndex_app_None s1 s2 c :
  byteIndex s1 c = None → byteIndex (s1 +:+ s2) c = (λ i, String.length s1 + i) <$> byteIndex s2 c.
Proof.
  induction s1 as [|d s1 IH]; ssimpl; intros H.
  { by destruct (byteIndex s2 c). }
  case_decide; [done|]. destruct (byteIndex s1 c); [done|].
  rewrite IH by done. by destruct (byteIndex s2 c).
Qed.

Lemma byteIndex_app_char s1 s2 c :
  byteIndex s1 c = None → byteIndex (s1 +:+ String c s2) c = Some (String.length s1).
Proof.
  intros H. rewrite byteIndex_app_None by done. simpl.
  rewrite decide_True by done. simpl. f_equal. lia.
Qed.

Lemma byteIndex_sep_None s1 d s2 c :
  byteIndex s1 c = None → d ≠ c → byteIndex s2 c = None →
  byteIndex (s1 +:+ String d s2) c = None.
Proof.
  intros H1 Hd H2. rewrite byteIndex_app_None by done. simpl.
  by rewrite decide_False, H2 by done.
Qed.

Lemma byteIndex_None_all s c :
  byteIndex s c = None ↔ all (λ d, negb (bool_decide (d = c))) s = true.
Proof.
  induction s as [|d s IH]; simpl; [done|].
  case_decide; [subst; by rewrite bool_decide_true|].
  rewrite bool_decide_false by done. simpl. rewrite <-IH.
  destruct (byteIndex s c); naive_solver.
Qed.

Lemma last_None s c : last s c = None ↔ byteIndex s c = None.
Proof.
  induction s as [|d s IH]; simpl; [done|].
  destruct (last s c), (byteIndex s c); repeat case_decide; naive_solver.
Qed.

Lemma last_app_char s1 s2 c :
  byteIndex s2 c = None → last (s1 +:+ String c s2) c = Some (String.length s1).
Proof.
  intros H%last_None. induction s1 as [|d s1 IH]; ssimpl.
  - rewrite H. by rewrite decide_True.
  - by rewrite IH.
Qed.

Lemma take_app_length s1 s2 : take (String.length s1) (s1 +:+ s2) = s1.
Proof. induction s1 as [|c s1 IH]; ssimpl; [by destruct s2|]. by rewrite IH. Qed.

Lemma drop_app_length n s1 s2 :
  drop (String.length s1 + n) (s1 +:+ s2) = drop n s2.
Proof. induction s1; ssimpl; auto. Qed.

Lemma string_app_nil_r s : s +:+ "" = s.
Proof. induction s as [|c s IH]; ssimpl; [done|]. by rewrite IH. Qed.

(** Decimal numerals are made of digits. *)
Lemma pretty_N_go_digits x s :
  all is_digit s = true → all is_digit (pretty_N_go x s) = true.
Proof.
  revert s. induction (N.lt_wf_0 x) as [x _ IH]; intros s Hs.
  destruct (decide (x = 0)%N) as [->|Hx]; [done|].
  rewrite pretty_N_go_step by lia. apply IH; [apply N.div_lt; lia|].
  simpl. rewrite Hs, andb_true_r. unfold pretty_N_char.
  by repeat case_match.
Qed.

Lemma Itoa_digits z : (0 ≤ z)%Z → all is_digit (Itoa z) = true.
Proof.
  intros Hz. unfold Itoa, pretty, pretty_Z.
  destruct z as [|p|p]; [done| |lia].
  unfold pretty, pretty_positive, pretty, pretty_N. case_decide; [done|].
  by apply pretty_N_go_digits.
Qed.

Lemma digits_no_char s c :
  is_digit c = false → all is_digit s = true → byteIndex s c = None.
Proof.
  intros Hc Hs. apply byteIndex_None_all. revert Hs. apply all_impl.
  intros d Hd. case_bool_decide; [congruence|done].
Qed.

Lemma Itoa_no_char z c : (0 ≤ z)%Z → is_digit c = false → byteIndex (Itoa z) c = None.
Proof. intros. apply digits_no_char; [done|]. by apply Itoa_digits. Qed.
Lemma HasPrefix_app_r s t p : Strings.HasPrefix s p = true → Strings.HasPrefix (s +:+ t) p = true.
Proof.
  unfold Strings.HasPrefix. revert s. induction p as [|c p IH]; intros [|d s] Hp; [by destruct t|done..|].
  rewrite sapp_cons. simpl in *. destruct (ascii_dec c d); [by apply IH|done].
Qed.
Lemma HasPrefix_refl s : Strings.HasPrefix s s = true.
Proof. unfold Strings.HasPrefix. induction s as [|c s IH]; [done|]. simpl. by destruct (ascii_dec c c). Qed.
Lemma HasPrefix_inv p s : Strings.HasPrefix s p = true → ∃ r, s = p +:+ r.
Proof.
  unfold Strings.HasPrefix. revert s. induction p as [|c p IH]; intros s; [by exists s|].
  destruct s as [|c' s]; [done|]. cbn. destruct (ascii_dec c c') as [<-|]; [|done].
  intros (r & ->)%IH. exists r. done.
Qed.
Lemma HasPrefix_spec p s : Strings.HasPrefix s p = true ↔ ∃ r, s = p +:+ r.
Proof. split; [apply HasPrefix_inv|]. intros [r ->]. apply HasPrefix_app_r, HasPrefix_refl. Qed.
End StringFacts.

(** ** Round trips of addresses *)

Module NetFacts.
Import Net StringFacts.

Lemma scan_num_app val base s n seen m rest :
  scan_num val base s n seen = Some (m, "") → s ≠ "" →
  scan_num val base (s +:+ rest) n seen = scan_num val base rest m true.
Proof.
  revert n seen. induction s as [|c s IH]; intros n seen; ssimpl; [done|].
  intros Hs _. destruct (val c) as [d|].
  - case_match; [done|]. destruct (decide (s = "")) as [->|Hne].
    + simpl in *. naive_solver.
    + by apply IH.
  - destruct seen; naive_solver.
Qed.

Definition ends_number (val : ascii → option Z) (rest : string) : Prop :=
  match rest with
  | EmptyString => True
  | String c _ => val c = None
  end.

Lemma scan_num_stop val base rest n :
  ends_number val rest → scan_num val base rest n true = Some (n, rest).
Proof. destruct rest; simpl; [done|]. by intros ->. Qed.

(** The 256 byte values, checked by evaluation. *)
Lemma dtoi_Itoa_byte b : is_byte b → dtoi (Itoa b) = Some (b, "").
Proof.
  intros Hb.
  assert (forallb (λ n, bool_decide (dtoi (Itoa (Z.of_nat n)) = Some (Z.of_nat n, "")))
    (seq 0 256) = true) as H by (vm_compute; reflexivity).
  rewrite forallb_forall in H.
  specialize (H (Z.to_nat b)). rewrite Z2Nat.id in H by (destruct Hb; lia).
  eapply bool_decide_eq_true_1, H. apply in_seq. destruct Hb; lia.
Qed.

Lemma Itoa_nonempty z : (0 ≤ z)%Z → is_byte z → Itoa z ≠ "".
Proof. intros _ Hb Heq. apply dtoi_Itoa_byte in Hb. by rewrite Heq in Hb. Qed.

Lemma dtoi_Itoa_app b rest :
  is_byte b → ends_number digit_val rest → dtoi (Itoa b +:+ rest) = Some (b, rest).
Proof.
  intros Hb Hr. pose proof (dtoi_Itoa_byte b Hb) as Hd. unfold dtoi in *.
  erewrite scan_num_app; [|done|apply Itoa_nonempty; [destruct Hb; lia|done]].
  by apply scan_num_stop.
Qed.

Lemma Itoa_app_nonempty x rest : is_byte x → Itoa x +:+ rest ≠ "".
Proof.
  intros Hx. destruct (Itoa x) eqn:E; [|done].
  by destruct (Itoa_nonempty x); [destruct Hx; lia|..].
Qed.

Lemma byte_not_gt x : is_byte x → (255 <? x)%Z = false.
Proof. intros [??]. apply Z.ltb_ge. lia. Qed.

Lemma parseIPv4_loop_first n x rest :
  is_byte x → ends_number digit_val rest →
  parseIPv4_loop (S n) true (Itoa x +:+ rest) =
    (p ← parseIPv4_loop n false rest; Some (x :: p)).
Proof.
  intros Hx Hr. cbn [parseIPv4_loop].
  case_decide; [by destruct (Itoa_app_nonempty x rest)|]. cbn [mbind option_bind].
  rewrite dtoi_Itoa_app by done. cbn [mbind option_bind]. by rewrite byte_not_gt.
Qed.

Lemma parseIPv4_loop_next n x rest :
  is_byte x → ends_number digit_val rest →
  parseIPv4_loop (S n) false ("." +:+ Itoa x +:+ rest) =
    (p ← parseIPv4_loop n false rest; Some (x :: p)).
Proof.
  intros Hx Hr. cbn [parseIPv4_loop]. case_decide; [done|]. ssimpl.
  rewrite dtoi_Itoa_app by done. cbn [mbind option_bind]. by rewrite byte_not_gt.
Qed.

Lemma parseIPv4_join a b c d :
  Forall is_byte [a; b; c; d] → parseIPv4 (join_dots [a; b; c; d]) = IPv4 [a; b; c; d].
Proof.
  intros Hall. apply Forall_cons in Hall as [Ha Hall].
  apply Forall_cons in Hall as [Hb Hall]. apply Forall_cons in Hall as [Hc Hall].
  apply Forall_cons in Hall as [Hd _].
  unfold parseIPv4, join_dots. rewrite <-(string_app_nil_r (Itoa d)).
  rewrite parseIPv4_loop_first by done.
  by rewrite !parseIPv4_loop_next by done.
Qed.

Lemma ParseIP_scan_dot s0 s rest :
  Strings.byteIndex s ":" = None → ParseIP_scan s0 (s +:+ String "." rest) = parseIPv4 s0.
Proof.
  induction s as [|c s IH]; ssimpl; intros H; [done|].
  repeat case_decide; try done. apply IH.
  by destruct (Strings.byteIndex s ":").
Qed.

Lemma IP_String_IPv4 p : length p = 4%nat → IP_String (IPv4 p) = join_dots p.
Proof. intros H. by destruct p as [|a [|b [|c [|d []]]]]. Qed.

Lemma ParseIP_IP_String ip : wf_ip4 ip → ParseIP (IP_String ip) = ip.
Proof.
  intros (a & b & c & d & -> & Hall).
  rewrite IP_String_IPv4 by done. etrans; [|by apply parseIPv4_join].
  unfold ParseIP, join_dots at 2. apply ParseIP_scan_dot.
  apply Forall_cons in Hall as [[??] _]. by apply Itoa_no_char.
Qed.

(** An address followed by a port is not an address. *)
Lemma ParseIP_hostport ip port : wf_ip4 ip → ParseIP (IP_String ip +:+ String ":" port) = [].
Proof.
  intros (a & b & c & d & -> & Hall). rewrite IP_String_IPv4 by done.
  apply Forall_cons in Hall as [Ha Hall]. apply Forall_cons in Hall as [Hb Hall].
  apply Forall_cons in Hall as [Hc Hall]. apply Forall_cons in Hall as [Hd _].
  unfold join_dots. rewrite <-!sapp_assoc.
  unfold ParseIP. etrans; [apply ParseIP_scan_dot, Itoa_no_char; [destruct Ha; lia|done]|].
  unfold parseIPv4. rewrite parseIPv4_loop_first by done.
  rewrite parseIPv4_loop_next by done. by rewrite !parseIPv4_loop_next by done.
Qed.

Lemma parseIPv4_loop_bytes n first s p :
  parseIPv4_loop n first s = Some p → length p = n ∧ Forall is_byte p.
Proof.
  revert first s p. induction n as [|n IH]; intros first s p; simpl.
  { case_decide; naive_solver. }
  case_decide; [done|]. intros Hp.
  apply bind_Some in Hp as (s' & _ & Hp).
  apply bind_Some in Hp as ([m rest] & Hd & Hp).
  case_match eqn:Hm; [done|].
  apply bind_Some in Hp as (q & Hq & [= <-]).
  destruct (IH _ _ _ Hq) as [Hl Hf]. split; [simpl; lia|]. constructor; [|done].
  split; [|apply Z.ltb_ge in Hm; lia].
  clear -Hd. unfold dtoi in Hd.
  assert (∀ s n seen, (0 ≤ n)%Z → scan_num digit_val 10 s n seen = Some (m, rest) → (0 ≤ m)%Z) as Hgo.
  { clear. induction s as [|c s IH]; intros n seen Hn; simpl.
    { destruct seen; naive_solver. }
    unfold digit_val. repeat case_match; try naive_solver.
    all: simplify_eq; apply IH; lia. }
  by eapply Hgo; [|done].
Qed.

(** What the dotted branch of [ParseIP] accepts is a well-formed address. *)
Lemma parseIPv4_wf s : parseIPv4 s ≠ [] → wf_ip4 (parseIPv4 s).
Proof.
  unfold parseIPv4. destruct (parseIPv4_loop 4 true s) as [p|] eqn:E; [|done].
  intros _. apply parseIPv4_loop_bytes in E as [Hl Hf].
  destruct p as [|a [|b [|c [|d []]]]]; try done. by exists a, b, c, d.
Qed.

Lemma wf_ip4_nonempty ip : wf_ip4 ip → ip ≠ [].
Proof. by intros (?&?&?&?&->&_). Qed.

Lemma To4_wf ip : wf_ip4 ip → To4 ip ≠ [].
Proof. by intros (?&?&?&?&->&_). Qed.

Lemma join_dots_no_char p c :
  Forall is_byte p → is_digit c = false → c ≠ "."%char → Strings.byteIndex (join_dots p) c = None.
Proof.
  intros Hp Hd Hc. destruct p as [|x1 [|x2 [|x3 [|x4 []]]]]; try done.
  apply Forall_cons in Hp as [[H1 _] Hp]. apply Forall_cons in Hp as [[H2 _] Hp].
  apply Forall_cons in Hp as [[H3 _] Hp]. apply Forall_cons in Hp as [[H4 _] _].
  repeat (apply byteIndex_sep_None; [by apply Itoa_no_char|done|]).
  by apply Itoa_no_char.
Qed.

Lemma IP_String_no_char ip c :
  wf_ip4 ip → is_digit c = false → c ≠ "."%char → Strings.byteIndex (IP_String ip) c = None.
Proof.
  intros (x1 & x2 & x3 & x4 & -> & Hall) ??. rewrite IP_String_IPv4 by done.
  by apply join_dots_no_char.
Qed.

Lemma JoinHostPort_v4 ip port :
  wf_ip4 ip → JoinHostPort (IP_String ip) port = IP_String ip +:+ ":" +:+ port.
Proof. intros Hip. unfold JoinHostPort. by rewrite !IP_String_no_char. Qed.

Lemma IP_String_first_digit ip :
  wf_ip4 ip → ∃ c s, IP_String ip = String c s ∧ is_digit c = true.
Proof.
  intros (a & b & c & d & -> & Hall). rewrite IP_String_IPv4 by done.
  apply Forall_cons in Hall as [[Ha Ha'] _].
  pose proof (Itoa_digits a Ha) as Hd. pose proof (Itoa_nonempty a Ha ltac:(done)) as Hne.
  unfold join_dots. destruct (Itoa a) as [|e s]; [done|].
  simpl in Hd. apply andb_true_iff in Hd as [? _]. simpl. eauto.
Qed.

Lemma SplitHostPort_JoinHostPort ip port :
  wf_ip4 ip → (0 ≤ port)%Z →
  SplitHostPort (JoinHostPort (IP_String ip) (Itoa port)) = OK (IP_String ip, Itoa port).
Proof.
  intros Hip Hport. rewrite JoinHostPort_v4 by done. unfold SplitHostPort.
  change (IP_String ip +:+ ":" +:+ Itoa port) with (IP_String ip +:+ String ":" (Itoa port)).
  rewrite last_app_char by (by apply Itoa_no_char).
  destruct (IP_String_first_digit ip Hip) as (c & s & Hs & Hc).
  assert (c ≠ "["%char) as Hc' by (by intros ->).
  replace (match IP_String ip +:+ String ":" (Itoa port) with String "[" _ => _ | _ => _ end)
    with (match Strings.byteIndex (IP_String ip) ":" with
          | Some _ => addrErr (IP_String ip +:+ String ":" (Itoa port)) "too many colons in address"
          | None => OK (IP_String ip, Itoa port)
          end).
  { by rewrite IP_String_no_char. }
  rewrite take_app_length.
  assert (∀ e, is_digit e = false → e ≠ "."%char → e ≠ ":"%char →
    Strings.byteIndex (Strings.drop 0 (IP_String ip +:+ String ":" (Itoa port))) e = None) as Hno.
  { intros e He1 He2 He3. simpl. apply byteIndex_sep_None; [|done|by apply Itoa_no_char].
    by apply IP_String_no_char. }
  rewrite !Hno by done. rewrite drop_app_length. simpl.
  rewrite Hs in *. simpl.
  destruct c as [[] [] [] [] [] [] [] []]; try done.
Qed.

Lemma wf_ip4_addr ip : wf_ip4 ip → wf_addr ip.
Proof. intros (a & b & c & d & -> & Hall). exists [a; b; c; d]. auto. Qed.

Lemma wf_addr_String ip :
  wf_addr ip → ∃ ip', wf_ip4 ip' ∧ IP_String ip = IP_String ip' ∧ ParseIP (IP_String ip) = ip'.
Proof.
  intros (p & Hl & Hb & Hip). exists (IPv4 p).
  assert (wf_ip4 (IPv4 p)) as Hwf.
  { destruct p as [|a [|b [|c [|d []]]]]; try done. by exists a, b, c, d. }
  assert (IP_String ip = IP_String (IPv4 p)) as Heq.
  { destruct Hip as [->| ->]; [|done]. by destruct p as [|a [|b [|c [|d []]]]]. }
  split_and!; [done..|]. rewrite Heq. by apply ParseIP_IP_String.
Qed.

Lemma ParseIP_canonical ip : wf_addr ip → IP_String (ParseIP (IP_String ip)) = IP_String ip.
Proof. intros (ip' & Hwf & Heq & ->)%wf_addr_String. by rewrite Heq. Qed.
End NetFacts.

Section tests.
Import Net.
Example parse_v4 : ParseIP "10.180.0.1" = IPv4 [10; 180; 0; 1]%Z.
Proof. vm_compute. reflexivity. Qed.
Example string_v4 : IP_String (ParseIP "10.180.0.1") = "10.180.0.1".
Proof. vm_compute. reflexivity. Qed.
Example parse_v4_bad :
  ParseIP "10.180.0" = [] ∧ ParseIP "10.180.0.256" = [] ∧ ParseIP "" = [] ∧ ParseIP "None" = [].
Proof. vm_compute. auto. Qed.
Example string_nil : IP_String (ParseIP "None") = "<nil>".
Proof. vm_compute. reflexivity. Qed.
Example v6_roundtrips :
  (λ s, IP_String (ParseIP s)) <$> ["::"; "::1"; "fd00:1::5"; "2001:db8:0:0:1:0:0:1"; "1:2:3:4:5:6:7:8";
    "::ffff:1.2.3.4"; "fe80::1.2.3.4"; "1::"; "1:0:0:2::"] =
    ["::"; "::1"; "fd00:1::5"; "2001:db8::1:0:0:1"; "1:2:3:4:5:6:7:8"; "1.2.3.4"; "fe80::102:304"; "1::"; "1:0:0:2::"].
Proof. vm_compute. reflexivity. Qed.
Example hostport :
  JoinHostPort "fd00:1::5" "9999" = "[fd00:1::5]:9999" ∧
  SplitHostPort "[fd00:1::5]:9999" = OK ("fd00:1::5", "9999") ∧
  SplitHostPort "1.2.3.4:80" = OK ("1.2.3.4", "80") ∧
  SplitHostPort "1.2.3.4" = Err "address 1.2.3.4: missing port in address" ∧
  ParseCIDR "10.0.0.7/24" = OK (IPv4 [10;0;0;7]%Z).
Proof. vm_compute. auto. Qed.
End tests.
