(* ===== verification/GoTime.v ===== *)
(** * Time

    What the program uses of package time: durations and how they print, and
    the difference of two times. *)

From S2P Require Import Prelude GoNet.
From Stdlib Require Import Ascii SpecFloat.

Module GoTime.
(** ** time.Duration *)
Abbreviation Duration := Z (only parsing).         (* int64, nanoseconds *)
Definition Second : Duration := 1000000000.
Definition Minute : Duration := 60 * Second.

(** The [prec] decimals of [v / 10^prec], without trailing zeros, and the
    point before them if there are any. *)
Fixpoint frac_digits (prec : nat) (v : Z) (print : bool) (acc : string) : string :=
  match prec with
  | O => if print then String "." acc else acc
  | S prec =>
      let digit := (v mod 10)%Z in
      let print := print || negb (bool_decide (digit = 0%Z)) in
      frac_digits prec (v / 10) print (if print then Itoa digit +:+ acc else acc)
  end.
Definition fmtFrac (v : Z) (prec : nat) : string := frac_digits prec v false "".

Definition micro : string := String (ascii_of_nat 194) (String (ascii_of_nat 181) "").

Definition Duration_String (d : Duration) : string :=
  let u := Z.abs d in
  let sign := if (d <? 0)%Z then "-" else "" in
  if (u =? 0)%Z then "0s"
  else if (u <? Second)%Z then
    sign +:+
    (if (u <? 1000)%Z then Itoa u +:+ "ns"
     else if (u <? 1000000)%Z then Itoa (u / 1000) +:+ fmtFrac u 3 +:+ micro +:+ "s"
     else Itoa (u / 1000000) +:+ fmtFrac u 6 +:+ "ms")
  else
    let s := (u / Second)%Z in
    let secs := Itoa (s mod 60) +:+ fmtFrac u 9 +:+ "s" in
    let m := (s / 60)%Z in
    let mins := if (0 <? m)%Z then Itoa (m mod 60) +:+ "m" else "" in
    let h := (m / 60)%Z in
    let hours := if (0 <? h)%Z then Itoa h +:+ "h" else "" in
    sign +:+ hours +:+ mins +:+ secs.

(** [time.NewTicker]: only that it panics for a period that is not positive. *)
Definition NewTicker {S} (d : Duration) : M S unit :=
  if (d <=? 0)%Z then panic "non-positive interval for NewTicker" else mret tt.

(** A time, in nanoseconds since the zero [time.Time]; [t.Sub(u)] saturates,
    arithmetic on durations wraps around. *)
Abbreviation Time := Z (only parsing).
Definition max_duration : Duration := 2 ^ 63 - 1.
Definition min_duration : Duration := - 2 ^ 63.
Definition int64 (z : Z) : Z := ((z + 2 ^ 63) mod 2 ^ 64 - 2 ^ 63)%Z.
Definition Sub (t u : Time) : Duration := Z.max min_duration (Z.min max_duration (t - u)).

Lemma Sub_small t u : (0 ≤ t - u ≤ max_duration)%Z → Sub t u = (t - u)%Z.
Proof. unfold Sub, min_duration, max_duration. lia. Qed.
Lemma int64_small z : (min_duration ≤ z ≤ max_duration)%Z → int64 z = z.
Proof. unfold int64, min_duration, max_duration. intros H. rewrite Z.mod_small; lia. Qed.

(** ** float32

    IEEE 754 binary32: 24 bits of precision, exponents below 128, rounded to
    the nearest even. *)
Abbreviation float32 := spec_float.
Definition float32_of (z : Z) : float32 := binary_normalize 24 128 z 0 false.
Definition float32_div : float32 → float32 → float32 := SFdiv 24 128.

(** [float32(time.Second) / float32(d)]: runs per second for one run per [d]. *)
Definition qps (d : Duration) : float32 := float32_div (float32_of Second) (float32_of d).

Example qps_second : qps Second = S754_finite false 8388608 (-23).        (* 1 *)
Proof. reflexivity. Qed.
(** A 30th is not a float32; the nearest one is a little smaller. *)
Example qps_30s : qps (30 * Second) = S754_finite false 8947848 (-28).
Proof. reflexivity. Qed.
Example qps_negative : qps (- Second) = S754_finite true 8388608 (-23).
Proof. reflexivity. Qed.
End GoTime.
