(* ===== verification/ProxyTypes.v ===== *)
(** * Shared data types

    The Kubernetes API objects, restricted to the fields the proxy reads, and
    the names used as map keys ([types.NamespacedName], [proxy.ServicePortName],
    [util.LocalPort]), with decidable equality and countability. *)

From S2P Require Import Prelude GoNet.

(** ** Names *)
Record NamespacedName := { Namespace : string; Name : string }.

Global Instance NamespacedName_eq_dec : EqDecision NamespacedName.
Proof. solve_decision. Defined.
Global Instance NamespacedName_countable : Countable NamespacedName.
Proof.
  apply (inj_countable' (λ n, (Namespace n, Name n))
    (λ p, {| Namespace := p.1; Name := p.2 |})).
  by intros [].
Defined.

Definition NamespacedName_String (n : NamespacedName) : string :=
  Namespace n +:+ "/" +:+ Name n.

(** [ServicePortName] embeds [NamespacedName], whose [String] method it
    inherits: the port is not part of the rendered name. *)
Record ServicePortName := { spn_NamespacedName : NamespacedName; spn_Port : string }.

Global Instance ServicePortName_eq_dec : EqDecision ServicePortName.
Proof. solve_decision. Defined.
Global Instance ServicePortName_countable : Countable ServicePortName.
Proof.
  apply (inj_countable' (λ n, (spn_NamespacedName n, spn_Port n))
    (λ p, {| spn_NamespacedName := p.1; spn_Port := p.2 |})).
  by intros [].
Defined.

Definition ServicePortName_String (n : ServicePortName) : string :=
  NamespacedName_String (spn_NamespacedName n).

(** ** API objects *)
Module Api.
Record ServicePort := {
  sp_Name : string;
  sp_Protocol : string;
  sp_Port : Z;          (* int32 *)
  sp_NodePort : Z;      (* int32 *)
}.

Record Service := {
  svc_Namespace : string;
  svc_Name : string;
  spec_ClusterIP : string;
  spec_Type : string;
  spec_Ports : list ServicePort;
  spec_ExternalIPs : list string;
  spec_SessionAffinity : string;
}.

Record EndpointAddress := { addr_IP : string; addr_NodeName : option string }.
Record EndpointPort := { ep_Name : string; ep_Port : Z (* int32 *) }.
Record EndpointSubset := { Addresses : list EndpointAddress; Ports : list EndpointPort }.
Record Endpoints := {
  eps_Namespace : string;
  eps_Name : string;
  Subsets : list EndpointSubset;
}.

Global Instance ServicePort_eq_dec : EqDecision ServicePort.
Proof. solve_decision. Defined.
Global Instance Service_eq_dec : EqDecision Service.
Proof. solve_decision. Defined.
Global Instance EndpointAddress_eq_dec : EqDecision EndpointAddress.
Proof. solve_decision. Defined.
Global Instance EndpointPort_eq_dec : EqDecision EndpointPort.
Proof. solve_decision. Defined.
Global Instance EndpointSubset_eq_dec : EqDecision EndpointSubset.
Proof. solve_decision. Defined.
Global Instance Endpoints_eq_dec : EqDecision Endpoints.
Proof. solve_decision. Defined.

Definition ServiceTypeExternalName : string := "ExternalName".
Definition ProtocolUDP : string := "UDP".

Definition service_nsn (s : Service) : NamespacedName :=
  {| Namespace := svc_Namespace s; Name := svc_Name s |}.
Definition endpoints_nsn (e : Endpoints) : NamespacedName :=
  {| Namespace := eps_Namespace e; Name := eps_Name e |}.
End Api.

(** [strings.ToLower(string(api.ProtocolUDP))]. *)
Definition lower_udp : string := Strings.ToLower Api.ProtocolUDP.

Example lower_udp_value : lower_udp = "udp".
Proof. reflexivity. Qed.

(** ** Local ports (pkg/proxy/util/ports.go) *)
Record LocalPort := { lp_Desc : string; lp_Ip : string; lp_Port : Z; lp_Protocol : string }.

Global Instance LocalPort_eq_dec : EqDecision LocalPort.
Proof. solve_decision. Defined.
Global Instance LocalPort_countable : Countable LocalPort.
Proof.
  apply (inj_countable' (λ l, (lp_Desc l, lp_Ip l, lp_Port l, lp_Protocol l))
    (λ '(d, i, p, pr), {| lp_Desc := d; lp_Ip := i; lp_Port := p; lp_Protocol := pr |})).
  by intros [].
Defined.
