(* ===== verification/ChangeTracking.v ===== *)
(** * Change tracking

    [ServiceChangeMap] and [EndpointsChangeMap] are the same machine at two
    types: for each namespaced name with pending changes, the map of ports
    last applied ([Previous]) and the one announced now ([Current]). This file
    has the machine, what applying the changes should give ([updated]), and
    the proof that along every history of events the changes lead from what
    was applied to what is announced. *)

From S2P Require Import Prelude GoNet ProxyTypes.

Record Change (V : Type) := {
  Previous : gomap ServicePortName V;
  Current : gomap ServicePortName V;
}.
Arguments Previous {V} _.
Arguments Current {V} _.
Arguments Build_Change {V} _ _.

Global Instance Change_eq_dec `{EqDecision V} : EqDecision (Change V).
Proof. solve_decision. Defined.

Abbreviation Changes V := (gmap NamespacedName (Change V)).

(** [Update] of both change maps: the new items and the returned bool
    ([len(Items) > 0]). The entry is kept while it has something to say:
    [reflect.DeepEqual] of the two maps deletes it. *)
Definition update {Obj V} `{EqDecision V} (toMap : option Obj → gomap ServicePortName V)
    (items : Changes V) (namespacedName : NamespacedName) (previous current : option Obj)
    : Changes V * bool :=
  let prev := match items !! namespacedName with
              | Some change => Previous change
              | None => toMap previous
              end in
  let cur := toMap current in
  let items :=
    if decide (prev = cur) then delete namespacedName items
    else <[namespacedName := {| Previous := prev; Current := cur |}]> items in
  (items, negb (bool_decide (items = ∅))).

Definition nsn_of (k : ServicePortName) : NamespacedName := spn_NamespacedName k.

Section changes.
Context {V : Type}.
Implicit Types (ch : Change V) (items : Changes V) (m : gmap ServicePortName V).

(** The names removed by applying a change: in [Previous], not in [Current]. *)
Definition removed ch (k : ServicePortName) : Prop :=
  is_Some (gm (Previous ch) !! k) ∧ gm (Current ch) !! k = None.

(** A change recorded for [nsn] speaks of ports of [nsn] only. *)
Definition change_wf (nsn : NamespacedName) ch : Prop :=
  (∀ k, is_Some (gm (Previous ch) !! k) → nsn_of k = nsn) ∧
  (∀ k, is_Some (gm (Current ch) !! k) → nsn_of k = nsn).

Definition changes_wf items : Prop := map_Forall change_wf items.

(** Applying one change to one name. *)
Definition updated1 ch (k : ServicePortName) (old : option V) : option V :=
  match gm (Current ch) !! k with
  | Some v => Some v
  | None => match gm (Previous ch) !! k with
            | Some _ => None
            | None => old
            end
  end.

(** What applying all changes is meant to compute, name by name. *)
Definition updated m items (k : ServicePortName) : option V :=
  match items !! nsn_of k with
  | None => m !! k
  | Some ch => updated1 ch k (m !! k)
  end.

Lemma updated1_other nsn ch k old : change_wf nsn ch → nsn_of k ≠ nsn → updated1 ch k old = old.
Proof.
  intros [Hp Hc] Hk. unfold updated1.
  destruct (gm (Current ch) !! k) eqn:Ec; [destruct Hk; apply Hc; eauto|].
  destruct (gm (Previous ch) !! k) eqn:Ep; [destruct Hk; apply Hp; eauto|done].
Qed.

(** Reapplying changes that were not cleared has no further effect. *)
Lemma updated_idemp m m' items :
  (∀ k, m' !! k = updated m items k) → ∀ k, updated m' items k = m' !! k.
Proof.
  intros Hm k. rewrite Hm. unfold updated at 1. unfold updated.
  destruct (items !! nsn_of k) as [ch|] eqn:E; rewrite Hm; unfold updated; rewrite E; [|done].
  unfold updated1. by destruct (gm (Current ch) !! k), (gm (Previous ch) !! k).
Qed.
End changes.

(** ** Where the ports come from

    [P] says of a port where it comes from; a recorded change is never void. *)
Section provenance.
Context {Obj V : Type} `{EqDecision V} (P : ServicePortName → V → Prop).
Context (toMap : option Obj → gomap ServicePortName V).
Implicit Types (m : gmap ServicePortName V) (items : Changes V).

Definition change_from (ch : Change V) : Prop := map_Forall P (gm (Previous ch)) ∧ map_Forall P (gm (Current ch)).
Definition changes_from items : Prop := map_Forall (λ _, change_from) items.
Definition changes_real items : Prop := map_Forall (λ _ ch, Previous ch ≠ Current ch) items.

Lemma update_from items n old o :
  map_Forall P (gm (toMap old)) → map_Forall P (gm (toMap o)) → changes_from items →
  changes_from (update toMap items n old o).1.
Proof.
  intros Hold Ho Hi. unfold update. cbn [fst]. case_decide; [by apply map_Forall_delete|].
  apply map_Forall_insert_2; [|done]. split; cbn [Previous Current]; [|done].
  destruct (items !! n) as [ch|] eqn:E; [|done]. apply (Hi n ch E).
Qed.
Lemma update_real items n old o : changes_real items → changes_real (update toMap items n old o).1.
Proof.
  intros Hi. unfold update. cbn [fst]. case_decide; [by apply map_Forall_delete|]. by apply map_Forall_insert_2.
Qed.
Lemma updated_from m items k v : map_Forall P m → changes_from items → updated m items k = Some v → P k v.
Proof.
  intros Hm Hi. unfold updated, updated1. destruct (items !! nsn_of k) as [ch|] eqn:E; [|apply Hm].
  destruct (Hi _ ch E) as [_ Hc]. destruct (gm (Current ch) !! k) eqn:Ec; [intros [= <-]; by apply Hc|].
  destruct (gm (Previous ch) !! k); [done|apply Hm].
Qed.
End provenance.

(** A loop that applies the changes one at a time, in any order, computes
    [updated] when each round computes [updated1]. *)
Section apply_all.
Context {V St : Type} (mp : St → gmap ServicePortName V)
  (step : St → Change V → T St).
Hypothesis step_spec : ∀ nsn ch st n, change_wf nsn ch →
  ∀ k, mp (step st ch n).1 !! k = updated1 ch k (mp st !! k).

Lemma foldT_updated l st n :
  NoDup l.*1 → Forall (λ e, change_wf e.1 e.2) l →
  ∀ k, mp (foldT step st l.*2 n).1 !! k = updated (mp st) (list_to_map l) k.
Proof using step_spec.
  revert st n. induction l as [|[nsn ch] l IH]; intros st n Hnd Hwf k; [done|].
  apply NoDup_cons in Hnd as [Hn Hnd]. apply Forall_cons in Hwf as [Hch Hwf].
  rewrite fmap_cons.
  destruct (step st ch n) as [st1 n1] eqn:E1. cbn [snd].
  rewrite (foldT_cons _ _ _ _ _ _ _ E1), IH by done.
  assert (∀ k, mp st1 !! k = updated1 ch k (mp st !! k)) as H1.
  { intros k'. by rewrite <-(step_spec nsn ch st n Hch), E1. }
  unfold updated. rewrite list_to_map_cons, H1.
  destruct (decide (nsn_of k = nsn)) as [<-|Hk].
  - rewrite lookup_insert_eq. by rewrite not_elem_of_list_to_map_1.
  - rewrite lookup_insert_ne by done. by rewrite (updated1_other nsn).
Qed.
End apply_all.

(** ** Event histories

    [t_api] is the set of objects the API server has announced; the informer
    calls the handlers with the object it knew before. [tstep] is the coarse
    machine: a sync that nothing interrupts applies the changes and clears
    them. [wstep] below has the two halves of a sync apart. *)

Record tracker (Obj V : Type) := {
  t_map : gmap ServicePortName V;
  t_items : Changes V;
  t_api : gmap NamespacedName Obj;
}.
Arguments t_map {Obj V} _.
Arguments t_items {Obj V} _.
Arguments t_api {Obj V} _.
Arguments Build_tracker {Obj V} _ _ _.

Definition tracker_init {Obj V} : tracker Obj V :=
  {| t_map := ∅; t_items := ∅; t_api := ∅ |}.

Section tracking.
Context {Obj V : Type} `{EqDecision V}.
Context (toMap : option Obj → gomap ServicePortName V) (nsn : Obj → NamespacedName).
Context (apply_changes : gmap ServicePortName V → Changes V → nat → gmap ServicePortName V).

Inductive tstep : tracker Obj V → tracker Obj V → Prop :=
| t_add m items api o :
    api !! nsn o = None →
    tstep {| t_map := m; t_items := items; t_api := api |}
      {| t_map := m; t_items := (update toMap items (nsn o) None (Some o)).1;
         t_api := <[nsn o := o]> api |}
| t_update m items api old o :
    api !! nsn o = Some old →
    tstep {| t_map := m; t_items := items; t_api := api |}
      {| t_map := m; t_items := (update toMap items (nsn o) (Some old) (Some o)).1;
         t_api := <[nsn o := o]> api |}
| t_delete m items api old :
    api !! nsn old = Some old →
    tstep {| t_map := m; t_items := items; t_api := api |}
      {| t_map := m; t_items := (update toMap items (nsn old) (Some old) None).1;
         t_api := delete (nsn old) api |}
| t_sync m items api n :
    tstep {| t_map := m; t_items := items; t_api := api |}
      {| t_map := apply_changes m items n; t_items := ∅; t_api := api |}.

Definition api_wf (api : gmap NamespacedName Obj) : Prop := map_Forall (λ n o, nsn o = n) api.

(** The ports that should be known. *)
Definition desired_ports (api : gmap NamespacedName Obj) (k : ServicePortName) : option V :=
  gm (toMap (api !! nsn_of k)) !! k.

(** The pending changes lead from the objects last applied, [base], to the
    ones announced now. *)
Definition items_track (base api : gmap NamespacedName Obj) (items : Changes V) : Prop :=
  ∀ n, match items !! n with
       | Some ch => Previous ch = toMap (base !! n) ∧ Current ch = toMap (api !! n) ∧
                    Previous ch ≠ Current ch
       | None => toMap (base !! n) = toMap (api !! n)
       end.

Definition tracks (t : tracker Obj V) : Prop :=
  api_wf (t_api t) ∧ ∃ base, api_wf base ∧
    (∀ k, t_map t !! k = desired_ports base k) ∧ items_track base (t_api t) (t_items t).

Hypothesis toMap_nil : toMap None = None.
Hypothesis toMap_nsn : ∀ o k, is_Some (gm (toMap (Some o)) !! k) → nsn_of k = nsn o.
Hypothesis apply_spec : ∀ m items n, changes_wf items →
  ∀ k, apply_changes m items n !! k = updated m items k.

Lemma items_track_empty api : items_track api api ∅.
Proof. intros n. by rewrite lookup_empty. Qed.

Lemma items_track_update base api items n (o : option Obj) :
  items_track base api items →
  items_track base (partial_alter (λ _, o) n api) (update toMap items n (api !! n) o).1.
Proof.
  intros Ht n'. unfold update. simpl.
  destruct (decide (n' = n)) as [->|Hn].
  - rewrite lookup_partial_alter_eq.
    specialize (Ht n). case_decide as Hd.
    + rewrite lookup_delete_eq. destruct (items !! n) as [ch|]; naive_solver congruence.
    + rewrite lookup_insert_eq. simpl. destruct (items !! n) as [ch|]; naive_solver.
  - rewrite lookup_partial_alter_ne by done.
    case_decide; [rewrite lookup_delete_ne by done|rewrite lookup_insert_ne by done]; apply Ht.
Qed.

Lemma items_track_wf base api items :
  api_wf base → api_wf api → items_track base api items → changes_wf items.
Proof using toMap_nil toMap_nsn.
  intros Hb Ha Ht n ch Hch. specialize (Ht n). rewrite Hch in Ht. destruct Ht as (Hp & Hc & _).
  assert (∀ m k, api_wf m → is_Some (gm (toMap (m !! n)) !! k) → nsn_of k = n) as H.
  { intros m k Hm Hk. destruct (m !! n) as [s|] eqn:E.
    - rewrite <-(Hm n s E). by apply toMap_nsn.
    - rewrite toMap_nil in Hk. simpl in Hk. rewrite lookup_empty in Hk. by destruct Hk. }
  split; intros k; [rewrite Hp|rewrite Hc]; by apply H.
Qed.

Lemma tracks_wf t : tracks t → changes_wf (t_items t).
Proof using toMap_nil toMap_nsn. intros (Ha & base & Hb & _ & Ht). by apply (items_track_wf base (t_api t)). Qed.

Lemma tracks_updated t k : tracks t → updated (t_map t) (t_items t) k = desired_ports (t_api t) k.
Proof.
  intros (Ha & base & Hb & Hm & Ht). unfold updated. specialize (Ht (nsn_of k)).
  destruct (t_items t !! nsn_of k) as [ch|].
  - destruct Ht as (Hp & Hc & _). rewrite Hm. unfold updated1, desired_ports. rewrite <-Hp, <-Hc.
    by destruct (gm (Current ch) !! k), (gm (Previous ch) !! k).
  - rewrite Hm. unfold desired_ports. by rewrite Ht.
Qed.

Lemma tstep_tracks t t' : tracks t → tstep t t' → tracks t'.
Proof using apply_spec toMap_nil toMap_nsn.
  intros Htr Hstep. pose proof Htr as (Ha & base & Hb & Hm & Ht).
  destruct Hstep as [m items api o Hn|m items api old o Ho|m items api old Ho|m items api n]; simpl in *.
  - split; [by apply map_Forall_insert_2|]. exists base. split_and!; [done..|].
    pose proof (items_track_update _ _ _ (nsn o) (Some o) Ht) as Hu. by rewrite Hn in Hu.
  - split; [by apply map_Forall_insert_2|]. exists base. split_and!; [done..|].
    pose proof (items_track_update _ _ _ (nsn o) (Some o) Ht) as Hu. by rewrite Ho in Hu.
  - split; [by apply map_Forall_delete|]. exists base. split_and!; [done..|].
    pose proof (items_track_update _ _ _ (nsn old) None Ht) as Hu. by rewrite Ho in Hu.
  - split; [done|]. exists api. split_and!; [done| |apply items_track_empty].
    intros k. simpl. rewrite apply_spec by (by apply (items_track_wf base api)).
    apply (tracks_updated _ k Htr).
Qed.

Lemma reachable_tracks t : rtc tstep tracker_init t → tracks t.
Proof using apply_spec toMap_nil toMap_nsn.
  apply (rtc_ind_r tracks).
  - split; [done|]. exists ∅. split_and!; [done| |apply items_track_empty].
    intros k. unfold desired_ports. by rewrite lookup_empty, toMap_nil.
  - intros y z _ Hstep Htr. by eapply tstep_tracks.
Qed.

Lemma reachable_wf t : rtc tstep tracker_init t → changes_wf (t_items t).
Proof using apply_spec toMap_nil toMap_nsn. intros Ht. by apply tracks_wf, reachable_tracks. Qed.

(** Applying the pending changes of a reachable state gives the announced
    ports. *)
Lemma reachable_apply t n k :
  rtc tstep tracker_init t →
  apply_changes (t_map t) (t_items t) n !! k = desired_ports (t_api t) k.
Proof using apply_spec toMap_nil toMap_nsn.
  intros Ht. rewrite apply_spec by by apply reachable_wf.
  by apply tracks_updated, reachable_tracks.
Qed.
(** *** One step per hold of a lock

    [UpdateServiceMap] and [UpdateEndpointsMap] apply the changes and leave
    them where they are; [syncProxyRules] empties [Items] later, or not at all
    when it returns early. In between the window is open, and what is
    announced then may be cleared without having been applied. The machine
    remembers which objects those are. *)
Record windowed := {
  w_track : tracker Obj V;
  w_open : bool;                      (* applied, and not cleared yet *)
  w_missed : gset NamespacedName;     (* announced while the window was open *)
}.

Definition windowed_init : windowed :=
  {| w_track := tracker_init; w_open := false; w_missed := ∅ |}.

(** A handler records one change: the informer hands it the object it knew
    and the object it knows now. *)
Definition record_change (n : NamespacedName) (o : option Obj) (t : tracker Obj V) : tracker Obj V := {|
  t_map := t_map t;
  t_items := (update toMap (t_items t) n (t_api t !! n) o).1;
  t_api := partial_alter (λ _, o) n (t_api t) |}.

Inductive wstep : windowed → windowed → Prop :=
| w_record t op missed n o :
    (∀ x, o = Some x → nsn x = n) →
    wstep {| w_track := t; w_open := op; w_missed := missed |}
      {| w_track := record_change n o t; w_open := op;
         w_missed := if op then {[n]} ∪ missed else missed |}
| w_apply m items api op missed n :
    wstep {| w_track := {| t_map := m; t_items := items; t_api := api |};
             w_open := op; w_missed := missed |}
      {| w_track := {| t_map := apply_changes m items n; t_items := items; t_api := api |};
         w_open := true; w_missed := missed |}
| w_clear m items api missed :
    wstep {| w_track := {| t_map := m; t_items := items; t_api := api |};
             w_open := true; w_missed := missed |}
      {| w_track := {| t_map := m; t_items := ∅; t_api := api |};
         w_open := false; w_missed := missed |}.

(** What holds of the ports of one object: the pending change leads from what
    is applied to what is announced; while the window is open what is
    announced is applied already. *)
Definition name_tracked (t : tracker Obj V) (op : bool) (n : NamespacedName) : Prop :=
  ∃ base, (∀ k, nsn_of k = n → t_map t !! k = gm (toMap base) !! k) ∧
    if op then
      toMap base = toMap (t_api t !! n) ∧
      ∀ ch, t_items t !! n = Some ch → Current ch = toMap (t_api t !! n)
    else match t_items t !! n with
         | Some ch => Previous ch = toMap base ∧ Current ch = toMap (t_api t !! n)
         | None => toMap base = toMap (t_api t !! n)
         end.

Record wtracks (w : windowed) : Prop := {
  wt_api : api_wf (t_api (w_track w));
  wt_changes : changes_wf (t_items (w_track w));
  wt_names : ∀ n, n ∉ w_missed w → name_tracked (w_track w) (w_open w) n;
}.

Lemma toMap_wf (o : option Obj) n k :
  (∀ x, o = Some x → nsn x = n) → is_Some (gm (toMap o) !! k) → nsn_of k = n.
Proof using toMap_nil toMap_nsn.
  intros Ho Hk. destruct o as [x|].
  - rewrite <-(Ho x eq_refl). by apply toMap_nsn.
  - rewrite toMap_nil in Hk. simpl in Hk. rewrite lookup_empty in Hk. by destruct Hk.
Qed.

Lemma update_wf items n (old o : option Obj) :
  (∀ x, old = Some x → nsn x = n) → (∀ x, o = Some x → nsn x = n) →
  changes_wf items → changes_wf (update toMap items n old o).1.
Proof using toMap_nil toMap_nsn.
  intros Hold Ho Hwf. unfold update. simpl. case_decide; [by apply map_Forall_delete|].
  apply map_Forall_insert_2; [|done]. split; simpl; intros k Hk.
  - revert Hk. destruct (items !! n) as [ch|] eqn:E; intros Hk;
      [by apply (proj1 (Hwf n ch E))|by apply (toMap_wf old n)].
  - by apply (toMap_wf o n).
Qed.

Lemma record_change_other n n' o t op :
  n' ≠ n → name_tracked t op n' → name_tracked (record_change n o t) op n'.
Proof.
  intros Hn (base & Hm & Ht). exists base. split; [done|]. cbn [record_change t_map t_items t_api].
  rewrite lookup_partial_alter_ne by done.
  assert ((update toMap (t_items t) n (t_api t !! n) o).1 !! n' = t_items t !! n') as ->; [|done].
  unfold update. simpl. case_decide; by simplify_map_eq.
Qed.

Lemma record_change_same n o t :
  name_tracked t false n → name_tracked (record_change n o t) false n.
Proof.
  intros (base & Hm & Ht). exists base. split; [done|]. simpl in *.
  rewrite lookup_partial_alter_eq. unfold update. simpl. case_decide as Hd.
  - rewrite lookup_delete_eq. destruct (t_items t !! n) as [ch|]; naive_solver congruence.
  - rewrite lookup_insert_eq. simpl. destruct (t_items t !! n) as [ch|]; naive_solver.
Qed.

Lemma apply_name m items api op n i :
  changes_wf items → name_tracked {| t_map := m; t_items := items; t_api := api |} op n →
  ∀ k, nsn_of k = n → apply_changes m items i !! k = gm (toMap (api !! n)) !! k.
Proof using apply_spec.
  intros Hwf (base & Hm & Ht) k Hk. rewrite apply_spec by done. unfold updated. rewrite Hk.
  simpl in *. destruct (items !! n) as [ch|] eqn:E; rewrite Hm by done.
  - unfold updated1. destruct op.
    + destruct Ht as [-> Hc]. rewrite <-(Hc ch eq_refl).
      by destruct (gm (Current ch) !! k), (gm (Previous ch) !! k).
    + destruct Ht as [<- <-]. by destruct (gm (Current ch) !! k), (gm (Previous ch) !! k).
  - destruct op; [destruct Ht as [Ht _]|]; by rewrite Ht.
Qed.

Lemma wstep_wtracks w w' : wtracks w → wstep w w' → wtracks w'.
Proof using apply_spec toMap_nil toMap_nsn.
  intros [Ha Hwf Hn] Hs. destruct Hs as [t op missed n o Ho|m items api op missed i|m items api missed];
    cbn [w_track w_open w_missed] in *.
  - split; cbn [w_track w_open w_missed].
    + simpl. intros n' x. destruct (decide (n' = n)) as [->|Hne].
      * rewrite lookup_partial_alter_eq. apply Ho.
      * rewrite lookup_partial_alter_ne by done. apply Ha.
    + apply update_wf; [apply Ha|done|done].
    + intros n' Hn'. destruct op.
      * apply record_change_other; [set_solver|apply Hn; set_solver].
      * destruct (decide (n' = n)) as [->|]; [by apply record_change_same, Hn|].
        by apply record_change_other, Hn.
  - split; cbn [w_track w_open w_missed]; [done..|]. intros n Hm.
    exists (api !! n). split; [by eapply apply_name, Hn|]. simpl. split; [done|].
    intros ch Hch. destruct (Hn n Hm) as (base & _ & Ht). simpl in Ht. rewrite Hch in Ht.
    destruct op; [by apply Ht|by destruct Ht].
  - split; cbn [w_track w_open w_missed]; [done..|]. intros n Hm.
    destruct (Hn n Hm) as (base & Hb & Ht). exists base. split; [done|]. simpl in *.
    by rewrite lookup_empty; destruct Ht.
Qed.

Lemma windowed_wtracks w : rtc wstep windowed_init w → wtracks w.
Proof using apply_spec toMap_nil toMap_nsn.
  apply (rtc_ind_r wtracks).
  - split; [done..|]. intros n _. exists None. split; [|done].
    intros k _. by rewrite toMap_nil.
  - intros y z _ Hstep Htr. by eapply wstep_wtracks.
Qed.

(** Applying the pending changes, window open or not, gives the announced
    ports of every object that was not announced in a window. *)
Lemma windowed_apply w n k :
  rtc wstep windowed_init w → nsn_of k ∉ w_missed w →
  apply_changes (t_map (w_track w)) (t_items (w_track w)) n !! k = desired_ports (t_api (w_track w)) k.
Proof using apply_spec toMap_nil toMap_nsn.
  intros Hw Hk. destruct (windowed_wtracks w Hw) as [Ha Hwf Hn].
  destruct w as [[m items api] op missed].
  exact (apply_name m items api op (nsn_of k) n Hwf (Hn _ Hk) k eq_refl).
Qed.

(** A history of whole syncs is one in which no window ever sees an event. *)
Lemma rtc_tstep_windowed t :
  rtc tstep tracker_init t →
  rtc wstep windowed_init {| w_track := t; w_open := false; w_missed := ∅ |}.
Proof using toMap_nil toMap_nsn apply_spec.
  intros Ht. assert (tracks t ∧ rtc wstep windowed_init
    {| w_track := t; w_open := false; w_missed := ∅ |}) as [_ ?]; [|done].
  revert t Ht. apply (rtc_ind_r (λ t, tracks t ∧ _)).
  - split; [by apply reachable_tracks|apply rtc_refl].
  - intros t t' _ Hs [Htr Hw]. split; [by eapply tstep_tracks|].
    pose proof (proj1 Htr) as Ha.
    assert (∀ n o, (∀ x, o = Some x → nsn x = n) →
      rtc wstep windowed_init {| w_track := record_change n o t; w_open := false; w_missed := ∅ |})
      as Hrec.
    { intros n o Ho. eapply rtc_r; [apply Hw|]. by apply (w_record t false ∅). }
    destruct Hs as [m items api o Hn|m items api old o Ho|m items api old Ho|m items api n].
    + specialize (Hrec (nsn o) (Some o)). unfold record_change in Hrec. simpl in Hrec.
      rewrite Hn in Hrec. apply Hrec. by intros x [= ->].
    + specialize (Hrec (nsn o) (Some o)). unfold record_change in Hrec. simpl in Hrec.
      rewrite Ho in Hrec. apply Hrec. by intros x [= ->].
    + specialize (Hrec (nsn old) None). unfold record_change in Hrec. simpl in Hrec.
      rewrite Ho in Hrec. by apply Hrec.
    + eapply rtc_r; [eapply rtc_r; [apply Hw|apply (w_apply _ _ _ _ _ n)]|apply w_clear].
Qed.
End tracking.
Arguments windowed : clear implicits.
Arguments w_track {Obj V} _.
Arguments w_open {Obj V} _.
Arguments w_missed {Obj V} _.
Arguments Build_windowed {Obj V} _ _ _.
