(* ===== verification/Services.v ===== *)
(** * Service bookkeeping (pkg/proxy/util/services.go)

    Change tracking between two syncs ([ServiceChangeMap]) and the map of
    service ports the proxier works from ([ProxyServiceMap]). A nil
    [ProxyServiceMap] is [None]: [reflect.DeepEqual] tells it from an empty
    map. *)

From S2P Require Import Prelude GoNet ProxyTypes ChangeTracking.
Import Api.

Module Services.

Record ServiceInfo := {
  ClusterIP : IP;
  Port : Z;
  Protocol : string;
  NodePort : Z;
  SessionAffinity : bool;
  ExternalIPs : list string;
  OnlyNodeLocalEndpoints : bool;
  healthCheckNodePort : Z;
}.

Global Instance ServiceInfo_eq_dec : EqDecision ServiceInfo.
Proof. solve_decision. Defined.

Abbreviation ProxyServiceMap := (gmap ServicePortName ServiceInfo).

Abbreviation ServiceChange := (Change ServiceInfo).
Abbreviation ServiceChangeMap := (Changes ServiceInfo).

Record UpdateServiceMapResult := {
  HcServices : gmap NamespacedName Z;
  StaleServices : gset string;
}.

(** [make([]string, n)] followed by [copy] is a fresh copy of the slice. *)
Definition NewServiceInfo (serviceName : ServicePortName) (port : ServicePort)
    (service : Service) : ServiceInfo := {|
  ClusterIP := Net.ParseIP (spec_ClusterIP service);
  Port := sp_Port port;
  Protocol := Strings.ToLower (sp_Protocol port);
  NodePort := sp_NodePort port;
  SessionAffinity := bool_decide (spec_SessionAffinity service = "ClientIP");
  ExternalIPs := spec_ExternalIPs service;
  OnlyNodeLocalEndpoints := false;
  healthCheckNodePort := 0;
|}.

Definition IsServiceIPSet (service : Service) : bool :=
  negb (bool_decide (spec_ClusterIP service = "None")) &&
  negb (bool_decide (spec_ClusterIP service = "")).

Definition ShouldSkipService (svcName : NamespacedName) (service : Service) : bool :=
  if negb (IsServiceIPSet service) then true
  else bool_decide (spec_Type service = ServiceTypeExternalName).

Definition servicePortName (svcName : NamespacedName) (p : ServicePort) : ServicePortName :=
  {| spn_NamespacedName := svcName; spn_Port := sp_Name p |}.

Definition serviceToServiceMap (service : option Service)
    : gomap ServicePortName ServiceInfo :=
  match service with
  | None => None
  | Some service =>
      let svcName := service_nsn service in
      if ShouldSkipService svcName service then None
      else Some (foldl (λ serviceMap servicePort,
             let svcPortName := servicePortName svcName servicePort in
             <[svcPortName := NewServiceInfo svcPortName servicePort service]> serviceMap)
           ∅ (spec_Ports service))
  end.

Definition NewServiceChangeMap : ServiceChangeMap := ∅.

(** [(scm *ServiceChangeMap) Update]. *)
Definition Update (scm : ServiceChangeMap) (namespacedName : NamespacedName)
    (previous current : option Service) : ServiceChangeMap * bool :=
  update serviceToServiceMap scm namespacedName previous current.

Section with_order.
Context `{MR : MapRange}.

Definition merge_step (st : ProxyServiceMap * gset string)
    (e : ServicePortName * ServiceInfo) : ProxyServiceMap * gset string :=
  let '(sm, existingPorts) := st in
  let '(svcPortName, info) := e in
  (<[svcPortName := info]> sm, {[spn_Port svcPortName]} ∪ existingPorts).

(** [(sm *ProxyServiceMap) merge]: the updated map and the ports present. *)
Definition merge (sm : ProxyServiceMap) (other : gomap ServicePortName ServiceInfo)
    : T (ProxyServiceMap * gset string) :=
  l ← range (gm other);
  mret (foldl merge_step (sm, ∅) l).

Definition unmerge_step (existingPorts : gset string)
    (st : ProxyServiceMap * gset string) (svcPortName : ServicePortName)
    : ProxyServiceMap * gset string :=
  let '(sm, staleServices) := st in
  if decide (spn_Port svcPortName ∈ existingPorts) then (sm, staleServices)
  else match sm !! svcPortName with
       | Some info =>
           (delete svcPortName sm,
            if decide (Protocol info = lower_udp)
            then {[Net.IP_String (ClusterIP info)]} ∪ staleServices
            else staleServices)
       | None => (sm, staleServices)
       end.

(** [(sm *ProxyServiceMap) unmerge]. *)
Definition unmerge (sm : ProxyServiceMap) (other : gomap ServicePortName ServiceInfo)
    (existingPorts staleServices : gset string) : T (ProxyServiceMap * gset string) :=
  l ← range (gm other);
  mret (foldl (unmerge_step existingPorts) (sm, staleServices) l.*1).

(** One round of the loop of [UpdateServiceMap]. *)
Definition apply_change (st : ProxyServiceMap * gset string) (change : ServiceChange)
    : T (ProxyServiceMap * gset string) :=
  let '(serviceMap, stale) := st in
  '(serviceMap, existingPorts) ← merge serviceMap (Current change);
  unmerge serviceMap (Previous change) existingPorts stale.

Definition hc_step (hc : gmap NamespacedName Z) (e : ServicePortName * ServiceInfo)
    : gmap NamespacedName Z :=
  if decide (healthCheckNodePort e.2 = 0%Z) then hc
  else <[spn_NamespacedName e.1 := uint16 (healthCheckNodePort e.2)]> hc.

(** [UpdateServiceMap]: the changes are applied and left in place. *)
Definition UpdateServiceMap (serviceMap : ProxyServiceMap) (changes : ServiceChangeMap)
    : T (ProxyServiceMap * UpdateServiceMapResult) :=
  items ← range changes;
  '(serviceMap, stale) ← foldT apply_change (serviceMap, ∅) items.*2;
  entries ← range serviceMap;
  mret (serviceMap, {| HcServices := foldl hc_step ∅ entries; StaleServices := stale |}).

End with_order.

(** [BuildServiceMap]: rebuild the whole map from the watcher's list. *)
Definition build_step (newServiceMap : ProxyServiceMap) (service : Service) : ProxyServiceMap :=
  let svcName := service_nsn service in
  if bool_decide (spec_ClusterIP service = "None") || bool_decide (spec_ClusterIP service = "")
  then newServiceMap
  else if bool_decide (spec_Type service = "ExternalName") then newServiceMap
  else foldl (λ m servicePort,
         let serviceName := servicePortName svcName servicePort in
         <[serviceName := NewServiceInfo serviceName servicePort service]> m)
       newServiceMap (spec_Ports service).

Definition BuildServiceMap `{MapRange} (services : list Service)
    (oldServiceMap : ProxyServiceMap) : T (ProxyServiceMap * gset string) :=
  let newServiceMap := foldl build_step ∅ services in
  old ← range oldServiceMap;
  mret (newServiceMap, foldl (λ stale '(name, info),
    match newServiceMap !! name with
    | Some _ => stale
    | None => if decide (Protocol info = lower_udp)
              then {[Net.IP_String (ClusterIP info)]} ∪ stale else stale
    end) ∅ old).

End Services.
