(* ===== verification/ServicesFacts.v ===== *)
(** * Correctness of the service bookkeeping

    [merge] and [unmerge] do not depend on the iteration order; applying the
    pending changes gives the map of the live services, whatever the history
    of add, update and delete events; the incremental map is the one a full
    rebuild computes. *)

From S2P Require Import Prelude GoNet ProxyTypes ChangeTracking Services.
Import Api Services.

(** The UDP cluster IPs whose service port disappears. *)
Definition stale_udp (sm : ProxyServiceMap) (ks : list ServicePortName) (ip : string) : Prop :=
  ∃ k info, k ∈ ks ∧ sm !! k = Some info ∧ Protocol info = lower_udp ∧
    ip = Net.IP_String (ClusterIP info).

Section merge.
Context `{MR : MapRange}.

Lemma foldl_insert_list_to_map {K V} `{Countable K} (l : list (K * V)) (m : gmap K V) :
  NoDup l.*1 →
  foldl (λ m '(k, v), <[k := v]> m) m l = list_to_map l ∪ m.
Proof.
  revert m. induction l as [|[k v] l IH]; intros m Hnd; simpl.
  { by rewrite (left_id_L ∅ (∪)). }
  apply NoDup_cons in Hnd as [Hk Hnd]. rewrite IH by done.
  rewrite <-insert_union_r by (by apply not_elem_of_list_to_map_1).
  by rewrite insert_union_l.
Qed.

Definition port_names (m : ProxyServiceMap) : gset string := set_map spn_Port (dom m).

Lemma elem_of_port_names p m : p ∈ port_names m ↔ ∃ k, is_Some (m !! k) ∧ spn_Port k = p.
Proof.
  unfold port_names. rewrite elem_of_map. setoid_rewrite elem_of_dom. naive_solver.
Qed.

Lemma merge_foldl (l : list (ServicePortName * ServiceInfo)) (sm : ProxyServiceMap) ps :
  foldl merge_step (sm, ps) l =
  (foldl (λ m '(k, v), <[k := v]> m) sm l,
   list_to_set ((spn_Port ∘ fst) <$> l) ∪ ps : gset string).
Proof.
  revert sm ps. induction l as [|[k v] l IH]; intros sm ps; simpl.
  { f_equal. set_solver. }
  rewrite IH. f_equal. set_solver.
Qed.

Lemma merge_spec sm other n :
  merge sm other n = ((gm other ∪ sm, port_names (gm other)), S n).
Proof.
  unfold merge, range, mbind, T_bind, mret, T_ret. f_equal.
  rewrite merge_foldl. f_equal.
  - rewrite foldl_insert_list_to_map by apply NoDup_map_range.
    by rewrite list_to_map_map_range.
  - apply set_eq. intros p. rewrite elem_of_union, elem_of_list_to_set, elem_of_port_names.
    rewrite list_elem_of_fmap. split.
    + intros [([k v] & -> & Hk)|?]; [|set_solver].
      apply elem_of_map_range in Hk. eauto.
    + intros (k & [v Hk] & <-). left. exists (k, v). by rewrite elem_of_map_range.
Qed.
End merge.

Section unmerge.
Context `{MR : MapRange}.

Lemma unmerge_foldl ex ks sm st :
  NoDup ks →
  ∃ st', foldl (unmerge_step ex) (sm, st) ks =
    (filter (λ '(k, _), ¬ (k ∈ ks ∧ spn_Port k ∉ ex)) sm, st') ∧
    ∀ ip, ip ∈ st' ↔ ip ∈ st ∨ stale_udp sm (filter (λ k, spn_Port k ∉ ex) ks) ip.
Proof.
  revert sm st. induction ks as [|k ks IH]; intros sm st Hnd; simpl.
  { exists st. split.
    - f_equal. symmetry. apply map_filter_id. set_solver.
    - unfold stale_udp. set_solver. }
  apply NoDup_cons in Hnd as [Hk Hnd]. cbn [unmerge_step].
  rewrite filter_cons. destruct (decide (spn_Port k ∈ ex)) as [Hin|Hin].
  { rewrite decide_False by tauto. destruct (IH sm st Hnd) as (st' & -> & Hst).
    exists st'. split; [|done]. f_equal.
    apply map_filter_ext. intros k' i _. rewrite elem_of_cons. naive_solver. }
  rewrite decide_True by done.
  destruct (sm !! k) as [info|] eqn:Hsm.
  - set (st1 := if decide _ then _ else _).
    destruct (IH (delete k sm) st1 Hnd) as (st' & -> & Hst).
    exists st'. split.
    + f_equal. apply map_eq. intros k'. apply option_eq. intros i.
      rewrite !map_lookup_filter_Some, lookup_delete_Some, elem_of_cons. naive_solver.
    + intros ip. rewrite Hst. unfold st1, stale_udp.
      setoid_rewrite elem_of_cons. setoid_rewrite list_elem_of_filter.
      setoid_rewrite lookup_delete_Some. case_decide.
      * rewrite elem_of_union, elem_of_singleton. split.
        -- intros [[->|?]|(k' & i & (? & ?) & (? & ?) & ? & ->)]; eauto 10.
        -- intros [?|(k' & i & [->|[??]] & ? & ? & ->)]; [eauto|left; left; naive_solver|].
           right. exists k', i. naive_solver.
      * split.
        -- intros [?|(k' & i & (? & ?) & (? & ?) & ? & ->)]; eauto 10.
        -- intros [?|(k' & i & [->|[??]] & ? & ? & ->)]; [eauto|naive_solver|].
           right. exists k', i. naive_solver.
  - destruct (IH sm st Hnd) as (st' & -> & Hst). exists st'. split.
    + f_equal. apply map_filter_ext. intros k' i Hk'. rewrite elem_of_cons. naive_solver.
    + intros ip. rewrite Hst. unfold stale_udp.
      setoid_rewrite elem_of_cons. setoid_rewrite list_elem_of_filter. naive_solver.
Qed.

Lemma unmerge_spec sm other ex st n :
  ∃ st', unmerge sm other ex st n =
    ((filter (λ '(k, _), ¬ (is_Some (gm other !! k) ∧ spn_Port k ∉ ex)) sm, st'), S n) ∧
    ∀ ip, ip ∈ st' ↔ ip ∈ st ∨ (∃ k info, is_Some (gm other !! k) ∧ (spn_Port k ∉ ex) ∧
      sm !! k = Some info ∧ Protocol info = lower_udp ∧ ip = Net.IP_String (ClusterIP info)).
Proof.
  assert (∀ k, k ∈ (map_range n (gm other)).*1 ↔ is_Some (gm other !! k)) as Hdom.
  { intros k. rewrite list_elem_of_fmap. split.
    - intros ([k' v] & -> & Hk). apply elem_of_map_range in Hk. eauto.
    - intros [v Hk]. exists (k, v). by rewrite elem_of_map_range. }
  unfold unmerge, range, mbind, T_bind, mret, T_ret.
  destruct (unmerge_foldl ex (map_range n (gm other)).*1 sm st) as (st' & -> & Hst).
  { apply NoDup_map_range. }
  exists st'. split.
  - f_equal. f_equal. apply map_filter_ext. intros k i _. by rewrite Hdom.
  - intros ip. rewrite Hst. unfold stale_udp. setoid_rewrite list_elem_of_filter.
    setoid_rewrite Hdom. naive_solver.
Qed.
End unmerge.

Section update.
Context `{MR : MapRange}.

Lemma port_names_wf nsn ch k :
  change_wf nsn ch → is_Some (gm (Previous ch) !! k) →
  spn_Port k ∈ port_names (gm (Current ch)) ↔ is_Some (gm (Current ch) !! k).
Proof.
  intros [Hp Hc] Hk. rewrite elem_of_port_names. split; [|by eauto].
  intros (k' & Hk' & Heq). apply Hp in Hk as Hn. apply Hc in Hk' as Hn'.
  destruct k as [a b], k' as [a' b']; unfold nsn_of in *; simpl in *. by subst.
Qed.

Lemma apply_change_spec nsn ch sm st n :
  change_wf nsn ch →
  ∃ sm' st' n', apply_change (sm, st) ch n = ((sm', st'), n') ∧
    (∀ k, sm' !! k = updated1 ch k (sm !! k)) ∧
    (∀ ip, ip ∈ st' ↔ ip ∈ st ∨ (∃ k info, removed ch k ∧ sm !! k = Some info ∧
       Protocol info = lower_udp ∧ ip = Net.IP_String (ClusterIP info))).
Proof.
  intros Hwf. unfold apply_change, mbind, T_bind. rewrite merge_spec.
  destruct (unmerge_spec (gm (Current ch) ∪ sm) (Previous ch)
    (port_names (gm (Current ch))) st (S n)) as (st' & -> & Hst).
  eexists _, st', _. split; [done|]. split.
  - intros k. unfold updated1. destruct (gm (Previous ch) !! k) as [i|] eqn:Hp.
    + destruct (gm (Current ch) !! k) as [i'|] eqn:Hc.
      * rewrite map_lookup_filter_Some. rewrite lookup_union_Some_raw. split; [auto|].
        rewrite port_names_wf by eauto. naive_solver.
      * rewrite map_lookup_filter_None. right. intros i' _ Hn. apply Hn.
        split; [eauto|]. rewrite port_names_wf by eauto. rewrite Hc. by intros [].
    + apply option_eq. intros i. rewrite map_lookup_filter_Some, lookup_union_Some_raw.
      assert (¬ (is_Some (gm (Previous ch) !! k) ∧
        spn_Port k ∉ port_names (gm (Current ch)))) by (rewrite Hp; by intros [[] _]).
      destruct (gm (Current ch) !! k); naive_solver.
  - intros ip. rewrite Hst. unfold removed. split.
    + intros [?|(k & info & Hp & Hport & Hk & Hu & ->)]; [auto|]. right.
      rewrite port_names_wf in Hport by eauto.
      apply eq_None_not_Some in Hport. exists k, info.
      apply lookup_union_Some_raw in Hk as [Hk|[_ Hk]]; [congruence|done].
    + intros [?|(k & info & (Hp & Hc) & Hk & Hu & ->)]; [auto|]. right.
      exists k, info. rewrite port_names_wf, lookup_union_Some_raw by eauto.
      rewrite Hc. split_and!; auto; by intros [].
Qed.

Lemma apply_change_map nsn ch st n :
  change_wf nsn ch → ∀ k, (apply_change st ch n).1.1 !! k = updated1 ch k (st.1 !! k).
Proof.
  intros Hwf. destruct st as [sm st].
  by destruct (apply_change_spec nsn ch sm st n Hwf) as (sm' & st' & n' & -> & Hk & _).
Qed.

Lemma foldT_apply_stale l sm st n :
  NoDup l.*1 → Forall (λ e, change_wf e.1 e.2) l →
  ∀ ip, ip ∈ (foldT apply_change (sm, st) l.*2 n).1.2 ↔
    ip ∈ st ∨ (∃ e k info, e ∈ l ∧ removed e.2 k ∧ sm !! k = Some info ∧
       Protocol info = lower_udp ∧ ip = Net.IP_String (ClusterIP info)).
Proof.
  revert sm st n. induction l as [|[nsn ch] l IH]; intros sm st n Hnd Hwf ip.
  { split; [auto|]. intros [?|(e & k & info & He & _)]; [done|]. by apply elem_of_nil in He. }
  apply NoDup_cons in Hnd as [Hn Hnd]. apply Forall_cons in Hwf as [Hch Hwf].
  destruct (apply_change_spec nsn ch sm st n Hch) as (sm1 & st1 & n1 & E1 & Hsm1 & Hst1).
  rewrite fmap_cons, (foldT_cons _ _ _ _ _ _ _ E1), IH by done. clear IH E1.
  assert (∀ e k, e ∈ l → removed e.2 k → sm1 !! k = sm !! k) as Hout.
  { intros e k He [Hr _]. rewrite Hsm1. apply (updated1_other nsn); [done|].
    pose proof (proj1 (Forall_forall _ _) Hwf e He) as [Hp _].
    rewrite (Hp k Hr). intros Heq. apply Hn, list_elem_of_fmap. exists e. by rewrite Heq. }
  rewrite Hst1. split.
  - intros [[?|(k & info & Hr & ?)]|(e & k & info & He & Hr & Hk & ?)]; [auto|..].
    + right. exists (nsn, ch), k, info. rewrite elem_of_cons. auto.
    + right. exists e, k, info. rewrite elem_of_cons, <-(Hout e k He Hr). auto.
  - intros [?|(e & k & info & [->|He]%elem_of_cons & Hr & Hk & ?)]; [auto|..].
    + left. right. by exists k, info.
    + right. exists e, k, info. rewrite (Hout e k He Hr). auto.
Qed.

Lemma UpdateServiceMap_spec sm items n :
  changes_wf items →
  ∃ sm' res n', UpdateServiceMap sm items n = ((sm', res), n') ∧
    (∀ k, sm' !! k = updated sm items k) ∧
    (∀ ip, ip ∈ StaleServices res ↔
       ∃ nsn ch k info, items !! nsn = Some ch ∧ removed ch k ∧ sm !! k = Some info ∧
         Protocol info = lower_udp ∧ ip = Net.IP_String (ClusterIP info)).
Proof.
  intros Hwf. unfold UpdateServiceMap, range, mbind, T_bind, mret, T_ret.
  assert (Forall (λ e, change_wf e.1 e.2) (map_range n items)) as Hall.
  { apply Forall_forall. intros [nsn ch] He. by apply Hwf, (elem_of_map_range n). }
  pose proof (foldT_updated fst apply_change apply_change_map _ (sm, ∅) (S n)
    (NoDup_map_range n items) Hall) as Hsm.
  pose proof (foldT_apply_stale _ sm ∅ (S n) (NoDup_map_range n items) Hall) as Hst.
  rewrite list_to_map_map_range in Hsm.
  destruct (foldT apply_change (sm, ∅) (map_range n items).*2 (S n)) as [[sm' st'] n'].
  eexists sm', _, _. split; [done|]. split; [exact Hsm|].
  intros ip. simpl. rewrite Hst. split.
  - intros [?|([nsn ch] & k & info & He & ?)]; [set_solver|].
    apply elem_of_map_range in He. eauto 10.
  - intros (nsn & ch & k & info & He & ?). right. exists (nsn, ch), k, info.
    by rewrite elem_of_map_range.
Qed.

Lemma UpdateServiceMap_map sm items n :
  changes_wf items → ∀ k, (UpdateServiceMap sm items n).1.1 !! k = updated sm items k.
Proof.
  intros Hwf. by destruct (UpdateServiceMap_spec sm items n Hwf) as (? & ? & ? & -> & ? & _).
Qed.
End update.

(** ** The map of a single service *)

Definition port_step (service : Service) (m : ProxyServiceMap) (p : ServicePort) : ProxyServiceMap :=
  <[servicePortName (service_nsn service) p :=
    NewServiceInfo (servicePortName (service_nsn service) p) p service]> m.

Lemma ports_fold_union service ports m :
  foldl (port_step service) m ports = foldl (port_step service) ∅ ports ∪ m.
Proof.
  revert m. induction ports as [|p ports IH]; intros m; simpl.
  { by rewrite (left_id_L ∅ (∪)). }
  rewrite IH, (IH (port_step _ ∅ p)), <-(assoc_L (∪)). f_equal.
  unfold port_step. by rewrite insert_empty, <-insert_union_singleton_l.
Qed.

Lemma ports_fold_nsn service ports m k :
  is_Some (foldl (port_step service) m ports !! k) →
  is_Some (m !! k) ∨ nsn_of k = service_nsn service.
Proof.
  revert m. induction ports as [|p ports IH]; intros m; simpl; [auto|].
  intros [Hk|?]%IH; [|auto]. unfold port_step in Hk.
  apply lookup_insert_is_Some in Hk as [<-|[_ ?]]; auto.
Qed.

Lemma serviceToServiceMap_unfold service :
  serviceToServiceMap (Some service) =
    if ShouldSkipService (service_nsn service) service then None
    else Some (foldl (port_step service) ∅ (spec_Ports service)).
Proof. done. Qed.

Lemma serviceToServiceMap_nsn service k :
  is_Some (gm (serviceToServiceMap (Some service)) !! k) → nsn_of k = service_nsn service.
Proof.
  rewrite serviceToServiceMap_unfold. case_match; simpl.
  - rewrite lookup_empty. by intros [].
  - intros [Hk|?]%ports_fold_nsn; [|done]. rewrite lookup_empty in Hk. by destruct Hk.
Qed.

(** ** Event histories of services *)

Definition svc_step `{MapRange} : tracker Service ServiceInfo → tracker Service ServiceInfo → Prop :=
  tstep serviceToServiceMap service_nsn (λ sm items n, (UpdateServiceMap sm items n).1.1).

Abbreviation desired_services := (desired_ports serviceToServiceMap).

Lemma svc_reachable_wf `{MapRange} t : rtc svc_step tracker_init t → changes_wf (t_items t).
Proof.
  apply reachable_wf; [done|apply serviceToServiceMap_nsn|apply UpdateServiceMap_map].
Qed.

Lemma svc_reachable_apply `{MapRange} t n k :
  rtc svc_step tracker_init t →
  (UpdateServiceMap (t_map t) (t_items t) n).1.1 !! k = desired_services (t_api t) k.
Proof.
  apply (reachable_apply serviceToServiceMap service_nsn
    (λ sm items n, (UpdateServiceMap sm items n).1.1));
    [done|apply serviceToServiceMap_nsn|apply UpdateServiceMap_map].
Qed.

(** The same with the halves of a sync apart: [UpdateServiceMap], and the
    clearing of [serviceChanges]. *)
Definition svc_wstep `{MapRange} : windowed Service ServiceInfo → windowed Service ServiceInfo → Prop :=
  wstep serviceToServiceMap service_nsn (λ sm items n, (UpdateServiceMap sm items n).1.1).

Lemma svc_windowed_apply `{MapRange} w n k :
  rtc svc_wstep windowed_init w → nsn_of k ∉ w_missed w →
  (UpdateServiceMap (t_map (w_track w)) (t_items (w_track w)) n).1.1 !! k =
    desired_services (t_api (w_track w)) k.
Proof.
  apply (windowed_apply serviceToServiceMap service_nsn
    (λ sm items n, (UpdateServiceMap sm items n).1.1));
    [done|apply serviceToServiceMap_nsn|apply UpdateServiceMap_map].
Qed.

(** ** Full rebuild *)

Lemma build_step_unfold m service :
  build_step m service = gm (serviceToServiceMap (Some service)) ∪ m.
Proof.
  unfold build_step. rewrite serviceToServiceMap_unfold.
  unfold ShouldSkipService, IsServiceIPSet, ServiceTypeExternalName.
  repeat case_bool_decide; simpl; rewrite ?(left_id_L ∅ (∪)); try done.
  apply ports_fold_union.
Qed.

Definition api_of (services : list Service) : gmap NamespacedName Service :=
  list_to_map ((λ s, (service_nsn s, s)) <$> services).

Lemma build_foldl services m k :
  NoDup (service_nsn <$> services) →
  foldl build_step m services !! k =
    match gm (serviceToServiceMap (api_of services !! nsn_of k)) !! k with
    | Some info => Some info
    | None => m !! k
    end.
Proof.
  revert m. induction services as [|s services IH]; intros m Hnd; [done|].
  rewrite fmap_cons in Hnd. apply NoDup_cons in Hnd as [Hs Hnd].
  simpl. rewrite IH, build_step_unfold by done. unfold api_of. rewrite fmap_cons, list_to_map_cons.
  fold (api_of services).
  assert (api_of services !! service_nsn s = None) as Hnone.
  { apply not_elem_of_list_to_map_1. by rewrite <-list_fmap_compose. }
  destruct (decide (nsn_of k = service_nsn s)) as [Hk|Hk].
  - rewrite Hk, lookup_insert_eq, Hnone. rewrite lookup_union.
    change (gm (serviceToServiceMap None)) with (∅ : ProxyServiceMap). rewrite lookup_empty.
    by destruct (gm (serviceToServiceMap (Some s)) !! k), (m !! k).
  - rewrite lookup_insert_ne by done.
    destruct (gm (serviceToServiceMap (api_of services !! nsn_of k)) !! k) as [i|]; [done|].
    rewrite lookup_union.
    destruct (gm (serviceToServiceMap (Some s)) !! k) as [i|] eqn:E;
      [|by destruct (m !! k)].
    destruct Hk. apply serviceToServiceMap_nsn. eauto.
Qed.

Lemma BuildServiceMap_spec `{MapRange} services old n k :
  NoDup (service_nsn <$> services) →
  (BuildServiceMap services old n).1.1 !! k = desired_services (api_of services) k.
Proof.
  intros Hnd. unfold BuildServiceMap, range, mbind, T_bind. simpl.
  rewrite build_foldl by done. unfold desired_ports. by destruct (gm _ !! k).
Qed.
