(* ===== verification/ServicesClaims.v ===== *)
(** * Properties of the service bookkeeping

    The theorems of the development about pkg/proxy/util/services.go, each
    with the concrete run that shows its hypotheses can hold. *)

From S2P Require Import Prelude GoNet ProxyTypes ChangeTracking Services ServicesFacts.
Import Api Services.

(** ** Example services *)
Definition ex_port (name proto : string) (port nodePort : Z) : ServicePort :=
  {| sp_Name := name; sp_Protocol := proto; sp_Port := port; sp_NodePort := nodePort |}.

Definition ex_service (name ip : string) (ports : list ServicePort) : Service := {|
  svc_Namespace := "ns1"; svc_Name := name; spec_ClusterIP := ip; spec_Type := "ClusterIP";
  spec_Ports := ports; spec_ExternalIPs := []; spec_SessionAffinity := "None" |}.

Definition ex_web : Service := ex_service "web" "10.20.30.41" [ex_port "p80" "TCP" 80 0].
Definition ex_dns : Service := ex_service "dns" "10.20.30.53" [ex_port "p53" "UDP" 53 0].
Definition ex_web2 : Service :=
  ex_service "web" "10.20.30.41" [ex_port "p80" "TCP" 80 0; ex_port "p443" "TCP" 443 30443].

(** A history: two services appear, one is updated, a sync runs, one goes. *)
Definition ex_history : tracker Service ServiceInfo := {|
  t_map := (@UpdateServiceMap canonical_range ∅
      (Update (Update (Update ∅ (service_nsn ex_web) None (Some ex_web)).1
         (service_nsn ex_dns) None (Some ex_dns)).1
         (service_nsn ex_web) (Some ex_web) (Some ex_web2)).1 0%nat).1.1;
  t_items := (Update ∅ (service_nsn ex_dns) (Some ex_dns) None).1;
  t_api := delete (service_nsn ex_dns) (<[service_nsn ex_web := ex_web2]>
    (<[service_nsn ex_dns := ex_dns]> (<[service_nsn ex_web := ex_web]> ∅))) |}.

Lemma ex_history_reachable : rtc (@svc_step canonical_range) tracker_init ex_history.
Proof.
  eapply rtc_l; [apply t_add with (o := ex_web); reflexivity|].
  eapply rtc_l; [apply t_add with (o := ex_dns); reflexivity|].
  eapply rtc_l; [apply t_update with (old := ex_web) (o := ex_web2); reflexivity|].
  eapply rtc_l; [apply t_sync with (n := 0%nat)|].
  eapply rtc_l; [apply t_delete with (old := ex_dns); reflexivity|].
  apply rtc_refl.
Defined.

(** The same history step by step, with a second sync that is cut in two: the
    dns service comes back between the application of its removal and the
    clearing, so that it is missed. *)
Definition ex_windowed (op : bool) (missed : gset NamespacedName)
    (t : tracker Service ServiceInfo) : windowed Service ServiceInfo :=
  {| w_track := t; w_open := op; w_missed := missed |}.

Definition ex_applied : tracker Service ServiceInfo := {|
  t_map := (@UpdateServiceMap canonical_range (t_map ex_history) (t_items ex_history) 3%nat).1.1;
  t_items := t_items ex_history; t_api := t_api ex_history |}.
Definition ex_back : tracker Service ServiceInfo :=
  record_change serviceToServiceMap (service_nsn ex_dns) (Some ex_dns) ex_applied.
Definition ex_cleared : tracker Service ServiceInfo := {|
  t_map := t_map ex_back; t_items := ∅; t_api := t_api ex_back |}.
Definition ex_missed : windowed Service ServiceInfo :=
  ex_windowed false {[service_nsn ex_dns]} ex_cleared.

Lemma ex_missed_reachable : rtc (@svc_wstep canonical_range) windowed_init ex_missed.
Proof.
  etrans.
  { eapply rtc_tstep_windowed; [done|apply serviceToServiceMap_nsn|apply UpdateServiceMap_map|].
    apply ex_history_reachable. }
  eapply rtc_l; [apply w_apply with (n := 3%nat)|].
  eapply rtc_l; [apply w_record with (n := service_nsn ex_dns) (o := Some ex_dns); by intros x [= ->]|].
  eapply rtc_l; [apply w_clear|].
  unfold ex_missed, ex_windowed. replace ({[service_nsn ex_dns]} ∪ ∅ : gset NamespacedName)
    with ({[service_nsn ex_dns]} : gset NamespacedName) by set_solver.
  apply rtc_refl.
Defined.

(** C6: Take any history in which service adds, updates and deletes are
    recorded one at a time, [UpdateServiceMap] applies the pending changes, and
    [serviceChanges] is cleared by a later step of its own, with records in
    between (what [syncProxyRules] lets happen; when it returns early the
    clearing never comes). Whatever the iteration orders, applying the pending
    changes then gives [serviceMap] exactly the service ports of every object
    the API server announces, and none of an object it does not announce, for
    all objects but those recorded between an [UpdateServiceMap] and the
    clearing that follows it. *)
Theorem service_sync_complete `{MapRange} (w : windowed Service ServiceInfo) (n : nat) :
  rtc svc_wstep windowed_init w →
  ∃ sm res n', UpdateServiceMap (t_map (w_track w)) (t_items (w_track w)) n = ((sm, res), n') ∧
    ∀ k, nsn_of k ∉ w_missed w → sm !! k = desired_services (t_api (w_track w)) k.
Proof.
  intros Hw. pose proof (λ k, svc_windowed_apply w n k Hw) as Hk.
  destruct (UpdateServiceMap _ _ n) as [[sm res] n']. by exists sm, res, n'.
Qed.

(** In [ex_missed] the web service is exact and the dns service is not. *)
Lemma service_sync_complete_witness :
  ∃ sm res n', @UpdateServiceMap canonical_range (t_map ex_cleared) (t_items ex_cleared) 7%nat
      = ((sm, res), n') ∧
    ∀ k, nsn_of k ∉ ({[service_nsn ex_dns]} : gset NamespacedName) →
      sm !! k = desired_services (t_api ex_cleared) k.
Proof.
  exact (@service_sync_complete canonical_range ex_missed 7%nat ex_missed_reachable).
Defined.

Example ex_missed_web :
  (nsn_of (servicePortName (service_nsn ex_web) (ex_port "p443" "TCP" 443 30443))
    ∉ w_missed ex_missed) ∧
  is_Some (desired_services (t_api ex_cleared)
    (servicePortName (service_nsn ex_web) (ex_port "p443" "TCP" 443 30443))).
Proof. split; by_eval. Qed.

Example ex_missed_dns :
  let k := servicePortName (service_nsn ex_dns) (ex_port "p53" "UDP" 53 0) in
  t_map ex_cleared !! k = None ∧ is_Some (desired_services (t_api ex_cleared) k).
Proof. split; by_eval. Qed.

(** C9: [UpdateServiceMap] reports as stale exactly the cluster IPs of the UDP
    service ports that were proxied and that the applied changes remove. *)
Theorem service_stale_exact `{MapRange} (sm : ProxyServiceMap) (items : ServiceChangeMap) (n : nat) :
  changes_wf items →
  ∃ sm' res n', UpdateServiceMap sm items n = ((sm', res), n') ∧
    ∀ ip, ip ∈ StaleServices res ↔
      ∃ nsn ch k info, items !! nsn = Some ch ∧ removed ch k ∧ sm !! k = Some info ∧
        Protocol info = "udp" ∧ ip = Net.IP_String (ClusterIP info).
Proof.
  intros Hwf. destruct (UpdateServiceMap_spec sm items n Hwf) as (sm' & res & n' & E & _ & Hst).
  by exists sm', res, n'.
Qed.

Lemma service_stale_exact_witness :
  "10.20.30.53" ∈ StaleServices
    (@UpdateServiceMap canonical_range (t_map ex_history) (t_items ex_history) 0%nat).1.2.
Proof.
  destruct (@service_stale_exact canonical_range (t_map ex_history) (t_items ex_history) 0%nat)
    as (sm' & res & n' & E & Hst).
  { apply (@svc_reachable_wf canonical_range), ex_history_reachable. }
  rewrite E. apply Hst.
  exists (service_nsn ex_dns), {| Previous := serviceToServiceMap (Some ex_dns); Current := None |},
    (servicePortName (service_nsn ex_dns) (ex_port "p53" "UDP" 53 0)),
    (NewServiceInfo (servicePortName (service_nsn ex_dns) (ex_port "p53" "UDP" 53 0))
       (ex_port "p53" "UDP" 53 0) ex_dns).
  split_and!; [by_eval|unfold removed; by_eval|by_eval..].
Defined.

(** C11: The map maintained incrementally is the one [BuildServiceMap] computes
    from scratch from the list of live services. *)
Theorem incremental_equals_rebuild `{MapRange} (t : tracker Service ServiceInfo) (services : list Service)
    (old : ProxyServiceMap) (n1 n2 : nat) :
  rtc svc_step tracker_init t → NoDup (service_nsn <$> services) → t_api t = api_of services →
  (UpdateServiceMap (t_map t) (t_items t) n1).1.1 = (BuildServiceMap services old n2).1.1.
Proof.
  intros Ht Hnd Hapi. apply map_eq. intros k.
  by rewrite svc_reachable_apply, BuildServiceMap_spec, Hapi.
Qed.

Lemma incremental_equals_rebuild_witness :
  (@UpdateServiceMap canonical_range (t_map ex_history) (t_items ex_history) 0%nat).1.1 =
  (@BuildServiceMap canonical_range [ex_web2] ∅ 3%nat).1.1.
Proof.
  apply (@incremental_equals_rebuild canonical_range ex_history [ex_web2] ∅ 0%nat 3%nat).
  - exact ex_history_reachable.
  - apply NoDup_singleton.
  - by_eval.
Defined.

(** ** Changes applied but not cleared

    [UpdateServiceMap] leaves the changes in place; [syncProxyRules] clears
    them later, and not at all when it returns early. *)
Definition ex_ren (port : string) : Service :=
  ex_service "web" "10.20.30.41" [ex_port port "TCP" 80 0].
Definition ex_leak_items1 : ServiceChangeMap :=
  (Update ∅ (service_nsn ex_web) (Some (ex_ren "a")) (Some (ex_ren "b"))).1.
Definition ex_leak_items2 : ServiceChangeMap :=
  (Update ex_leak_items1 (service_nsn ex_web) (Some (ex_ren "b")) (Some (ex_ren "c"))).1.

Definition ex_change (p1 p2 : string) : ServiceChangeMap :=
  {[service_nsn ex_web := {| Previous := serviceToServiceMap (Some (ex_ren p1));
                             Current := serviceToServiceMap (Some (ex_ren p2)) |}]}.

Lemma ex_change_wf p1 p2 : changes_wf (ex_change p1 p2).
Proof.
  apply map_Forall_singleton. split; intros k Hk; by apply serviceToServiceMap_nsn in Hk.
Qed.

Lemma ex_leak_items_eq : ex_leak_items1 = ex_change "a" "b" ∧ ex_leak_items2 = ex_change "a" "c".
Proof. by_eval. Qed.

(** When a sync applies changes without clearing them and the service
    changes again before the next sync, the port known only to the
    intermediate version stays in [serviceMap] although no live service has
    it. *)
Theorem uncleared_changes_leak `{MapRange} (n1 n2 : nat) :
  let sm0 := gm (serviceToServiceMap (Some (ex_ren "a"))) in
  let sm1 := (UpdateServiceMap sm0 ex_leak_items1 n1).1.1 in
  let sm2 := (UpdateServiceMap sm1 ex_leak_items2 n2).1.1 in
  let kb := servicePortName (service_nsn ex_web) (ex_port "b" "TCP" 80 0) in
  is_Some (sm2 !! kb) ∧ desired_services {[service_nsn ex_web := ex_ren "c"]} kb = None.
Proof.
  intros sm0 sm1 sm2 kb. split; [|vm_compute; reflexivity].
  destruct ex_leak_items_eq as [Hi1 Hi2].
  destruct (UpdateServiceMap_spec sm0 ex_leak_items1 n1) as (sm1' & r1 & n1' & E1 & Hsm1 & _).
  { rewrite Hi1. apply ex_change_wf. }
  destruct (UpdateServiceMap_spec sm1 ex_leak_items2 n2) as (sm2' & r2 & n2' & E2 & Hsm2 & _).
  { rewrite Hi2. apply ex_change_wf. }
  assert (∀ sm, updated sm (ex_change "a" "c") kb = sm !! kb) as Hkeep by (intros; reflexivity).
  unfold sm2. rewrite E2. cbn [fst]. rewrite Hsm2, Hi2, Hkeep.
  unfold sm1. rewrite E1. cbn [fst]. rewrite Hsm1, Hi1. by_eval.
Qed.
