(* ===== verification/EndpointsMap.v ===== *)
(** * Endpoints bookkeeping (pkg/proxy/util/endpoints.go)

    The endpoints of each service port ([ProxyEndpointMap]), the changes
    pending between two syncs, and the detection of stale UDP connections. *)

From S2P Require Import Prelude GoNet ProxyTypes ChangeTracking.
Import Api.

Module Endpoints.

Record EndpointsInfo := { Ip : string; Port : Z; IsLocal : bool }.

Global Instance EndpointsInfo_eq_dec : EqDecision EndpointsInfo.
Proof. solve_decision. Defined.

Abbreviation ProxyEndpointMap := (gmap ServicePortName (list EndpointsInfo)).
Abbreviation EndpointsChange := (Change (list EndpointsInfo)).
Abbreviation EndpointsChangeMap := (Changes (list EndpointsInfo)).

Record EndpointServicePair := { Endpoint : string; pair_ServicePortName : ServicePortName }.

Global Instance EndpointServicePair_eq_dec : EqDecision EndpointServicePair.
Proof. solve_decision. Defined.
Global Instance EndpointServicePair_countable : Countable EndpointServicePair.
Proof.
  apply (inj_countable' (λ p, (Endpoint p, pair_ServicePortName p))
    (λ p, {| Endpoint := p.1; pair_ServicePortName := p.2 |})).
  by intros [].
Defined.

Record UpdateEndpointMapResult := {
  StaleEndpoints : gset EndpointServicePair;
  StaleServiceNames : gset ServicePortName;
}.

(** [addr.NodeName != nil && *addr.NodeName == hostname]. *)
Definition is_local (addr : EndpointAddress) (hostname : string) : bool :=
  match addr_NodeName addr with
  | Some name => bool_decide (name = hostname)
  | None => false
  end.

Definition NewEndpointsInfo (address : EndpointAddress) (port : EndpointPort)
    (hostname : string) : EndpointsInfo :=
  {| Ip := addr_IP address; Port := ep_Port port; IsLocal := is_local address hostname |}.

Definition endpointPortName (e : Endpoints) (port : EndpointPort) : ServicePortName :=
  {| spn_NamespacedName := endpoints_nsn e; spn_Port := ep_Name port |}.

(** The innermost loop of [endpointsToEndpointsMap]: append the addresses of a
    subset to the list of the port; an address with an empty IP is skipped. *)
Definition add_addr (hostname : string) (svcPort : ServicePortName) (port : EndpointPort)
    (m : ProxyEndpointMap) (addr : EndpointAddress) : ProxyEndpointMap :=
  if decide (addr_IP addr = "") then m
  else <[svcPort := default [] (m !! svcPort) ++ [NewEndpointsInfo addr port hostname]]> m.

Definition add_port (hostname : string) (endpoints : Endpoints) (ss : EndpointSubset)
    (m : ProxyEndpointMap) (port : EndpointPort) : ProxyEndpointMap :=
  if decide (ep_Port port = 0%Z) then m
  else foldl (add_addr hostname (endpointPortName endpoints port) port) m (Addresses ss).

Definition endpointsToEndpointsMap (hostname : string) (endpoints : option Endpoints)
    : gomap ServicePortName (list EndpointsInfo) :=
  match endpoints with
  | None => None
  | Some endpoints =>
      Some (foldl (λ m ss, foldl (add_port hostname endpoints ss) m (Ports ss))
        ∅ (Subsets endpoints))
  end.

(** The hostname is kept by the proxier. *)
Definition NewEndpointsChangeMap : EndpointsChangeMap := ∅.

(** [(ecm *EndpointsChangeMap) Update]. *)
Definition Update (hostname : string) (ecm : EndpointsChangeMap)
    (namespacedName : NamespacedName) (previous current : option Endpoints)
    : EndpointsChangeMap * bool :=
  update (endpointsToEndpointsMap hostname) ecm namespacedName previous current.

(** The string naming an endpoint in [EndpointServicePair]. *)
Definition endpoint_string (ep : EndpointsInfo) : string :=
  Net.JoinHostPort (Ip ep) (Itoa (Port ep)).

Abbreviation ep_state := (ProxyEndpointMap * gset EndpointServicePair * gset ServicePortName)%type.

Section with_order.
Context `{MR : MapRange}.

Definition merge (em : ProxyEndpointMap) (other : gomap ServicePortName (list EndpointsInfo))
    : T ProxyEndpointMap :=
  l ← range (gm other);
  mret (foldl (λ em '(svcPort, eps), <[svcPort := eps]> em) em l).

Definition unmerge (em : ProxyEndpointMap) (other : gomap ServicePortName (list EndpointsInfo))
    : T ProxyEndpointMap :=
  l ← range (gm other);
  mret (foldl (λ em '(svcPort, _), delete svcPort em) em l).

(** The endpoints of one service port that the new map no longer has. *)
Definition stale_of (newEndpointsMap : ProxyEndpointMap)
    (stale : gset EndpointServicePair) (e : ServicePortName * list EndpointsInfo)
    : gset EndpointServicePair :=
  let '(svcPortName, epList) := e in
  foldl (λ stale ep,
    if existsb (λ ep', bool_decide (ep' = ep)) (default [] (newEndpointsMap !! svcPortName))
    then stale
    else {[ {| Endpoint := endpoint_string ep; pair_ServicePortName := svcPortName |} ]} ∪ stale)
    stale epList.

Definition revived (oldEndpointsMap : ProxyEndpointMap) (names : gset ServicePortName)
    (e : ServicePortName * list EndpointsInfo) : gset ServicePortName :=
  let '(svcPortName, epList) := e in
  if (0 <? length epList)%nat && (length (default [] (oldEndpointsMap !! svcPortName)) =? 0)%nat
  then {[svcPortName]} ∪ names else names.

Definition detectStaleConnections
    (oldEndpointsMap newEndpointsMap : gomap ServicePortName (list EndpointsInfo))
    (staleEndpoints : gset EndpointServicePair) (staleServiceNames : gset ServicePortName)
    : T (gset EndpointServicePair * gset ServicePortName) :=
  old ← range (gm oldEndpointsMap);
  new ← range (gm newEndpointsMap);
  mret (foldl (stale_of (gm newEndpointsMap)) staleEndpoints old,
        foldl (revived (gm oldEndpointsMap)) staleServiceNames new).

(** One round of the loop of [UpdateEndpointsMap]. *)
Definition apply_change (st : ep_state) (change : EndpointsChange) : T ep_state :=
  let '(endpointsMap, staleEndpoints, staleNames) := st in
  endpointsMap ← unmerge endpointsMap (Previous change);
  endpointsMap ← merge endpointsMap (Current change);
  '(staleEndpoints, staleNames) ←
    detectStaleConnections (Previous change) (Current change) staleEndpoints staleNames;
  mret (endpointsMap, staleEndpoints, staleNames).

(** [UpdateEndpointsMap]: the changes are applied and left in place. *)
Definition UpdateEndpointsMap (endpointsMap : ProxyEndpointMap) (changes : EndpointsChangeMap)
    : T (ProxyEndpointMap * UpdateEndpointMapResult) :=
  items ← range changes;
  '(endpointsMap, staleEndpoints, staleNames) ← foldT apply_change (endpointsMap, ∅, ∅) items.*2;
  mret (endpointsMap, {| StaleEndpoints := staleEndpoints; StaleServiceNames := staleNames |}).

End with_order.

(** [BuildEndPointsMap]: rebuild the map from the watcher's list. A later
    subset with the same port name replaces the list of an earlier one. *)
Definition build_port (hostname : string) (endpoints : Endpoints) (ss : EndpointSubset)
    (m : ProxyEndpointMap) (port : EndpointPort) : ProxyEndpointMap :=
  if decide (ep_Port port = 0%Z) then m
  else <[endpointPortName endpoints port :=
         (λ addr, NewEndpointsInfo addr port hostname) <$>
           filter (λ addr, addr_IP addr ≠ "") (Addresses ss)]> m.

Definition BuildEndPointsMap `{MapRange} (hostname : string) (list_eps : list Endpoints)
    (curMap : ProxyEndpointMap) : T (ProxyEndpointMap * gset EndpointServicePair) :=
  let endpointsMap := foldl (λ m endpoints,
    foldl (λ m ss, foldl (build_port hostname endpoints ss) m (Ports ss)) m (Subsets endpoints))
    ∅ list_eps in
  cur ← range curMap;
  mret (endpointsMap, foldl (stale_of endpointsMap) ∅ cur).

End Endpoints.
