(* ===== verification/EndpointsFacts.v ===== *)
(** * Correctness of the endpoints bookkeeping *)

From S2P Require Import Prelude GoNet ProxyTypes ChangeTracking EndpointsMap.
Import Api Endpoints.

Abbreviation eps_of m k := (default [] ((m : ProxyEndpointMap) !! k)).

(** ** The map of a single Endpoints object *)

(** The endpoints an object lists, in the order of its subsets: every usable
    address of a subset at every usable port of it. *)
Definition listed (hostname : string) (e : Api.Endpoints)
    : list (ServicePortName * EndpointsInfo) :=
  ss ← Subsets e;
  port ← filter (λ port, ep_Port port ≠ 0%Z) (Ports ss);
  addr ← filter (λ addr, addr_IP addr ≠ "") (Addresses ss);
  [(endpointPortName e port, NewEndpointsInfo addr port hostname)].

Definition add_listed (m : ProxyEndpointMap) (e : ServicePortName * EndpointsInfo)
    : ProxyEndpointMap := <[e.1 := eps_of m e.1 ++ [e.2]]> m.

Lemma foldl_bind {A B C} (f : C → B → C) (g : A → list B) (l : list A) (c : C) :
  foldl f c (l ≫= g) = foldl (λ c a, foldl f c (g a)) c l.
Proof.
  revert c. induction l as [|a l IH]; intros c; simpl; [done|]. by rewrite foldl_app, IH.
Qed.

Lemma foldl_filter {A C} (P : A → Prop) `{∀ a, Decision (P a)} (f : C → A → C) l c :
  foldl f c (filter P l) = foldl (λ c a, if decide (P a) then f c a else c) c l.
Proof.
  revert c. induction l as [|a l IH]; intros c; simpl; [done|].
  rewrite filter_cons. case_decide; simpl; apply IH.
Qed.

Lemma foldl_ext {A C} (f g : C → A → C) l c : (∀ c a, f c a = g c a) → foldl f c l = foldl g c l.
Proof. intros Hfg. revert c. induction l as [|a l IH]; intros c; simpl; [done|]. by rewrite Hfg. Qed.

Lemma endpointsToEndpointsMap_listed hostname e :
  endpointsToEndpointsMap hostname (Some e) = Some (foldl add_listed ∅ (listed hostname e)).
Proof.
  unfold endpointsToEndpointsMap, listed. f_equal. rewrite foldl_bind.
  apply foldl_ext. intros m ss. rewrite foldl_bind, foldl_filter.
  apply foldl_ext. intros m' port. unfold add_port.
  destruct (decide (ep_Port port = 0%Z)) as [Hp|Hp].
  { by rewrite decide_False by tauto. }
  rewrite decide_True by done. rewrite foldl_bind, foldl_filter.
  apply foldl_ext. intros m'' addr. unfold add_addr.
  destruct (decide (addr_IP addr = "")) as [Ha|Ha];
    [by rewrite decide_False by tauto|by rewrite decide_True by done].
Qed.

Lemma add_listed_lookup l m k :
  eps_of (foldl add_listed m l) k = eps_of m k ++ (filter (λ e, e.1 = k) l).*2.
Proof.
  revert m. induction l as [|[k' ep] l IH]; intros m; simpl; [by rewrite app_nil_r|].
  rewrite IH. unfold add_listed. simpl. rewrite filter_cons. simpl.
  destruct (decide (k' = k)) as [->|Hk].
  - rewrite lookup_insert_eq. simpl. by rewrite <-(assoc_L (++)).
  - by rewrite lookup_insert_ne.
Qed.

Lemma add_listed_nonempty l (m : ProxyEndpointMap) :
  map_Forall (λ _ eps, eps ≠ []) m → map_Forall (λ _ eps, eps ≠ []) (foldl add_listed m l).
Proof.
  revert m. induction l as [|e l IH]; intros m Hm; simpl; [done|].
  apply IH, map_Forall_insert_2; [|done]. intros Heq. by apply app_eq_nil in Heq as [_ ?].
Qed.

Lemma add_listed_nsn l m k :
  is_Some (foldl add_listed m l !! k) → is_Some (m !! k) ∨ k ∈ l.*1.
Proof.
  revert m. induction l as [|e l IH]; intros m; simpl; [auto|].
  intros [Hk|?]%IH; [|rewrite elem_of_cons; auto].
  unfold add_listed in Hk. apply lookup_insert_is_Some in Hk as [<-|[_ ?]]; [|auto].
  rewrite elem_of_cons. auto.
Qed.

Lemma listed_elem hostname e k ep :
  (k, ep) ∈ listed hostname e ↔
  ∃ ss port addr, ss ∈ Subsets e ∧ port ∈ Ports ss ∧ addr ∈ Addresses ss ∧
    ep_Port port ≠ 0%Z ∧ addr_IP addr ≠ "" ∧
    k = endpointPortName e port ∧ ep = NewEndpointsInfo addr port hostname.
Proof.
  unfold listed. rewrite list_elem_of_bind. setoid_rewrite list_elem_of_bind.
  setoid_rewrite list_elem_of_bind. setoid_rewrite list_elem_of_filter.
  setoid_rewrite list_elem_of_singleton. split.
  - intros (ss & (port & (addr & [= -> ->] & ? & ?) & ? & ?) & ?). eauto 10.
  - intros (ss & port & addr & ? & ? & ? & ? & ? & -> & ->). eauto 10.
Qed.

Lemma endpointsToEndpointsMap_nsn hostname e k :
  is_Some (gm (endpointsToEndpointsMap hostname (Some e)) !! k) → nsn_of k = endpoints_nsn e.
Proof.
  rewrite endpointsToEndpointsMap_listed. intros [Hk|Hk]%add_listed_nsn.
  - rewrite lookup_empty in Hk. by destruct Hk.
  - apply list_elem_of_fmap in Hk as ([k' ep] & -> & Hk). simpl.
    apply listed_elem in Hk as (ss & port & addr & _ & _ & _ & _ & _ & -> & _). done.
Qed.

(** ** Applying changes *)

Section apply.
Context `{MR : MapRange}.

Lemma foldl_insert_lookup (l : list (ServicePortName * list EndpointsInfo)) (em : ProxyEndpointMap) k :
  NoDup l.*1 →
  foldl (λ em '(k, v), <[k := v]> em) em l !! k =
    match (list_to_map l : ProxyEndpointMap) !! k with Some v => Some v | None => em !! k end.
Proof.
  revert em. induction l as [|[k' v] l IH]; intros em Hnd; [done|].
  apply NoDup_cons in Hnd as [Hk Hnd]. cbn [foldl]. rewrite IH by done.
  rewrite list_to_map_cons. destruct (decide (k' = k)) as [->|?].
  - rewrite !lookup_insert_eq. by rewrite not_elem_of_list_to_map_1.
  - by rewrite !lookup_insert_ne.
Qed.

Lemma foldl_delete_lookup (l : list (ServicePortName * list EndpointsInfo)) (em : ProxyEndpointMap) k :
  foldl (λ em '(k, _), delete k em) em l !! k =
    if decide (k ∈ l.*1) then None else em !! k.
Proof.
  revert em. induction l as [|[k' v] l IH]; intros em.
  { rewrite decide_False by apply not_elem_of_nil. done. }
  cbn [foldl]. rewrite IH, fmap_cons. simpl.
  destruct (decide (k ∈ l.*1)) as [Hk|Hk].
  { rewrite decide_True by (by apply elem_of_cons; right). done. }
  destruct (decide (k' = k)) as [->|Hne].
  - rewrite lookup_delete_eq, decide_True; [done|]. by apply elem_of_cons; left.
  - rewrite lookup_delete_ne by done. rewrite decide_False; [done|].
    rewrite elem_of_cons. naive_solver.
Qed.

Lemma merge_lookup em other n k :
  (merge em other n).1 !! k = match gm other !! k with Some v => Some v | None => em !! k end.
Proof.
  unfold merge, range, mbind, T_bind, mret, T_ret. cbn [fst].
  rewrite foldl_insert_lookup by apply NoDup_map_range. by rewrite list_to_map_map_range.
Qed.

Lemma unmerge_lookup em other n k :
  (unmerge em other n).1 !! k = match gm other !! k with Some _ => None | None => em !! k end.
Proof.
  unfold unmerge, range, mbind, T_bind, mret, T_ret. cbn [fst].
  rewrite foldl_delete_lookup. destruct (gm other !! k) as [v|] eqn:E.
  - rewrite decide_True; [done|]. apply list_elem_of_fmap. exists (k, v).
    by rewrite elem_of_map_range.
  - rewrite decide_False; [done|]. intros ([k' v] & -> & Hk)%list_elem_of_fmap.
    apply elem_of_map_range in Hk. simpl in E. congruence.
Qed.

Lemma ep_apply_change_map (nsn : NamespacedName) ch st n :
  change_wf nsn ch → ∀ k, (apply_change st ch n).1.1.1 !! k = updated1 ch k (st.1.1 !! k).
Proof.
  intros _ k. destruct st as [[em se] sn].
  pose proof (unmerge_lookup em (Previous ch) n k) as Hu.
  unfold apply_change, mbind, T_bind.
  destruct (unmerge em (Previous ch) n) as [em1 n1].
  pose proof (merge_lookup em1 (Current ch) n1 k) as Hm.
  destruct (merge em1 (Current ch) n1) as [em2 n2].
  destruct (detectStaleConnections _ _ _ _ n2) as [[se' sn'] n3].
  simpl in *. rewrite Hm, Hu. unfold updated1.
  by destruct (gm (Current ch) !! k), (gm (Previous ch) !! k).
Qed.

Lemma UpdateEndpointsMap_map em items n :
  changes_wf items → ∀ k, (UpdateEndpointsMap em items n).1.1 !! k = updated em items k.
Proof.
  intros Hwf k. unfold UpdateEndpointsMap, range, mbind, T_bind, mret, T_ret.
  pose proof (foldT_updated (λ st : ep_state, st.1.1) apply_change ep_apply_change_map
    (map_range n items) (em, ∅, ∅) (S n)) as Hsm.
  rewrite list_to_map_map_range in Hsm.
  specialize (Hsm (NoDup_map_range n items)).
  destruct (foldT apply_change _ _ _) as [[[em' se] sn] n']. apply Hsm.
  apply Forall_forall. intros [nsn ch] He. by apply Hwf, (elem_of_map_range n).
Qed.
End apply.

(** ** Stale connections *)

(** [pair] names an endpoint of [old] that [new] does not have. *)
Definition is_stale (old new : ProxyEndpointMap) (pair : EndpointServicePair) : Prop :=
  ∃ k ep, ep ∈ eps_of old k ∧ (ep ∉ eps_of new k) ∧
    pair = {| Endpoint := endpoint_string ep; pair_ServicePortName := k |}.

(** [k] goes from no endpoint to some. *)
Definition is_revived (old new : ProxyEndpointMap) (k : ServicePortName) : Prop :=
  eps_of old k = [] ∧ eps_of new k ≠ [].

Lemma stale_of_spec new st k l pair :
  pair ∈ stale_of new st (k, l) ↔ pair ∈ st ∨
    (∃ ep, ep ∈ l ∧ (ep ∉ eps_of new k) ∧
       pair = {| Endpoint := endpoint_string ep; pair_ServicePortName := k |}).
Proof.
  unfold stale_of. revert st. induction l as [|ep l IH]; intros st; simpl.
  { split; [auto|]. intros [?|(ep & H & _)]; [done|]. by apply elem_of_nil in H. }
  rewrite IH. clear IH. setoid_rewrite elem_of_cons.
  destruct (existsb _ _) eqn:Hb.
  - apply existsb_exists in Hb as (ep' & Hin & Heq). apply bool_decide_eq_true_1 in Heq as ->.
    apply list_elem_of_In in Hin. naive_solver.
  - assert (ep ∉ eps_of new k) as Hn.
    { intros Hin%list_elem_of_In. apply not_true_iff_false in Hb. apply Hb, existsb_exists.
      exists ep. by rewrite bool_decide_true. }
    rewrite elem_of_union, elem_of_singleton. naive_solver.
Qed.

Lemma foldl_stale_of new l st pair :
  pair ∈ foldl (stale_of new) st l ↔ pair ∈ st ∨
    (∃ k eps ep, (k, eps) ∈ l ∧ ep ∈ eps ∧ (ep ∉ eps_of new k) ∧
       pair = {| Endpoint := endpoint_string ep; pair_ServicePortName := k |}).
Proof.
  revert st. induction l as [|[k l'] l IH]; intros st; cbn [foldl].
  { split; [auto|]. intros [?|(?&?&?&H&_)]; [done|]. by apply elem_of_nil in H. }
  rewrite IH, stale_of_spec. setoid_rewrite elem_of_cons. split.
  - intros [[?|(ep & ? & ? & ?)]|(k' & eps & ep & ? & ? & ? & ?)]; [auto|..]; right; eauto 10.
  - intros [?|(k' & eps & ep & [[= -> ->]|?] & ? & ? & ?)]; eauto 10.
Qed.

Lemma foldl_revived old l names k :
  k ∈ foldl (revived old) names l ↔ k ∈ names ∨
    (∃ eps, (k, eps) ∈ l ∧ eps ≠ [] ∧ eps_of old k = []).
Proof.
  revert names. induction l as [|[k' eps] l IH]; intros names; cbn [foldl].
  { split; [auto|]. intros [?|(?&H&_)]; [done|]. by apply elem_of_nil in H. }
  rewrite IH. setoid_rewrite elem_of_cons. unfold revived.
  destruct (decide (eps ≠ [] ∧ eps_of old k' = [])) as [[Hne He]|Hn].
  - rewrite He. assert ((0 <? length eps)%nat = true) as -> by (destruct eps; [done|reflexivity]).
    simpl. rewrite elem_of_union, elem_of_singleton. naive_solver.
  - assert ((0 <? length eps)%nat && (length (eps_of old k') =? 0)%nat = false) as ->.
    { apply not_true_iff_false. intros [H1 H2]%andb_true_iff. apply Hn.
      apply Nat.ltb_lt in H1. apply Nat.eqb_eq, length_zero_iff_nil in H2.
      split; [|done]. by intros ->; simpl in H1; lia. }
    naive_solver.
Qed.

Section stale.
Context `{MR : MapRange}.

Lemma detectStaleConnections_spec old new se sn n :
  (∀ pair, pair ∈ (detectStaleConnections old new se sn n).1.1 ↔
     pair ∈ se ∨ is_stale (gm old) (gm new) pair) ∧
  (∀ k, k ∈ (detectStaleConnections old new se sn n).1.2 ↔
     k ∈ sn ∨ is_revived (gm old) (gm new) k).
Proof.
  unfold detectStaleConnections, range, mbind, T_bind, mret, T_ret. simpl. split.
  - intros pair. rewrite foldl_stale_of. unfold is_stale.
    setoid_rewrite elem_of_map_range. f_equiv. split.
    + intros (k & eps & ep & Hk & Hep & Hn & ->). exists k, ep. by rewrite Hk.
    + intros (k & ep & Hep & Hn & ->). destruct (gm old !! k) as [eps|] eqn:E; simpl in Hep.
      * eauto 10.
      * by apply elem_of_nil in Hep.
  - intros k. rewrite foldl_revived. unfold is_revived. setoid_rewrite elem_of_map_range.
    f_equiv. split.
    + intros (eps & -> & ? & ?). done.
    + intros [Hold Hnew]. destruct (gm new !! k) as [eps|]; [by eauto|done].
Qed.

Lemma apply_change_stale em se sn ch n :
  (∀ pair, pair ∈ (apply_change (em, se, sn) ch n).1.1.2 ↔
     pair ∈ se ∨ is_stale (gm (Previous ch)) (gm (Current ch)) pair) ∧
  (∀ k, k ∈ (apply_change (em, se, sn) ch n).1.2 ↔
     k ∈ sn ∨ is_revived (gm (Previous ch)) (gm (Current ch)) k).
Proof.
  unfold apply_change, mbind, T_bind.
  destruct (unmerge em (Previous ch) n) as [em1 n1].
  destruct (merge em1 (Current ch) n1) as [em2 n2].
  pose proof (detectStaleConnections_spec (Previous ch) (Current ch) se sn n2) as [H1 H2].
  by destruct (detectStaleConnections _ _ _ _ n2) as [[se' sn'] n3].
Qed.

Lemma ep_foldT_apply_stale l em se sn n :
  (∀ pair, pair ∈ (foldT apply_change (em, se, sn) l n).1.1.2 ↔
     pair ∈ se ∨ (∃ ch, ch ∈ l ∧ is_stale (gm (Previous ch)) (gm (Current ch)) pair)) ∧
  (∀ k, k ∈ (foldT apply_change (em, se, sn) l n).1.2 ↔
     k ∈ sn ∨ (∃ ch, ch ∈ l ∧ is_revived (gm (Previous ch)) (gm (Current ch)) k)).
Proof.
  revert em se sn n. induction l as [|ch l IH]; intros em se sn n.
  { split; intros x; (split; [auto|]; intros [?|(?&H&_)]; [done|by apply elem_of_nil in H]). }
  pose proof (apply_change_stale em se sn ch n) as [H1 H2].
  destruct (apply_change (em, se, sn) ch n) as [[[em1 se1] sn1] n1] eqn:E.
  rewrite (foldT_cons _ _ _ _ _ _ _ E). destruct (IH em1 se1 sn1 n1) as [IH1 IH2].
  simpl in H1, H2. split.
  - intros pair. rewrite IH1, H1. setoid_rewrite elem_of_cons. clear. naive_solver.
  - intros k. rewrite IH2, H2. setoid_rewrite elem_of_cons. clear. naive_solver.
Qed.

Lemma UpdateEndpointsMap_stale em items n :
  (∀ pair, pair ∈ StaleEndpoints (UpdateEndpointsMap em items n).1.2 ↔
     ∃ nsn ch, items !! nsn = Some ch ∧ is_stale (gm (Previous ch)) (gm (Current ch)) pair) ∧
  (∀ k, k ∈ StaleServiceNames (UpdateEndpointsMap em items n).1.2 ↔
     ∃ nsn ch, items !! nsn = Some ch ∧ is_revived (gm (Previous ch)) (gm (Current ch)) k).
Proof.
  unfold UpdateEndpointsMap, range, mbind, T_bind, mret, T_ret.
  destruct (ep_foldT_apply_stale (map_range n items).*2 em ∅ ∅ (S n)) as [H1 H2].
  assert (∀ ch, ch ∈ (map_range n items).*2 ↔ ∃ nsn, items !! nsn = Some ch) as Hch.
  { intros ch. rewrite list_elem_of_fmap. split.
    - intros ([nsn ch'] & -> & Hin). apply elem_of_map_range in Hin. eauto.
    - intros [nsn Hin]. exists (nsn, ch). by rewrite elem_of_map_range. }
  destruct (foldT apply_change (em, ∅, ∅) _ _) as [[[em' se] sn] n']. simpl in *.
  setoid_rewrite Hch in H1. setoid_rewrite Hch in H2. split.
  - intros pair. rewrite H1. set_solver.
  - intros k. rewrite H2. set_solver.
Qed.
End stale.

(** ** Event histories of endpoints *)

Definition ep_step `{MapRange} (hostname : string)
    : tracker Api.Endpoints (list EndpointsInfo) → tracker Api.Endpoints (list EndpointsInfo) → Prop :=
  tstep (endpointsToEndpointsMap hostname) endpoints_nsn
    (λ em items n, (UpdateEndpointsMap em items n).1.1).

Lemma ep_reachable_wf `{MapRange} hostname t :
  rtc (ep_step hostname) tracker_init t → changes_wf (t_items t).
Proof.
  apply reachable_wf; [done|apply endpointsToEndpointsMap_nsn|apply UpdateEndpointsMap_map].
Qed.

Lemma ep_reachable_apply `{MapRange} hostname t n k :
  rtc (ep_step hostname) tracker_init t →
  (UpdateEndpointsMap (t_map t) (t_items t) n).1.1 !! k =
    desired_ports (endpointsToEndpointsMap hostname) (t_api t) k.
Proof.
  apply (reachable_apply (endpointsToEndpointsMap hostname) endpoints_nsn
    (λ em items n, (UpdateEndpointsMap em items n).1.1));
    [done|apply endpointsToEndpointsMap_nsn|apply UpdateEndpointsMap_map].
Qed.

(** The same with the halves of a sync apart. *)
Definition ep_wstep `{MapRange} (hostname : string)
    : windowed Api.Endpoints (list EndpointsInfo) → windowed Api.Endpoints (list EndpointsInfo) → Prop :=
  wstep (endpointsToEndpointsMap hostname) endpoints_nsn
    (λ em items n, (UpdateEndpointsMap em items n).1.1).

Lemma ep_windowed_apply `{MapRange} hostname w n k :
  rtc (ep_wstep hostname) windowed_init w → nsn_of k ∉ w_missed w →
  (UpdateEndpointsMap (t_map (w_track w)) (t_items (w_track w)) n).1.1 !! k =
    desired_ports (endpointsToEndpointsMap hostname) (t_api (w_track w)) k.
Proof.
  apply (windowed_apply (endpointsToEndpointsMap hostname) endpoints_nsn
    (λ em items n, (UpdateEndpointsMap em items n).1.1));
    [done|apply endpointsToEndpointsMap_nsn|apply UpdateEndpointsMap_map].
Qed.

Lemma desired_endpoints_listed hostname api k ep :
  ep ∈ default [] (desired_ports (endpointsToEndpointsMap hostname) api k) ↔
  ∃ e, api !! nsn_of k = Some e ∧ (k, ep) ∈ listed hostname e.
Proof.
  unfold desired_ports. destruct (api !! nsn_of k) as [e|].
  - rewrite endpointsToEndpointsMap_listed. simpl gm. rewrite add_listed_lookup, lookup_empty.
    simpl. rewrite list_elem_of_fmap. setoid_rewrite list_elem_of_filter. split.
    + intros ([k' ep'] & -> & ? & ?). simpl in *. subst. eauto.
    + intros (e' & [= <-] & ?). by exists (k, ep).
  - simpl. rewrite lookup_empty. simpl. split; [by intros ?%elem_of_nil|naive_solver].
Qed.
