(* ===== verification/EndpointsClaims.v ===== *)
(** * Properties of the endpoints bookkeeping *)

From S2P Require Import Prelude GoNet ProxyTypes ChangeTracking EndpointsMap EndpointsFacts.
Import Api Endpoints.

(** ** Example objects *)
Definition ex_subset (ips : list string) (name : string) (port : Z) : EndpointSubset :=
  {| Addresses := (λ ip, {| addr_IP := ip; addr_NodeName := Some "node1" |}) <$> ips;
     Ports := [{| ep_Name := name; ep_Port := port |}] |}.
Definition ex_eps (name : string) (ss : list EndpointSubset) : Api.Endpoints :=
  {| eps_Namespace := "ns1"; eps_Name := name; Subsets := ss |}.

(** The object of TestClusterIP: two subsets, one port name, two ports. *)
Definition ex_web_eps : Api.Endpoints :=
  ex_eps "web" [ex_subset ["10.180.0.1"] "p80" 80; ex_subset ["10.180.0.2"] "p80" 81].
Definition ex_web_eps2 : Api.Endpoints := ex_eps "web" [ex_subset ["10.180.0.2"] "p80" 81].
Definition ex_web_key : ServicePortName :=
  {| spn_NamespacedName := endpoints_nsn ex_web_eps; spn_Port := "p80" |}.

Definition ex_ep_history : tracker Api.Endpoints (list EndpointsInfo) := {|
  t_map := (@UpdateEndpointsMap canonical_range ∅
    (Update "node1" ∅ (endpoints_nsn ex_web_eps) None (Some ex_web_eps)).1 0%nat).1.1;
  t_items := (Update "node1" ∅ (endpoints_nsn ex_web_eps) (Some ex_web_eps) (Some ex_web_eps2)).1;
  t_api := <[endpoints_nsn ex_web_eps := ex_web_eps2]>
    (<[endpoints_nsn ex_web_eps := ex_web_eps]> ∅) |}.

Lemma ex_ep_history_reachable : rtc (@ep_step canonical_range "node1") tracker_init ex_ep_history.
Proof.
  eapply rtc_l; [apply t_add with (o := ex_web_eps); reflexivity|].
  eapply rtc_l; [apply t_sync with (n := 0%nat)|].
  eapply rtc_l; [apply t_update with (old := ex_web_eps) (o := ex_web_eps2); reflexivity|].
  apply rtc_refl.
Defined.

(** A sync that returned early: the changes are applied and never cleared, and
    another object arrives while the window is open. *)
Definition ex_db_eps : Api.Endpoints := ex_eps "db" [ex_subset ["10.180.0.9"] "p9" 9000].

Definition ex_ep_applied : tracker Api.Endpoints (list EndpointsInfo) := {|
  t_map := (@UpdateEndpointsMap canonical_range (t_map ex_ep_history) (t_items ex_ep_history) 3%nat).1.1;
  t_items := t_items ex_ep_history; t_api := t_api ex_ep_history |}.
Definition ex_ep_open : windowed Api.Endpoints (list EndpointsInfo) := {|
  w_track := record_change (endpointsToEndpointsMap "node1") (endpoints_nsn ex_db_eps)
    (Some ex_db_eps) ex_ep_applied;
  w_open := true; w_missed := {[endpoints_nsn ex_db_eps]} |}.

Lemma ex_ep_open_reachable : rtc (@ep_wstep canonical_range "node1") windowed_init ex_ep_open.
Proof.
  etrans.
  { eapply rtc_tstep_windowed; [done|apply endpointsToEndpointsMap_nsn|apply UpdateEndpointsMap_map|].
    apply ex_ep_history_reachable. }
  eapply rtc_l; [apply w_apply with (n := 3%nat)|].
  eapply rtc_l; [apply w_record with (n := endpoints_nsn ex_db_eps) (o := Some ex_db_eps); by intros x [= ->]|].
  unfold ex_ep_open. replace ({[endpoints_nsn ex_db_eps]} ∪ ∅ : gset NamespacedName)
    with ({[endpoints_nsn ex_db_eps]} : gset NamespacedName) by set_solver.
  apply rtc_refl.
Defined.

(** C7: Take any history in which endpoints adds, updates and deletes are
    recorded one at a time, [UpdateEndpointsMap] applies the pending changes,
    and [endpointsChanges] is cleared by a later step of its own, or never.
    Applying the pending changes then makes the endpoints of every service port
    exactly the usable address/port pairs the announced object lists for that
    port name, over all its subsets, for all objects but those recorded between
    an [UpdateEndpointsMap] and the clearing that follows it. *)
Theorem endpoint_sync_complete `{MapRange} (hostname : string)
    (w : windowed Api.Endpoints (list EndpointsInfo)) (n : nat) :
  rtc (ep_wstep hostname) windowed_init w →
  ∃ em res n', UpdateEndpointsMap (t_map (w_track w)) (t_items (w_track w)) n = ((em, res), n') ∧
    ∀ k ep, nsn_of k ∉ w_missed w → ep ∈ default [] (em !! k) ↔
      ∃ e ss port addr, t_api (w_track w) !! nsn_of k = Some e ∧ ss ∈ Subsets e ∧
        port ∈ Ports ss ∧ addr ∈ Addresses ss ∧ ep_Port port ≠ 0%Z ∧ addr_IP addr ≠ "" ∧
        k = endpointPortName e port ∧ ep = NewEndpointsInfo addr port hostname.
Proof.
  intros Hw. pose proof (λ k, ep_windowed_apply hostname w n k Hw) as Hk.
  destruct (UpdateEndpointsMap _ _ n) as [[em res] n'].
  exists em, res, n'. split; [done|]. intros k ep Hkm. simpl in Hk.
  rewrite (Hk k Hkm), desired_endpoints_listed. setoid_rewrite listed_elem. split.
  - intros (e & He & ss & port & addr & ?). by exists e, ss, port, addr.
  - intros (e & ss & port & addr & He & ?). exists e. split; [done|]. by exists ss, port, addr.
Qed.

Lemma endpoint_sync_complete_witness :
  ∃ em res n', @UpdateEndpointsMap canonical_range (t_map (w_track ex_ep_open))
      (t_items (w_track ex_ep_open)) 4%nat = ((em, res), n') ∧
    ∀ k ep, nsn_of k ∉ ({[endpoints_nsn ex_db_eps]} : gset NamespacedName) →
      ep ∈ default [] (em !! k) ↔
      ∃ e ss port addr, t_api (w_track ex_ep_open) !! nsn_of k = Some e ∧ ss ∈ Subsets e ∧
        port ∈ Ports ss ∧ addr ∈ Addresses ss ∧ ep_Port port ≠ 0%Z ∧ addr_IP addr ≠ "" ∧
        k = endpointPortName e port ∧ ep = NewEndpointsInfo addr port "node1".
Proof.
  exact (@endpoint_sync_complete canonical_range "node1" ex_ep_open 4%nat ex_ep_open_reachable).
Defined.

Example ex_ep_open_web : (nsn_of ex_web_key ∉ w_missed ex_ep_open) ∧
  nsn_of ex_web_key = endpoints_nsn ex_web_eps2.
Proof. split; by_eval. Qed.

(** C10: [UpdateEndpointsMap] reports as stale exactly the endpoints that some
    change removes from their service port (so that their conntrack entries
    can be flushed), and as stale services exactly the ports that go from no
    endpoint to some. *)
Theorem endpoint_stale_exact `{MapRange} (em : ProxyEndpointMap) (items : EndpointsChangeMap) (n : nat) :
  let res := (UpdateEndpointsMap em items n).1.2 in
  (∀ pair, pair ∈ StaleEndpoints res ↔ ∃ nsn ch k ep, items !! nsn = Some ch ∧
     ep ∈ default [] (gm (Previous ch) !! k) ∧ ¬ ep ∈ default [] (gm (Current ch) !! k) ∧
     pair = {| Endpoint := Net.JoinHostPort (Ip ep) (Itoa (Port ep)); pair_ServicePortName := k |}) ∧
  (∀ k, k ∈ StaleServiceNames res ↔ ∃ nsn ch, items !! nsn = Some ch ∧
     default [] (gm (Previous ch) !! k) = [] ∧ default [] (gm (Current ch) !! k) ≠ []).
Proof.
  intros res. destruct (UpdateEndpointsMap_stale em items n) as [H1 H2]. split; [|exact H2].
  intros pair. unfold res. rewrite H1. unfold is_stale, endpoint_string. split.
  - intros (nsn & ch & Hch & k & ep & ?). by exists nsn, ch, k, ep.
  - intros (nsn & ch & k & ep & Hch & ?). exists nsn, ch. split; [done|]. by exists k, ep.
Qed.

Example ex_stale_endpoint :
  StaleEndpoints (@UpdateEndpointsMap canonical_range (t_map ex_ep_history) (t_items ex_ep_history)
    0%nat).1.2 = {[ {| Endpoint := "10.180.0.1:80"; pair_ServicePortName := ex_web_key |} ]}.
Proof. by_eval. Qed.

(** [BuildEndPointsMap] and the incremental path disagree on an object with
    two subsets that share a port name: the rebuild keeps the last subset
    only. *)
Theorem rebuild_drops_subsets `{MapRange} (n : nat) :
  let ep ip port := {| Ip := ip; Port := port; IsLocal := true |} in
  gm (endpointsToEndpointsMap "node1" (Some ex_web_eps)) !! ex_web_key =
    Some [ep "10.180.0.1" 80%Z; ep "10.180.0.2" 81%Z] ∧
  (BuildEndPointsMap "node1" [ex_web_eps] ∅ n).1.1 !! ex_web_key = Some [ep "10.180.0.2" 81%Z].
Proof. split; vm_compute; reflexivity. Qed.
