(* ===== verification/Ipvs.v ===== *)
(** * IPVS interface (pkg/util/ipvs/ipvs.go, the parts shared by all
    implementations)

    The proxy's view of virtual services and real servers, the records of the
    libipvs library, the conversions between them, the Go interface
    [utilipvs.Interface] as a class of operations, and the contract
    ([IpvsSpec]) the proxier relies on: the operations act on a table of
    virtual services and on the addresses bound to the dummy device. *)

From S2P Require Import Prelude GoNet.

(** ** Data *)
Definition DEFAULSCHE : string := "rr".
Definition DEFAULWEIGHT : Z := 1.
Definition ENN_DUMMY : string := "enn-dummy".
Definition IFACE_NOT_FOUND : string := "Link not found".
Definition IFACE_HAS_ADDR : string := "file exists".
Definition IPVS_SERVER_EXISTS : string := "file exists".
Definition DefaultTimeoutSeconds : Z := 180 * 60.
Definition FlagPersistent : Z := 1.
Definition DefaultMask : Z := 4294967295.
Definition AF_INET : Z := 2.
Definition IPPROTO_TCP : Z := 6.
Definition IPPROTO_UDP : Z := 17.

Record Service := {
  ClusterIP : IP;
  Port : Z;
  Protocol : string;
  Scheduler : string;
  SessionAffinity : bool;
}.

Record Server := { srv_Ip : string; srv_Port : Z; srv_Weight : Z }.

(** [libipvs.Service] and [libipvs.Destination]. *)
Record LibService := {
  Address : IP;
  AddressFamily : Z;
  lProtocol : Z;          (* uint16 *)
  lPort : Z;              (* uint16 *)
  SchedName : string;
  Flags : Z;              (* uint32 *)
  Netmask : Z;            (* uint32 *)
  Timeout : Z;            (* uint32 *)
}.

Record LibDestination := {
  dAddress : IP;
  dAddressFamily : Z;
  dPort : Z;              (* uint16 *)
  dWeight : Z;
}.

(** [netlink.Link] (an interface value, possibly nil) and [netlink.Addr]. *)
Record LinkAttrs := { link_Name : string; link_Index : Z }.
Abbreviation Link := (option LinkAttrs).
Record Addr := { addr_ip : IP; addr_mask : list Z; addr_scope : Z }.

Global Instance Service_eq_dec : EqDecision Service.
Proof. solve_decision. Defined.
Global Instance Server_eq_dec : EqDecision Server.
Proof. solve_decision. Defined.
Global Instance LibService_eq_dec : EqDecision LibService.
Proof. solve_decision. Defined.
Global Instance LibDestination_eq_dec : EqDecision LibDestination.
Proof. solve_decision. Defined.
Global Instance LinkAttrs_eq_dec : EqDecision LinkAttrs.
Proof. solve_decision. Defined.
Global Instance Addr_eq_dec : EqDecision Addr.
Proof. solve_decision. Defined.

(** ** Conversions *)
Definition ToProtocolNumber (service : Service) : Z :=
  if decide (Protocol service = "tcp") then IPPROTO_TCP else IPPROTO_UDP.

Definition ToProtocolString (service : LibService) : string :=
  if (lProtocol service =? IPPROTO_TCP)%Z then "tcp"
  else if (lProtocol service =? IPPROTO_UDP)%Z then "udp"
  else "unknow".

Definition toLibService (service : Service) : LibService := {|
  Address := ClusterIP service;
  AddressFamily := AF_INET;
  lProtocol := ToProtocolNumber service;
  lPort := uint16 (Port service);
  SchedName := Scheduler service;
  Flags := if SessionAffinity service then Z.lor 0 FlagPersistent else 0;
  Netmask := if SessionAffinity service then Z.lor 0 DefaultMask else 0;
  Timeout := if SessionAffinity service then DefaultTimeoutSeconds else 0;
|}.

Definition CreateLibIpvsService (service : option Service) : result LibService :=
  match service with
  | None => Err "ipvs service is empty"
  | Some service => OK (toLibService service)
  end.

Definition toLibDestination (dest : Server) : LibDestination := {|
  dAddress := Net.ParseIP (srv_Ip dest);
  dAddressFamily := AF_INET;
  dPort := uint16 (srv_Port dest);
  dWeight := DEFAULWEIGHT;
|}.

Definition CreateLibIpvsServer (dest : option Server) : result LibDestination :=
  match dest with
  | None => Err "ipvs destination is empty"
  | Some dest => OK (toLibDestination dest)
  end.

(** The session affinity of the kernel's service is not read back. *)
Definition toInterService (ipvsSvc : LibService) : Service := {|
  ClusterIP := Address ipvsSvc;
  Port := lPort ipvsSvc;
  Protocol := ToProtocolString ipvsSvc;
  Scheduler := SchedName ipvsSvc;
  SessionAffinity := false;
|}.

Definition CreateInterService (ipvsSvc : option LibService) : result Service :=
  match ipvsSvc with
  | None => Err "ipvs service is empty"
  | Some ipvsSvc => OK (toInterService ipvsSvc)
  end.

Definition CreateInterServer (ipvsDst : option LibDestination) : result Server :=
  match ipvsDst with
  | None => Err "ipvs dst is empty"
  | Some ipvsDst =>
      OK {| srv_Ip := Net.IP_String (dAddress ipvsDst);
            srv_Port := dPort ipvsDst;
            srv_Weight := dWeight ipvsDst |}
  end.

(** ** Keys

    Rules are compared through the rendered address, the port and the
    protocol ([activeServiceKey], [endpointKey] of proxier.go, [ServiceKey],
    [ServiceValue] of the test double). *)
Record activeServiceKey := { key_ip : string; key_port : Z; key_protocol : string }.
Record endpointKey := { ep_ip : string; ep_port : Z }.

Global Instance activeServiceKey_eq_dec : EqDecision activeServiceKey.
Proof. solve_decision. Defined.
Global Instance activeServiceKey_countable : Countable activeServiceKey.
Proof.
  apply (inj_countable' (λ k, (key_ip k, key_port k, key_protocol k))
    (λ '(i, p, pr), {| key_ip := i; key_port := p; key_protocol := pr |})).
  by intros [].
Defined.
Global Instance endpointKey_eq_dec : EqDecision endpointKey.
Proof. solve_decision. Defined.
Global Instance endpointKey_countable : Countable endpointKey.
Proof.
  apply (inj_countable' (λ k, (ep_ip k, ep_port k)) (λ p, {| ep_ip := p.1; ep_port := p.2 |})).
  by intros [].
Defined.

Definition service_key (s : Service) : activeServiceKey :=
  {| key_ip := Net.IP_String (ClusterIP s); key_port := Port s; key_protocol := Protocol s |}.
Definition server_key (s : Server) : endpointKey := {| ep_ip := srv_Ip s; ep_port := srv_Port s |}.
Definition lib_key (s : LibService) : activeServiceKey := service_key (toInterService s).

(** ** The Go interface *)
Class Interface (K : Type) := {
  GetIpvsService : option Service → M K (result LibService);
  ListIpvsService : M K (result (list (option LibService)));
  ListIpvsServer : option LibService → M K (result (list Server));
  AddIpvsService : option Service → M K error;
  DeleteIpvsService : option Service → M K error;
  AddIpvsServer : option Service → option Server → M K error;
  DeleteIpvsServer : option Service → option Server → M K error;
  FlushIpvs : M K error;
  GetDummyLink : M K (result Link);
  AddDummyLink : M K error;
  SetDummyLinkUp : Link → M K error;
  DeleteDummyLink : M K error;
  AddDummyClusterIp : IP → Link → M K error;
  DeleteDummyClusterIp : IP → Link → M K error;
  ListDuumyClusterIp : Link → M K (result (list Addr));
  GetLocalAddresses : string → M K (result (gset string));
}.

(** ** The contract *)

(** Services and servers whose rendering determines them: IPv4 addresses,
    16-bit ports, the two protocols IPVS is programmed with. *)
Definition port_ok (p : Z) : Prop := (0 ≤ p < 65536)%Z.
Definition wf_service (s : Service) : Prop :=
  Net.wf_addr (ClusterIP s) ∧ port_ok (Port s) ∧ (Protocol s = "tcp" ∨ Protocol s = "udp").
Definition wf_server (s : Server) : Prop :=
  (∃ ip, Net.wf_addr ip ∧ srv_Ip s = Net.IP_String ip) ∧ port_ok (srv_Port s).
Definition wf_lib (s : LibService) : Prop := wf_service (toInterService s).

Lemma protocol_roundtrip s :
  Protocol s = "tcp" ∨ Protocol s = "udp" → ToProtocolString (toLibService s) = Protocol s.
Proof.
  unfold ToProtocolString. simpl. unfold ToProtocolNumber. by intros [-> | ->].
Qed.

Lemma toInterService_toLibService s :
  wf_service s → service_key (toInterService (toLibService s)) = service_key s.
Proof.
  intros (_ & Hp & Hproto). unfold service_key. simpl. rewrite uint16_id by done.
  f_equal. by apply protocol_roundtrip.
Qed.

Lemma wf_lib_toLibService s : wf_service s → wf_lib (toLibService s).
Proof.
  intros (Ha & Hp & Hproto). split; [done|]. split; simpl.
  - by rewrite uint16_id.
  - by rewrite protocol_roundtrip.
Qed.

(** The abstract state: virtual services with their real servers, addresses
    bound to the dummy device, the device itself. *)
Record vstate := {
  vs : gmap activeServiceKey (gset endpointKey);
  bound : gset string;
  dummy : option Link;
}.

Lemma vstate_eq a b : vs a = vs b → bound a = bound b → dummy a = dummy b → a = b.
Proof. destruct a, b. simpl. congruence. Qed.

Definition with_vs (f : gmap activeServiceKey (gset endpointKey) → gmap activeServiceKey (gset endpointKey))
    (a : vstate) : vstate := {| vs := f (vs a); bound := bound a; dummy := dummy a |}.
Definition with_bound (f : gset string → gset string) (a : vstate) : vstate :=
  {| vs := vs a; bound := f (bound a); dummy := dummy a |}.

Definition spec_add_service (key : activeServiceKey) : vstate → vstate :=
  with_vs (λ m, match m !! key with Some _ => m | None => <[key := ∅]> m end).
Definition spec_del_service (key : activeServiceKey) : vstate → vstate := with_vs (delete key).
Definition spec_add_server (key : activeServiceKey) (ep : endpointKey) : vstate → vstate :=
  with_vs (alter (λ eps, {[ep]} ∪ eps) key).
Definition spec_del_server (key : activeServiceKey) (ep : endpointKey) : vstate → vstate :=
  with_vs (alter (λ eps, eps ∖ {[ep]}) key).
Definition spec_bind (ip : string) : vstate → vstate := with_bound (λ s, {[ip]} ∪ s).
Definition spec_unbind (ip : string) : vstate → vstate := with_bound (λ s, s ∖ {[ip]}).

(** An implementation is reliable when, from a state satisfying its
    representation invariant, each operation returns, succeeds when its
    precondition holds, and acts on the abstract state as specified. *)
Class IpvsSpec (K : Type) `{Interface K} := {
  rep : K → Prop;
  abs : K → vstate;

  ListIpvsService_spec k : rep k →
    wp ListIpvsService (λ r k', rep k' ∧ abs k' = abs k ∧
      ∃ svcs, r = OK (Some <$> svcs) ∧ Forall wf_lib svcs ∧
        (lib_key <$> svcs) ≡ₚ (map_to_list (vs (abs k))).*1) k;
  ListIpvsServer_spec k svc eps : rep k → wf_lib svc → vs (abs k) !! lib_key svc = Some eps →
    wp (ListIpvsServer (Some svc)) (λ r k', rep k' ∧ abs k' = abs k ∧
      ∃ servers, r = OK servers ∧ list_to_set (server_key <$> servers) = eps) k;
  AddIpvsService_spec k s : rep k → wf_service s →
    wp (AddIpvsService (Some s)) (λ e k', e = None ∧ rep k' ∧
      abs k' = spec_add_service (service_key s) (abs k)) k;
  DeleteIpvsService_spec k s : rep k → wf_service s →
    wp (DeleteIpvsService (Some s)) (λ e k', (is_Some (vs (abs k) !! service_key s) → e = None) ∧
      rep k' ∧ abs k' = spec_del_service (service_key s) (abs k)) k;
  AddIpvsServer_spec k s d eps : rep k → wf_service s → wf_server d →
    vs (abs k) !! service_key s = Some eps → server_key d ∉ eps →
    wp (AddIpvsServer (Some s) (Some d)) (λ e k', e = None ∧ rep k' ∧
      abs k' = spec_add_server (service_key s) (server_key d) (abs k)) k;
  DeleteIpvsServer_spec k s d eps : rep k → wf_service s →
    vs (abs k) !! service_key s = Some eps → server_key d ∈ eps →
    wp (DeleteIpvsServer (Some s) (Some d)) (λ e k', e = None ∧ rep k' ∧
      abs k' = spec_del_server (service_key s) (server_key d) (abs k)) k;
  GetDummyLink_spec k : rep k →
    wp GetDummyLink (λ r k', rep k' ∧ ∃ link, r = OK link ∧
      abs k' = {| vs := vs (abs k); bound := bound (abs k); dummy := Some link |}) k;
  AddDummyClusterIp_spec k ip link : rep k → Net.wf_addr ip → dummy (abs k) = Some link →
    wp (AddDummyClusterIp ip link) (λ e k', e = None ∧ rep k' ∧
      abs k' = spec_bind (Net.IP_String ip) (abs k)) k;
  DeleteDummyClusterIp_spec k ip link : rep k → Net.wf_addr ip → dummy (abs k) = Some link →
    Net.IP_String ip ∈ bound (abs k) →
    wp (DeleteDummyClusterIp ip link) (λ e k', e = None ∧ rep k' ∧
      abs k' = spec_unbind (Net.IP_String ip) (abs k)) k;
  ListDuumyClusterIp_spec k link : rep k → dummy (abs k) = Some link →
    wp (ListDuumyClusterIp link) (λ r k', rep k' ∧ abs k' = abs k ∧
      ∃ addrs, r = OK addrs ∧ Forall (Net.wf_addr ∘ addr_ip) addrs ∧
        ((Net.IP_String ∘ addr_ip) <$> addrs) ≡ₚ elements (bound (abs k))) k;
}.

(** The contract of an implementation whose servers can be added and deleted
    blindly: adding one that is there or deleting one that is not, or naming a
    virtual service that does not exist, changes nothing. *)
Class IpvsRobust (K : Type) `{IpvsSpec K} := {
  AddIpvsServer_total k s d : rep k → wf_service s → wf_server d →
    wp (AddIpvsServer (Some s) (Some d)) (λ _ k', rep k' ∧
      abs k' = spec_add_server (service_key s) (server_key d) (abs k)) k;
  DeleteIpvsServer_total k s d : rep k → wf_service s → wf_server d →
    wp (DeleteIpvsServer (Some s) (Some d)) (λ _ k', rep k' ∧
      abs k' = spec_del_server (service_key s) (server_key d) (abs k)) k;
  servers_wf k key eps e : rep k → vs (abs k) !! key = Some eps → e ∈ eps →
    wf_server {| srv_Ip := ep_ip e; srv_Port := ep_port e; srv_Weight := DEFAULWEIGHT |};
}.
