(* ===== verification/FakeIpvs.v ===== *)
(** * The in-memory IPVS (pkg/util/ipvs/testing/fake.go)

    The test double behind [utilipvs.Interface], and the proof that it meets
    the contract the proxier is verified against. [fake_tick] numbers the
    [range] loops it runs. *)

From S2P Require Import Prelude GoNet Ipvs.

Module Fake.

Record Faker := {
  IpvsMap : gomap activeServiceKey (list endpointKey);
  DummyMap : gomap string Z;
  fake_tick : nat;
}.

Definition NewFake : Faker := {| IpvsMap := Some ∅; DummyMap := Some ∅; fake_tick := 0 |}.

Definition set_IpvsMap (m : gomap activeServiceKey (list endpointKey)) (f : Faker) : Faker :=
  {| IpvsMap := m; DummyMap := DummyMap f; fake_tick := fake_tick f |}.
Definition set_DummyMap (m : gomap string Z) (f : Faker) : Faker :=
  {| IpvsMap := IpvsMap f; DummyMap := m; fake_tick := fake_tick f |}.

(** Assignment to an entry of a map that may be nil. *)
Definition put_ipvs (key : activeServiceKey) (v : list endpointKey) : M Faker unit :=
  f ← get;
  match IpvsMap f with
  | None => panic "assignment to entry in nil map"
  | Some m => modify (set_IpvsMap (Some (<[key := v]> m)))
  end.

Definition put_dummy (key : string) (v : Z) : M Faker unit :=
  f ← get;
  match DummyMap f with
  | None => panic "assignment to entry in nil map"
  | Some m => modify (set_DummyMap (Some (<[key := v]> m)))
  end.

Definition nil_deref {S A} : M S A := panic "invalid memory address or nil pointer dereference".

Section impl.
Context `{MR : MapRange}.

Definition fake_range `{Countable K} {V} (sel : Faker → gomap K V) : M Faker (list (K * V)) := λ f,
  (Ret (map_range (fake_tick f) (gm (sel f))),
   {| IpvsMap := IpvsMap f; DummyMap := DummyMap f; fake_tick := S (fake_tick f) |}).

(** [ToProtocolNumber] of the testing package. *)
Definition fake_ToProtocolNumber (str : string) : Z :=
  if decide (str = "tcp") then IPPROTO_TCP else IPPROTO_UDP.

Definition fake_svc (ip : IP) (protocol : string) (port : Z) : LibService := {|
  Address := ip; AddressFamily := 0; lProtocol := fake_ToProtocolNumber protocol;
  lPort := uint16 port; SchedName := ""; Flags := 0; Netmask := 0; Timeout := 0 |}.

Definition fake_GetIpvsService (service : option Service) : M Faker (result LibService) :=
  match service with
  | None => nil_deref
  | Some service =>
      f ← get;
      match gm (IpvsMap f) !! service_key service with
      | None => mret (Err ("GetIpvsServer fail: service " +:+ Net.IP_String (ClusterIP service) +:+
                  ":" +:+ Itoa (Port service) +:+ " not find in ipvs rule"))
      | Some _ => mret (OK (fake_svc (ClusterIP service) (Protocol service) (Port service)))
      end
  end.

Definition fake_ListIpvsService : M Faker (result (list (option LibService))) :=
  entries ← fake_range IpvsMap;
  mret (OK ((λ '(k, _), Some (fake_svc (Net.ParseIP (key_ip k)) (key_protocol k) (key_port k)))
    <$> entries)).

Definition fake_ListIpvsServer (service : option LibService) : M Faker (result (list Server)) :=
  match CreateInterService service with
  | Err msg => mret (Err ("ListIpvsServer fail: " +:+ msg))
  | OK InterSvc =>
      f ← get;
      match gm (IpvsMap f) !! service_key InterSvc with
      | None => mret (Err ("ListIpvsServer fail: service " +:+ Net.IP_String (ClusterIP InterSvc) +:+
                  ":" +:+ Itoa (Port InterSvc) +:+ " not find in ipvs rule"))
      | Some dsts =>
          mret (OK ((λ dst, {| srv_Ip := ep_ip dst; srv_Port := ep_port dst; srv_Weight := 0 |}) <$> dsts))
      end
  end.

Definition fake_AddIpvsService (service : option Service) : M Faker error :=
  match service with
  | None => mret (Some "AddIpvsService fail: server is nil")
  | Some service =>
      f ← get;
      match gm (IpvsMap f) !! service_key service with
      | Some _ => mret None
      | None => put_ipvs (service_key service) [] ;; mret None
      end
  end.

Definition fake_DeleteIpvsService (service : option Service) : M Faker error :=
  match service with
  | None => mret (Some "DeleteIpvsService fail: server is nil")
  | Some service =>
      modify (λ f, set_IpvsMap (delete (service_key service) <$> IpvsMap f) f) ;; mret None
  end.

Definition fake_AddIpvsServer (service : option Service) (server : option Server) : M Faker error :=
  match service, server with
  | Some service, Some server =>
      f ← get;
      put_ipvs (service_key service)
        (default [] (gm (IpvsMap f) !! service_key service) ++ [server_key server]) ;;
      mret None
  | _, _ => mret (Some "AddIpvsServer fail: server or dest is nil")
  end.

(** The first index of [dst], as the search loop finds it. *)
Definition fake_target (dst : endpointKey) (dsts : list endpointKey) : option nat :=
  fst <$> list_find (λ d, d = dst) dsts.

Definition fake_DeleteIpvsServer (service : option Service) (server : option Server) : M Faker error :=
  match service, server with
  | Some service, Some server =>
      f ← get;
      match gm (IpvsMap f) !! service_key service with
      | None => mret (Some ("DeleteIpvsServer fail: service " +:+ Net.IP_String (ClusterIP service) +:+
                  ":" +:+ Itoa (Port service) +:+ " not find in ipvs rule"))
      | Some dsts =>
          match fake_target (server_key server) dsts with
          | None => mret (Some ("DeleteIpvsServer fail: dst " +:+ srv_Ip server +:+ ":" +:+
                      Itoa (srv_Port server) +:+ " not find in service " +:+
                      Net.IP_String (ClusterIP service) +:+ ":" +:+ Itoa (Port service)))
          | Some target =>
              put_ipvs (service_key service) (take target dsts ++ drop (target + 1) dsts) ;;
              mret None
          end
      end
  | _, _ => mret (Some "DeleteIpvsServer fail: server or dest is nil")
  end.

Definition fake_FlushIpvs : M Faker error := modify (set_IpvsMap None) ;; mret None.
Definition fake_GetDummyLink : M Faker (result Link) := mret (OK None).
Definition fake_AddDummyLink : M Faker error := mret None.
Definition fake_SetDummyLinkUp (link : Link) : M Faker error := mret None.
Definition fake_DeleteDummyLink : M Faker error := modify (set_DummyMap None) ;; mret None.
Definition fake_AddDummyClusterIp (clusterIP : IP) (link : Link) : M Faker error :=
  put_dummy (Net.IP_String clusterIP) 1 ;; mret None.
Definition fake_DeleteDummyClusterIp (clusterIP : IP) (link : Link) : M Faker error :=
  modify (λ f, set_DummyMap (delete (Net.IP_String clusterIP) <$> DummyMap f) f) ;; mret None.

Definition RT_SCOPE_LINK : Z := 253.

Definition fake_ListDuumyClusterIp (link : Link) : M Faker (result (list Addr)) :=
  entries ← fake_range DummyMap;
  mret (OK ((λ '(k, _), {| addr_ip := Net.ParseIP k; addr_mask := [255; 255; 255; 255]%Z;
                           addr_scope := RT_SCOPE_LINK |}) <$> entries)).
Definition fake_GetLocalAddresses (Dev : string) : M Faker (result (gset string)) := mret (OK ∅).

#[export] Instance fake_Interface : Interface Faker := {|
  GetIpvsService := fake_GetIpvsService;
  ListIpvsService := fake_ListIpvsService;
  ListIpvsServer := fake_ListIpvsServer;
  AddIpvsService := fake_AddIpvsService;
  DeleteIpvsService := fake_DeleteIpvsService;
  AddIpvsServer := fake_AddIpvsServer;
  DeleteIpvsServer := fake_DeleteIpvsServer;
  FlushIpvs := fake_FlushIpvs;
  GetDummyLink := fake_GetDummyLink;
  AddDummyLink := fake_AddDummyLink;
  SetDummyLinkUp := fake_SetDummyLinkUp;
  DeleteDummyLink := fake_DeleteDummyLink;
  AddDummyClusterIp := fake_AddDummyClusterIp;
  DeleteDummyClusterIp := fake_DeleteDummyClusterIp;
  ListDuumyClusterIp := fake_ListDuumyClusterIp;
  GetLocalAddresses := fake_GetLocalAddresses;
|}.

(** ** The contract holds *)

Definition key_ok (k : activeServiceKey) : Prop := ∃ s, wf_service s ∧ service_key s = k.
Definition addr_ok (ip : string) : Prop := ∃ a, Net.wf_addr a ∧ Net.IP_String a = ip.

Definition fake_rep (f : Faker) : Prop :=
  ∃ m d, IpvsMap f = Some m ∧ DummyMap f = Some d ∧
    map_Forall (λ k dsts, key_ok k ∧ NoDup dsts) m ∧ map_Forall (λ ip _, addr_ok ip) d.

Definition fake_abs (f : Faker) : vstate := {|
  vs := list_to_set <$> gm (IpvsMap f);
  bound := dom (gm (DummyMap f));
  dummy := Some None;
|}.

Lemma fake_svc_key k :
  key_ok k →
  let s := fake_svc (Net.ParseIP (key_ip k)) (key_protocol k) (key_port k) in
  wf_lib s ∧ lib_key s = k.
Proof.
  intros (s & (Ha & Hp & Hproto) & <-). simpl.
  assert (ToProtocolString (fake_svc (Net.ParseIP (Net.IP_String (ClusterIP s))) (Protocol s) (Port s))
    = Protocol s) as Hts.
  { unfold ToProtocolString, fake_svc, fake_ToProtocolNumber. simpl. by destruct Hproto as [-> | ->]. }
  split.
  - split_and!; simpl.
    + destruct (NetFacts.wf_addr_String _ Ha) as (ip' & Hip & _ & ->). by apply NetFacts.wf_ip4_addr.
    + by rewrite uint16_id.
    + by rewrite Hts.
  - unfold lib_key, service_key. simpl. rewrite Hts, uint16_id by done.
    by rewrite NetFacts.ParseIP_canonical.
Qed.

Lemma fake_abs_lookup f key :
  vs (fake_abs f) !! key = list_to_set <$> (gm (IpvsMap f) !! key).
Proof. apply lookup_fmap. Qed.

Lemma wf_service_key_ok s : wf_service s → key_ok (service_key s).
Proof. intros ?. by exists s. Qed.

Lemma fake_ListIpvsService_spec f : fake_rep f →
  wp fake_ListIpvsService (λ r f', fake_rep f' ∧ fake_abs f' = fake_abs f ∧
    ∃ svcs, r = OK (Some <$> svcs) ∧ Forall wf_lib svcs ∧
      (lib_key <$> svcs) ≡ₚ (map_to_list (vs (fake_abs f))).*1) f.
Proof.
  intros (m & d & Hm & Hd & Hkeys & Hips). apply wp_bind. unfold wp, fake_range.
  split; [by exists m, d|]. split; [done|].
  set (l := map_range (fake_tick f) (gm (IpvsMap f))).
  assert (∀ k v, (k, v) ∈ l → key_ok k) as Hok.
  { intros k v Hin. apply elem_of_map_range in Hin. rewrite Hm in Hin.
    apply (Hkeys _ _ Hin). }
  exists ((λ e, fake_svc (Net.ParseIP (key_ip e.1)) (key_protocol e.1) (key_port e.1)) <$> l).
  split_and!.
  - f_equal. rewrite <-list_fmap_compose. apply list_fmap_ext. by intros ? [].
  - apply Forall_fmap, Forall_forall. intros [k v] Hin. by apply (fake_svc_key k), (Hok k v).
  - rewrite <-list_fmap_compose.
    assert (lib_key ∘ _ <$> l = l.*1) as ->.
    { apply list_fmap_ext. intros i [k v] Hi.
      apply (fake_svc_key k), (Hok k v). by eapply list_elem_of_lookup_2. }
    unfold l. rewrite map_range_perm. simpl. rewrite map_to_list_fmap, <-list_fmap_compose.
    done.
Qed.

Lemma fake_ListIpvsServer_spec f svc eps :
  fake_rep f → wf_lib svc → vs (fake_abs f) !! lib_key svc = Some eps →
  wp (fake_ListIpvsServer (Some svc)) (λ r f', fake_rep f' ∧ fake_abs f' = fake_abs f ∧
    ∃ servers, r = OK servers ∧ list_to_set (server_key <$> servers) = eps) f.
Proof.
  intros Hrep _ Hl. rewrite fake_abs_lookup in Hl. apply fmap_Some in Hl as (dsts & Hl & ->).
  unfold fake_ListIpvsServer. simpl. apply wp_bind, wp_get.
  unfold lib_key in Hl. rewrite Hl. apply wp_ret. split; [done|]. split; [done|].
  eexists. split; [done|]. f_equal. rewrite <-list_fmap_compose.
  rewrite <-(list_fmap_id dsts) at 2. apply list_fmap_ext. by intros ? [].
Qed.

Lemma fake_AddIpvsService_spec f s : fake_rep f → wf_service s →
  wp (fake_AddIpvsService (Some s)) (λ e f', e = None ∧ fake_rep f' ∧
    fake_abs f' = spec_add_service (service_key s) (fake_abs f)) f.
Proof.
  intros (m & d & Hm & Hd & Hkeys & Hips) Hs. unfold fake_AddIpvsService. apply wp_bind, wp_get.
  unfold spec_add_service, with_vs. rewrite fake_abs_lookup, Hm, gm_Some.
  destruct (m !! service_key s) as [dsts|] eqn:E; cbn [fmap option_fmap option_map].
  - apply wp_ret. split; [done|]. split; [by exists m, d|done].
  - apply wp_bind. unfold put_ipvs. apply wp_bind, wp_get. rewrite Hm. apply wp_modify, wp_ret.
    split; [done|]. split.
    + exists (<[service_key s := []]> m), d. split_and!; [done..| |done].
      apply map_Forall_insert_2; [|done]. split; [by exists s|constructor].
    + unfold fake_abs. simpl. rewrite Hm. simpl. by rewrite fmap_insert.
Qed.

Lemma fake_DeleteIpvsService_spec f s : fake_rep f → wf_service s →
  wp (fake_DeleteIpvsService (Some s)) (λ e f',
    (is_Some (vs (fake_abs f) !! service_key s) → e = None) ∧ fake_rep f' ∧
    fake_abs f' = spec_del_service (service_key s) (fake_abs f)) f.
Proof.
  intros (m & d & Hm & Hd & Hkeys & Hips) Hs. apply wp_bind, wp_modify, wp_ret.
  split; [done|]. split.
  - exists (delete (service_key s) m), d. simpl. rewrite Hm. split_and!; [done..| |done].
    by apply map_Forall_delete.
  - unfold fake_abs, spec_del_service, with_vs. simpl. rewrite Hm. simpl. by rewrite fmap_delete.
Qed.

Lemma put_ipvs_spec f m d key dsts dsts' g :
  IpvsMap f = Some m → DummyMap f = Some d →
  map_Forall (λ k dsts, key_ok k ∧ NoDup dsts) m → map_Forall (λ ip _, addr_ok ip) d →
  m !! key = Some dsts → NoDup dsts' → list_to_set dsts' = g (list_to_set dsts : gset endpointKey) →
  wp (put_ipvs key dsts') (λ _ f', fake_rep f' ∧ fake_abs f' = with_vs (alter g key) (fake_abs f)) f.
Proof.
  intros Hm Hd Hkeys Hips Hl Hnd Hg. unfold put_ipvs. apply wp_bind, wp_get. rewrite Hm.
  apply wp_modify. split.
  - exists (<[key := dsts']> m), d. split_and!; [done..| |done].
    apply map_Forall_insert_2; [|done]. split; [apply (Hkeys _ _ Hl)|done].
  - unfold fake_abs, with_vs. simpl. rewrite Hm. simpl. f_equal.
    rewrite fmap_insert, Hg. apply map_eq. intros k.
    destruct (decide (k = key)) as [->|?].
    + rewrite lookup_insert_eq, lookup_alter_eq, lookup_fmap, Hl. done.
    + by rewrite lookup_insert_ne, lookup_alter_ne.
Qed.

Lemma fake_AddIpvsServer_spec f s d eps : fake_rep f → wf_service s → wf_server d →
  vs (fake_abs f) !! service_key s = Some eps → server_key d ∉ eps →
  wp (fake_AddIpvsServer (Some s) (Some d)) (λ e f', e = None ∧ fake_rep f' ∧
    fake_abs f' = spec_add_server (service_key s) (server_key d) (fake_abs f)) f.
Proof.
  intros (m & dm & Hm & Hd & Hkeys & Hips) Hs Hdst Hl Hn.
  rewrite fake_abs_lookup, Hm, gm_Some in Hl. apply fmap_Some in Hl as (dsts & Hl & ->).
  unfold fake_AddIpvsServer. apply wp_bind, wp_get. rewrite Hm, gm_Some, Hl. cbn [default].
  apply wp_bind. eapply wp_mono; [eapply put_ipvs_spec with (g := λ eps, {[server_key d]} ∪ eps); eauto|].
  - apply NoDup_app. split_and!; [apply (Hkeys _ _ Hl)| |apply NoDup_singleton].
    intros x Hx Hx'. apply list_elem_of_singleton in Hx' as ->. set_solver.
  - rewrite list_to_set_app_L. set_solver.
  - intros [] f' [??]. by apply wp_ret.
Qed.

Lemma fake_DeleteIpvsServer_spec f s d eps : fake_rep f → wf_service s →
  vs (fake_abs f) !! service_key s = Some eps → server_key d ∈ eps →
  wp (fake_DeleteIpvsServer (Some s) (Some d)) (λ e f', e = None ∧ fake_rep f' ∧
    fake_abs f' = spec_del_server (service_key s) (server_key d) (fake_abs f)) f.
Proof.
  intros (m & dm & Hm & Hd & Hkeys & Hips) Hs Hl Hn.
  rewrite fake_abs_lookup, Hm, gm_Some in Hl. apply fmap_Some in Hl as (dsts & Hl & ->).
  unfold fake_DeleteIpvsServer. apply wp_bind, wp_get. rewrite Hm, gm_Some, Hl.
  apply elem_of_list_to_set in Hn.
  destruct (list_find_elem_of (λ x, x = server_key d) dsts _ Hn eq_refl) as [[i x] Hf].
  unfold fake_target. rewrite Hf. cbn [fmap option_fmap option_map fst].
  apply list_find_Some in Hf as (Hi & -> & _).
  destruct (Hkeys _ _ Hl) as [_ Hnd].
  assert (dsts = take i dsts ++ server_key d :: drop (i + 1) dsts) as Hsplit.
  { rewrite Nat.add_1_r. symmetry. by apply take_drop_middle. }
  assert (NoDup (take i dsts ++ drop (i + 1) dsts) ∧
    server_key d ∉ take i dsts ++ drop (i + 1) dsts) as [Hnd' Hout].
  { rewrite Hsplit in Hnd. rewrite <-Permutation_middle in Hnd. by apply NoDup_cons in Hnd as [??]. }
  apply wp_bind. eapply wp_mono; [eapply put_ipvs_spec with (g := λ eps, eps ∖ {[server_key d]}); eauto|].
  - rewrite Hsplit at 3. rewrite !list_to_set_app_L, list_to_set_cons.
    set_solver.
  - intros [] f' [??]. by apply wp_ret.
Qed.

Lemma fake_bound f d : DummyMap f = Some d → bound (fake_abs f) = dom d.
Proof. intros Hd. simpl. by rewrite Hd. Qed.

Lemma fake_GetDummyLink_spec f : fake_rep f →
  wp fake_GetDummyLink (λ r f', fake_rep f' ∧ ∃ link, r = OK link ∧
    fake_abs f' = {| vs := vs (fake_abs f); bound := bound (fake_abs f); dummy := Some link |}) f.
Proof. intros Hrep. apply wp_ret. split; [done|]. by exists None. Qed.

Lemma fake_AddDummyClusterIp_spec f ip link :
  fake_rep f → Net.wf_addr ip → dummy (fake_abs f) = Some link →
  wp (fake_AddDummyClusterIp ip link) (λ e f', e = None ∧ fake_rep f' ∧
    fake_abs f' = spec_bind (Net.IP_String ip) (fake_abs f)) f.
Proof.
  intros (m & d & Hm & Hd & Hkeys & Hips) Hip _. apply wp_bind. unfold put_dummy.
  apply wp_bind, wp_get. rewrite Hd. apply wp_modify, wp_ret. split; [done|]. split.
  - exists m, (<[Net.IP_String ip := 1%Z]> d). split_and!; [done..|].
    apply map_Forall_insert_2; [by exists ip|done].
  - unfold fake_abs, spec_bind, with_bound. simpl. rewrite Hd. simpl. by rewrite dom_insert_L.
Qed.

Lemma fake_DeleteDummyClusterIp_spec f ip link :
  fake_rep f → Net.wf_addr ip → dummy (fake_abs f) = Some link →
  Net.IP_String ip ∈ bound (fake_abs f) →
  wp (fake_DeleteDummyClusterIp ip link) (λ e f', e = None ∧ fake_rep f' ∧
    fake_abs f' = spec_unbind (Net.IP_String ip) (fake_abs f)) f.
Proof.
  intros (m & d & Hm & Hd & Hkeys & Hips) Hip _ _. apply wp_bind, wp_modify, wp_ret.
  split; [done|]. split.
  - exists m, (delete (Net.IP_String ip) d). simpl. rewrite Hd. split_and!; [done..|].
    by apply map_Forall_delete.
  - unfold fake_abs, spec_unbind, with_bound. simpl. rewrite Hd. simpl. by rewrite dom_delete_L.
Qed.

Lemma fake_ListDuumyClusterIp_spec f link : fake_rep f → dummy (fake_abs f) = Some link →
  wp (fake_ListDuumyClusterIp link) (λ r f', fake_rep f' ∧ fake_abs f' = fake_abs f ∧
    ∃ addrs, r = OK addrs ∧ Forall (Net.wf_addr ∘ addr_ip) addrs ∧
      ((Net.IP_String ∘ addr_ip) <$> addrs) ≡ₚ elements (bound (fake_abs f))) f.
Proof.
  intros (m & d & Hm & Hd & Hkeys & Hips) _. apply wp_bind. unfold wp, fake_range.
  split; [by exists m, d|]. split; [done|]. eexists. split; [done|].
  set (l := map_range (fake_tick f) (gm (DummyMap f))).
  assert (∀ k v, (k, v) ∈ l → addr_ok k) as Hok.
  { intros k v Hin. apply elem_of_map_range in Hin. rewrite Hd in Hin. apply (Hips _ _ Hin). }
  split.
  - apply Forall_fmap, Forall_forall. intros [k v] Hin. simpl.
    destruct (Hok k v Hin) as (a & Ha & <-).
    destruct (NetFacts.wf_addr_String _ Ha) as (ip' & Hip & _ & ->). by apply NetFacts.wf_ip4_addr.
  - rewrite <-list_fmap_compose.
    assert ((Net.IP_String ∘ addr_ip) ∘ _ <$> l = l.*1) as ->.
    { apply list_fmap_ext. intros i [k v] Hi. simpl.
      destruct (Hok k v) as (a & Ha & <-); [by eapply list_elem_of_lookup_2|].
      by apply NetFacts.ParseIP_canonical. }
    rewrite (fake_bound f d) by done. unfold l. rewrite map_range_perm, Hd. simpl.
    apply NoDup_Permutation; [apply NoDup_fst_map_to_list|apply NoDup_elements|].
    intros k. rewrite elem_of_elements, elem_of_dom, list_elem_of_fmap. split.
    + intros ([k' v] & -> & Hin). apply elem_of_map_to_list in Hin. by eexists.
    + intros [v Hv]. exists (k, v). by rewrite elem_of_map_to_list.
Qed.

#[export] Instance fake_IpvsSpec : IpvsSpec Faker := {|
  rep := fake_rep;
  abs := fake_abs;
  ListIpvsService_spec := fake_ListIpvsService_spec;
  ListIpvsServer_spec := fake_ListIpvsServer_spec;
  AddIpvsService_spec := fake_AddIpvsService_spec;
  DeleteIpvsService_spec := fake_DeleteIpvsService_spec;
  AddIpvsServer_spec := fake_AddIpvsServer_spec;
  DeleteIpvsServer_spec := fake_DeleteIpvsServer_spec;
  GetDummyLink_spec := fake_GetDummyLink_spec;
  AddDummyClusterIp_spec := fake_AddDummyClusterIp_spec;
  DeleteDummyClusterIp_spec := fake_DeleteDummyClusterIp_spec;
  ListDuumyClusterIp_spec := fake_ListDuumyClusterIp_spec;
|}.
End impl.
End Fake.
