(* ===== verification/EnnIpvs.v ===== *)
(** * The kernel's IPVS (pkg/util/ipvs/ipvs.go, type EnnIpvs)

    The implementation of [utilipvs.Interface] the proxy runs with. It calls
    the libipvs handle and the netlink package, which are not part of the
    repository: their operations are the class [Kernel], what they are known
    to do the class [KernelSpec]. The section proves that [EnnIpvs] then meets
    the contract the proxier is verified against, also in the situations the
    contract leaves open ([IpvsRobust]). *)

From S2P Require Import Prelude GoNet ProxyTypes Ipvs.

(** [netlink.Route]: the preferred source address, nil when unset. *)
Record Route := { Src : IP }.

(** The filter of [RouteListFiltered]: the local table, routes of type local
    set up by the kernel, and the output interface when it is given. *)
Record RouteFilter := { filter_LinkIndex : option Z }.

Class Kernel (N : Type) := {
  GetService : LibService → M N (result LibService);
  GetServices : M N (result (list (option LibService)));
  GetDestinations : option LibService → M N (result (list (option LibDestination)));
  NewService : LibService → M N error;
  DelService : LibService → M N error;
  NewDestination : LibService → LibDestination → M N error;
  DelDestination : LibService → LibDestination → M N error;
  LinkByName : string → M N (result Link);
  LinkAdd : string → M N error;
  LinkSetUp : Link → M N error;
  LinkDel : Link → M N error;
  AddrAdd : Link → Addr → M N error;
  AddrDel : Link → Addr → M N error;
  AddrList : Link → M N (result (list Addr));
  RouteListFiltered : RouteFilter → M N (result (list Route));
}.

(** [libipvs.New]: opening the handle fails when the IPVS netlink family is
    not there. *)
Class Handle (N : Type) := libipvs_New : M N error.

(** Opening a handle changes no rule. *)
Class HandleSpec (N : Type) `{IpvsSpec N} `{Handle N} :=
  libipvs_New_spec n : rep n → wp libipvs_New (λ _ n', rep n' ∧ abs n' = abs n) n.

Module EnnIpvs.

(** A handle that cannot be opened ends the process. *)
Definition NewEnnIpvs {N : Type} `{HD : Handle N} : M N unit :=
  err ← libipvs_New;
  match err with
  | Some err => panic err
  | None => mret tt
  end.

Section impl.
Context {N : Type} `{KN : Kernel N}.

Definition nil_pointer {A} : M N A := panic "invalid memory address or nil pointer dereference".

Definition enn_GetIpvsService (service : option Service) : M N (result LibService) :=
  match CreateLibIpvsService service with
  | Err err => mret (Err err)
  | OK svc => GetService svc
  end.

Definition enn_ListIpvsService : M N (result (list (option LibService))) := GetServices.

(** The loop of [ListIpvsServer]: the first error returns. *)
Fixpoint inter_servers (dsts : list (option LibDestination)) : result (list Server) :=
  match dsts with
  | [] => OK []
  | ipvs_dst :: dsts =>
      match CreateInterServer ipvs_dst with
      | Err err => Err err
      | OK inter_dst =>
          match inter_servers dsts with
          | Err err => Err err
          | OK inter_dsts => OK (inter_dst :: inter_dsts)
          end
      end
  end.

Definition enn_ListIpvsServer (service : option LibService) : M N (result (list Server)) :=
  r ← GetDestinations service;
  mret (match r with
        | Err err => Err err
        | OK dsts => inter_servers dsts
        end).

(** The test of the loop of [AddIpvsService]. *)
Definition same_service (service : Service) (svc : LibService) : bool :=
  bool_decide (Net.IP_String (ClusterIP service) = Net.IP_String (Address svc)) &&
  (ToProtocolNumber service =? lProtocol svc)%Z && (uint16 (Port service) =? lPort svc)%Z.

(** The loop: [Some true] when the service is found, [None] when a nil entry
    is dereferenced first. *)
Fixpoint find_service (service : Service) (svcs : list (option LibService)) : option bool :=
  match svcs with
  | [] => Some false
  | None :: _ => None
  | Some svc :: svcs => if same_service service svc then Some true else find_service service svcs
  end.

Definition show_service (service : Service) : string :=
  Net.IP_String (ClusterIP service) +:+ ":" +:+ Protocol service +:+ ":" +:+ Itoa (Port service).

Definition enn_AddIpvsService (service : option Service) : M N error :=
  match service with
  | None => nil_pointer
  | Some service =>
      r ← GetServices;
      match r with
      | Err err => panic err
      | OK svcs =>
          match find_service service svcs with
          | None => nil_pointer
          | Some true => mret None
          | Some false =>
              err ← NewService (toLibService service);
              mret (match err with
                    | None => None
                    | Some err => Some ("AddIpvsService: create service " +:+ show_service service +:+
                                    " failed: " +:+ err)
                    end)
          end
      end
  end.

Definition enn_DeleteIpvsService (service : option Service) : M N error :=
  match service with
  | None => nil_pointer
  | Some service =>
      err ← DelService (toLibService service);
      mret (match err with
            | None => None
            | Some err => Some ("DeleteIpvsService: delete service " +:+ show_service service +:+
                            " failed: " +:+ err)
            end)
  end.

(** [%s:%s to the service %s:%s:%s] of the messages below. *)
Definition show_destination (svc : LibService) (dest : LibDestination) : string :=
  Net.IP_String (dAddress dest) +:+ ":" +:+ Itoa (dPort dest) +:+ " to the service " +:+
  Net.IP_String (Address svc) +:+ ":" +:+ ToProtocolString svc +:+ ":" +:+ Itoa (lPort svc).

(** The error of the first conversion is overwritten by the second one, so a
    nil service with a server is dereferenced. *)
Definition enn_AddIpvsServer (service : option Service) (server : option Server) : M N error :=
  match CreateLibIpvsServer server, service with
  | Err err, _ => mret (Some err)
  | OK _, None => nil_pointer
  | OK dest, Some service =>
      let svc := toLibService service in
      err ← NewDestination svc dest;
      mret (match err with
            | None => None
            | Some err =>
                if Strings.Contains err IPVS_SERVER_EXISTS then None
                else Some ("AddIpvsServer destination " +:+ show_destination svc dest +:+ " failed: " +:+ err)
            end)
  end.

Definition enn_DeleteIpvsServer (service : option Service) (server : option Server) : M N error :=
  match CreateLibIpvsServer server, service with
  | Err err, _ => mret (Some err)
  | OK _, None => nil_pointer
  | OK dest, Some service =>
      let svc := toLibService service in
      err ← DelDestination svc dest;
      mret (match err with
            | None => None
            | Some err => Some ("DeleteIpvsServer: delete destination " +:+ show_destination svc dest +:+
                            " failed: " +:+ err)
            end)
  end.

(** Errors of single deletions are logged; a nil entry is not. *)
Definition enn_FlushIpvs : M N error :=
  r ← GetServices;
  match r with
  | Err err => mret (Some err)
  | OK svcs =>
      for_each svcs (λ svc,
        match svc with
        | None => nil_pointer
        | Some svc => DelService svc ;; mret tt
        end) ;;
      mret None
  end.

Definition enn_AddDummyLink : M N error := LinkAdd ENN_DUMMY.

Definition enn_GetDummyLink : M N (result Link) :=
  r ← LinkByName ENN_DUMMY;
  match r with
  | OK link => mret (OK link)
  | Err err =>
      if decide (err = IFACE_NOT_FOUND) then
        err ← enn_AddDummyLink;
        match err with
        | Some err => panic ("GetDummyLink: add dummy link failed:  " +:+ err)
        | None => LinkByName ENN_DUMMY
        end
      else mret (Err err)
  end.

Definition enn_SetDummyLinkUp (link : Link) : M N error := LinkSetUp link.

Definition enn_DeleteDummyLink : M N error :=
  r ← LinkByName ENN_DUMMY;
  match r with
  | Err err => mret (Some err)
  | OK link => LinkDel link
  end.

Definition RT_SCOPE_LINK : Z := 253.
Definition vip (clusterIP : IP) : Addr :=
  {| addr_ip := clusterIP; addr_mask := [255; 255; 255; 255]%Z; addr_scope := RT_SCOPE_LINK |}.

Definition enn_AddDummyClusterIp (clusterIP : IP) (link : Link) : M N error :=
  err ← AddrAdd link (vip clusterIP);
  mret (match err with
        | None => None
        | Some err => if decide (err = IFACE_HAS_ADDR) then None else Some err
        end).

Definition enn_DeleteDummyClusterIp (clusterIP : IP) (link : Link) : M N error :=
  AddrDel link (vip clusterIP).

Definition enn_ListDuumyClusterIp (link : Link) : M N (result (list Addr)) := AddrList link.

(** The sources of the local routes; a nil source is not an address. *)
Definition route_sources (routes : list Route) : gset string :=
  list_to_set (Net.IP_String ∘ Src <$> filter (λ r, Src r ≠ []) routes).

Definition list_sources (filter : RouteFilter) : M N (result (gset string)) :=
  r ← RouteListFiltered filter;
  mret (match r with
        | Err err => Err ("error list route table, err: " +:+ err)
        | OK routes => OK (route_sources routes)
        end).

Definition enn_GetLocalAddresses (Dev : string) : M N (result (gset string)) :=
  if decide (Dev = "") then list_sources {| filter_LinkIndex := None |}
  else
    r ← LinkByName Dev;
    match r with
    | Err err => mret (Err ("error get filter device " +:+ Dev +:+ ", err: " +:+ err))
    | OK None => nil_pointer
    | OK (Some link) =>
        list_sources {| filter_LinkIndex := if (link_Index link =? -1)%Z then None else Some (link_Index link) |}
    end.

#[export] Instance enn_Interface : Interface N := {|
  GetIpvsService := enn_GetIpvsService;
  ListIpvsService := enn_ListIpvsService;
  ListIpvsServer := enn_ListIpvsServer;
  AddIpvsService := enn_AddIpvsService;
  DeleteIpvsService := enn_DeleteIpvsService;
  AddIpvsServer := enn_AddIpvsServer;
  DeleteIpvsServer := enn_DeleteIpvsServer;
  FlushIpvs := enn_FlushIpvs;
  GetDummyLink := enn_GetDummyLink;
  AddDummyLink := enn_AddDummyLink;
  SetDummyLinkUp := enn_SetDummyLinkUp;
  DeleteDummyLink := enn_DeleteDummyLink;
  AddDummyClusterIp := enn_AddDummyClusterIp;
  DeleteDummyClusterIp := enn_DeleteDummyClusterIp;
  ListDuumyClusterIp := enn_ListDuumyClusterIp;
  GetLocalAddresses := enn_GetLocalAddresses;
|}.
End impl.

(** ** What the kernel does *)

Definition dest_key (d : LibDestination) : endpointKey :=
  {| ep_ip := Net.IP_String (dAddress d); ep_port := dPort d |}.
Definition wf_dest (d : LibDestination) : Prop := Net.wf_addr (dAddress d) ∧ port_ok (dPort d).

(** The behaviour of libipvs and netlink that the code relies on. [kabs] is
    the kernel's table, the addresses of the dummy device and the device. *)
Class KernelSpec (N : Type) `{Kernel N} := {
  krep : N → Prop;
  kabs : N → vstate;

  kernel_servers n key eps e : krep n → vs (kabs n) !! key = Some eps → e ∈ eps →
    wf_server {| srv_Ip := ep_ip e; srv_Port := ep_port e; srv_Weight := DEFAULWEIGHT |};
  GetServices_spec n : krep n →
    wp GetServices (λ r n', n' = n ∧ ∃ svcs, r = OK (Some <$> svcs) ∧ Forall wf_lib svcs ∧
      (lib_key <$> svcs) ≡ₚ (map_to_list (vs (kabs n))).*1) n;
  GetDestinations_spec n svc eps : krep n → vs (kabs n) !! lib_key svc = Some eps →
    wp (GetDestinations (Some svc)) (λ r n', n' = n ∧ ∃ dsts, r = OK (Some <$> dsts) ∧
      list_to_set (dest_key <$> dsts) = eps) n;
  (** A new virtual service has no destination. *)
  NewService_spec n svc : krep n → wf_lib svc → vs (kabs n) !! lib_key svc = None →
    wp (NewService svc) (λ e n', e = None ∧ krep n' ∧
      kabs n' = with_vs (<[lib_key svc := ∅]>) (kabs n)) n;
  (** An error for a virtual service that is not there. *)
  DelService_spec n svc : krep n → wf_lib svc →
    wp (DelService svc) (λ e n', (is_Some (vs (kabs n) !! lib_key svc) ↔ e = None) ∧ krep n' ∧
      kabs n' = spec_del_service (lib_key svc) (kabs n)) n;
  (** EEXIST for a destination that is there; another error for a virtual
      service that is not. *)
  NewDestination_spec n svc d : krep n → wf_lib svc → wf_dest d →
    wp (NewDestination svc d) (λ e n', krep n' ∧
      match vs (kabs n) !! lib_key svc with
      | None => (∃ err, e = Some err ∧ Strings.Contains err "file exists" = false) ∧ kabs n' = kabs n
      | Some eps => if decide (dest_key d ∈ eps) then e = Some "file exists" ∧ kabs n' = kabs n
          else e = None ∧ kabs n' = with_vs (<[lib_key svc := {[dest_key d]} ∪ eps]>) (kabs n)
      end) n;
  DelDestination_spec n svc d : krep n → wf_lib svc → wf_dest d →
    wp (DelDestination svc d) (λ e n', krep n' ∧
      match vs (kabs n) !! lib_key svc with
      | None => is_Some e ∧ kabs n' = kabs n
      | Some eps => if decide (dest_key d ∈ eps)
          then e = None ∧ kabs n' = with_vs (<[lib_key svc := eps ∖ {[dest_key d]}]>) (kabs n)
          else is_Some e ∧ kabs n' = kabs n
      end) n;
  LinkByName_spec n : krep n →
    wp (LinkByName ENN_DUMMY) (λ r n', n' = n ∧
      match dummy (kabs n) with
      | Some link => r = OK link
      | None => r = Err "Link not found"
      end) n;
  LinkAdd_spec n : krep n → dummy (kabs n) = None →
    wp (LinkAdd ENN_DUMMY) (λ e n', e = None ∧ krep n' ∧ ∃ link,
      kabs n' = {| vs := vs (kabs n); bound := bound (kabs n); dummy := Some link |}) n;
  (** The addresses go with the device. *)
  LinkDel_spec n link : krep n → dummy (kabs n) = Some link →
    wp (LinkDel link) (λ e n', e = None ∧ krep n' ∧
      kabs n' = {| vs := vs (kabs n); bound := ∅; dummy := None |}) n;
  (** EEXIST for an address that is bound. *)
  AddrAdd_spec n link a : krep n → dummy (kabs n) = Some link → Net.wf_addr (addr_ip a) →
    wp (AddrAdd link a) (λ e n', krep n' ∧
      if decide (Net.IP_String (addr_ip a) ∈ bound (kabs n))
      then e = Some "file exists" ∧ kabs n' = kabs n
      else e = None ∧ kabs n' = spec_bind (Net.IP_String (addr_ip a)) (kabs n)) n;
  (** An error for an address that is not bound. *)
  AddrDel_spec n link a : krep n → dummy (kabs n) = Some link → Net.wf_addr (addr_ip a) →
    wp (AddrDel link a) (λ e n', krep n' ∧
      if decide (Net.IP_String (addr_ip a) ∈ bound (kabs n))
      then e = None ∧ kabs n' = spec_unbind (Net.IP_String (addr_ip a)) (kabs n)
      else is_Some e ∧ kabs n' = kabs n) n;
  AddrList_spec n link : krep n → dummy (kabs n) = Some link →
    wp (AddrList link) (λ r n', n' = n ∧ ∃ addrs, r = OK addrs ∧
      Forall (Net.wf_addr ∘ addr_ip) addrs ∧
      ((Net.IP_String ∘ addr_ip) <$> addrs) ≡ₚ elements (bound (kabs n))) n;
}.

(** ** EnnIpvs meets the contract *)
Section correct.
Context {N : Type} `{KN : Kernel N} `{KS : !KernelSpec N}.

Lemma wf_server_dest d : wf_server d → wf_dest (toLibDestination d) ∧ dest_key (toLibDestination d) = server_key d.
Proof.
  intros [(ip & Hip & Hd) Hp]. unfold wf_dest, dest_key, server_key. simpl. rewrite Hd, uint16_id by done.
  rewrite NetFacts.ParseIP_canonical by done. split; [|done]. split; [|done].
  destruct (NetFacts.wf_addr_String _ Hip) as (ip' & Hip' & _ & ->). by apply NetFacts.wf_ip4_addr.
Qed.

Lemma lib_key_toLib s : wf_service s → lib_key (toLibService s) = service_key s.
Proof. apply toInterService_toLibService. Qed.

(** The test of the loop of [AddIpvsService] compares keys. *)
Lemma same_service_key s svc :
  wf_service s → wf_lib svc → same_service s svc = bool_decide (lib_key svc = service_key s).
Proof.
  intros (Ha & Hp & Hproto) (_ & _ & Hproto'). unfold same_service, lib_key, service_key. simpl.
  rewrite uint16_id by done. unfold toInterService in Hproto'. cbn [Protocol] in Hproto'.
  unfold ToProtocolNumber. unfold ToProtocolString in *.
  apply eq_bool_prop_intro. rewrite bool_decide_spec, !andb_True, bool_decide_spec.
  rewrite !Is_true_true, !Z.eqb_eq.
  destruct Hproto as [-> | ->]; simpl;
    (destruct (lProtocol svc =? IPPROTO_TCP)%Z eqn:E1; [apply Z.eqb_eq in E1|
       destruct (lProtocol svc =? IPPROTO_UDP)%Z eqn:E2; [apply Z.eqb_eq in E2|by destruct Hproto']]);
    unfold IPPROTO_TCP, IPPROTO_UDP in *; split; naive_solver congruence.
Qed.

Lemma find_service_spec s svcs :
  wf_service s → Forall wf_lib svcs →
  find_service s (Some <$> svcs) = Some (bool_decide (service_key s ∈ lib_key <$> svcs)).
Proof.
  intros Hs. induction 1 as [|svc svcs Hsvc _ IH]; [done|].
  cbn [fmap list_fmap find_service]. rewrite same_service_key by done.
  destruct (decide (lib_key svc = service_key s)) as [Heq|Hne].
  - rewrite bool_decide_true by done. f_equal. symmetry. apply bool_decide_eq_true_2, elem_of_cons. by left.
  - rewrite bool_decide_false by done. etrans; [exact IH|]. f_equal. apply bool_decide_ext.
    rewrite elem_of_cons. naive_solver congruence.
Qed.

Lemma inter_servers_spec dsts :
  ∃ servers, inter_servers (Some <$> dsts) = OK servers ∧ server_key <$> servers = dest_key <$> dsts.
Proof.
  induction dsts as [|d dsts (servers & IH & Hk)]; [by exists []|].
  cbn [fmap list_fmap inter_servers CreateInterServer].
  change (list_fmap _ _ Some dsts) with (Some <$> dsts). rewrite IH.
  eexists. split; [done|]. rewrite !fmap_cons. by f_equal.
Qed.

Lemma enn_AddIpvsService_spec n s : krep n → wf_service s →
  wp (enn_AddIpvsService (Some s)) (λ e n', e = None ∧ krep n' ∧
    kabs n' = spec_add_service (service_key s) (kabs n)) n.
Proof.
  intros Hrep Hs. apply wp_bind. eapply wp_mono; [by apply GetServices_spec|].
  intros r n' (-> & svcs & -> & Hwf & Hperm). rewrite find_service_spec by done.
  assert (service_key s ∈ lib_key <$> svcs ↔ is_Some (vs (kabs n) !! service_key s)) as Hin.
  { rewrite Hperm, list_elem_of_fmap. split.
    - intros ([k e] & Hk & Hin%elem_of_map_to_list). rewrite Hk. by exists e.
    - intros [e He]. exists (service_key s, e). by rewrite elem_of_map_to_list. }
  unfold spec_add_service, with_vs. case_bool_decide as Hd.
  - apply wp_ret. apply Hin in Hd as [e He]. rewrite He. split; [done|]. split; [done|]. by destruct (kabs n).
  - assert (vs (kabs n) !! service_key s = None) as Hn by (apply eq_None_not_Some; tauto).
    rewrite Hn. apply wp_bind. rewrite <-(lib_key_toLib s) in Hn |- * by done. eapply wp_mono.
    { apply NewService_spec; [done|by apply wf_lib_toLibService|done]. }
    intros e n' (-> & Hrep' & Ha'). by apply wp_ret.
Qed.

Lemma enn_AddIpvsServer_run n s d : krep n → wf_service s → wf_server d →
  wp (enn_AddIpvsServer (Some s) (Some d)) (λ e n', krep n' ∧
    kabs n' = spec_add_server (service_key s) (server_key d) (kabs n) ∧
    (is_Some (vs (kabs n) !! service_key s) ↔ e = None)) n.
Proof.
  intros Hrep Hs Hd. destruct (wf_server_dest d Hd) as [Hwd Hkd]. unfold enn_AddIpvsServer. simpl.
  apply wp_bind. eapply wp_mono; [apply NewDestination_spec; [done|by apply wf_lib_toLibService|exact Hwd]|].
  intros e n' (Hrep' & Hn). apply wp_ret. rewrite Hkd, lib_key_toLib in Hn by done. split; [done|].
  destruct (vs (kabs n) !! service_key s) as [eps|] eqn:E.
  - assert (spec_add_server (service_key s) (server_key d) (kabs n) =
      with_vs (<[service_key s := {[server_key d]} ∪ eps]>) (kabs n)) as ->
      by (apply vstate_eq; [by apply alter_lookup_Some|done..]).
    case_decide; destruct Hn as [-> ->]; [|by split; [|split; [|eexists]]]. split; [|by split; [|eexists]].
    apply vstate_eq; [|done..]. simpl. rewrite insert_id; [done|]. rewrite E. f_equal. set_solver.
  - destruct Hn as [(err & -> & Hc) ->]. unfold IPVS_SERVER_EXISTS. rewrite Hc. split; [|by split; [intros []|]].
    apply vstate_eq; [|done..]. simpl. by rewrite alter_lookup_None.
Qed.

Lemma enn_DeleteIpvsServer_run n s d : krep n → wf_service s → wf_server d →
  wp (enn_DeleteIpvsServer (Some s) (Some d)) (λ e n', krep n' ∧
    kabs n' = spec_del_server (service_key s) (server_key d) (kabs n) ∧
    ((∃ eps, vs (kabs n) !! service_key s = Some eps ∧ server_key d ∈ eps) ↔ e = None)) n.
Proof.
  intros Hrep Hs Hd. destruct (wf_server_dest d Hd) as [Hwd Hkd]. unfold enn_DeleteIpvsServer. simpl.
  apply wp_bind. eapply wp_mono; [apply DelDestination_spec; [done|by apply wf_lib_toLibService|exact Hwd]|].
  intros e n' (Hrep' & Hn). apply wp_ret. rewrite Hkd, lib_key_toLib in Hn by done. split; [done|].
  destruct (vs (kabs n) !! service_key s) as [eps|] eqn:E.
  - assert (spec_del_server (service_key s) (server_key d) (kabs n) =
      with_vs (<[service_key s := eps ∖ {[server_key d]}]>) (kabs n)) as ->
      by (apply vstate_eq; [by apply (alter_lookup_Some (λ eps, eps ∖ {[server_key d]}))|done..]).
    case_decide; destruct Hn as [He ->]; [rewrite He; split; [done|]; split; eauto|]. destruct He as [err ->].
    split; [|by split; [intros (? & [= <-] & ?)|]].
    apply vstate_eq; [|done..]. simpl. rewrite insert_id; [done|]. rewrite E. f_equal. set_solver.
  - destruct Hn as [[err ->] ->]. split; [|by split; [intros (? & [=] & _)|]]. apply vstate_eq; [|done..]. simpl.
    by rewrite alter_lookup_None.
Qed.

Lemma enn_AddDummyClusterIp_spec n ip link : krep n → Net.wf_addr ip → dummy (kabs n) = Some link →
  wp (enn_AddDummyClusterIp ip link) (λ e n', e = None ∧ krep n' ∧
    kabs n' = spec_bind (Net.IP_String ip) (kabs n)) n.
Proof.
  intros Hrep Hip Hd. apply wp_bind. eapply wp_mono; [by apply AddrAdd_spec|].
  intros e n' (Hrep' & Hn). apply wp_ret. simpl in Hn. case_decide; destruct Hn as [-> ->]; [|done].
  split; [done|]. split; [done|]. apply vstate_eq; [done| |done]. simpl. set_solver.
Qed.

Lemma enn_GetDummyLink_spec n : krep n →
  wp enn_GetDummyLink (λ r n', krep n' ∧ ∃ link, r = OK link ∧
    kabs n' = {| vs := vs (kabs n); bound := bound (kabs n); dummy := Some link |}) n.
Proof.
  intros Hrep. apply wp_bind. eapply wp_mono; [by apply LinkByName_spec|].
  intros r n' [-> Hr]. destruct (dummy (kabs n)) as [link|] eqn:Ed; subst r.
  { apply wp_ret. split; [done|]. exists link. split; [done|]. by apply vstate_eq. }
  rewrite decide_True by done. apply wp_bind. eapply wp_mono; [by apply LinkAdd_spec|].
  intros e n' (-> & Hrep' & link & Ha). eapply wp_mono; [by apply LinkByName_spec|].
  intros r n'' [-> Hr]. split; [done|]. exists link. rewrite Ha in Hr. by split.
Qed.

Lemma enn_DeleteIpvsService_run n s : krep n → wf_service s →
  wp (enn_DeleteIpvsService (Some s)) (λ e n', (is_Some (vs (kabs n) !! service_key s) ↔ e = None) ∧ krep n' ∧
    kabs n' = spec_del_service (service_key s) (kabs n)) n.
Proof.
  intros Hrep Hs. apply wp_bind. rewrite <-lib_key_toLib by done.
  eapply wp_mono; [apply DelService_spec; [done|by apply wf_lib_toLibService]|].
  intros e n' (He & Hrep' & Ha). apply wp_ret. split; [|done]. rewrite He. by destruct e.
Qed.

Lemma enn_DeleteDummyClusterIp_run n ip link : krep n → dummy (kabs n) = Some link → Net.wf_addr ip →
  wp (enn_DeleteDummyClusterIp ip link) (λ e n', (Net.IP_String ip ∈ bound (kabs n) ↔ e = None) ∧ krep n' ∧
    kabs n' = spec_unbind (Net.IP_String ip) (kabs n)) n.
Proof.
  intros Hrep Hd Hip. eapply wp_mono; [by apply AddrDel_spec|]. simpl. intros e n' (Hrep' & Hn).
  case_decide as Hi; destruct Hn as [He ->]; [by rewrite He|]. split; [|split; [done|]].
  - split; [done|]. intros ->. by destruct He.
  - apply vstate_eq; [done| |done]. simpl. set_solver.
Qed.

Lemma enn_FlushIpvs_spec (n : N) : krep n →
  wp enn_FlushIpvs (λ e n', e = None ∧ krep n' ∧ kabs n' = with_vs (λ _, ∅) (kabs n)) n.
Proof using KS.
  intros Hrep. apply wp_bind. eapply wp_mono; [by apply GetServices_spec|].
  intros r n' (-> & svcs & -> & Hwf & Hp). apply wp_bind.
  set (kept (don : list LibService) := filter (λ e : activeServiceKey * gset endpointKey, e.1 ∉ lib_key <$> don) (vs (kabs n))).
  apply (wp_for_each (λ don n', ∃ don', don = Some <$> don' ∧ krep n' ∧ kabs n' = with_vs (λ _, kept don') (kabs n))).
  - exists []. split; [done|]. split; [done|]. apply vstate_eq; [|done..]. simpl. symmetry. apply map_filter_id.
    intros k v _. apply not_elem_of_nil.
  - intros don x rest n1 Hl (don' & -> & Hr1 & Ha1).
    assert (∃ svc, x = Some svc ∧ svc ∈ svcs) as (svc & -> & Hin).
    { assert (x ∈ Some <$> svcs) as Hx by (rewrite Hl; apply elem_of_app; right; left).
      apply list_elem_of_fmap in Hx as (svc & -> & ?). by exists svc. }
    rewrite Forall_forall in Hwf. apply wp_bind. eapply wp_mono; [apply DelService_spec; [done|by apply Hwf]|].
    intros e n2 (_ & Hr2 & Ha2). apply wp_ret. exists (don' ++ [svc]). split; [by rewrite fmap_app|]. split; [done|].
    rewrite Ha2, Ha1. apply vstate_eq; [|done..]. simpl. apply map_eq. intros k. unfold kept.
    destruct (decide (k = lib_key svc)) as [->|Hne].
    + rewrite lookup_delete_eq. symmetry. apply map_lookup_filter_None. right. intros v _ Hn. apply Hn.
      rewrite fmap_app. apply elem_of_app. right. left.
    + rewrite lookup_delete_ne by done. apply option_eq. intros v. rewrite !map_lookup_filter_Some, fmap_app. simpl.
      rewrite elem_of_app, list_elem_of_singleton. naive_solver.
  - intros n1 (don' & Hd & Hr1 & Ha1). apply wp_ret. split; [done|]. split; [done|]. rewrite Ha1.
    apply vstate_eq; [|done..]. simpl. apply (inj (fmap Some)) in Hd as <-. apply map_empty. intros k. unfold kept.
    apply map_lookup_filter_None. destruct (vs (kabs n) !! k) as [v|] eqn:E; [|by left]. right. intros ? _. simpl.
    intros Hn. apply Hn. rewrite Hp. apply list_elem_of_fmap. exists (k, v). by rewrite elem_of_map_to_list.
Qed.

Lemma enn_DeleteDummyLink_run n : krep n →
  wp enn_DeleteDummyLink (λ _ n', krep n' ∧ kabs n' =
    {| vs := vs (kabs n); bound := match dummy (kabs n) with Some _ => ∅ | None => bound (kabs n) end; dummy := None |}) n.
Proof.
  intros Hrep. apply wp_bind. eapply wp_mono; [by apply LinkByName_spec|]. intros r n' [-> Hr].
  destruct (dummy (kabs n)) as [link|] eqn:E; subst r.
  - eapply wp_mono; [by apply LinkDel_spec|]. by intros e n' (_ & ? & ->).
  - apply wp_ret. split; [done|]. by apply vstate_eq.
Qed.

#[export] Instance enn_IpvsSpec : IpvsSpec N.
Proof using KS.
  refine {| rep := krep; abs := kabs |}; [..|exact enn_GetDummyLink_spec|exact enn_AddDummyClusterIp_spec| |].
  - intros n Hrep. eapply wp_mono; [by apply GetServices_spec|]. intros r n' (-> & svcs & ?). eauto.
  - intros n svc eps Hrep _ Hl. apply wp_bind. eapply wp_mono; [by apply GetDestinations_spec|].
    intros r n' (-> & dsts & -> & Hset). apply wp_ret. split; [done|]. split; [done|].
    destruct (inter_servers_spec dsts) as (servers & -> & Hk). exists servers. by rewrite Hk.
  - exact enn_AddIpvsService_spec.
  - intros n s Hrep Hs. eapply wp_mono; [by apply enn_DeleteIpvsService_run|]. intros e n' (He & ? & ?).
    split_and!; [apply He|done..].
  - intros n s d eps Hrep Hs Hd Hl _. eapply wp_mono; [by apply enn_AddIpvsServer_run|].
    intros e n' (? & ? & He). split_and!; [apply He; eauto|done..].
  - intros n s d eps Hrep Hs Hl Hin. eapply wp_mono; [apply enn_DeleteIpvsServer_run; [done..|]|].
    { pose proof (kernel_servers n _ _ _ Hrep Hl Hin) as [Hip Hp]. by split. }
    intros e n' (? & ? & He). split_and!; [apply He; eauto|done..].
  - intros n ip link Hrep Hip Hd Hin. eapply wp_mono; [by apply enn_DeleteDummyClusterIp_run|].
    intros e n' (He & ? & ?). split_and!; [by apply He|done..].
  - intros n link Hrep Hd. eapply wp_mono; [by apply AddrList_spec|]. intros r n' (-> & ?). eauto.
Defined.

#[export] Instance enn_IpvsRobust : IpvsRobust N.
Proof using KS.
  split.
  - intros n s d Hrep Hs Hd. eapply wp_mono; [by apply enn_AddIpvsServer_run|]. by intros e n' (? & ? & _).
  - intros n s d Hrep Hs Hd. eapply wp_mono; [by apply enn_DeleteIpvsServer_run|]. by intros e n' (? & ? & _).
  - exact kernel_servers.
Qed.
End correct.
End EnnIpvs.
