(* ===== verification/RefKernel.v ===== *)
(** * A reference kernel

    A model of the kernel's IPVS table, of one dummy device and of the local
    routing table that satisfies [KernelSpec]: the assumptions about libipvs
    and netlink are consistent, and [EnnIpvs] can be run. *)

From S2P Require Import Prelude GoNet ProxyTypes Ipvs EnnIpvs.
Import EnnIpvs.

Module Ref.

Record RefKernel := {
  rk_services : gmap activeServiceKey (LibService * gmap endpointKey LibDestination);
  rk_addrs : gmap string Addr;
  rk_links : list LinkAttrs;
  rk_routes : list (Z * IP);            (* output interface, source *)
}.

Definition boot (links : list LinkAttrs) (routes : list (Z * IP)) : RefKernel :=
  {| rk_services := ∅; rk_addrs := ∅; rk_links := links; rk_routes := routes |}.

Definition set_services m n :=
  {| rk_services := m; rk_addrs := rk_addrs n; rk_links := rk_links n; rk_routes := rk_routes n |}.
Definition set_addrs m n :=
  {| rk_services := rk_services n; rk_addrs := m; rk_links := rk_links n; rk_routes := rk_routes n |}.
Definition set_links l n :=
  {| rk_services := rk_services n; rk_addrs := rk_addrs n; rk_links := l; rk_routes := rk_routes n |}.

Definition find_link (name : string) (l : list LinkAttrs) : option LinkAttrs :=
  snd <$> list_find (λ a, link_Name a = name) l.

Definition ENOENT : string := "no such process".
Definition EEXIST : string := "file exists".

Definition ref_NewService (svc : LibService) : M RefKernel error :=
  n ← get;
  match rk_services n !! lib_key svc with
  | Some _ => mret (Some EEXIST)
  | None => modify (set_services (<[lib_key svc := (svc, ∅)]> (rk_services n))) ;; mret None
  end.
Definition ref_DelService (svc : LibService) : M RefKernel error :=
  n ← get;
  match rk_services n !! lib_key svc with
  | None => mret (Some ENOENT)
  | Some _ => modify (set_services (delete (lib_key svc) (rk_services n))) ;; mret None
  end.
Definition ref_NewDestination (svc : LibService) (d : LibDestination) : M RefKernel error :=
  n ← get;
  match rk_services n !! lib_key svc with
  | None => mret (Some ENOENT)
  | Some (s, ds) =>
      match ds !! dest_key d with
      | Some _ => mret (Some EEXIST)
      | None => modify (set_services (<[lib_key svc := (s, <[dest_key d := d]> ds)]> (rk_services n))) ;; mret None
      end
  end.
Definition ref_DelDestination (svc : LibService) (d : LibDestination) : M RefKernel error :=
  n ← get;
  match rk_services n !! lib_key svc with
  | None => mret (Some ENOENT)
  | Some (s, ds) =>
      match ds !! dest_key d with
      | None => mret (Some ENOENT)
      | Some _ => modify (set_services (<[lib_key svc := (s, delete (dest_key d) ds)]> (rk_services n))) ;; mret None
      end
  end.

#[export] Instance ref_Kernel : Kernel RefKernel := {|
  GetService svc := n ← get; mret (match rk_services n !! lib_key svc with
    | Some (s, _) => OK s | None => Err ENOENT end);
  GetServices := n ← get; mret (OK ((λ e, Some e.2.1) <$> map_to_list (rk_services n)));
  GetDestinations svc := n ← get; mret (match svc with
    | Some svc => match rk_services n !! lib_key svc with
                  | Some (_, ds) => OK ((λ e, Some e.2) <$> map_to_list ds) | None => Err ENOENT end
    | None => Err ENOENT end);
  NewService := ref_NewService;
  DelService := ref_DelService;
  NewDestination := ref_NewDestination;
  DelDestination := ref_DelDestination;
  LinkByName name := n ← get; mret (match find_link name (rk_links n) with
    | Some l => OK (Some l) | None => Err "Link not found" end);
  LinkAdd name := modify (λ n, set_links (rk_links n ++
    [{| link_Name := name; link_Index := Z.of_nat (S (length (rk_links n))) |}]) n) ;; mret None;
  LinkSetUp _ := mret None;
  LinkDel link := modify (λ n, set_addrs ∅ (set_links
    (filter (λ a, Some (link_Name a) ≠ (link_Name <$> link)) (rk_links n)) n)) ;; mret None;
  AddrAdd _ a := n ← get; match rk_addrs n !! Net.IP_String (addr_ip a) with
    | Some _ => mret (Some EEXIST)
    | None => modify (set_addrs (<[Net.IP_String (addr_ip a) := a]> (rk_addrs n))) ;; mret None end;
  AddrDel _ a := n ← get; match rk_addrs n !! Net.IP_String (addr_ip a) with
    | None => mret (Some ENOENT)
    | Some _ => modify (set_addrs (delete (Net.IP_String (addr_ip a)) (rk_addrs n))) ;; mret None end;
  AddrList _ := n ← get; mret (OK (snd <$> map_to_list (rk_addrs n)));
  RouteListFiltered f := n ← get; mret (OK ((λ r, {| Src := r.2 |}) <$>
    filter (λ r, filter_LinkIndex f = None ∨ filter_LinkIndex f = Some r.1) (rk_routes n)));
|}.

(** ** The laws *)
Definition entry_ok (key : activeServiceKey) (e : LibService * gmap endpointKey LibDestination) : Prop :=
  lib_key e.1 = key ∧ wf_lib e.1 ∧ map_Forall (λ k d, dest_key d = k ∧ wf_dest d) e.2.

Definition ref_rep (n : RefKernel) : Prop :=
  map_Forall entry_ok (rk_services n) ∧
  map_Forall (λ ip a, Net.IP_String (addr_ip a) = ip ∧ Net.wf_addr (addr_ip a)) (rk_addrs n).

Definition ref_abs (n : RefKernel) : vstate := {|
  vs := (λ e, dom e.2) <$> rk_services n;
  bound := dom (rk_addrs n);
  dummy := Some <$> find_link ENN_DUMMY (rk_links n);
|}.

Lemma ref_lookup n key : vs (ref_abs n) !! key = (λ e, dom e.2) <$> rk_services n !! key.
Proof. apply lookup_fmap. Qed.

Lemma ref_set_service n key e :
  ref_rep n → entry_ok key e →
  ref_rep (set_services (<[key := e]> (rk_services n)) n) ∧
  ref_abs (set_services (<[key := e]> (rk_services n)) n) = with_vs (<[key := dom e.2]>) (ref_abs n).
Proof.
  intros [Hs Ha] He. split.
  - split; [by apply map_Forall_insert_2|done].
  - apply vstate_eq; [|done..]. simpl. by rewrite fmap_insert.
Qed.

Lemma keys_of_values {A B} `{Countable A} (f : B → A) (m : gmap A B) :
  map_Forall (λ k v, f v = k) m → f ∘ snd <$> map_to_list m = (map_to_list m).*1.
Proof.
  intros Hm. apply list_fmap_ext. intros i [k v] Hi. simpl.
  apply (Hm k v). apply elem_of_map_to_list. by eapply list_elem_of_lookup_2.
Qed.

Lemma ref_NewDestination_spec n svc d : ref_rep n → wf_dest d →
  wp (ref_NewDestination svc d) (λ e n', ref_rep n' ∧
    match vs (ref_abs n) !! lib_key svc with
    | None => (∃ err, e = Some err ∧ Strings.Contains err "file exists" = false) ∧ ref_abs n' = ref_abs n
    | Some eps => if decide (dest_key d ∈ eps) then e = Some "file exists" ∧ ref_abs n' = ref_abs n
        else e = None ∧ ref_abs n' = with_vs (<[lib_key svc := {[dest_key d]} ∪ eps]>) (ref_abs n)
    end) n.
Proof.
  intros Hrep Hd. apply wp_bind, wp_get. rewrite ref_lookup.
  destruct (rk_services n !! lib_key svc) as [[s ds]|] eqn:E; cbn [fmap option_fmap option_map snd].
  - destruct Hrep as [Hs Ha]. pose proof (Hs _ _ E) as (Hk & Hw & Hds).
    destruct (ds !! dest_key d) eqn:Ed.
    + apply wp_ret. split; [done|]. by rewrite decide_True by (apply elem_of_dom; eauto).
    + apply wp_bind, wp_modify, wp_ret. rewrite decide_False by (by apply not_elem_of_dom).
      destruct (ref_set_service n (lib_key svc) (s, <[dest_key d := d]> ds)) as [Hr Hab]; [by split|..].
      { split; [done|]. split; [done|]. by apply map_Forall_insert_2. }
      split; [done|]. split; [done|]. rewrite Hab. simpl. by rewrite dom_insert_L.
  - apply wp_ret. split; [done|]. split; [|done]. by exists ENOENT.
Qed.

Lemma ref_DelDestination_spec n svc d : ref_rep n →
  wp (ref_DelDestination svc d) (λ e n', ref_rep n' ∧
    match vs (ref_abs n) !! lib_key svc with
    | None => is_Some e ∧ ref_abs n' = ref_abs n
    | Some eps => if decide (dest_key d ∈ eps)
        then e = None ∧ ref_abs n' = with_vs (<[lib_key svc := eps ∖ {[dest_key d]}]>) (ref_abs n)
        else is_Some e ∧ ref_abs n' = ref_abs n
    end) n.
Proof.
  intros Hrep. apply wp_bind, wp_get. rewrite ref_lookup.
  destruct (rk_services n !! lib_key svc) as [[s ds]|] eqn:E; cbn [fmap option_fmap option_map snd].
  - destruct Hrep as [Hs Ha]. pose proof (Hs _ _ E) as (Hk & Hw & Hds).
    destruct (ds !! dest_key d) eqn:Ed.
    + apply wp_bind, wp_modify, wp_ret. rewrite decide_True by (apply elem_of_dom; eauto).
      destruct (ref_set_service n (lib_key svc) (s, delete (dest_key d) ds)) as [Hr Hab]; [by split|..].
      { split; [done|]. split; [done|]. by apply map_Forall_delete. }
      split; [done|]. split; [done|]. rewrite Hab. simpl. by rewrite dom_delete_L.
    + apply wp_ret. rewrite decide_False by (by apply not_elem_of_dom). split; [done|]. by split; [eexists|].
  - apply wp_ret. split; [done|]. by split; [eexists|].
Qed.

Lemma find_link_last name l a :
  find_link name l = None → link_Name a = name → find_link name (l ++ [a]) = Some a.
Proof.
  unfold find_link. intros Hl Ha. rewrite list_find_app_r by (by destruct (list_find _ l)).
  simpl. by rewrite decide_True.
Qed.

Lemma find_link_filter name l a :
  find_link name l = Some a →
  find_link name (filter (λ b, Some (link_Name b) ≠ (link_Name <$> Some a)) l) = None.
Proof.
  unfold find_link. intros Hf. apply fmap_Some in Hf as ([i x] & Hf & ->). apply list_find_Some in Hf as (_ & Hx & _).
  cbn [snd]. apply fmap_None, list_find_None, Forall_forall. intros b [Hb _]%list_elem_of_filter Hn. apply Hb.
  simpl. congruence.
Qed.

#[export] Instance ref_KernelSpec : KernelSpec RefKernel.
Proof.
  refine {| krep := ref_rep; kabs := ref_abs |}.
  - intros n key eps e [Hs _] Hl He. rewrite ref_lookup in Hl. apply fmap_Some in Hl as ([s ds] & Hl & ->).
    destruct (Hs _ _ Hl) as (_ & _ & Hds). apply elem_of_dom in He as [d Hd].
    destruct (Hds _ _ Hd) as [<- [Hip Hp]]. split; [|done]. by exists (dAddress d).
  - intros n [Hs Ha]. apply wp_bind, wp_get, wp_ret. split; [done|].
    exists ((λ e, e.2.1) <$> map_to_list (rk_services n)). split_and!.
    + f_equal. by rewrite <-list_fmap_compose.
    + apply Forall_fmap, Forall_forall. intros [k e] Hin%elem_of_map_to_list. by apply (Hs k e).
    + rewrite <-list_fmap_compose. simpl. rewrite map_to_list_fmap, <-list_fmap_compose.
      assert (∀ l, lib_key ∘ (λ e : activeServiceKey * (LibService * gmap endpointKey LibDestination), e.2.1) <$> l
        = (λ e, lib_key e.1) ∘ snd <$> l) as -> by done.
      rewrite keys_of_values by (intros k e He; apply (Hs k e He)). done.
  - intros n svc eps [Hs _] Hl. rewrite ref_lookup in Hl. apply fmap_Some in Hl as ([s ds] & Hl & ->).
    apply wp_bind, wp_get, wp_ret. rewrite Hl. split; [done|]. exists (snd <$> map_to_list ds). split.
    + f_equal. by rewrite <-list_fmap_compose.
    + destruct (Hs _ _ Hl) as (_ & _ & Hds). rewrite <-list_fmap_compose.
      rewrite (keys_of_values dest_key) by (intros k d Hd; apply (Hds k d Hd)). apply set_eq. intros k.
      rewrite elem_of_list_to_set, elem_of_dom, list_elem_of_fmap. split.
      * intros ([k' v] & -> & Hin%elem_of_map_to_list). by eexists.
      * intros [v Hv]. exists (k, v). by rewrite elem_of_map_to_list.
  - intros n svc Hrep Hw Hl. rewrite ref_lookup in Hl. apply fmap_None in Hl. apply wp_bind, wp_get.
    rewrite Hl. apply wp_bind, wp_modify, wp_ret. split; [done|].
    destruct (ref_set_service n (lib_key svc) (svc, ∅)) as [Hr Hab]; [done|..].
    { split; [done|]. split; [done|]. apply map_Forall_empty. }
    split; [done|]. rewrite Hab. simpl. by rewrite dom_empty_L.
  - intros n svc Hrep Hw. apply wp_bind, wp_get. unfold spec_del_service. rewrite ref_lookup.
    destruct (rk_services n !! lib_key svc) eqn:E.
    + apply wp_bind, wp_modify, wp_ret. split; [by split; [|eexists]|]. split.
      * split; [by apply map_Forall_delete, Hrep|apply Hrep].
      * apply vstate_eq; [|done..]. simpl. by rewrite fmap_delete.
    + apply wp_ret. split; [by split; [intros []|]|]. split; [done|]. apply vstate_eq; [|done..]. simpl.
      rewrite delete_id; [done|]. by rewrite lookup_fmap, E.
  - intros n svc d Hrep _ Hd. by apply ref_NewDestination_spec.
  - intros n svc d Hrep _ Hd. by apply ref_DelDestination_spec.
  - intros n Hrep. apply wp_bind, wp_get, wp_ret. split; [done|]. simpl.
    by destruct (find_link ENN_DUMMY (rk_links n)).
  - intros n Hrep Hd. apply wp_bind, wp_modify, wp_ret. split; [done|]. split; [done|]. simpl in Hd.
    apply fmap_None in Hd. eexists. apply vstate_eq; [done..|]. simpl. by rewrite find_link_last.
  - intros n link Hrep Hd. apply wp_bind, wp_modify, wp_ret. split; [done|]. split.
    + split; [apply Hrep|apply map_Forall_empty].
    + simpl in Hd. apply fmap_Some in Hd as (a & Hf & ->). apply vstate_eq; [done|apply dom_empty_L|].
      pose proof (find_link_filter _ _ _ Hf) as Hnone. simpl in *. by rewrite Hnone.
  - intros n link a Hrep _ Ha. apply wp_bind, wp_get. simpl. destruct (rk_addrs n !! _) eqn:E.
    + apply wp_ret. by rewrite decide_True by (apply elem_of_dom; eauto).
    + apply wp_bind, wp_modify, wp_ret. rewrite decide_False by (by apply not_elem_of_dom). split.
      * split; [apply Hrep|]. apply map_Forall_insert_2; [done|apply Hrep].
      * split; [done|]. apply vstate_eq; [done| |done]. simpl. by rewrite dom_insert_L.
  - intros n link a Hrep _ Ha. apply wp_bind, wp_get. simpl. destruct (rk_addrs n !! _) eqn:E.
    + apply wp_bind, wp_modify, wp_ret. rewrite decide_True by (apply elem_of_dom; eauto). split.
      * split; [apply Hrep|by apply map_Forall_delete, Hrep].
      * split; [done|]. apply vstate_eq; [done| |done]. simpl. by rewrite dom_delete_L.
    + apply wp_ret. rewrite decide_False by (by apply not_elem_of_dom). split; [done|]. by split; [eexists|].
  - intros n link [_ Ha] _. apply wp_bind, wp_get, wp_ret. split; [done|]. eexists. split; [done|]. split.
    + apply Forall_fmap, Forall_forall. intros [k a] Hin%elem_of_map_to_list. by apply (Ha k a).
    + rewrite <-list_fmap_compose.
      rewrite (keys_of_values (Net.IP_String ∘ addr_ip)) by (intros k a Hk; apply (Ha k a Hk)).
      apply NoDup_Permutation; [apply NoDup_fst_map_to_list|apply NoDup_elements|].
      intros k. simpl. rewrite elem_of_elements, elem_of_dom, list_elem_of_fmap. split.
      * intros ([k' v] & -> & Hin%elem_of_map_to_list). by eexists.
      * intros [v Hv]. exists (k, v). by rewrite elem_of_map_to_list.
Defined.

Lemma boot_rep links routes : ref_rep (boot links routes).
Proof. split; apply map_Forall_empty. Qed.

End Ref.
