(* ===== verification/Host.v ===== *)
(** * The host: operating system services the proxy calls

    What the proxy asks of the node (network interfaces, sockets, external
    commands) answers from outside the program. Each question is a class
    method taking the number of the question, so an answer may change from one
    call to the next; everything is proved for every answer unless a
    hypothesis says otherwise. [IO] counts the questions and records the
    effects on the host, oldest first. *)

From S2P Require Import Prelude GoNet ProxyTypes.
From Stdlib Require Import Ascii.

(** An open socket, and the Go interface value that may hold one. *)
Abbreviation socket := nat (only parsing).
Abbreviation Closeable := (option socket).

Inductive event :=
| EOpen (lp : LocalPort) (fd : Closeable)
| EClose (fd : socket)
| EExec (path : string) (args : list string)
| EServe (handler : NamespacedName) (fd : socket)      (* a goroutine serves HTTP on the socket *)
| ERecord (object reason message : string).

Global Instance event_eq_dec : EqDecision event.
Proof. solve_decision. Defined.

Record IO := { tick : nat; trace : list event }.

Global Instance IO_eq_dec : EqDecision IO.
Proof. solve_decision. Defined.

Definition emit (e : event) : M IO unit :=
  modify (λ w, {| tick := tick w; trace := trace w ++ [e] |}).

(** Put a numbered question. *)
Definition ask {A} (q : nat → A) : M IO A := λ w,
  (Ret (q (tick w)), {| tick := S (tick w); trace := trace w |}).

(** Run a computation that consumes iteration orders. *)
Definition tickM {A} (c : T A) : M IO A := λ w,
  let '(a, n) := c (tick w) in (Ret a, {| tick := n; trace := trace w |}).

Definition rangeM `{MapRange} `{Countable K} {V} (m : gmap K V) : M IO (list (K * V)) :=
  tickM (range m).

(** [exec.Interface] of k8s.io/utils. *)
Class Exec := {
  LookPath : nat → string → result string;
  CombinedOutput : nat → string → list string → string * error;
}.

(** The parts of packages net and os that ask the kernel. *)
Class NetOS := {
  InterfaceAddrs : nat → result (list string);
  Interfaces : nat → result (list string);      (* the names *)
  Listen : nat → string → string → result socket;
  ResolveUDPAddr : nat → string → string → result string;
  ListenUDP : nat → string → string → result socket;
  Hostname : nat → result string;
}.

(** [util.PortOpener]. *)
Class PortOpener := {
  OpenLocalPort : LocalPort → M IO (result Closeable);
}.

(** An opener returns, with an open socket or an error; one that always
    succeeds on the two known protocols. *)
Class PortOpenerSpec `{PortOpener} : Prop :=
  OpenLocalPort_returns lp w :
    wp (OpenLocalPort lp) (λ r _, match r with OK fd => is_Some fd | Err _ => True end) w.
Definition opens_all `{PortOpener} : Prop :=
  ∀ lp w, lp_Protocol lp = "tcp" ∨ lp_Protocol lp = "udp" → wp (OpenLocalPort lp) (λ r _, ∃ fd, r = OK fd) w.

(** [v.Close()]: calling a method of a nil interface value panics. *)
Definition Close (v : Closeable) : M IO unit :=
  match v with
  | None => panic "invalid memory address or nil pointer dereference"
  | Some fd => emit (EClose fd)
  end.

(** ** Formatting: the verb [%q] (strconv.Quote)

    Exact on ASCII text; a byte outside ASCII is escaped as it is when it is
    not part of a valid UTF-8 sequence. *)
Definition hex2 (c : ascii) : string :=
  let n := Z.of_nat (nat_of_ascii c) in
  String (Net.hex_digit (n / 16)) (String (Net.hex_digit (n mod 16)) "").

Definition bslash : ascii := ascii_of_nat 92.
Definition dquote : ascii := ascii_of_nat 34.

Definition quote_char (c : ascii) : string :=
  let n := nat_of_ascii c in
  let esc (d : ascii) := String bslash (String d "") in
  if decide (c = dquote) then esc dquote
  else if decide (c = bslash) then esc bslash
  else if (32 <=? n)%nat && (n <=? 126)%nat then String c ""
  else if (n =? 7)%nat then esc "a"%char
  else if (n =? 8)%nat then esc "b"%char
  else if (n =? 12)%nat then esc "f"%char
  else if (n =? 10)%nat then esc "n"%char
  else if (n =? 13)%nat then esc "r"%char
  else if (n =? 9)%nat then esc "t"%char
  else if (n =? 11)%nat then esc "v"%char
  else String bslash (String "x"%char (hex2 c)).

Fixpoint quote_body (s : string) : string :=
  match s with
  | EmptyString => EmptyString
  | String c s => quote_char c +:+ quote_body s
  end.

Definition Quote (s : string) : string :=
  String dquote (quote_body s +:+ String dquote "").

Lemma quote_body_app s1 s2 : quote_body (s1 +:+ s2) = quote_body s1 +:+ quote_body s2.
Proof.
  induction s1 as [|c s1 IH]; [done|].
  rewrite StringFacts.sapp_cons. simpl. rewrite IH. apply StringFacts.sapp_assoc.
Qed.

(** ** wp rules *)
Lemma wp_emit e (Q : unit → IO → Prop) w :
  Q tt {| tick := tick w; trace := trace w ++ [e] |} → wp (emit e) Q w.
Proof. done. Qed.

Lemma wp_ask {A} (q : nat → A) (Q : A → IO → Prop) w :
  Q (q (tick w)) {| tick := S (tick w); trace := trace w |} → wp (ask q) Q w.
Proof. done. Qed.

Lemma wp_tickM {A} (c : T A) (Q : A → IO → Prop) w :
  (∀ a n, c (tick w) = (a, n) → Q a {| tick := n; trace := trace w |}) → wp (tickM c) Q w.
Proof. intros H. unfold wp, tickM. destruct (c (tick w)) as [a n]. by apply H. Qed.

Lemma wp_rangeM `{MapRange} `{Countable K} {V} (m : gmap K V) (Q : list (K * V) → IO → Prop) w :
  Q (map_range (tick w) m) {| tick := S (tick w); trace := trace w |} → wp (rangeM m) Q w.
Proof. done. Qed.
