(* ===== verification/Strconv.v ===== *)
(** * The parts of package strconv that parse numbers

    [ParseUint], [ParseInt] in base 10 and [Atoi], on a 64-bit platform. *)

From S2P Require Import Prelude GoNet Host.
From Stdlib Require Import Ascii.

Module Strconv.

Inductive num_err := ErrSyntax | ErrRange.

Definition max_uint : Z := 2 ^ 64 - 1.

Fixpoint parse_uint_loop (s : string) (n : Z) : Z + num_err :=
  match s with
  | EmptyString => inl n
  | String c s =>
      match Net.digit_val c with
      | None => inr ErrSyntax
      | Some d =>
          let n1 := (n * 10 + d)%Z in
          if (max_uint <? n1)%Z then inr ErrRange else parse_uint_loop s n1
      end
  end.

Definition parse_uint (s : string) : Z + num_err :=
  match s with
  | EmptyString => inr ErrSyntax
  | _ => parse_uint_loop s 0
  end.

(** The sign, then the digits; the magnitude must fit an int64. *)
Definition parse_int (s : string) : Z + num_err :=
  let '(neg, digits) := match s with
                        | String "+" s' => (false, s')
                        | String "-" s' => (true, s')
                        | _ => (false, s)
                        end in
  match parse_uint digits with
  | inr e => inr e
  | inl un =>
      if negb neg && (2 ^ 63 <=? un)%Z then inr ErrRange
      else if neg && (2 ^ 63 <? un)%Z then inr ErrRange
      else inl (if neg : bool then (- un)%Z else un)
  end.

(** [NumError.Error]. *)
Definition num_error (func s : string) (e : num_err) : string :=
  "strconv." +:+ func +:+ ": parsing " +:+ Quote s +:+ ": " +:+
  match e with ErrSyntax => "invalid syntax" | ErrRange => "value out of range" end.

Definition ParseUint (s : string) : result Z :=
  match parse_uint s with inl n => OK n | inr e => Err (num_error "ParseUint" s e) end.
Definition Atoi (s : string) : result Z :=
  match parse_int s with inl n => OK n | inr e => Err (num_error "Atoi" s e) end.

(** ** Facts *)
Import StringFacts.

Lemma digit_val_pretty x : (x < 10)%N → Net.digit_val (pretty_N_char x) = Some (Z.of_N x).
Proof.
  intros Hx. assert (x ∈ (N.of_nat <$> seq 0 10)) as Hin.
  { apply list_elem_of_fmap. exists (N.to_nat x). split; [lia|]. apply elem_of_seq. lia. }
  repeat (apply elem_of_cons in Hin as [->|Hin]; [reflexivity|]). by apply elem_of_nil in Hin.
Qed.

Lemma parse_uint_pretty x s :
  (Z.of_N x ≤ max_uint)%Z → parse_uint_loop (pretty_N_go x s) 0 = parse_uint_loop s (Z.of_N x).
Proof.
  revert s. induction (N.lt_wf_0 x) as [x _ IH]; intros s Hx.
  destruct (decide (x = 0)%N) as [->|Hne]; [done|].
  pose proof (N.div_mod x 10 ltac:(lia)) as Hdm. pose proof (N.mod_lt x 10 ltac:(lia)) as Hm.
  rewrite pretty_N_go_step by lia. pose proof (N.div_lt x 10 ltac:(lia) ltac:(lia)) as Hlt.
  specialize (IH (x / 10)%N Hlt). set (q := (x / 10)%N) in *. set (m := (x mod 10)%N) in *. clearbody q m.
  rewrite IH by lia. cbn [parse_uint_loop]. rewrite digit_val_pretty by done.
  replace (Z.of_N q * 10 + Z.of_N m)%Z with (Z.of_N x) by lia.
  by destruct (Z.ltb_spec max_uint (Z.of_N x)); [lia|].
Qed.

Definition first_not (c : ascii) (s : string) : Prop :=
  match s with EmptyString => False | String d _ => d ≠ c end.

Lemma pretty_N_first x s : (0 < x)%N → first_not "0" (pretty_N_go x s).
Proof.
  revert s. induction (N.lt_wf_0 x) as [x _ IH]; intros s Hx. rewrite pretty_N_go_step by lia.
  destruct (decide (x < 10)%N) as [Hlt|Hge].
  - rewrite N.div_small, N.mod_small by done. rewrite pretty_N_go_0. intros Hc.
    pose proof (digit_val_pretty x Hlt) as Hd. rewrite Hc in Hd.
    assert (Some 0%Z = Some (Z.of_N x)) as [= ?] by (by rewrite <-Hd). lia.
  - apply IH; [apply N.div_lt; lia|]. apply N.div_str_pos. lia.
Qed.

Lemma Itoa_N z : (0 < z)%Z → Itoa z = pretty_N_go (Z.to_N z) "".
Proof.
  intros Hz. unfold Itoa. destruct z as [|p|p]; [lia| |lia].
  unfold pretty, pretty_Z, pretty, pretty_positive, pretty, pretty_N. by rewrite decide_False.
Qed.

Lemma parse_uint_Itoa z : (0 ≤ z ≤ max_uint)%Z → parse_uint (Itoa z) = inl z.
Proof.
  intros Hz. destruct (decide (z = 0)%Z) as [->|Hne]; [done|].
  rewrite Itoa_N by lia. pose proof (pretty_N_first (Z.to_N z) "" ltac:(lia)) as Hf.
  destruct (pretty_N_go (Z.to_N z) "") as [|c s] eqn:E; [done|]. cbn [parse_uint].
  rewrite <-E. rewrite parse_uint_pretty by lia. cbn [parse_uint_loop]. f_equal. lia.
Qed.

Lemma ParseUint_Itoa z : (0 ≤ z ≤ max_uint)%Z → ParseUint (Itoa z) = OK z.
Proof. intros Hz. unfold ParseUint. by rewrite parse_uint_Itoa. Qed.

Lemma Itoa_ne z : (0 ≤ z)%Z → Itoa z ≠ "".
Proof.
  intros Hz E. destruct (decide (z = 0)%Z) as [->|Hne]; [done|].
  rewrite Itoa_N in E by lia. pose proof (pretty_N_first (Z.to_N z) "" ltac:(lia)) as Hf. by rewrite E in Hf.
Qed.

Lemma parse_uint_range s n m :
  (0 ≤ n ≤ max_uint)%Z → parse_uint_loop s n = inl m → (0 ≤ m ≤ max_uint)%Z.
Proof.
  revert n. induction s as [|c s IH]; intros n Hn; simpl; [by intros [= ->]|].
  destruct (Net.digit_val c) as [d|] eqn:E; [|done].
  destruct (Z.ltb_spec max_uint (n * 10 + d)); [done|]. apply IH.
  unfold Net.digit_val in E. case_match; [|done]. injection E as <-. lia.
Qed.

Lemma ParseUint_range s m : ParseUint s = OK m → (0 ≤ m ≤ max_uint)%Z.
Proof.
  unfold ParseUint. destruct (parse_uint s) as [n|] eqn:E; [|done]. intros [= <-]. destruct s; [done|].
  eapply parse_uint_range; [|done]. unfold max_uint. lia.
Qed.

(** [Atoi] reads what [Itoa] wrote. *)
Lemma Atoi_Itoa z : (0 ≤ z < 2 ^ 63)%Z → Atoi (Itoa z) = OK z.
Proof.
  intros Hz. unfold Atoi, parse_int. assert (z ≤ max_uint)%Z as Hmax by (unfold max_uint; lia).
  pose proof (parse_uint_Itoa z ltac:(lia)) as Hp. pose proof (Itoa_digits z ltac:(lia)) as Hd.
  pose proof (Itoa_ne z ltac:(lia)) as Hne. destruct (Itoa z) as [|c s]; [done|].
  assert (∀ neg : bool, neg = false → (if negb neg && (2 ^ 63 <=? z)%Z then inr ErrRange
    else if neg && (2 ^ 63 <? z)%Z then inr ErrRange else inl (if neg then (- z)%Z else z)) = (inl z : Z + num_err)) as H.
  { intros neg ->. simpl. by destruct (Z.leb_spec (2 ^ 63) z); [lia|]. }
  apply andb_true_iff in Hd as [Hc _].
  destruct c as [[] [] [] [] [] [] [] []]; first [discriminate Hc | cbv beta iota; by rewrite Hp, H].
Qed.
End Strconv.
