(* ===== verification/Ports.v ===== *)
(** * Local ports (pkg/proxy/util/ports.go) *)

From S2P Require Import Prelude GoNet ProxyTypes Host.

Module Ports.

Definition String (lp : LocalPort) : string :=
  Quote (lp_Desc lp) +:+ " (" +:+ lp_Ip lp +:+ ":" +:+ Itoa (lp_Port lp) +:+ "/" +:+
  lp_Protocol lp +:+ ")".

Definition openLocalPort `{NetOS} (lp : LocalPort) : M IO (result Closeable) :=
  let address := Net.JoinHostPort (lp_Ip lp) (Itoa (lp_Port lp)) in
  if decide (lp_Protocol lp = "tcp") then
    r ← ask (λ n, Listen n "tcp" address);
    match r with
    | Err err => mret (Err err)
    | OK listener => emit (EOpen lp (Some listener)) ;; mret (OK (Some listener))
    end
  else if decide (lp_Protocol lp = "udp") then
    r ← ask (λ n, ResolveUDPAddr n "udp" address);
    match r with
    | Err err => mret (Err err)
    | OK addr =>
        r ← ask (λ n, ListenUDP n "udp" addr);
        match r with
        | Err err => mret (Err err)
        | OK conn => emit (EOpen lp (Some conn)) ;; mret (OK (Some conn))
        end
    end
  else mret (Err ("unknown protocol " +:+ Quote (lp_Protocol lp))).

(** [ListenPortOpener]. *)
#[export] Instance ListenPortOpener `{NetOS} : PortOpener := {| OpenLocalPort := openLocalPort |}.

#[export] Instance ListenPortOpener_spec `{NetOS} : PortOpenerSpec.
Proof.
  intros lp w. cbn [OpenLocalPort ListenPortOpener]. unfold openLocalPort. case_decide; [|case_decide].
  - apply wp_bind, wp_ask. destruct (Listen _ _ _); [|done]. by apply wp_bind, wp_emit, wp_ret.
  - apply wp_bind, wp_ask. destruct (ResolveUDPAddr _ _ _) as [addr|]; [|done].
    apply wp_bind, wp_ask. destruct (ListenUDP _ _ _); [|done]. by apply wp_bind, wp_emit, wp_ret.
  - done.
Qed.

(** A lookup in a map of closeables: an absent key reads as nil. *)
Definition held (m : gmap LocalPort Closeable) (lp : LocalPort) : Closeable := mjoin (m !! lp).

(** Close the entries of [m] that [keep] does not hold. *)
Definition close_unless (keep m : gmap LocalPort Closeable) `{MapRange} : M IO unit :=
  l ← rangeM m;
  for_each l (λ '(k, v), match held keep k with
                         | None => Close v
                         | Some _ => mret tt
                         end).

Definition revertPorts `{MapRange} (replacementPortsMap originalPortsMap : gmap LocalPort Closeable)
    : M IO unit :=
  close_unless originalPortsMap replacementPortsMap.

(** ** Which sockets are closed *)

(** The sockets of [m] at ports [keep] does not hold. *)
Definition dropped (keep : gmap LocalPort Closeable) (l : list (LocalPort * Closeable)) : list socket :=
  omap (λ e, match held keep e.1 with None => e.2 | Some _ => None end) l.

Definition no_nil (m : gmap LocalPort Closeable) : Prop := map_Forall (λ _ v, is_Some v) m.

Lemma wp_close_unless `{MapRange} keep m (Q : unit → IO → Prop) w :
  no_nil m →
  (∀ fds w', fds ≡ₚ dropped keep (map_to_list m) → trace w' = trace w ++ (EClose <$> fds) → Q tt w') →
  wp (close_unless keep m) Q w.
Proof.
  intros Hnn HQ. apply wp_bind, wp_rangeM. set (l := map_range (tick w) m).
  apply (wp_for_each (λ don w', trace w' = trace w ++ (EClose <$> dropped keep don))).
  - simpl. by rewrite app_nil_r.
  - intros don [k v] rest w' Hl Ht.
    assert (is_Some v) as [fd ->].
    { apply (Hnn k). apply (elem_of_map_range (tick w)). fold l. rewrite Hl. set_solver. }
    unfold dropped. rewrite omap_app. simpl. destruct (held keep k) eqn:E; simpl.
    + apply wp_ret. by rewrite app_nil_r.
    + apply wp_emit. simpl. rewrite Ht, fmap_app, (assoc_L (++)). done.
  - intros w' Ht. apply (HQ _ _) with (2 := Ht). unfold dropped, l. by rewrite map_range_perm.
Qed.

End Ports.
