(* ===== verification/Conntrack.v ===== *)
(** * Conntrack cleanup (pkg/proxy/util/conntrack.go)

    The commands that flush the connection-tracking entries of removed UDP
    services and endpoints. *)

From S2P Require Import Prelude GoNet ProxyTypes Services EndpointsMap Host.
From Stdlib Require Import Ascii.

Module Conntrack.

Definition noConnectionToDelete : string := "0 flow entries have been deleted".

Definition IPPart (s : string) : string :=
  if decide (Net.ParseIP s = []) then
    match Net.SplitHostPort s with
    | Err _ => ""
    | OK (host, _) =>
        let ip := Net.ParseIP host in
        if decide (ip = []) then "" else Net.IP_String ip
    end
  else s.

Definition IsIPv6 (netIP : IP) : bool :=
  bool_decide (netIP ≠ []) && bool_decide (Net.To4 netIP = []).

Definition IsIPv6String (ip : string) : bool := IsIPv6 (Net.ParseIP ip).

Definition parametersWithFamily (isIPv6 : bool) (parameters : list string) : list string :=
  if isIPv6 then parameters ++ ["-f"; "ipv6"] else parameters.

Section exec.
Context `{EX : Exec}.

Definition ExecConntrackTool (parameters : list string) : M IO error :=
  r ← ask (λ n, LookPath n "conntrack");
  match r with
  | Err err => mret (Some ("error looking for path of conntrack: " +:+ err))
  | OK conntrackPath =>
      emit (EExec conntrackPath parameters) ;;
      '(output, err) ← ask (λ n, CombinedOutput n conntrackPath parameters);
      mret (match err with
            | Some err => Some ("conntrack command returned: " +:+ Quote output +:+
                            ", error message: " +:+ err)
            | None => None
            end)
  end.

(** [err != nil && !strings.Contains(err.Error(), noConnectionToDelete)]. *)
Definition real_error (err : error) : option string :=
  match err with
  | Some msg => if Strings.Contains msg noConnectionToDelete then None else Some msg
  | None => None
  end.

Definition ClearUDPConntrackForIP (ip : string) : M IO error :=
  err ← ExecConntrackTool (parametersWithFamily (IsIPv6String ip) ["-D"; "--orig-dst"; ip; "-p"; "udp"]);
  mret (match real_error err with
        | Some msg => Some ("error deleting connection tracking state for UDP service IP: " +:+ ip +:+
                        ", error: " +:+ msg)
        | None => None
        end).

Definition ClearUDPConntrackForPeers (origin dest : string) : M IO error :=
  err ← ExecConntrackTool (parametersWithFamily (IsIPv6String origin)
          ["-D"; "--orig-dst"; origin; "--dst-nat"; dest; "-p"; "udp"]);
  mret (match real_error err with
        | Some msg => Some ("error deleting conntrack entries for UDP peer {" +:+ origin +:+ ", " +:+
                        dest +:+ "}, error: " +:+ msg)
        | None => None
        end).

(** Errors are only logged. *)
Definition ClearUdpConntrackForPort (port : Z) : M IO unit :=
  if (0 <? port)%Z then
    ExecConntrackTool ["-D"; "-p"; "udp"; "--dport"; Itoa port] ;; mret tt
  else mret tt.

Definition DeleteEndpointConnections `{MapRange} (serviceMap : Services.ProxyServiceMap)
    (connectionMap : gset Endpoints.EndpointServicePair) : M IO unit :=
  l ← rangeM (gset_to_gmap true connectionMap);
  for_each l.*1 (λ epSvcPair,
    match serviceMap !! Endpoints.pair_ServicePortName epSvcPair with
    | Some svcInfo =>
        if decide (Services.Protocol svcInfo = lower_udp) then
          let endpointIP := default "" (head (Strings.Split (Endpoints.Endpoint epSvcPair) ":"%char)) in
          ExecConntrackTool ["-D"; "--orig-dst"; Net.IP_String (Services.ClusterIP svcInfo);
            "--dst-nat"; endpointIP; "-p"; "udp"] ;; mret tt
        else mret tt
    | None => mret tt
    end).

Definition DeleteServiceConnections (svcIPs : list string) : M IO unit :=
  for_each svcIPs (λ ip, ExecConntrackTool ["-D"; "--orig-dst"; ip; "-p"; "udp"] ;; mret tt).

(** ** Facts *)

(** Running the tool returns, and runs at most the command given. *)
Definition conntrack_run (args : list string) (w w' : IO) : Prop :=
  match LookPath (tick w) "conntrack" with
  | OK path => trace w' = trace w ++ [EExec path args]
  | Err _ => trace w' = trace w
  end.

Lemma conntrack_found path args w w' :
  (∀ n, LookPath n "conntrack" = OK path) → conntrack_run args w w' → trace w' = trace w ++ [EExec path args].
Proof. intros Hpath. unfold conntrack_run. by rewrite Hpath. Qed.

Lemma wp_ExecConntrackTool args (Q : error → IO → Prop) w :
  (∀ e w', conntrack_run args w w' → Q e w') → wp (ExecConntrackTool args) Q w.
Proof.
  unfold conntrack_run. intros HQ. apply wp_bind, wp_ask.
  destruct (LookPath (tick w) "conntrack") as [path|msg].
  - apply wp_bind, wp_emit, wp_bind, wp_ask.
    destruct (CombinedOutput _ path args) as [out err]. by apply wp_ret, HQ.
  - by apply wp_ret, HQ.
Qed.

Lemma wp_ClearUDPConntrackForIP ip (Q : error → IO → Prop) w :
  (∀ e w', conntrack_run (parametersWithFamily (IsIPv6String ip) ["-D"; "--orig-dst"; ip; "-p"; "udp"]) w w' →
     Q e w') → wp (ClearUDPConntrackForIP ip) Q w.
Proof. intros HQ. apply wp_bind, wp_ExecConntrackTool. intros e w' Hw. apply wp_ret, HQ, Hw. Qed.

Lemma wp_ClearUDPConntrackForPeers origin dest (Q : error → IO → Prop) w :
  (∀ e w', conntrack_run (parametersWithFamily (IsIPv6String origin)
       ["-D"; "--orig-dst"; origin; "--dst-nat"; dest; "-p"; "udp"]) w w' → Q e w') →
  wp (ClearUDPConntrackForPeers origin dest) Q w.
Proof. intros HQ. apply wp_bind, wp_ExecConntrackTool. intros e w' Hw. apply wp_ret, HQ, Hw. Qed.

Lemma wp_ClearUdpConntrackForPort port (Q : unit → IO → Prop) w :
  (∀ w', trace w' = trace w ∨ conntrack_run ["-D"; "-p"; "udp"; "--dport"; Itoa port] w w' → Q tt w') →
  wp (ClearUdpConntrackForPort port) Q w.
Proof.
  intros HQ. unfold ClearUdpConntrackForPort. destruct (0 <? port)%Z.
  - apply wp_bind, wp_ExecConntrackTool. intros e w' Hw. apply wp_ret, HQ. by right.
  - apply wp_ret, HQ. by left.
Qed.

Lemma Contains_HasPrefix s sub : Strings.HasPrefix s sub = true → Strings.Contains s sub = true.
Proof. intros H. destruct s as [|c s]; cbn [Strings.Contains]; by rewrite H. Qed.

Lemma Contains_app pre s sub :
  Strings.Contains s sub = true → Strings.Contains (pre +:+ s) sub = true.
Proof.
  intros Hs. induction pre as [|c pre IH]; [done|].
  rewrite StringFacts.sapp_cons. cbn [Strings.Contains]. by rewrite IH, orb_true_r.
Qed.

Lemma Contains_infix pre sub post : Strings.Contains (pre +:+ sub +:+ post) sub = true.
Proof. apply Contains_app, Contains_HasPrefix, StringFacts.HasPrefix_app_r, StringFacts.HasPrefix_refl. Qed.

Lemma Contains_prefix s post sub :
  Strings.Contains s sub = true → Strings.Contains (s +:+ post) sub = true.
Proof.
  intros Hs. induction s as [|c s IH].
  - destruct sub; [|done]. apply Contains_HasPrefix. by destruct post.
  - rewrite StringFacts.sapp_cons. cbn [Strings.Contains] in *.
    apply orb_true_iff in Hs as [Hp|Hc]; apply orb_true_iff; [left|right; auto].
    by apply (StringFacts.HasPrefix_app_r (String c s)).
Qed.

(** Quoting keeps the message that tells an empty deletion. *)
Lemma Contains_Quote_message pre post :
  Strings.Contains (Quote (pre +:+ noConnectionToDelete +:+ post)) noConnectionToDelete = true.
Proof.
  unfold Quote. rewrite !quote_body_app.
  assert (quote_body noConnectionToDelete = noConnectionToDelete) as -> by (vm_compute; reflexivity).
  rewrite <-!StringFacts.sapp_assoc.
  apply (Contains_app (String dquote "") _ _), Contains_infix.
Qed.

End exec.

(** For an IPv4 endpoint, [IPPart] recovers the address from the "ip:port"
    string under which [UpdateEndpointsMap] reports the endpoint as stale, so
    conntrack entries are flushed for the right peer. *)
Theorem IPPart_endpoint (ip : IP) (port : Z) (local : bool) :
  Net.wf_ip4 ip → (0 ≤ port)%Z →
  IPPart (Endpoints.endpoint_string
    {| Endpoints.Ip := Net.IP_String ip; Endpoints.Port := port; Endpoints.IsLocal := local |})
  = Net.IP_String ip.
Proof.
  intros Hip Hport. unfold IPPart, Endpoints.endpoint_string. simpl.
  rewrite NetFacts.SplitHostPort_JoinHostPort, NetFacts.ParseIP_IP_String by done.
  rewrite NetFacts.JoinHostPort_v4 by done.
  rewrite decide_True by (apply (NetFacts.ParseIP_hostport ip (Itoa port) Hip)). by rewrite decide_False by (by apply NetFacts.wf_ip4_nonempty).
Qed.

Lemma IPPart_endpoint_witness :
  IPPart (Endpoints.endpoint_string {| Endpoints.Ip := Net.IP_String (Net.IPv4 [10; 180; 0; 1]%Z);
    Endpoints.Port := 53; Endpoints.IsLocal := false |}) = Net.IP_String (Net.IPv4 [10; 180; 0; 1]%Z).
Proof.
  apply (IPPart_endpoint (Net.IPv4 [10; 180; 0; 1]%Z) 53 false); [|lia].
  exists 10%Z, 180%Z, 0%Z, 1%Z. split; [reflexivity|].
  repeat constructor; vm_compute; congruence.
Defined.

(** When the conntrack tool fails because there was nothing to delete (its
    output contains "0 flow entries have been deleted"), flushing a UDP
    service IP succeeds: one command is run, for that IP, and nil is
    returned. *)
Theorem ClearUDP_nothing_to_delete `{Exec} (ip path pre post code : string) (w : IO) :
  let args := ["-D"; "--orig-dst"; ip; "-p"; "udp"] in
  IsIPv6String ip = false →
  LookPath (tick w) "conntrack" = OK path →
  CombinedOutput (S (tick w)) path args = (pre +:+ noConnectionToDelete +:+ post, Some code) →
  ∃ w', ClearUDPConntrackForIP ip w = (Ret None, w') ∧ trace w' = trace w ++ [EExec path args].
Proof.
  intros args H6 Hpath Hout. unfold ClearUDPConntrackForIP. rewrite H6.
  cut (wp (ExecConntrackTool args ≫= λ err, mret (match real_error err with
        | Some msg => Some ("error deleting connection tracking state for UDP service IP: " +:+ ip +:+
                        ", error: " +:+ msg)
        | None => None
        end)) (λ e w', e = None ∧ trace w' = trace w ++ [EExec path args]) w).
  { intros (e & w' & Hrun & -> & Htr)%wp_run. by exists w'. }
  apply wp_bind. unfold ExecConntrackTool. apply wp_bind, wp_ask. rewrite Hpath.
  apply wp_bind, wp_emit, wp_bind, wp_ask. cbn [tick]. rewrite Hout. apply wp_ret, wp_ret.
  split; [|done]. unfold real_error. rewrite Contains_app; [done|].
  apply Contains_prefix, Contains_Quote_message.
Qed.

Definition ex_exec : Exec := {|
  LookPath _ _ := OK "/usr/sbin/conntrack";
  CombinedOutput _ _ _ :=
    ("conntrack v1.4.2 (conntrack-tools): 0 flow entries have been deleted.", Some "exit status 1") |}.

Lemma ClearUDP_nothing_to_delete_witness :
  ∃ w', @ClearUDPConntrackForIP ex_exec "10.20.30.53" {| tick := 0; trace := [] |} = (Ret None, w') ∧
    trace w' = [] ++ [EExec "/usr/sbin/conntrack" ["-D"; "--orig-dst"; "10.20.30.53"; "-p"; "udp"]].
Proof.
  apply (@ClearUDP_nothing_to_delete ex_exec "10.20.30.53" "/usr/sbin/conntrack"
    "conntrack v1.4.2 (conntrack-tools): " "." "exit status 1" {| tick := 0; trace := [] |});
    vm_compute; reflexivity.
Defined.
End Conntrack.
