(* ===== verification/Nodes.v ===== *)
(** * The node: host name, node object, node addresses
    (pkg/proxy/util/nodes.go) *)

From S2P Require Import Prelude GoNet ProxyTypes Ipvs Host.

Module Nodes.

(** The parts of [apiv1.Node] that are read. *)
Record NodeAddress := { na_Type : string; na_Address : string }.
Record Node := { node_Name : string; PodCIDR : string; node_Addresses : list NodeAddress }.

(** [clientset.Core().Nodes().Get]: the API server. *)
Class Clientset := { Nodes_Get : nat → string → result Node }.

Section nodes.
Context `{NO : NetOS} `{CS : Clientset}.

(** [glog.Fatalf] ends the process. *)
Definition GetHostname (hostnameOverride : string) : M IO string :=
  if decide (hostnameOverride = "") then
    r ← ask Hostname;
    match r with
    | Err err => panic ("Couldn't determine hostname: " +:+ err)
    | OK nodename => mret (Strings.ToLower (Strings.TrimSpace nodename))
    end
  else mret (Strings.ToLower (Strings.TrimSpace hostnameOverride)).

Definition GetNode (hostnameOverride : string) : M IO (result Node) :=
  let failed := Err "Failed to identify the node by hostname or --hostname-override" in
  hostname ← GetHostname hostnameOverride;
  if decide (hostname = "") then mret failed
  else
    r ← ask (λ n, Nodes_Get n hostname);
    match r with
    | OK node => mret (OK node)
    | Err _ => mret failed
    end.

Definition GetPodCidrFromNodeSpec (hostnameOverride : string) : M IO (result string) :=
  r ← GetNode hostnameOverride;
  mret (match r with
        | Err err => Err ("Failed to get pod CIDR allocated for the node due to: " +:+ err)
        | OK node => OK (PodCIDR node)
        end).
End nodes.

(** The verb [%v] on a slice of addresses. *)
Definition show_address (a : NodeAddress) : string := "{" +:+ na_Type a +:+ " " +:+ na_Address a +:+ "}".
Definition show_addresses (l : list NodeAddress) : string :=
  "[" +:+ String.concat " " (show_address <$> l) +:+ "]".

(** The first address of each type is the one the map of slices starts
    with. *)
Definition first_of (ty : string) (addresses : list NodeAddress) : option NodeAddress :=
  head (filter (λ a, na_Type a = ty) addresses).

Definition InternalGetNodeHostIP (node : Node) : result IP :=
  match first_of "InternalIP" (node_Addresses node) with
  | Some a => OK (Net.ParseIP (na_Address a))
  | None =>
      match first_of "ExternalIP" (node_Addresses node) with
      | Some a => OK (Net.ParseIP (na_Address a))
      | None => Err ("host IP unknown; known addresses: " +:+ show_addresses (node_Addresses node))
      end
  end.

(** [util.NodeIPInterface]: asks both the host and the IPVS interface. *)
Class NodeIPInterface (K : Type) := {
  GetNodeIPs : M (K * IO) (result (list IP));
}.

Definition on_kern {K A} (c : M K A) : M (K * IO) A := zoom fst (λ k s, (k, s.2)) c.
Definition on_io {K A} (c : M IO A) : M (K * IO) A := zoom snd (λ w s, (s.1, w)) c.

(** Interfaces whose addresses are not addresses of the node. *)
Definition skipped_interface (name : string) : bool :=
  Strings.HasPrefix name "docker" || Strings.HasPrefix name "flannel" ||
  Strings.HasPrefix name "enn-dummy" || Strings.HasPrefix name "cni" ||
  Strings.HasPrefix name "lo".

Section node_ip.
Context {K : Type} `{IF : Interface K} `{NO : NetOS} `{MR : MapRange}.

Definition node_ip_err {A} (err : string) : result A := Err ("get node ip err: " +:+ err).

(** The loop over the interfaces; an error returns from the function. *)
Fixpoint subtract_interfaces (names : list string) (nodeAddress : gset string)
    : M (K * IO) (result (gset string)) :=
  match names with
  | [] => mret (OK nodeAddress)
  | name :: names =>
      if skipped_interface name then
        r ← on_kern (GetLocalAddresses name);
        match r with
        | Err err => mret (node_ip_err err)
        | OK fakeAddress => subtract_interfaces names (nodeAddress ∖ fakeAddress)
        end
      else subtract_interfaces names nodeAddress
  end.

Definition NodeIP_GetNodeIPs : M (K * IO) (result (list IP)) :=
  r ← on_io (ask Interfaces);
  match r with
  | Err err => mret (node_ip_err err)
  | OK interfaces =>
      r ← on_kern (GetLocalAddresses "");
      match r with
      | Err err => mret (node_ip_err err)
      | OK nodeAddress =>
          r ← subtract_interfaces interfaces nodeAddress;
          match r with
          | Err err => mret (Err err)
          | OK nodeAddress =>
              l ← on_io (rangeM (gset_to_gmap tt nodeAddress));
              mret (OK (Net.ParseIP <$> l.*1))
          end
      end
  end.

#[export] Instance NodeIP : NodeIPInterface K := {| GetNodeIPs := NodeIP_GetNodeIPs |}.

(** ** Which addresses are node addresses *)
Section reads.
(** Listing the addresses of the devices [names], or of all, is an
    observation. *)
Context (local : string → gset string).
Definition lists_addresses (names : list string) (k : K) : Prop :=
  ∀ dev, dev = "" ∨ dev ∈ names → wp (GetLocalAddresses dev) (λ r k', r = OK (local dev) ∧ k' = k) k.

Definition kept (names : list string) (all : gset string) (ip : string) : Prop :=
  ip ∈ all ∧ ∀ name, name ∈ names → skipped_interface name = true → ip ∉ local name.

Lemma wp_subtract_interfaces names all k w (Q : result (gset string) → K * IO → Prop) :
  lists_addresses names k →
  (∀ s, (∀ ip, ip ∈ s ↔ kept names all ip) → Q (OK s) (k, w)) →
  wp (subtract_interfaces names all) Q (k, w).
Proof.
  revert all. induction names as [|name names IH]; intros all Hk HQ; simpl.
  { apply wp_ret, HQ. unfold kept. set_solver. }
  assert (lists_addresses names k) as Hk' by (intros dev [?|?]; apply Hk; [by left|right; by right]).
  destruct (skipped_interface name) eqn:E.
  - apply wp_bind, wp_zoom. eapply wp_mono; [apply Hk; right; by left|]. intros r k' [-> ->]. cbn.
    apply IH; [done|]. intros s Hs. apply HQ. intros ip. rewrite Hs. unfold kept. set_solver.
  - apply IH; [done|]. intros s Hs. apply HQ. intros ip. rewrite Hs. unfold kept.
    setoid_rewrite elem_of_cons. naive_solver congruence.
Qed.
End reads.

End node_ip.

(** The names skipped, by their prefixes. *)
Lemma skipped_prefixes name :
  skipped_interface name = true ↔ ∃ prefix rest, prefix ∈ ["docker"; "flannel"; "enn-dummy"; "cni"; "lo"] ∧ name = prefix +:+ rest.
Proof.
  unfold skipped_interface. rewrite !orb_true_iff, !StringFacts.HasPrefix_spec. split.
  - intros [[[[[r ->]|[r ->]]|[r ->]]|[r ->]]|[r ->]]; eexists _, r; (split; [|reflexivity]); by_eval.
  - intros (p & r & Hp & ->). repeat (apply elem_of_cons in Hp as [->|Hp]; [eauto 10|]). by apply elem_of_nil in Hp.
Qed.

(** C17: The node addresses on which node ports are served are exactly the
    parsed local addresses that no interface has whose name begins with docker,
    flannel, enn-dummy, cni or lo; no error is returned and the kernel state is
    not touched. The host lists its interfaces, and the IPVS implementation
    answers with the addresses of a device by name, or with those of all
    devices, [local], without changing anything ([lists_addresses]). *)
Theorem GetNodeIPs_exact {K : Type} `{Interface K} `{NetOS} `{MapRange} (local : string → gset string)
    (names : list string) (k : K) (w : IO) :
  Interfaces (tick w) = OK names → lists_addresses local names k →
  ∃ ips w', NodeIP_GetNodeIPs (k, w) = (Ret (OK ips), (k, w')) ∧
    ∀ ip, ip ∈ ips ↔ ∃ a, ip = Net.ParseIP a ∧ a ∈ local "" ∧
      ∀ prefix rest, prefix ∈ ["docker"; "flannel"; "enn-dummy"; "cni"; "lo"] → prefix +:+ rest ∈ names →
        a ∉ local (prefix +:+ rest).
Proof.
  intros Hn Hk.
  cut (wp NodeIP_GetNodeIPs (λ r s, s.1 = k ∧ ∃ ips, r = OK ips ∧ ∀ ip, ip ∈ ips ↔
    ∃ a, ip = Net.ParseIP a ∧ kept local names (local "") a) (k, w)).
  { intros (r & [k' w'] & Hrun & Hk' & ips & -> & Hips)%wp_run. simpl in Hk'. subst k'. exists ips, w'.
    split; [done|]. intros ip. rewrite Hips. unfold kept. setoid_rewrite skipped_prefixes. naive_solver. }
  apply wp_bind, wp_zoom, wp_ask. simpl. rewrite Hn.
  apply wp_bind, wp_zoom. eapply wp_mono; [apply Hk; by left|]. intros r k' [-> ->]. cbn.
  apply wp_bind, wp_subtract_interfaces with (local := local); [done|]. intros s Hs.
  apply wp_bind, wp_zoom, wp_rangeM, wp_ret. split; [done|]. eexists. split; [done|].
  intros ip. rewrite list_elem_of_fmap. setoid_rewrite list_elem_of_fmap. split.
  - intros (a & -> & [a' u] & -> & Hin). apply elem_of_map_range, lookup_gset_to_gmap_Some in Hin as [Hin _].
    exists a'. by rewrite <-Hs.
  - intros (a & -> & Ha). exists a. split; [done|]. exists (a, tt). split; [done|].
    apply elem_of_map_range, lookup_gset_to_gmap_Some. by rewrite Hs.
Qed.
End Nodes.
