(* ===== verification/Proxier.v ===== *)
(** * The IPVS proxier (pkg/proxy/ipvs/proxier.go)

    The state of the proxier and every operation of the sync path, event
    handlers included. The operations run on [Sys K]: the proxier's own
    fields, the IPVS interface's state [K] and the host's [IO]; the mutex is
    implicit (an operation runs to completion), and the interleavings the
    code's two locks allow are spelled out where a theorem needs them. Log
    output and the throttle (which only delays) are left out. *)

From S2P Require Import Prelude GoNet ProxyTypes ChangeTracking Services EndpointsMap Ipvs Host Ports Conntrack Nodes.
Import Services(ServiceInfo, ServiceChangeMap, ServiceChange, ProxyServiceMap).
Import Endpoints(EndpointsInfo, EndpointsChangeMap, EndpointsChange, ProxyEndpointMap,
  EndpointServicePair).
Import Nodes(NodeIPInterface, GetNodeIPs).

Module Proxier.

Abbreviation activeServiceValue := endpointKey.

Record Proxier := {
  serviceChanges : ServiceChangeMap;
  endpointsChanges : EndpointsChangeMap;
  serviceMap : ProxyServiceMap;
  endpointsMap : ProxyEndpointMap;
  portsMap : gmap LocalPort Closeable;
  kernelIpvsMap : gmap activeServiceKey (list activeServiceValue);
  kernelClusterMap : gmap string Z;
  endpointsSynced : bool;
  servicesSynced : bool;
  initialized : Z;
  masqueradeAll : bool;
  clusterCIDR : string;
  hostname : string;
  nodeIPs : list IP;
  syncPeriod : Z;                       (* a time.Duration *)
}.

(** Field updates. *)
Definition with_serviceChanges v p := {| serviceChanges := v; endpointsChanges := endpointsChanges p;
  serviceMap := serviceMap p; endpointsMap := endpointsMap p; portsMap := portsMap p;
  kernelIpvsMap := kernelIpvsMap p; kernelClusterMap := kernelClusterMap p;
  endpointsSynced := endpointsSynced p; servicesSynced := servicesSynced p; initialized := initialized p;
  masqueradeAll := masqueradeAll p; clusterCIDR := clusterCIDR p; hostname := hostname p; nodeIPs := nodeIPs p;
  syncPeriod := syncPeriod p |}.
Definition with_endpointsChanges v p := {| serviceChanges := serviceChanges p; endpointsChanges := v;
  serviceMap := serviceMap p; endpointsMap := endpointsMap p; portsMap := portsMap p;
  kernelIpvsMap := kernelIpvsMap p; kernelClusterMap := kernelClusterMap p;
  endpointsSynced := endpointsSynced p; servicesSynced := servicesSynced p; initialized := initialized p;
  masqueradeAll := masqueradeAll p; clusterCIDR := clusterCIDR p; hostname := hostname p; nodeIPs := nodeIPs p;
  syncPeriod := syncPeriod p |}.
Definition with_serviceMap v p := {| serviceChanges := serviceChanges p; endpointsChanges := endpointsChanges p;
  serviceMap := v; endpointsMap := endpointsMap p; portsMap := portsMap p;
  kernelIpvsMap := kernelIpvsMap p; kernelClusterMap := kernelClusterMap p;
  endpointsSynced := endpointsSynced p; servicesSynced := servicesSynced p; initialized := initialized p;
  masqueradeAll := masqueradeAll p; clusterCIDR := clusterCIDR p; hostname := hostname p; nodeIPs := nodeIPs p;
  syncPeriod := syncPeriod p |}.
Definition with_endpointsMap v p := {| serviceChanges := serviceChanges p; endpointsChanges := endpointsChanges p;
  serviceMap := serviceMap p; endpointsMap := v; portsMap := portsMap p;
  kernelIpvsMap := kernelIpvsMap p; kernelClusterMap := kernelClusterMap p;
  endpointsSynced := endpointsSynced p; servicesSynced := servicesSynced p; initialized := initialized p;
  masqueradeAll := masqueradeAll p; clusterCIDR := clusterCIDR p; hostname := hostname p; nodeIPs := nodeIPs p;
  syncPeriod := syncPeriod p |}.
Definition with_portsMap v p := {| serviceChanges := serviceChanges p; endpointsChanges := endpointsChanges p;
  serviceMap := serviceMap p; endpointsMap := endpointsMap p; portsMap := v;
  kernelIpvsMap := kernelIpvsMap p; kernelClusterMap := kernelClusterMap p;
  endpointsSynced := endpointsSynced p; servicesSynced := servicesSynced p; initialized := initialized p;
  masqueradeAll := masqueradeAll p; clusterCIDR := clusterCIDR p; hostname := hostname p; nodeIPs := nodeIPs p;
  syncPeriod := syncPeriod p |}.
Definition with_kernelIpvsMap v p := {| serviceChanges := serviceChanges p; endpointsChanges := endpointsChanges p;
  serviceMap := serviceMap p; endpointsMap := endpointsMap p; portsMap := portsMap p;
  kernelIpvsMap := v; kernelClusterMap := kernelClusterMap p;
  endpointsSynced := endpointsSynced p; servicesSynced := servicesSynced p; initialized := initialized p;
  masqueradeAll := masqueradeAll p; clusterCIDR := clusterCIDR p; hostname := hostname p; nodeIPs := nodeIPs p;
  syncPeriod := syncPeriod p |}.
Definition with_kernelClusterMap v p := {| serviceChanges := serviceChanges p; endpointsChanges := endpointsChanges p;
  serviceMap := serviceMap p; endpointsMap := endpointsMap p; portsMap := portsMap p;
  kernelIpvsMap := kernelIpvsMap p; kernelClusterMap := v;
  endpointsSynced := endpointsSynced p; servicesSynced := servicesSynced p; initialized := initialized p;
  masqueradeAll := masqueradeAll p; clusterCIDR := clusterCIDR p; hostname := hostname p; nodeIPs := nodeIPs p;
  syncPeriod := syncPeriod p |}.
Definition with_synced (es ss : bool) (ini : Z) p := {| serviceChanges := serviceChanges p;
  endpointsChanges := endpointsChanges p;
  serviceMap := serviceMap p; endpointsMap := endpointsMap p; portsMap := portsMap p;
  kernelIpvsMap := kernelIpvsMap p; kernelClusterMap := kernelClusterMap p;
  endpointsSynced := es; servicesSynced := ss; initialized := ini;
  masqueradeAll := masqueradeAll p; clusterCIDR := clusterCIDR p; hostname := hostname p; nodeIPs := nodeIPs p;
  syncPeriod := syncPeriod p |}.
Definition with_nodeIPs v p := {| serviceChanges := serviceChanges p; endpointsChanges := endpointsChanges p;
  serviceMap := serviceMap p; endpointsMap := endpointsMap p; portsMap := portsMap p;
  kernelIpvsMap := kernelIpvsMap p; kernelClusterMap := kernelClusterMap p;
  endpointsSynced := endpointsSynced p; servicesSynced := servicesSynced p; initialized := initialized p;
  masqueradeAll := masqueradeAll p; clusterCIDR := clusterCIDR p; hostname := hostname p; nodeIPs := v;
  syncPeriod := syncPeriod p |}.

(** The proxier with the world it acts on. *)
Record Sys (K : Type) := { px : Proxier; kern : K; io : IO }.
Arguments px {K} _.
Arguments kern {K} _.
Arguments io {K} _.
Arguments Build_Sys {K} _ _ _.

(** The local variables of [syncProxyRules] its loops fill. *)
Record Locals := {
  activeServiceMap : gmap activeServiceKey bool;
  activeBindIP : gmap string Z;
  replacementPortsMap : gmap LocalPort Closeable;
}.
Definition no_locals : Locals :=
  {| activeServiceMap := ∅; activeBindIP := ∅; replacementPortsMap := ∅ |}.

Section proxier.
Context {K : Type} `{IF : Interface K} `{MR : MapRange}.
Context `{NI : NodeIPInterface K} `{PO : PortOpener} `{EX : Exec} `{NO : NetOS}.

Definition onK {A} (c : M K A) : M (Sys K) A :=
  zoom kern (λ k s, {| px := px s; kern := k; io := io s |}) c.
Definition onIO {A} (c : M IO A) : M (Sys K) A :=
  zoom io (λ w s, {| px := px s; kern := kern s; io := w |}) c.
Definition onKIO {A} (c : M (K * IO) A) : M (Sys K) A :=
  zoom (λ s, (kern s, io s)) (λ p s, {| px := px s; kern := p.1; io := p.2 |}) c.
Definition field {A} (f : Proxier → A) : M (Sys K) A := gets (λ s, f (px s)).
Definition assign (f : Proxier → Proxier) : M (Sys K) unit :=
  modify (λ s, {| px := f (px s); kern := kern s; io := io s |}).

(** ** Rules *)

(** The [utilipvs.Service] literal built at every call site. *)
Definition ipvs_service (ip : IP) (port : Z) (serviceInfo : ServiceInfo) : Service := {|
  ClusterIP := ip;
  Port := port;
  Protocol := Services.Protocol serviceInfo;
  Scheduler := DEFAULSCHE;
  SessionAffinity := Services.SessionAffinity serviceInfo;
|}.

Definition CreateServiceRule (hasCluster : bool) (svc : Service) : M (Sys K) error :=
  if hasCluster then mret None else onK (AddIpvsService (Some svc)).

Definition server_of (e : endpointKey) : Server :=
  {| srv_Ip := ep_ip e; srv_Port := ep_port e; srv_Weight := DEFAULWEIGHT |}.

Definition endpoint_key (e : EndpointsInfo) : endpointKey :=
  {| ep_ip := Endpoints.Ip e; ep_port := Endpoints.Port e |}.

Definition key_map (l : list endpointKey) : gmap endpointKey Z :=
  foldl (λ m k, <[k := 1%Z]> m) ∅ l.

Definition CreateEndpointRule (svc : Service) (svcName : ServicePortName)
    (KernelEndpoints : list activeServiceValue) : M (Sys K) unit :=
  let oldDstMap := key_map KernelEndpoints in
  em ← field endpointsMap;
  let newDstMap := key_map (endpoint_key <$> default [] (em !! svcName)) in
  new ← onIO (rangeM newDstMap);
  for_each new.*1 (λ newEndpoint,
    match oldDstMap !! newEndpoint with
    | None => onK (AddIpvsServer (Some svc) (Some (server_of newEndpoint))) ;; mret tt
    | Some _ => mret tt
    end) ;;
  old ← onIO (rangeM oldDstMap);
  for_each old.*1 (λ oldEndpoint,
    match newDstMap !! oldEndpoint with
    | None => onK (DeleteIpvsServer (Some svc) (Some (server_of oldEndpoint))) ;; mret tt
    | Some _ => mret tt
    end).

Definition deleteIpvsService (ip : IP) (port : Z) (serviceInfo : ServiceInfo) : M (Sys K) unit :=
  onK (DeleteIpvsService (Some (ipvs_service ip port serviceInfo))) ;; mret tt.

Definition syncEndpointChange (ip : IP) (port : Z) (serviceInfo : ServiceInfo)
    (svcName : ServicePortName) : M (Sys K) unit :=
  let svc := ipvs_service ip port serviceInfo in
  m ← field kernelIpvsMap;
  CreateEndpointRule svc svcName (default [] (m !! service_key svc)).

(** ** Snapshots of the kernel *)

(** One round of the loop of [BuildIpvsMap]. On a listed nil service the log
    statement of the error branch dereferences it. *)
Definition build_ipvs_step (ipvsMap : gmap activeServiceKey (list activeServiceValue))
    (ipvsSvc : option LibService) : M (Sys K) (gmap activeServiceKey (list activeServiceValue)) :=
  match CreateInterService ipvsSvc with
  | Err _ => panic "invalid memory address or nil pointer dereference"
  | OK ipvsSvc_t =>
      let serviceKey := service_key ipvsSvc_t in
      r ← onK (ListIpvsServer ipvsSvc);
      mret (match r with
            | Err _ => <[serviceKey := []]> ipvsMap
            | OK ipvsDsts => <[serviceKey := server_key <$> ipvsDsts]> ipvsMap
            end)
  end.

Fixpoint build_ipvs (svcs : list (option LibService))
    (ipvsMap : gmap activeServiceKey (list activeServiceValue))
    : M (Sys K) (gmap activeServiceKey (list activeServiceValue)) :=
  match svcs with
  | [] => mret ipvsMap
  | svc :: svcs => m ← build_ipvs_step ipvsMap svc; build_ipvs svcs m
  end.

Definition BuildIpvsMap : M (Sys K) unit :=
  r ← onK ListIpvsService;
  match r with
  | Err _ => assign (with_kernelIpvsMap ∅)
  | OK ipvsSvcs =>
      ipvsMap ← build_ipvs ipvsSvcs ∅;
      assign (with_kernelIpvsMap ipvsMap)
  end.

Definition BuildClusterMap (dummylink : Link) : M (Sys K) unit :=
  r ← onK (ListDuumyClusterIp dummylink);
  match r with
  | Err _ => mret tt
  | OK addrs =>
      assign (with_kernelClusterMap
        (foldl (λ m addr, <[Net.IP_String (addr_ip addr) := 1%Z]> m) ∅ addrs))
  end.

(** ** Removing what is no longer wanted *)

(** The error of [ListDuumyClusterIp] is dropped; the test that follows it in
    the source reads the error of the first listing, nil at that point. *)
Definition CheckUnusedRule (active : gmap activeServiceKey bool) (bind : gmap string Z)
    (dummylink : Link) : M (Sys K) unit :=
  r ← onK ListIpvsService;
  match r with
  | Err _ => mret tt
  | OK oldSvcs =>
      for_each oldSvcs (λ oldSvc,
        match CreateInterService oldSvc with
        | Err _ => panic "invalid memory address or nil pointer dereference"
        | OK oldSvc_t =>
            match active !! service_key oldSvc_t with
            | Some _ => mret tt
            | None => onK (DeleteIpvsService (Some oldSvc_t)) ;; mret tt
            end
        end) ;;
      r ← onK (ListDuumyClusterIp dummylink);
      let oldBindIPs := match r with OK addrs => addrs | Err _ => [] end in
      for_each oldBindIPs (λ oldBindIP,
        match bind !! Net.IP_String (addr_ip oldBindIP) with
        | Some _ => mret tt
        | None => onK (DeleteDummyClusterIp (addr_ip oldBindIP) dummylink) ;; mret tt
        end)
  end.

(** ** Local ports *)

(** The loop of [isLocalIP] over the interface addresses. *)
Fixpoint match_local (ip : string) (addrs : list string) : result bool :=
  match addrs with
  | [] => OK false
  | a :: addrs =>
      match Net.ParseCIDR a with
      | Err err => Err err
      | OK intf => if Net.IP_Equal (Net.ParseIP ip) intf then OK true else match_local ip addrs
      end
  end.

Definition isLocalIP (ip : string) : M IO (result bool) :=
  r ← ask InterfaceAddrs;
  mret (match r with
        | Err err => Err err
        | OK addrs => match_local ip addrs
        end).

(** ** The sync loops

    They run on the system and the local maps of [syncProxyRules]. *)
Definition LM (A : Type) : Type := M (Sys K * Locals) A.
Definition lift {A} (c : M (Sys K) A) : LM A := zoom fst (λ s l, (s, l.2)) c.
Definition local (f : Locals → Locals) : LM unit := modify (λ s, (s.1, f s.2)).

Definition mark_service (key : activeServiceKey) (l : Locals) : Locals :=
  {| activeServiceMap := <[key := true]> (activeServiceMap l); activeBindIP := activeBindIP l;
     replacementPortsMap := replacementPortsMap l |}.
Definition mark_bind (ip : string) (l : Locals) : Locals :=
  {| activeServiceMap := activeServiceMap l; activeBindIP := <[ip := 1%Z]> (activeBindIP l);
     replacementPortsMap := replacementPortsMap l |}.
Definition mark_port (lp : LocalPort) (v : Closeable) (l : Locals) : Locals :=
  {| activeServiceMap := activeServiceMap l; activeBindIP := activeBindIP l;
     replacementPortsMap := <[lp := v]> (replacementPortsMap l) |}.

(** Hold [lp]: keep the socket held since an earlier sync or open one.
    [None] when the port is held, the error when it cannot be opened. *)
Definition hold_port (lp : LocalPort) (opened : LM unit) : LM error :=
  m ← lift (field portsMap);
  match Ports.held m lp with
  | Some fd => local (mark_port lp (Some fd)) ;; mret None
  | None =>
      r ← lift (onIO (OpenLocalPort lp));
      match r with
      | Err err => mret (Some err)
      | OK socket => opened ;; local (mark_port lp socket) ;; mret None
      end
  end.

Definition external_port (svcName : ServicePortName) (serviceInfo : ServiceInfo) (externalIP : string)
    : LocalPort := {|
  lp_Desc := "externalIP for " +:+ ServicePortName_String svcName;
  lp_Ip := externalIP;
  lp_Port := Services.Port serviceInfo;
  lp_Protocol := Strings.ToLower (Services.Protocol serviceInfo);
|}.

Definition node_port (svcName : ServicePortName) (serviceInfo : ServiceInfo) : LocalPort := {|
  lp_Desc := "nodePort for " +:+ ServicePortName_String svcName;
  lp_Ip := "";
  lp_Port := Services.NodePort serviceInfo;
  lp_Protocol := Strings.ToLower (Services.Protocol serviceInfo);
|}.

(** The port of an external IP of this machine is held; [true] when the rules
    of the external IP are to be installed. *)
Definition hold_external (svcName : ServicePortName) (serviceInfo : ServiceInfo) (externalIP : string)
    : LM bool :=
  r ← lift (onIO (isLocalIP externalIP));
  match r with
  | Err _ | OK false => mret true
  | OK true =>
      let lp := external_port svcName serviceInfo externalIP in
      err ← hold_port lp (mret tt);
      match err with
      | None => mret true
      | Some err =>
          h ← lift (field hostname);
          let msg := "can't open " +:+ Ports.String lp +:+ ", skipping this externalIP: " +:+ err in
          lift (onIO (emit (ERecord h err msg))) ;; mret false
      end
  end.

(** The port of a node port is held; UDP connections to a newly opened one are
    flushed. *)
Definition hold_node_port (svcName : ServicePortName) (serviceInfo : ServiceInfo) : LM bool :=
  let lp := node_port svcName serviceInfo in
  err ← hold_port lp
    (if decide (lp_Protocol lp = "udp")
     then lift (onIO (Conntrack.ClearUdpConntrackForPort (lp_Port lp))) else mret tt);
  mret (match err with None => true | Some _ => false end).

(** Install the rules of one virtual address of a service port. *)
Definition full_rule (svcName : ServicePortName) (svc : Service) : LM unit :=
  let key := service_key svc in
  local (mark_service key) ;;
  m ← lift (field kernelIpvsMap);
  err ← lift (CreateServiceRule (bool_decide (is_Some (m !! key))) svc);
  match err with
  | None => lift (CreateEndpointRule svc svcName (default [] (m !! key)))
  | Some _ => mret tt
  end.

Definition full_external (svcName : ServicePortName) (serviceInfo : ServiceInfo) (externalIP : string)
    : LM unit :=
  ok ← hold_external svcName serviceInfo externalIP;
  if (ok : bool) then
    full_rule svcName (ipvs_service (Net.ParseIP externalIP) (Services.Port serviceInfo) serviceInfo)
  else mret tt.

Definition full_node_port (svcName : ServicePortName) (serviceInfo : ServiceInfo) : LM unit :=
  if decide (Services.NodePort serviceInfo = 0%Z) then mret tt
  else
    ok ← hold_node_port svcName serviceInfo;
    if (ok : bool) then
      ips ← lift (field nodeIPs);
      for_each ips (λ nodeIP,
        full_rule svcName (ipvs_service nodeIP (Services.NodePort serviceInfo) serviceInfo))
    else mret tt.

(** Bind the cluster IP to the dummy device unless the snapshot has it. *)
Definition full_bind (ip : IP) (dummylink : Link) : LM error :=
  m ← lift (field kernelClusterMap);
  err ← match m !! Net.IP_String ip with
        | Some _ => mret None
        | None => lift (onK (AddDummyClusterIp ip dummylink))
        end;
  match err with
  | None => local (mark_bind (Net.IP_String ip)) ;; mret None
  | Some err => mret (Some err)
  end.

(** One round of the loop over [serviceMap]. *)
Definition full_service (dummylink : Link) (e : ServicePortName * ServiceInfo) : LM unit :=
  let '(svcName, serviceInfo) := e in
  err ← full_bind (Services.ClusterIP serviceInfo) dummylink;
  match err with
  | Some _ => mret tt
  | None =>
      full_rule svcName (ipvs_service (Services.ClusterIP serviceInfo) (Services.Port serviceInfo) serviceInfo) ;;
      for_each (Services.ExternalIPs serviceInfo) (full_external svcName serviceInfo) ;;
      full_node_port svcName serviceInfo
  end.

Definition full_sync (dummylink : Link) : LM unit :=
  sm ← lift (field serviceMap);
  l ← lift (onIO (rangeM sm));
  for_each l (full_service dummylink) ;;
  loc ← gets snd;
  lift (CheckUnusedRule (activeServiceMap loc) (activeBindIP loc) dummylink).

(** *** Incremental sync of changed services *)

(** The rules of a previous service port are deleted; the cluster IP stays
    bound, another service may share it. *)
Definition delete_previous (serviceInfo : ServiceInfo) : M (Sys K) unit :=
  deleteIpvsService (Services.ClusterIP serviceInfo) (Services.Port serviceInfo) serviceInfo ;;
  for_each (Services.ExternalIPs serviceInfo) (λ externalIP,
    deleteIpvsService (Net.ParseIP externalIP) (Services.Port serviceInfo) serviceInfo) ;;
  if decide (Services.NodePort serviceInfo = 0%Z) then mret tt
  else
    ips ← field nodeIPs;
    for_each ips (λ nodeIP, deleteIpvsService nodeIP (Services.NodePort serviceInfo) serviceInfo).

Definition add_rule (svc : Service) : LM unit := lift (CreateServiceRule false svc) ;; mret tt.

Definition add_external (svcName : ServicePortName) (serviceInfo : ServiceInfo) (externalIP : string)
    : LM unit :=
  ok ← hold_external svcName serviceInfo externalIP;
  if (ok : bool) then
    add_rule (ipvs_service (Net.ParseIP externalIP) (Services.Port serviceInfo) serviceInfo)
  else mret tt.

Definition add_node_port (svcName : ServicePortName) (serviceInfo : ServiceInfo) : LM unit :=
  if decide (Services.NodePort serviceInfo = 0%Z) then mret tt
  else
    ok ← hold_node_port svcName serviceInfo;
    if (ok : bool) then
      ips ← lift (field nodeIPs);
      for_each ips (λ nodeIP, add_rule (ipvs_service nodeIP (Services.NodePort serviceInfo) serviceInfo))
    else mret tt.

Definition add_current (dummylink : Link) (e : ServicePortName * ServiceInfo) : LM unit :=
  let '(svcName, serviceInfo) := e in
  let ip := Services.ClusterIP serviceInfo in
  err ← lift (onK (AddDummyClusterIp ip dummylink));
  match err with
  | Some _ => mret tt
  | None =>
      local (mark_bind (Net.IP_String ip)) ;;
      add_rule (ipvs_service ip (Services.Port serviceInfo) serviceInfo) ;;
      for_each (Services.ExternalIPs serviceInfo) (add_external svcName serviceInfo) ;;
      add_node_port svcName serviceInfo
  end.

Definition sync_service_change (dummylink : Link) (change : ServiceChange) : LM unit :=
  prev ← lift (onIO (rangeM (gm (Previous change))));
  for_each prev.*2 (λ info, lift (delete_previous info)) ;;
  cur ← lift (onIO (rangeM (gm (Current change))));
  for_each cur (add_current dummylink).

Definition sync_service_changes (dummylink : Link) : LM unit :=
  items ← lift (field serviceChanges);
  if decide (items = ∅) then mret tt
  else
    l ← lift (onIO (rangeM items));
    for_each l.*2 (sync_service_change dummylink) ;;
    lift (assign (with_serviceChanges ∅)).

(** *** Incremental sync of changed endpoints *)

(** Reprogram the endpoints at every virtual address of a service port. *)
Definition sync_port_endpoints (svcName : ServicePortName) : M (Sys K) unit :=
  sm ← field serviceMap;
  match sm !! svcName with
  | None => mret tt
  | Some serviceInfo =>
      syncEndpointChange (Services.ClusterIP serviceInfo) (Services.Port serviceInfo) serviceInfo svcName ;;
      for_each (Services.ExternalIPs serviceInfo) (λ externalIP,
        syncEndpointChange (Net.ParseIP externalIP) (Services.Port serviceInfo) serviceInfo svcName) ;;
      if decide (Services.NodePort serviceInfo = 0%Z) then mret tt
      else
        ips ← field nodeIPs;
        for_each ips (λ nodeIP,
          syncEndpointChange nodeIP (Services.NodePort serviceInfo) serviceInfo svcName)
  end.

Definition sync_endpoint_change (change : EndpointsChange) : M (Sys K) unit :=
  prev ← onIO (rangeM (gm (Previous change)));
  for_each prev.*1 (λ svcName,
    match gm (Current change) !! svcName with
    | Some _ => mret tt
    | None => sync_port_endpoints svcName
    end) ;;
  cur ← onIO (rangeM (gm (Current change)));
  for_each cur.*1 sync_port_endpoints.

Definition sync_endpoint_changes : M (Sys K) unit :=
  items ← field endpointsChanges;
  if decide (items = ∅) then mret tt
  else
    l ← onIO (rangeM items);
    for_each l.*2 sync_endpoint_change ;;
    assign (with_endpointsChanges ∅).

(** *** syncProxyRules *)

Definition deleteEndpointConnections (connectionMap : gset EndpointServicePair) : M (Sys K) unit :=
  l ← onIO (rangeM (gset_to_gmap true connectionMap));
  for_each l.*1 (λ epSvcPair,
    sm ← field serviceMap;
    match sm !! Endpoints.pair_ServicePortName epSvcPair with
    | Some svcInfo =>
        if decide (Services.Protocol svcInfo = lower_udp) then
          onIO (Conntrack.ClearUDPConntrackForPeers (Net.IP_String (Services.ClusterIP svcInfo))
            (Conntrack.IPPart (Endpoints.Endpoint epSvcPair))) ;; mret tt
        else mret tt
    | None => mret tt
    end).

(** The first part: apply the pending changes to the two maps and collect the
    stale cluster IPs and endpoints. *)
Definition sync_update : M (Sys K) (gset string * gset EndpointServicePair) :=
  sm ← field serviceMap;
  sc ← field serviceChanges;
  '(sm, sres) ← onIO (tickM (Services.UpdateServiceMap sm sc));
  assign (with_serviceMap sm) ;;
  em ← field endpointsMap;
  ec ← field endpointsChanges;
  '(em, eres) ← onIO (tickM (Endpoints.UpdateEndpointsMap em ec));
  assign (with_endpointsMap em) ;;
  names ← onIO (rangeM (gset_to_gmap true (Endpoints.StaleServiceNames eres)));
  let staleServices := foldl (λ stale svcPortName,
    match sm !! svcPortName with
    | Some svcInfo =>
        if decide (Services.Protocol svcInfo = lower_udp)
        then {[Net.IP_String (Services.ClusterIP svcInfo)]} ∪ stale else stale
    | None => stale
    end) (Services.StaleServices sres) names.*1 in
  mret (staleServices, Endpoints.StaleEndpoints eres).

(** The three programming blocks: the whole table when nothing changed, then
    the changed services, then the changed endpoints. *)
Definition sync_rules (dummylink : Link) : LM unit :=
  sc ← lift (field serviceChanges);
  ec ← lift (field endpointsChanges);
  (if decide (sc = ∅ ∧ ec = ∅) then full_sync dummylink else mret tt) ;;
  sync_service_changes dummylink ;;
  lift sync_endpoint_changes.

(** The last part: close the ports no longer needed, flush stale
    connections. *)
Definition sync_finish (replacement : gmap LocalPort Closeable) (staleServices : gset string)
    (staleEndpoints : gset EndpointServicePair) : M (Sys K) unit :=
  m ← field portsMap;
  onIO (Ports.close_unless replacement m) ;;
  assign (with_portsMap replacement) ;;
  ips ← onIO (rangeM (gset_to_gmap tt staleServices));
  for_each ips.*1 (λ svcIP, onIO (Conntrack.ClearUDPConntrackForIP svcIP) ;; mret tt) ;;
  deleteEndpointConnections staleEndpoints.

(** The part between the dummy device and the end. *)
Definition sync_apply (dummylink : Link) (stale : gset string * gset EndpointServicePair)
    : M (Sys K) unit :=
  BuildIpvsMap ;;
  BuildClusterMap dummylink ;;
  r ← onKIO GetNodeIPs;
  assign (with_nodeIPs (match r with OK ips => ips | Err _ => [] end)) ;;
  loc ← (λ s, match sync_rules dummylink (s, no_locals) with
              | (Ret _, (s', loc)) => (Ret loc, s')
              | (Panic msg, (s', _)) => (Panic msg, s')
              end);
  sync_finish (replacementPortsMap loc) stale.1 stale.2.

Definition syncProxyRules : M (Sys K) unit :=
  es ← field endpointsSynced;
  ss ← field servicesSynced;
  if negb es || negb ss then mret tt
  else
    stale ← sync_update;
    r ← onK GetDummyLink;
    match r with
    | Err _ => mret tt
    | OK dummylink => sync_apply dummylink stale
    end.

(** ** Event handlers *)

Definition isInitialized : M (Sys K) bool := field (λ p, (0 <? initialized p)%Z).

Definition service_event (nsn : NamespacedName) (previous current : option Api.Service) : M (Sys K) unit :=
  sc ← field serviceChanges;
  let '(sc, changed) := Services.Update sc nsn previous current in
  assign (with_serviceChanges sc) ;;
  if (changed : bool) then
    ini ← isInitialized;
    if (ini : bool) then syncProxyRules else mret tt
  else mret tt.

Definition OnServiceAdd (service : Api.Service) : M (Sys K) unit :=
  service_event (Api.service_nsn service) None (Some service).
Definition OnServiceUpdate (oldService service : Api.Service) : M (Sys K) unit :=
  service_event (Api.service_nsn service) (Some oldService) (Some service).
Definition OnServiceDelete (service : Api.Service) : M (Sys K) unit :=
  service_event (Api.service_nsn service) (Some service) None.

Definition setInitialized (value : bool) (p : Proxier) : Proxier :=
  with_synced (endpointsSynced p) (servicesSynced p) (if value then 1 else 0)%Z p.

Definition OnServiceSynced : M (Sys K) unit :=
  assign (λ p, with_synced (endpointsSynced p) true (initialized p) p) ;;
  assign (λ p, setInitialized (servicesSynced p && endpointsSynced p) p) ;;
  syncProxyRules.

Definition endpoints_event (nsn : NamespacedName) (previous current : option Api.Endpoints) : M (Sys K) unit :=
  ec ← field endpointsChanges;
  h ← field hostname;
  let '(ec, changed) := Endpoints.Update h ec nsn previous current in
  assign (with_endpointsChanges ec) ;;
  if (changed : bool) then
    ini ← isInitialized;
    if (ini : bool) then syncProxyRules else mret tt
  else mret tt.

Definition OnEndpointsAdd (endpoints : Api.Endpoints) : M (Sys K) unit :=
  endpoints_event (Api.endpoints_nsn endpoints) None (Some endpoints).
Definition OnEndpointsUpdate (oldEndpoints endpoints : Api.Endpoints) : M (Sys K) unit :=
  endpoints_event (Api.endpoints_nsn endpoints) (Some oldEndpoints) (Some endpoints).
Definition OnEndpointsDelete (endpoints : Api.Endpoints) : M (Sys K) unit :=
  endpoints_event (Api.endpoints_nsn endpoints) (Some endpoints) None.

Definition OnEndpointsSynced : M (Sys K) unit :=
  assign (λ p, with_synced true (servicesSynced p) (initialized p) p) ;;
  syncProxyRules.

(** [cleanUpIpvs] and [cleanUpDummyLink] of [CleanupLeftovers]. *)
Definition cleanUpIpvs : M (Sys K) unit := onK FlushIpvs ;; mret tt.
Definition cleanUpDummyLink : M (Sys K) unit := onK DeleteDummyLink ;; mret tt.

End proxier.

(** The proxier [NewProxier] returns. *)
Definition new_proxier (masqueradeAll : bool) (clusterCIDR hostname : string) (syncPeriod : Z) : Proxier := {|
  serviceChanges := Services.NewServiceChangeMap; endpointsChanges := Endpoints.NewEndpointsChangeMap; serviceMap := ∅; endpointsMap := ∅; portsMap := ∅;
  kernelIpvsMap := ∅; kernelClusterMap := ∅; endpointsSynced := false; servicesSynced := false;
  initialized := 0; masqueradeAll := masqueradeAll; clusterCIDR := clusterCIDR; hostname := hostname;
  nodeIPs := []; syncPeriod := syncPeriod |}.

End Proxier.
