(* ===== verification/ProxierFacts.v ===== *)
(** * What one sync step does

    Specifications of the proxier's building blocks against the contract of
    the IPVS interface ([IpvsSpec]). *)

From S2P Require Import Prelude GoNet ProxyTypes ChangeTracking Services EndpointsMap Ipvs Host Ports Conntrack Nodes Proxier.
Import Proxier.
Import Services(ServiceInfo).
Import Nodes(NodeIPInterface, GetNodeIPs).

Lemma foldl_insert_dom {A B} `{Countable A} (l : list A) (v : B) (m : gmap A B) k :
  is_Some (foldl (λ m k, <[k := v]> m) m l !! k) ↔ k ∈ l ∨ is_Some (m !! k).
Proof.
  revert m. induction l as [|x l IH]; intros m; simpl; [set_solver|].
  rewrite IH, lookup_insert_is_Some, elem_of_cons.
  destruct (decide (x = k)); naive_solver.
Qed.

Lemma key_map_is_Some l k : is_Some (key_map l !! k) ↔ k ∈ l.
Proof.
  unfold key_map. rewrite foldl_insert_dom, lookup_empty.
  split; [intros [?|[]]|]; naive_solver.
Qed.

Lemma key_map_None l k : key_map l !! k = None ↔ k ∉ l.
Proof. rewrite <-key_map_is_Some, eq_None_not_Some. done. Qed.

(** The keys visited by [range] over a key map. *)
Lemma key_map_range `{MapRange} n l k : k ∈ (map_range n (key_map l)).*1 ↔ k ∈ l.
Proof.
  rewrite list_elem_of_fmap, <-key_map_is_Some. split.
  - intros ([k' v] & -> & Hin%elem_of_map_range). by eexists.
  - intros [v Hv]. exists (k, v). split; [done|]. by apply elem_of_map_range.
Qed.

Section facts.
Context {K : Type} `{IF : Interface K} `{IS : !IpvsSpec K} `{MR : MapRange}.
Context `{NI : NodeIPInterface K} `{PO : PortOpener} `{EX : Exec} `{NO : NetOS}.
Implicit Types s : Sys K.

Lemma wp_onK {A} (c : M K A) (Q : A → Sys K → Prop) s :
  wp c (λ a k, Q a {| px := px s; kern := k; io := io s |}) (kern s) → wp (onK c) Q s.
Proof. intros Hc. by apply wp_zoom. Qed.
Lemma wp_onIO {A} (c : M IO A) (Q : A → Sys K → Prop) s :
  wp c (λ a w, Q a {| px := px s; kern := kern s; io := w |}) (io s) → wp (onIO c) Q s.
Proof. intros Hc. by apply wp_zoom. Qed.
Lemma wp_field {A} (f : Proxier → A) (Q : A → Sys K → Prop) s : Q (f (px s)) s → wp (field f) Q s.
Proof. done. Qed.
Lemma wp_assign f (Q : unit → Sys K → Prop) s :
  Q tt {| px := f (px s); kern := kern s; io := io s |} → wp (assign f) Q s.
Proof. done. Qed.

(** Only the order counter of the host moved. *)
Definition quiet (s s' : Sys K) : Prop := px s' = px s ∧ trace (io s') = trace (io s).

Lemma quiet_refl s : quiet s s.
Proof. done. Qed.
Lemma quiet_trans s1 s2 s3 : quiet s1 s2 → quiet s2 s3 → quiet s1 s3.
Proof. intros [H1 H2] [H3 H4]. split; congruence. Qed.

(** The kernel state of [s] is the abstract state [a]. *)
Definition kern_is (s : Sys K) (a : vstate) : Prop := rep (kern s) ∧ abs (kern s) = a.

(** ** Endpoint rules *)

Definition eps_of (p : Proxier) (svcName : ServicePortName) : gset endpointKey :=
  list_to_set (endpoint_key <$> default [] (endpointsMap p !! svcName)).

Definition wf_endpoints (p : Proxier) (svcName : ServicePortName) : Prop :=
  Forall (λ e, wf_server (server_of (endpoint_key e))) (default [] (endpointsMap p !! svcName)).

Definition set_eps (key : activeServiceKey) (eps : gset endpointKey) : vstate → vstate :=
  with_vs (<[key := eps]>).

Lemma set_eps_set_eps key e1 e2 a : set_eps key e2 (set_eps key e1 a) = set_eps key e2 a.
Proof. unfold set_eps, with_vs. simpl. by rewrite insert_insert_eq. Qed.

Lemma set_eps_id key eps a : vs a !! key = Some eps → set_eps key eps a = a.
Proof. intros H. unfold set_eps, with_vs. rewrite insert_id by done. by destruct a. Qed.

Lemma spec_add_server_set key e eps a :
  vs a !! key = Some eps → spec_add_server key e a = set_eps key ({[e]} ∪ eps) a.
Proof.
  intros H. unfold spec_add_server, set_eps, with_vs. f_equal. apply map_eq. intros k.
  destruct (decide (k = key)) as [->|?].
  - by rewrite lookup_insert_eq, lookup_alter_eq, H.
  - by rewrite lookup_insert_ne, lookup_alter_ne.
Qed.

Lemma spec_del_server_set key e eps a :
  vs a !! key = Some eps → spec_del_server key e a = set_eps key (eps ∖ {[e]}) a.
Proof.
  intros H. unfold spec_del_server, set_eps, with_vs. f_equal. apply map_eq. intros k.
  destruct (decide (k = key)) as [->|?].
  - by rewrite lookup_insert_eq, lookup_alter_eq, H.
  - by rewrite lookup_insert_ne, lookup_alter_ne.
Qed.

Lemma server_of_key e : server_key (server_of e) = e.
Proof. by destruct e. Qed.

(** A loop that reprograms one endpoint per round. *)
Lemma wp_endpoint_loop key (l : list endpointKey) (body : endpointKey → M (Sys K) unit)
    (eps : list endpointKey → gset endpointKey) s a :
  kern_is s (set_eps key (eps []) a) →
  (∀ don e rest s', l = don ++ e :: rest → quiet s s' → kern_is s' (set_eps key (eps don) a) →
     wp (body e) (λ _ s'', quiet s' s'' ∧ kern_is s'' (set_eps key (eps (don ++ [e])) a)) s') →
  wp (for_each l body) (λ _ s', quiet s s' ∧ kern_is s' (set_eps key (eps l) a)) s.
Proof.
  intros H0 Hstep.
  apply (wp_for_each (λ don s', quiet s s' ∧ kern_is s' (set_eps key (eps don) a))); [done| |done].
  intros don e rest s' Hl [Hq Hk]. eapply wp_mono; [by eapply Hstep|].
  intros [] s'' [Hq' Hk']. split; [by eapply quiet_trans|done].
Qed.

(** The endpoints to add: those of [l] that the kernel does not have. *)
Lemma wp_add_endpoints s a svc (l : list endpointKey) (old : list endpointKey) :
  kern_is s a → wf_service svc → NoDup l → (∀ e, e ∈ l → wf_server (server_of e)) →
  vs a !! service_key svc = Some (list_to_set old) →
  wp (for_each l (λ e, match key_map old !! e with
      | None => onK (AddIpvsServer (Some svc) (Some (server_of e))) ;; mret tt
      | Some _ => mret tt
      end))
    (λ _ s', quiet s s' ∧ kern_is s' (set_eps (service_key svc) (list_to_set old ∪ list_to_set l) a)) s.
Proof.
  intros [Hrep Ha] Hsvc Hnd Hwf Hv. set (key := service_key svc) in *.
  apply (wp_endpoint_loop key l _ (λ don, list_to_set old ∪ list_to_set don) s a).
  { split; [done|]. simpl. rewrite union_empty_r_L, set_eps_id; done. }
  intros don e rest s' Hl Hq [Hrep' Ha'].
  assert (e ∉ don) as Hne.
  { rewrite Hl in Hnd. apply NoDup_app in Hnd as (_ & Hd & _). intros Hin. apply (Hd e Hin). set_solver. }
  destruct (key_map old !! e) eqn:Eo.
  - apply wp_ret. split; [done|]. split; [done|]. rewrite Ha'. f_equal.
    assert (e ∈ old) by (apply key_map_is_Some; eauto). set_solver.
  - apply key_map_None in Eo. apply wp_bind, wp_onK.
    eassert (vs (abs (kern s')) !! key = Some _) as Hl'.
    { rewrite Ha'. simpl. by rewrite lookup_insert_eq. }
    eapply wp_mono.
    { eapply (AddIpvsServer_spec _ svc (server_of e)); [done..| |exact Hl'|].
      - apply Hwf. rewrite Hl. set_solver.
      - rewrite server_of_key. set_solver. }
    intros err k (_ & Hrep'' & Ha''). apply wp_ret. split; [done|]. split; [done|].
    cbn [kern]. rewrite Ha'', server_of_key, (spec_add_server_set _ _ _ _ Hl'), Ha', set_eps_set_eps.
    f_equal. set_solver.
Qed.

(** The endpoints to delete: those of [l] that are not wanted. *)
Lemma wp_del_endpoints s a svc (l new : list endpointKey) (eps : gset endpointKey) :
  kern_is s a → wf_service svc → NoDup l → list_to_set l ⊆ eps →
  vs a !! service_key svc = Some eps →
  wp (for_each l (λ e, match key_map new !! e with
      | None => onK (DeleteIpvsServer (Some svc) (Some (server_of e))) ;; mret tt
      | Some _ => mret tt
      end))
    (λ _ s', quiet s s' ∧
      kern_is s' (set_eps (service_key svc) (eps ∖ (list_to_set l ∖ list_to_set new)) a)) s.
Proof.
  intros [Hrep Ha] Hsvc Hnd Hsub Hv. set (key := service_key svc) in *.
  apply (wp_endpoint_loop key l _ (λ don, eps ∖ (list_to_set don ∖ list_to_set new)) s a).
  { split; [done|]. rewrite set_eps_id; [done|]. rewrite Hv. f_equal. set_solver. }
  intros don e rest s' Hl Hq [Hrep' Ha'].
  assert (e ∉ don) as Hne.
  { rewrite Hl in Hnd. apply NoDup_app in Hnd as (_ & Hd & _). intros Hin. apply (Hd e Hin). set_solver. }
  assert (e ∈ eps) as He by (apply Hsub; rewrite Hl; set_solver).
  destruct (key_map new !! e) eqn:Eo.
  - apply wp_ret. split; [done|]. split; [done|]. rewrite Ha'. f_equal.
    assert (e ∈ new) by (apply key_map_is_Some; eauto). set_solver.
  - apply key_map_None in Eo. apply wp_bind, wp_onK.
    eassert (vs (abs (kern s')) !! key = Some _) as Hl'.
    { rewrite Ha'. simpl. by rewrite lookup_insert_eq. }
    eapply wp_mono.
    { eapply (DeleteIpvsServer_spec _ svc (server_of e)); [done..|exact Hl'|].
      rewrite server_of_key. set_solver. }
    intros err k (_ & Hrep'' & Ha''). apply wp_ret. split; [done|]. split; [done|].
    cbn [kern]. rewrite Ha'', server_of_key, (spec_del_server_set _ _ _ _ Hl'), Ha', set_eps_set_eps.
    f_equal. set_solver.
Qed.

Lemma CreateEndpointRule_spec s a svc svcName kernelEps :
  kern_is s a → wf_service svc → wf_endpoints (px s) svcName →
  vs a !! service_key svc = Some (list_to_set kernelEps) →
  wp (CreateEndpointRule svc svcName kernelEps)
    (λ _ s', quiet s s' ∧ kern_is s' (set_eps (service_key svc) (eps_of (px s) svcName) a)) s.
Proof.
  intros Ha Hsvc Hwf Hv. unfold CreateEndpointRule, eps_of.
  apply wp_bind, wp_field. set (new := endpoint_key <$> default [] (endpointsMap (px s) !! svcName)).
  apply wp_bind, wp_onIO, wp_rangeM, wp_bind.
  eapply wp_mono; [apply wp_add_endpoints with (a := a); [done|done|apply NoDup_map_range| |done]|].
  { intros e He%key_map_range. apply list_elem_of_fmap in He as (i & -> & Hi). by eapply Forall_forall in Hwf. }
  intros [] s2 [Hq2 Ha2]. apply wp_bind, wp_onIO, wp_rangeM.
  eapply wp_mono; [eapply wp_del_endpoints; [exact Ha2|done|apply NoDup_map_range| |]|].
  2: { simpl. by rewrite lookup_insert_eq. }
  { intros e. rewrite elem_of_union, !elem_of_list_to_set, key_map_range. by left. }
  intros [] s4 [Hq4 Ha4]. split; [by eapply quiet_trans|].
  rewrite set_eps_set_eps in Ha4. destruct Ha4 as [? Ha4]. split; [done|]. rewrite Ha4. f_equal.
  apply set_eq. intros e. rewrite elem_of_difference, elem_of_union, elem_of_difference, !elem_of_list_to_set,
    !key_map_range. destruct (decide (e ∈ new)); naive_solver.
Qed.

(** ** Snapshots *)

Lemma build_ipvs_spec svcs m s a :
  kern_is s a → Forall wf_lib svcs → (∀ svc, svc ∈ svcs → is_Some (vs a !! lib_key svc)) →
  wp (build_ipvs (Some <$> svcs) m) (λ m' s', quiet s s' ∧ kern_is s' a ∧
    ∀ key, list_to_set <$> m' !! key =
      if decide (key ∈ lib_key <$> svcs) then vs a !! key else list_to_set <$> m !! key) s.
Proof.
  revert m s. induction svcs as [|svc svcs IH]; intros m s Hk Hwf Hin; simpl.
  { by apply wp_ret. }
  apply Forall_cons in Hwf as [Hsvc Hwf]. destruct (Hin svc) as [eps Heps]; [set_solver|].
  apply wp_bind. unfold build_ipvs_step. simpl. apply wp_bind, wp_onK.
  destruct Hk as [Hrep Ha]. eapply wp_mono.
  { apply ListIpvsServer_spec with (eps := eps); [done..|]. by rewrite Ha. }
  intros r k (Hrep' & Ha' & servers & -> & Hset). apply wp_ret. eapply wp_mono.
  { apply IH; [split; [done|]; by etrans|done|]. intros svc' Hsvc'. apply Hin. set_solver. }
  intros m' s' (Hq & Hk' & Hm'). split_and!; [done..|]. intros key. rewrite Hm'.
  fold (lib_key svc). destruct (decide (key ∈ lib_key <$> svcs)) as [Hin'|Hin'].
  - rewrite decide_True by set_solver. done.
  - destruct (decide (key = lib_key svc)) as [->|Hne].
    + rewrite lookup_insert_eq, decide_True by set_solver. simpl. rewrite Heps. by f_equal.
    + rewrite lookup_insert_ne by done. rewrite decide_False by set_solver. done.
Qed.

(** The snapshot [kernelIpvsMap] is the kernel's table. *)
Definition snapshot (p : Proxier) (a : vstate) : Prop :=
  ∀ key, list_to_set <$> kernelIpvsMap p !! key = vs a !! key.

Lemma BuildIpvsMap_spec s a :
  kern_is s a →
  wp BuildIpvsMap (λ _ s', trace (io s') = trace (io s) ∧ kern_is s' a ∧ snapshot (px s') a ∧
    ∃ m, px s' = with_kernelIpvsMap m (px s)) s.
Proof.
  intros [Hrep Ha]. unfold BuildIpvsMap. apply wp_bind, wp_onK.
  eapply wp_mono; [by apply ListIpvsService_spec|]. intros r k (Hrep' & Ha' & svcs & -> & Hwf & Hperm).
  apply wp_bind. eapply wp_mono.
  { apply build_ipvs_spec with (a := a); [split; [done|]; by etrans|done|].
    intros svc Hsvc. assert (lib_key svc ∈ (map_to_list (vs (abs (kern s)))).*1) as Hin.
    { rewrite <-Hperm. by apply list_elem_of_fmap_2. }
    apply list_elem_of_fmap in Hin as ([k' e] & -> & Hin%elem_of_map_to_list). rewrite <-Ha. by exists e. }
  intros m s' ([Hpx Htr] & Hk & Hm). apply wp_assign. split_and!; [done..| |].
  - intros key. simpl. rewrite Hm. case_decide as Hin; [done|]. rewrite lookup_empty. simpl.
    symmetry. apply eq_None_not_Some. intros [e He]. apply Hin. rewrite Hperm.
    apply list_elem_of_fmap. exists (key, e). split; [done|]. apply elem_of_map_to_list. by rewrite Ha.
  - exists m. simpl. by rewrite Hpx.
Qed.

Lemma BuildClusterMap_spec s a link :
  kern_is s a → dummy a = Some link →
  wp (BuildClusterMap link) (λ _ s', trace (io s') = trace (io s) ∧ kern_is s' a ∧
    (∀ ip, is_Some (kernelClusterMap (px s') !! ip) ↔ ip ∈ bound a) ∧
    ∃ m, px s' = with_kernelClusterMap m (px s)) s.
Proof.
  intros [Hrep Ha] Hd. unfold BuildClusterMap. apply wp_bind, wp_onK.
  eapply wp_mono; [apply ListDuumyClusterIp_spec; [done|by rewrite Ha]|].
  intros r k (Hrep' & Ha' & addrs & -> & Hwf & Hperm). apply wp_assign.
  split_and!; [done|split; [done|by etrans]| |by eexists].
  intros ip. simpl. rewrite <-(foldl_fmap (λ m ip, <[ip := 1%Z]> m) ∅ addrs (λ x, Net.IP_String (addr_ip x))).
  rewrite foldl_insert_dom, lookup_empty.
  replace ((λ x, Net.IP_String (addr_ip x)) <$> addrs) with ((Net.IP_String ∘ addr_ip) <$> addrs) by done.
  rewrite Hperm, elem_of_elements, Ha. split; [intros [?|[]]; done|auto].
Qed.

(** ** Removing unused rules *)
Definition restrict (act : gset activeServiceKey) (b : gset string) (a : vstate) : vstate :=
  {| vs := filter (λ e, e.1 ∈ act) (vs a); bound := bound a ∩ b; dummy := dummy a |}.

Lemma delete_unused_services (active : gmap activeServiceKey bool) svcs s a :
  kern_is s a → Forall wf_lib svcs →
  wp (for_each (Some <$> svcs) (λ oldSvc,
        match CreateInterService oldSvc with
        | Err _ => panic "invalid memory address or nil pointer dereference"
        | OK oldSvc_t =>
            match active !! service_key oldSvc_t with
            | Some _ => mret tt
            | None => onK (DeleteIpvsService (Some oldSvc_t)) ;; mret tt
            end
        end))
    (λ _ s', quiet s s' ∧ kern_is s'
      (with_vs (filter (λ e, e.1 ∈ dom active ∨ e.1 ∉ lib_key <$> svcs)) a)) s.
Proof.
  revert s a. induction svcs as [|svc svcs IH]; intros s a Hk Hwf.
  { apply wp_ret. split; [done|]. destruct Hk as [Hrep Ha]. split; [done|]. rewrite Ha.
    unfold with_vs. rewrite map_filter_id; [by destruct a|]. set_solver. }
  apply Forall_cons in Hwf as [Hsvc Hwf]. cbn [fmap list_fmap for_each CreateInterService].
  apply wp_bind. fold (lib_key svc). destruct (active !! lib_key svc) as [b|] eqn:E.
  - apply wp_ret. eapply wp_mono; [by apply (IH s a)|]. intros [] s' [Hq [Hrep' Ha']].
    split; [done|]. split; [done|]. rewrite Ha'. unfold with_vs. f_equal. apply map_filter_ext.
    intros key eps _. simpl. assert (lib_key svc ∈ dom active) by (apply elem_of_dom; eauto).
    rewrite not_elem_of_cons. destruct (decide (key = lib_key svc)) as [->|]; naive_solver.
  - apply wp_bind, wp_onK. destruct Hk as [Hrep Ha].
    eapply wp_mono; [by apply DeleteIpvsService_spec|]. intros err k (_ & Hrep' & Ha'). apply wp_ret.
    eapply wp_mono; [apply (IH _ (spec_del_service (lib_key svc) a)); [|done]|].
    { split; [done|]. simpl. by rewrite Ha', Ha. }
    intros [] s' [Hq [Hrep'' Ha'']]. split; [done|]. split; [done|]. rewrite Ha''.
    unfold spec_del_service, with_vs. simpl. f_equal. apply not_elem_of_dom in E.
    apply map_eq. intros key. apply option_eq. intros eps. rewrite !map_lookup_filter_Some, lookup_delete_Some.
    simpl. rewrite not_elem_of_cons. destruct (decide (key = lib_key svc)) as [->|]; naive_solver.
Qed.

Lemma unbind_unused (bind : gmap string Z) link addrs s a :
  kern_is s a → dummy a = Some link → Forall (Net.wf_addr ∘ addr_ip) addrs →
  NoDup ((Net.IP_String ∘ addr_ip) <$> addrs) →
  (∀ x, x ∈ addrs → Net.IP_String (addr_ip x) ∈ bound a) →
  wp (for_each addrs (λ oldBindIP,
        match bind !! Net.IP_String (addr_ip oldBindIP) with
        | Some _ => mret tt
        | None => onK (DeleteDummyClusterIp (addr_ip oldBindIP) link) ;; mret tt
        end))
    (λ _ s', quiet s s' ∧ kern_is s'
      (with_bound (λ b, b ∖ (list_to_set ((Net.IP_String ∘ addr_ip) <$> addrs) ∖ dom bind)) a)) s.
Proof.
  revert s a. induction addrs as [|x addrs IH]; intros s a Hk Hd Hwf Hnd Hin.
  { apply wp_ret. split; [done|]. destruct Hk as [Hrep Ha]. split; [done|]. rewrite Ha.
    destruct a as [v b d]. unfold with_bound. simpl. f_equal. set_solver. }
  apply Forall_cons in Hwf as [Hx Hwf]. rewrite fmap_cons in Hnd. apply NoDup_cons in Hnd as [Hn Hnd].
  cbn [for_each]. apply wp_bind. set (ip := Net.IP_String (addr_ip x)) in *.
  destruct (bind !! ip) eqn:E.
  - apply wp_ret. eapply wp_mono; [apply (IH s a); [done..|set_solver]|]. intros [] s' [Hq [Hrep' Ha']].
    split; [done|]. split; [done|]. rewrite Ha'. unfold with_bound. f_equal.
    assert (ip ∈ dom bind) by (apply elem_of_dom; eauto). fold ip. set_solver.
  - apply wp_bind, wp_onK. destruct Hk as [Hrep Ha]. apply not_elem_of_dom in E.
    eapply wp_mono; [apply DeleteDummyClusterIp_spec; [done..|by rewrite Ha|]|].
    { rewrite Ha. apply Hin. set_solver. }
    intros err k (_ & Hrep' & Ha'). apply wp_ret.
    eapply wp_mono; [apply (IH _ (spec_unbind ip a)); [|done..|]|].
    { split; [done|]. simpl. by rewrite Ha', Ha. }
    { intros y Hy. simpl. apply elem_of_difference. split; [apply Hin; set_solver|].
      apply not_elem_of_singleton. intros Heq. apply Hn. apply list_elem_of_fmap. by exists y. }
    intros [] s' [Hq [Hrep'' Ha'']]. split; [done|]. split; [done|]. rewrite Ha''.
    unfold spec_unbind, with_bound. simpl. f_equal. fold ip. set_solver.
Qed.

Lemma CheckUnusedRule_spec active bind link s a :
  kern_is s a → dummy a = Some link →
  wp (CheckUnusedRule active bind link)
    (λ _ s', quiet s s' ∧ kern_is s' (restrict (dom active) (dom bind) a)) s.
Proof.
  intros [Hrep Ha] Hd. unfold CheckUnusedRule. apply wp_bind, wp_onK.
  eapply wp_mono; [by apply ListIpvsService_spec|]. intros r k (Hrep' & Ha' & svcs & -> & Hwf & Hperm).
  apply wp_bind. eapply wp_mono.
  { apply delete_unused_services with (a := a); [split; [done|]; by etrans|done]. }
  intros [] s1 [Hq1 [Hrep1 Ha1]]. apply wp_bind, wp_onK.
  eapply wp_mono; [apply ListDuumyClusterIp_spec; [done|by rewrite Ha1]|].
  intros r k2 (Hrep2 & Ha2 & addrs & -> & Hwfa & Hperm2).
  assert (bound (abs (kern s1)) = bound a) as Hb by (by rewrite Ha1).
  eapply wp_mono.
  { eapply (unbind_unused bind link addrs _ (abs (kern s1))); [by split|by rewrite Ha1|done|..].
    - rewrite Hperm2. apply NoDup_elements.
    - intros x Hx. apply elem_of_elements. rewrite <-Hperm2. by apply (list_elem_of_fmap_2 (Net.IP_String ∘ addr_ip)). }
  intros [] s2 [Hq2 [Hrep3 Ha3]]. split; [by eapply quiet_trans|]. split; [done|]. rewrite Ha3, Ha1.
  unfold restrict, with_bound, with_vs. simpl. f_equal.
  - apply map_filter_ext. intros key eps Hl. simpl. split; [|by left]. intros [?|Hn]; [done|].
    destruct Hn. rewrite Hperm, Ha. apply list_elem_of_fmap. exists (key, eps).
    split; [done|]. by apply elem_of_map_to_list.
  - apply set_eq. intros ip. rewrite elem_of_difference, elem_of_difference, elem_of_intersection,
      elem_of_list_to_set, Hperm2, Hb, elem_of_elements. destruct (decide (ip ∈ dom bind)); naive_solver.
Qed.

End facts.
