(* ===== verification/FullSync.v ===== *)
(** * The full sync converges

    When no change is pending, [syncProxyRules] programs every service port
    and removes everything else. The loop is followed with the invariant that
    the kernel's table agrees with the wanted one on the keys handled so far
    and with the initial one elsewhere. *)

From S2P Require Import Prelude GoNet ProxyTypes ChangeTracking Services EndpointsMap Ipvs Host Ports Conntrack Nodes Proxier ProxierFacts.
Import Proxier.
Import Services(ServiceInfo).
Import Nodes(NodeIPInterface, GetNodeIPs).

(** ** The wanted table *)

(** The virtual addresses of a service port. *)
Definition external_rules (info : ServiceInfo) : list Service :=
  (λ e, ipvs_service (Net.ParseIP e) (Services.Port info) info) <$> Services.ExternalIPs info.
Definition node_rules (ips : list IP) (info : ServiceInfo) : list Service :=
  if decide (Services.NodePort info = 0%Z) then []
  else (λ ip, ipvs_service ip (Services.NodePort info) info) <$> ips.
Definition cluster_rule (info : ServiceInfo) : Service :=
  ipvs_service (Services.ClusterIP info) (Services.Port info) info.
Definition service_rules (ips : list IP) (info : ServiceInfo) : list Service :=
  cluster_rule info :: external_rules info ++ node_rules ips info.

Definition rule_keys (ips : list IP) (info : ServiceInfo) : list activeServiceKey :=
  service_key <$> service_rules ips info.

Lemma bind_singleton {A B} (f : A → B) (l : list A) : (l ≫= λ x, [f x]) = f <$> l.
Proof. induction l as [|x l IH]; [done|]. by rewrite bind_cons, IH. Qed.

Lemma external_keys info :
  service_key <$> external_rules info =
  Services.ExternalIPs info ≫= λ e, [service_key (ipvs_service (Net.ParseIP e) (Services.Port info) info)].
Proof. unfold external_rules. by rewrite <-list_fmap_compose, bind_singleton. Qed.

Lemma node_keys ips info :
  Services.NodePort info ≠ 0%Z →
  service_key <$> node_rules ips info =
  ips ≫= λ ip, [service_key (ipvs_service ip (Services.NodePort info) info)].
Proof. intros Hn. unfold node_rules. rewrite decide_False by done. by rewrite <-list_fmap_compose, bind_singleton. Qed.

Lemma elem_of_external_rules info e :
  e ∈ Services.ExternalIPs info → ipvs_service (Net.ParseIP e) (Services.Port info) info ∈ external_rules info.
Proof. apply (list_elem_of_fmap_2 (λ e, ipvs_service (Net.ParseIP e) _ info)). Qed.

Lemma elem_of_node_rules ips info ip :
  Services.NodePort info ≠ 0%Z → ip ∈ ips →
  ipvs_service ip (Services.NodePort info) info ∈ node_rules ips info.
Proof.
  intros Hn. unfold node_rules. rewrite decide_False by done.
  apply (list_elem_of_fmap_2 (λ ip, ipvs_service ip _ info)).
Qed.

Abbreviation entry := (ServicePortName * ServiceInfo)%type.

Definition rule_table (p : Proxier) (l : list entry) : list (activeServiceKey * gset endpointKey) :=
  l ≫= λ e, (λ key, (key, eps_of p e.1)) <$> rule_keys (nodeIPs p) e.2.

(** Every virtual address of every service port, with its endpoints. *)
Definition want (p : Proxier) : gmap activeServiceKey (gset endpointKey) :=
  list_to_map (rule_table p (map_to_list (serviceMap p))).

Definition cluster_ips (l : list entry) : gset string :=
  list_to_set ((λ e, Net.IP_String (Services.ClusterIP e.2)) <$> l).
Lemma cluster_ips_perm l l' : l ≡ₚ l' → cluster_ips l = cluster_ips l'.
Proof. intros Hl. apply set_eq. intros ip. unfold cluster_ips. rewrite !elem_of_list_to_set. by rewrite Hl. Qed.
Definition want_bound (p : Proxier) : gset string := cluster_ips (map_to_list (serviceMap p)).

(** Configurations that can be programmed: IPv4 addresses and 16-bit ports,
    and no virtual address claimed twice. *)
Record wf_config (p : Proxier) : Prop := {
  wfc_rules name info svc : serviceMap p !! name = Some info →
    svc ∈ service_rules (nodeIPs p) info → wf_service svc;
  wfc_eps name : is_Some (serviceMap p !! name) → wf_endpoints p name;
  wfc_distinct : NoDup (rule_table p (map_to_list (serviceMap p))).*1;
}.

Lemma rule_table_keys p l : (rule_table p l).*1 = l ≫= λ e, rule_keys (nodeIPs p) e.2.
Proof.
  unfold rule_table. induction l as [|e l IH]; [done|]. rewrite !bind_cons, fmap_app, IH. f_equal.
  rewrite <-list_fmap_compose. apply list_fmap_id.
Qed.

Lemma want_lookup_distinct p name info key :
  NoDup (map_to_list (serviceMap p) ≫= λ e, rule_keys (nodeIPs p) e.2) →
  serviceMap p !! name = Some info → key ∈ rule_keys (nodeIPs p) info →
  want p !! key = Some (eps_of p name).
Proof.
  rewrite <-rule_table_keys. intros Hnd Hl Hkey. apply elem_of_list_to_map_1; [done|].
  unfold rule_table. apply list_elem_of_bind. exists (name, info). split.
  - cbn [fst snd]. by apply (list_elem_of_fmap_2 (λ key, (key, eps_of p name))).
  - by apply elem_of_map_to_list.
Qed.

Lemma want_lookup p name info key :
  wf_config p → serviceMap p !! name = Some info → key ∈ rule_keys (nodeIPs p) info →
  want p !! key = Some (eps_of p name).
Proof. intros Hwf. apply want_lookup_distinct. rewrite <-rule_table_keys. apply wfc_distinct, Hwf. Qed.

Lemma want_dom p key :
  is_Some (want p !! key) ↔ ∃ e, e ∈ map_to_list (serviceMap p) ∧ key ∈ rule_keys (nodeIPs p) e.2.
Proof.
  unfold want. rewrite <-elem_of_dom, dom_list_to_map_L, elem_of_list_to_set, rule_table_keys, list_elem_of_bind.
  naive_solver.
Qed.

(** *** The order of the node addresses does not matter *)
Lemma service_rules_perm l l' info : l ≡ₚ l' → service_rules l info ≡ₚ service_rules l' info.
Proof. intros Hl. unfold service_rules, node_rules. case_decide; [done|]. by rewrite Hl. Qed.

Lemma rule_keys_perm l l' info : l ≡ₚ l' → rule_keys l info ≡ₚ rule_keys l' info.
Proof. intros Hl. unfold rule_keys. by rewrite (service_rules_perm l l'). Qed.

Global Instance service_rules_proper : Proper ((≡ₚ) ==> (=) ==> (≡ₚ)) service_rules.
Proof. intros l l' Hl info ? <-. by apply service_rules_perm. Qed.
Global Instance rule_keys_proper : Proper ((≡ₚ) ==> (=) ==> (≡ₚ)) rule_keys.
Proof. intros l l' Hl info ? <-. by apply rule_keys_perm. Qed.

Lemma rule_table_perm p l l' es : l ≡ₚ l' →
  rule_table (with_nodeIPs l p) es ≡ₚ rule_table (with_nodeIPs l' p) es.
Proof.
  intros Hl. unfold rule_table. induction es as [|e es IH]; [done|]. rewrite !bind_cons, IH.
  cbn [nodeIPs with_nodeIPs]. by rewrite (rule_keys_perm l l').
Qed.

Lemma const_keys_lookup {V} (keys : list activeServiceKey) (v : V) key :
  (list_to_map ((λ k, (k, v)) <$> keys) : gmap _ V) !! key = if decide (key ∈ keys) then Some v else None.
Proof.
  induction keys as [|k keys IH]; [done|]. rewrite fmap_cons, list_to_map_cons.
  destruct (decide (k = key)) as [->|Hk].
  - rewrite lookup_insert_eq, decide_True; [done|left].
  - rewrite lookup_insert_ne, IH by done. destruct (decide (key ∈ keys)) as [?|Hn].
    + by rewrite decide_True by by right.
    + rewrite decide_False; [done|]. rewrite elem_of_cons. naive_solver.
Qed.

Lemma want_perm p l l' : l ≡ₚ l' → want (with_nodeIPs l p) = want (with_nodeIPs l' p).
Proof.
  intros Hl. unfold want. cbn [serviceMap with_nodeIPs].
  induction (map_to_list (serviceMap p)) as [|e es IH]; [done|].
  unfold rule_table in *. rewrite !bind_cons, !list_to_map_app. f_equal; [|exact IH].
  apply map_eq. intros key. cbn [nodeIPs with_nodeIPs]. rewrite !const_keys_lookup.
  apply decide_ext. by rewrite (rule_keys_perm l l').
Qed.

Lemma wf_config_perm p l l' : l ≡ₚ l' → wf_config (with_nodeIPs l p) → wf_config (with_nodeIPs l' p).
Proof.
  intros Hl [H1 H2 H3]. split.
  - intros name info svc Hi. cbn [nodeIPs with_nodeIPs]. rewrite <-(service_rules_perm l l') by done.
    by apply (H1 name).
  - exact H2.
  - cbn [serviceMap with_nodeIPs] in *. by rewrite <-(rule_table_perm p l l').
Qed.

Lemma want_ext p p' : serviceMap p = serviceMap p' → endpointsMap p = endpointsMap p' →
  nodeIPs p ≡ₚ nodeIPs p' → want p = want p'.
Proof.
  intros Hsm Hem Hl. transitivity (want (with_nodeIPs (nodeIPs p) p)); [by destruct p|].
  rewrite (want_perm p _ _ Hl). destruct p, p'. simpl in *. by subst.
Qed.

Section full.
Context {K : Type} `{IF : Interface K} `{IS : !IpvsSpec K} `{MR : MapRange}.
Context `{NI : NodeIPInterface K} `{PO : PortOpener} `{PS : !PortOpenerSpec} `{EX : Exec} `{NO : NetOS}.

Lemma wp_lift {A} (c : M (Sys K) A) (Q : A → Sys K * Locals → Prop) s :
  wp c (λ a s', Q a (s', s.2)) s.1 → wp (lift c) Q s.
Proof. intros Hc. by apply wp_zoom. Qed.
Lemma wp_local f (Q : unit → Sys K * Locals → Prop) s : Q tt (s.1, f s.2) → wp (local f) Q s.
Proof. done. Qed.

(** ** Holding ports leaves the rules alone

    An invariant is framed when it speaks of the proxier, the kernel and the
    active maps, and of the held ports only that none is nil. *)
Definition framed (I : Sys K * Locals → Prop) : Prop := ∀ s s' l l',
  I (s, l) → px s' = px s → kern s' = kern s →
  activeServiceMap l' = activeServiceMap l → activeBindIP l' = activeBindIP l →
  (Ports.no_nil (replacementPortsMap l) → Ports.no_nil (replacementPortsMap l')) → I (s', l').

Section holding.
Context (I : Sys K * Locals → Prop) (HI : framed I).

Lemma framed_mark_port s lp fd : I s → I (s.1, mark_port lp (Some fd) s.2).
Proof using HI.
  destruct s as [s l]. intros Hi. eapply HI; [done..|]. by apply map_Forall_insert_2.
Qed.

Lemma hold_port_spec s lp opened :
  lp_Protocol lp = "tcp" ∨ lp_Protocol lp = "udp" → I s → (∀ s', I s' → wp opened (λ _, I) s') →
  wp (hold_port lp opened) (λ e s', I s' ∧ (opens_all → e = None)) s.
Proof using PS HI.
  intros Hproto Hi Hop. destruct s as [s l]. unfold hold_port. apply wp_bind, wp_lift, wp_field. cbn [fst snd].
  destruct (Ports.held (portsMap (px s)) lp) as [fd|].
  { apply wp_bind, wp_local, wp_ret. split; [by apply (framed_mark_port (_, _))|done]. }
  apply wp_bind, wp_lift, wp_onIO. cbn [fst snd].
  eapply wp_mono with (Q := λ r _, match r with OK fd => is_Some fd | Err _ => ¬ opens_all end).
  { pose proof (OpenLocalPort_returns lp (io s)) as Hret. unfold wp in *.
    pose proof (λ H : opens_all, H lp (io s) Hproto) as Hall. unfold wp in Hall.
    destruct (OpenLocalPort lp (io s)) as [[[fd|err]|msg] w]; [done| |done].
    intros H. by destruct (Hall H). }
  intros r w Hr. destruct r as [socket|err].
  - apply wp_bind. eapply wp_mono; [apply Hop; by eapply HI|]. intros [] [s2 l2] Hi2.
    destruct Hr as [fd ->]. apply wp_bind, wp_local, wp_ret. split; [by apply (framed_mark_port (_, _))|done].
  - apply wp_ret. split; [by eapply HI|]. intros Hall. by destruct (Hr Hall).
Qed.

Definition known_protocol (info : ServiceInfo) : Prop :=
  Services.Protocol info = "tcp" ∨ Services.Protocol info = "udp".

Lemma known_protocol_lower info :
  known_protocol info → Strings.ToLower (Services.Protocol info) = "tcp" ∨
    Strings.ToLower (Services.Protocol info) = "udp".
Proof using Type. intros [-> | ->]; auto. Qed.

Lemma hold_external_spec s name info eip :
  known_protocol info → I s → wp (hold_external name info eip) (λ ok s', I s' ∧ (opens_all → ok = true)) s.
Proof using PS HI.
  intros Hproto%known_protocol_lower Hi. destruct s as [s l]. unfold hold_external, isLocalIP.
  apply wp_bind, wp_lift, wp_onIO, wp_bind, wp_ask, wp_ret. cbn [fst snd].
  assert (∀ w, I ({| px := px s; kern := kern s; io := w |}, l)) as Hi' by (by intros; eapply HI).
  destruct (match InterfaceAddrs _ with OK _ => _ | Err _ => _ end) as [[]|]; [|by apply wp_ret..].
  apply wp_bind. eapply wp_mono; [apply hold_port_spec; [done|apply Hi'|by intros; apply wp_ret]|].
  intros [err|] [s2 l2] [Hi2 Hall]; [|by apply wp_ret].
  apply wp_bind, wp_lift, wp_field, wp_bind, wp_lift, wp_onIO, wp_emit, wp_ret.
  split; [by eapply HI|]. intros H. by discriminate (Hall H).
Qed.

Lemma hold_node_port_spec s name info :
  known_protocol info → I s → wp (hold_node_port name info) (λ ok s', I s' ∧ (opens_all → ok = true)) s.
Proof using PS HI.
  intros Hproto%known_protocol_lower Hi. unfold hold_node_port. apply wp_bind. eapply wp_mono.
  { apply hold_port_spec; [done..|]. intros [s' l'] Hi'. case_decide; [|by apply wp_ret].
    apply wp_lift, wp_onIO, Conntrack.wp_ClearUdpConntrackForPort. intros w _. by eapply HI. }
  intros [err|] s' [Hi' Hall]; apply wp_ret; (split; [done|]); [|done].
  intros H. by discriminate (Hall H).
Qed.

End holding.

Section loop.
(** The proxier and the kernel when the loop starts. *)
Context (p0 : Proxier) (a0 : vstate) (link : Link).
Hypothesis Hwf : wf_config p0.
Hypothesis Hsnap : snapshot p0 a0.
Hypothesis Hbound : ∀ ip, is_Some (kernelClusterMap p0 !! ip) ↔ ip ∈ bound a0.

(** The kernel once the keys [act] are programmed and the addresses [b]
    bound. *)
Definition prog (act : gset activeServiceKey) (b : gset string) : vstate := {|
  vs := filter (λ e, e.1 ∈ act) (want p0) ∪ filter (λ e, e.1 ∉ act) (vs a0);
  bound := bound a0 ∪ b;
  dummy := Some link;
|}.

Lemma prog_lookup act b key :
  vs (prog act b) !! key = if decide (key ∈ act) then want p0 !! key else vs a0 !! key.
Proof using Type.
  simpl. rewrite lookup_union. case_decide as Hin.
  - assert (filter (λ e, e.1 ∉ act) (vs a0) !! key = None) as -> by (apply map_lookup_filter_None; right; simpl; tauto).
    etrans; [by apply (right_id_L None union)|]. destruct (want p0 !! key) eqn:E.
    + by apply map_lookup_filter_Some_2.
    + by apply map_lookup_filter_None; left.
  - assert (filter (λ e, e.1 ∈ act) (want p0) !! key = None) as -> by (apply map_lookup_filter_None; right; simpl; tauto).
    etrans; [by apply (left_id_L None union)|]. destruct (vs a0 !! key) eqn:E.
    + by apply map_lookup_filter_Some_2.
    + by apply map_lookup_filter_None; left.
Qed.

Lemma prog_empty : dummy a0 = Some link → prog ∅ ∅ = a0.
Proof using Type.
  intros Hd. apply vstate_eq; [|simpl; by rewrite union_empty_r_L|done].
  apply map_eq. intros key. rewrite prog_lookup. by rewrite decide_False by apply not_elem_of_empty.
Qed.

Lemma prog_extend act b key eps :
  key ∉ act → want p0 !! key = Some eps → set_eps key eps (prog act b) = prog ({[key]} ∪ act) b.
Proof.
  intros Hn Hw. apply vstate_eq; [|done..]. apply map_eq. intros k.
  rewrite (prog_lookup ({[key]} ∪ act) b). destruct (decide (k = key)) as [->|Hne].
  - etrans; [apply lookup_insert_eq|]. by rewrite decide_True by (clear; set_solver).
  - etrans; [by apply lookup_insert_ne|]. rewrite prog_lookup.
    by rewrite (decide_ext (k ∈ {[key]} ∪ act) (k ∈ act)) by (clear - Hne; set_solver).
Qed.

Definition Inv (act : gset activeServiceKey) (b : gset string) (s : Sys K * Locals) : Prop :=
  px s.1 = p0 ∧ dom (activeServiceMap s.2) = act ∧ dom (activeBindIP s.2) = b ∧
  kern_is s.1 (prog act b) ∧ Ports.no_nil (replacementPortsMap s.2).

(** ** One virtual address *)
Lemma full_rule_spec name svc act b s :
  Inv act b s → wf_service svc → wf_endpoints p0 name →
  service_key svc ∉ act → want p0 !! service_key svc = Some (eps_of p0 name) →
  wp (full_rule name svc) (λ _, Inv ({[service_key svc]} ∪ act) b) s.
Proof using Hsnap.
  intros (Hpx & Hact & Hb & Hk & Hnn) Hsvc Heps Hn Hw. unfold full_rule. set (key := service_key svc) in *.
  apply wp_bind, wp_local, wp_bind, wp_lift, wp_field. cbn [fst snd]. rewrite Hpx.
  pose proof (Hsnap key) as Hkey. pose proof (prog_lookup act b key) as Hpl.
  rewrite decide_False, <-Hkey in Hpl by done.
  apply wp_bind, wp_lift. cbn [fst snd].
  assert (wp (CreateServiceRule (bool_decide (is_Some (kernelIpvsMap p0 !! key))) svc)
    (λ err s', err = None ∧ quiet s.1 s' ∧
      kern_is s' (set_eps key (list_to_set (default [] (kernelIpvsMap p0 !! key))) (prog act b))) s.1) as Hadd.
  { destruct (kernelIpvsMap p0 !! key) as [eps|] eqn:E; cbn [fmap option_fmap option_map default] in *.
    - rewrite bool_decide_true by eauto. apply wp_ret. split; [done|]. split; [done|].
      by rewrite set_eps_id.
    - rewrite bool_decide_false by (by intros []). apply wp_onK. destruct Hk as [Hrep Ha].
      eapply wp_mono; [by apply AddIpvsService_spec|]. intros err k (-> & Hrep' & Ha').
      split; [done|]. split; [done|]. split; [done|]. cbn [kern]. rewrite Ha', Ha. fold key.
      unfold spec_add_service, set_eps, with_vs. by rewrite Hpl. }
  eapply wp_mono; [exact Hadd|]. intros err s1 (-> & [Hp1 Ht1] & Hk1).
  apply wp_lift. cbn [fst snd]. eapply wp_mono.
  { apply CreateEndpointRule_spec with (1 := Hk1); [done| |]; [by rewrite Hp1, Hpx|].
    simpl. by rewrite lookup_insert_eq. }
  intros [] s2 [[Hp2 Ht2] Hk2]. split_and!; cbn [fst snd]; [congruence| |done| |done].
  - simpl. by rewrite dom_insert_L, Hact.
  - rewrite Hp1, Hpx, set_eps_set_eps, prog_extend in Hk2; done.
Qed.

Lemma Inv_framed act b : framed (Inv act b).
Proof.
  intros s s' l l' (Hpx & Hact & Hb & [Hrep Ha] & Hnn) Hp Hk H1 H2 H3. unfold Inv, kern_is. cbn [fst snd] in *.
  rewrite Hp, Hk, H1, H2. split_and!; auto.
Qed.

(** ** Sequences of virtual addresses

    [grown act act' keys]: the programmed keys went from [act] to [act'] by
    handling [keys], all of them when every port could be opened. *)
Definition grown (act act' : gset activeServiceKey) (keys : list activeServiceKey) : Prop :=
  act ⊆ act' ∧ act' ⊆ act ∪ list_to_set keys ∧ (opens_all → list_to_set keys ⊆ act').

Lemma grown_nil act : grown act act [].
Proof using Type. split_and!; simpl; [done|..]; clear; set_solver. Qed.

Lemma grown_app a1 a2 a3 k1 k2 : grown a1 a2 k1 → grown a2 a3 k2 → grown a1 a3 (k1 ++ k2).
Proof using Type.
  intros (H1 & H2 & H3) (H4 & H5 & H6). unfold grown. rewrite list_to_set_app_L.
  split_and!; [clear - H1 H4; set_solver|clear - H2 H5; set_solver|].
  intros Hall. specialize (H3 Hall). specialize (H6 Hall). clear - H3 H4 H6. set_solver.
Qed.

Lemma grown_fresh act act' keys key : grown act act' keys → key ∉ act → key ∉ keys → key ∉ act'.
Proof using Type. intros (_ & H & _) ?? Hin. apply H in Hin. apply elem_of_union in Hin as [?|Hin%elem_of_list_to_set]; done. Qed.

Definition handles {A} (f : A → list activeServiceKey) (b : gset string) (body : A → LM unit) (x : A) : Prop :=
  ∀ act s, Inv act b s → (∀ key, key ∈ f x → key ∉ act) →
    wp (body x) (λ _ s', ∃ act', Inv act' b s' ∧ grown act act' (f x)) s.

Lemma handles_loop {A} (f : A → list activeServiceKey) b (body : A → LM unit) (l : list A) act s :
  (∀ x, x ∈ l → handles f b body x) → NoDup (l ≫= f) → (∀ key, key ∈ l ≫= f → key ∉ act) → Inv act b s →
  wp (for_each l body) (λ _ s', ∃ act', Inv act' b s' ∧ grown act act' (l ≫= f)) s.
Proof using Type.
  revert act s. induction l as [|x l IH]; intros act s Hbody Hnd Hfresh Hi.
  { apply wp_ret. exists act. split; [done|]. apply grown_nil. }
  rewrite bind_cons in *. apply NoDup_app in Hnd as (Hnd1 & Hdis & Hnd2).
  apply wp_bind. eapply wp_mono.
  { apply Hbody; [left|exact Hi|]. intros key Hkey. apply Hfresh, elem_of_app. by left. }
  intros [] s1 (act1 & Hi1 & Hg1). eapply wp_mono.
  { apply (IH act1 s1); [|done| |done].
    - intros y Hy. apply Hbody. by right.
    - intros key Hkey. apply (grown_fresh act act1 (f x)); [done|apply Hfresh, elem_of_app; by right|].
      intros Hin. by apply (Hdis key). }
  intros [] s2 (act2 & Hi2 & Hg2). exists act2. split; [done|]. by eapply grown_app.
Qed.

(** A rule of the configuration. *)
Definition rule_ok (name : ServicePortName) (svc : Service) : Prop :=
  wf_service svc ∧ wf_endpoints p0 name ∧ want p0 !! service_key svc = Some (eps_of p0 name).

Lemma full_rule_handles name svc b :
  rule_ok name svc → handles (λ svc, [service_key svc]) b (full_rule name) svc.
Proof using Hsnap.
  intros (Hsvc & Heps & Hw) act s Hi Hfresh. eapply wp_mono.
  { apply full_rule_spec; [exact Hi|done..| |done]. apply Hfresh. by apply list_elem_of_singleton. }
  intros [] s' Hi'. exists ({[service_key svc]} ∪ act). split; [done|].
  unfold grown. simpl. clear. set_solver.
Qed.

Lemma full_external_handles name info eip b :
  let svc := ipvs_service (Net.ParseIP eip) (Services.Port info) info in
  rule_ok name svc → handles (λ _, [service_key svc]) b (full_external name info) eip.
Proof using Hsnap PS.
  intros svc Hok act s Hi Hfresh. unfold full_external. apply wp_bind.
  eapply wp_mono; [apply (hold_external_spec (Inv act b)); [apply Inv_framed|apply Hok|done]|]. intros [] s1 [Hi1 Hall].
  - by apply full_rule_handles.
  - apply wp_ret. exists act. split; [done|]. split; [done|]. split; [clear; set_solver|].
    intros H. by discriminate (Hall H).
Qed.

Lemma full_externals_spec name info act b s :
  Inv act b s → (∀ svc, svc ∈ external_rules info → rule_ok name svc) →
  NoDup (service_key <$> external_rules info) →
  (∀ key, key ∈ service_key <$> external_rules info → key ∉ act) →
  wp (for_each (Services.ExternalIPs info) (full_external name info)) (λ _ s', ∃ act', Inv act' b s' ∧
    grown act act' (service_key <$> external_rules info)) s.
Proof using Hsnap PS.
  intros Hi Hok Hnd Hfresh. rewrite external_keys in *. apply handles_loop; [|done..].
  intros eip Heip. by apply full_external_handles, Hok, elem_of_external_rules.
Qed.

Lemma full_node_port_spec name info act b s :
  known_protocol info → Inv act b s → (∀ svc, svc ∈ node_rules (nodeIPs p0) info → rule_ok name svc) →
  NoDup (service_key <$> node_rules (nodeIPs p0) info) →
  (∀ key, key ∈ service_key <$> node_rules (nodeIPs p0) info → key ∉ act) →
  wp (full_node_port name info) (λ _ s', ∃ act', Inv act' b s' ∧
    grown act act' (service_key <$> node_rules (nodeIPs p0) info)) s.
Proof using Hsnap PS.
  intros Hproto Hi Hok Hnd Hfresh. unfold full_node_port. case_decide as Hz.
  { apply wp_ret. exists act. split; [done|]. unfold node_rules. rewrite decide_True by done. apply grown_nil. }
  rewrite node_keys in * by done.
  apply wp_bind. eapply wp_mono; [by apply (hold_node_port_spec (Inv act b)); [apply Inv_framed|..]|]. intros [] s1 [Hi1 Hall].
  - apply wp_bind, wp_lift, wp_field. replace (nodeIPs (px s1.1)) with (nodeIPs p0) by (by destruct Hi1 as [-> _]).
    apply handles_loop; [|done..|by destruct s1]. intros ip Hip.
    by apply (full_rule_handles name (ipvs_service ip _ info) b), Hok, elem_of_node_rules.
  - apply wp_ret. exists act. split; [done|]. split; [done|]. split; [clear; set_solver|].
    intros H'. by discriminate (Hall H').
Qed.

Lemma full_bind_spec ip act b s :
  Inv act b s → Net.wf_addr ip →
  wp (full_bind ip link) (λ e s', e = None ∧ Inv act ({[Net.IP_String ip]} ∪ b) s') s.
Proof using Hbound.
  intros (Hpx & Hact & Hb & Hk & Hnn) Hip. destruct s as [s l]. unfold full_bind. cbn [fst snd] in *.
  apply wp_bind, wp_lift, wp_field. cbn [fst snd]. rewrite Hpx.
  assert (∀ s', px s' = p0 → kern_is s' (prog act ({[Net.IP_String ip]} ∪ b)) →
    wp (local (mark_bind (Net.IP_String ip)) ;; mret None)
      (λ (e : error) s', e = None ∧ Inv act ({[Net.IP_String ip]} ∪ b) s') (s', l)) as Hend.
  { intros s' Hp' Hk'. apply wp_bind, wp_local, wp_ret. split; [done|].
    split_and!; [done|done| |done..]. simpl. by rewrite dom_insert_L, Hb. }
  apply wp_bind. destruct (kernelClusterMap p0 !! Net.IP_String ip) eqn:E.
  - apply wp_ret, Hend; [done|]. destruct Hk as [Hrep Ha]. split; [done|]. rewrite Ha.
    apply vstate_eq; [done| |done]. simpl.
    assert (Net.IP_String ip ∈ bound a0) as Hin by (apply Hbound; eauto). clear - Hin. set_solver.
  - apply wp_lift, wp_onK. cbn [fst snd]. destruct Hk as [Hrep Ha].
    eapply wp_mono; [apply AddDummyClusterIp_spec; [done..|by rewrite Ha]|].
    intros e k (-> & Hrep' & Ha'). apply Hend; [done|]. split; [done|]. cbn [kern]. rewrite Ha', Ha.
    apply vstate_eq; [done| |done]. simpl. clear. set_solver.
Qed.

Lemma full_service_spec e act b s :
  e ∈ map_to_list (serviceMap p0) → NoDup (rule_keys (nodeIPs p0) e.2) →
  (∀ key, key ∈ rule_keys (nodeIPs p0) e.2 → key ∉ act) → Inv act b s →
  wp (full_service link e) (λ _ s', ∃ act', Inv act' ({[Net.IP_String (Services.ClusterIP e.2)]} ∪ b) s' ∧
    service_key (cluster_rule e.2) ∈ act' ∧ grown act act' (rule_keys (nodeIPs p0) e.2)) s.
Proof using Hsnap PS Hwf Hbound.
  destruct e as [name info]. intros Hin%elem_of_map_to_list Hnd Hfresh Hi. cbn [fst snd] in *.
  set (b' := {[_]} ∪ b).
  assert (∀ svc, svc ∈ service_rules (nodeIPs p0) info → rule_ok name svc) as Hok.
  { intros svc Hsvc. split_and!; [by eapply wfc_rules|by apply wfc_eps|].
    eapply want_lookup; [done..|]. by apply list_elem_of_fmap_2. }
  unfold rule_keys, service_rules in *. rewrite fmap_cons, fmap_app in *.
  apply NoDup_cons in Hnd as [Hn0 Hnd]. apply NoDup_app in Hnd as (Hnd1 & Hdis & Hnd2).
  rewrite elem_of_app in Hn0. setoid_rewrite elem_of_cons in Hfresh. setoid_rewrite elem_of_app in Hfresh.
  setoid_rewrite elem_of_cons in Hok. setoid_rewrite elem_of_app in Hok.
  destruct (Hok (cluster_rule info)) as (Hc1 & Hc2 & Hc3); [by left|].
  apply wp_bind. eapply wp_mono; [apply full_bind_spec; [exact Hi|apply Hc1]|].
  intros err s1 [-> Hi1]. apply wp_bind.
  eapply wp_mono; [apply (full_rule_spec name (cluster_rule info)); [exact Hi1|done|done| |done]|].
  { apply Hfresh. by left. }
  intros [] s2 Hi2. set (key0 := service_key (cluster_rule info)) in *.
  assert (∀ key, key ≠ key0 → key ∉ act → key ∉ {[key0]} ∪ act) as Hf2 by (clear; set_solver).
  apply wp_bind. eapply wp_mono; [apply (full_externals_spec name info); [exact Hi2|auto|done|]|].
  { intros key Hkey. apply Hf2; [intros ->; auto|auto]. }
  intros [] s3 (act3 & Hi3 & Hg3). eapply wp_mono.
  { apply (full_node_port_spec name info act3 b'); [apply Hc1|exact Hi3|auto|done|].
    intros key Hkey. eapply grown_fresh; [exact Hg3| |intros Hin'; by apply (Hdis key)].
    apply Hf2; [intros ->; auto|auto]. }
  intros [] s4 (act4 & Hi4 & Hg4). exists act4. split; [done|]. split.
  - destruct Hg3 as [H3 _], Hg4 as [H4 _]. apply H4, H3. clear. set_solver.
  - apply (grown_app act ({[key0]} ∪ act) act4 [key0]); [|by eapply grown_app].
    unfold grown. simpl. clear. set_solver.
Qed.

(** ** The whole loop *)

(** The kernel holds what the maps of [p] ask for: nothing unwanted, every
    cluster address with exactly its endpoints, and everything wanted when
    every local port could be held. *)
Record converged (p : Proxier) (a : vstate) : Prop := {
  conv_sound : vs a ⊆ want p;
  conv_cluster name info : serviceMap p !! name = Some info →
    vs a !! service_key (cluster_rule info) = Some (eps_of p name);
  conv_complete : opens_all → vs a = want p;
  conv_bound : bound a = want_bound p;
}.

Definition table_keys (l : list entry) : list activeServiceKey := l ≫= λ e, rule_keys (nodeIPs p0) e.2.

Lemma full_loop_spec (l : list entry) s :
  l ≡ₚ map_to_list (serviceMap p0) → Inv ∅ ∅ s →
  wp (for_each l (full_service link)) (λ _ s', ∃ act, Inv act (cluster_ips l) s' ∧
    (∀ e, e ∈ l → service_key (cluster_rule e.2) ∈ act) ∧ grown ∅ act (table_keys l)) s.
Proof using Hsnap PS Hwf Hbound.
  intros Hl Hi.
  assert (NoDup (table_keys l)) as Hnd.
  { unfold table_keys. rewrite Hl, <-rule_table_keys. apply wfc_distinct, Hwf. }
  apply (wp_for_each (λ don s', ∃ act, Inv act (cluster_ips don) s' ∧
    (∀ e, e ∈ don → service_key (cluster_rule e.2) ∈ act) ∧ grown ∅ act (table_keys don))); [| |done].
  { exists ∅. split_and!; [done|by intros e ?%elem_of_nil|apply grown_nil]. }
  intros don e rest s' Hsplit (act & Hi' & Hc & Hg).
  unfold table_keys in *. rewrite Hsplit, bind_app, bind_cons in Hnd.
  apply NoDup_app in Hnd as (_ & Hdis & Hnd). apply NoDup_app in Hnd as (Hnde & _ & _).
  eapply wp_mono.
  { apply (full_service_spec e act (cluster_ips don)); [|done| |done].
    - rewrite <-Hl, Hsplit. apply elem_of_app. right. left.
    - intros key Hkey. eapply grown_fresh; [exact Hg|apply not_elem_of_empty|].
      intros Hin. apply (Hdis key Hin), elem_of_app. by left. }
  intros [] s2 (act2 & Hi2 & Hc2 & Hg2). exists act2. split_and!.
  - replace (cluster_ips (don ++ [e])) with ({[Net.IP_String (Services.ClusterIP e.2)]} ∪ cluster_ips don); [done|].
    unfold cluster_ips. rewrite fmap_app, list_to_set_app_L. simpl. clear. set_solver.
  - intros e' [He| ->%list_elem_of_singleton]%elem_of_app; [|done]. destruct Hg2 as [H2 _]. apply H2. by apply Hc.
  - rewrite bind_app, bind_cons. simpl. rewrite app_nil_r. by eapply grown_app.
Qed.

Lemma full_sync_spec s :
  Inv ∅ ∅ s →
  wp (full_sync link) (λ _ s', px s'.1 = p0 ∧ Ports.no_nil (replacementPortsMap s'.2) ∧ ∃ a, kern_is s'.1 a ∧ dummy a = Some link ∧ converged p0 a) s.
Proof using Hsnap PS Hwf Hbound.
  intros Hi. destruct s as [s l]. unfold full_sync. apply wp_bind, wp_lift, wp_field. cbn [fst snd].
  apply wp_bind, wp_lift, wp_onIO, wp_rangeM. cbn [fst snd].
  replace (serviceMap (px s)) with (serviceMap p0) by (by destruct Hi as [<- _]).
  apply wp_bind. eapply wp_mono; [apply full_loop_spec; [apply map_range_perm|by eapply Inv_framed]|].
  intros [] [s1 l1] (act & (Hpx & Hact & Hb & Hk & Hnn) & Hc & (_ & Hsub & Hall)). cbn [fst snd] in *.
  apply wp_bind, wp_gets, wp_lift. cbn [fst snd].
  eapply wp_mono; [by apply CheckUnusedRule_spec with (1 := Hk)|].
  intros [] s2 [[Hp2 _] Hk2]. split; [by etrans|]. split; [done|]. eexists. split; [exact Hk2|]. split; [done|].
  rewrite Hact, Hb.
  assert (∀ key, vs (restrict act (cluster_ips (map_range (tick (io s)) (serviceMap p0))) (prog act
    (cluster_ips (map_range (tick (io s)) (serviceMap p0))))) !! key =
      if decide (key ∈ act) then want p0 !! key else None) as Hlook.
  { intros key. unfold restrict. cbn [vs]. rewrite map_lookup_filter, prog_lookup.
    case_decide; [|by destruct (vs a0 !! key); simpl; rewrite ?option_guard_False].
    destruct (want p0 !! key); [|done]. simpl. by rewrite option_guard_True. }
  set (a := restrict _ _ _) in *.
  split.
  - apply map_subseteq_spec. intros key eps. rewrite Hlook. by case_decide.
  - intros name info Hl. rewrite Hlook, decide_True.
    + eapply want_lookup; [done..|]. left.
    + apply (Hc (name, info)). by apply elem_of_map_range.
  - intros Hopen. apply map_eq. intros key. rewrite Hlook. case_decide as Hin; [done|].
    symmetry. apply eq_None_not_Some. rewrite want_dom. intros (e & He & Hkey). apply Hin, (Hall Hopen).
    apply elem_of_list_to_set, list_elem_of_bind. exists e. split; [done|]. by rewrite map_range_perm.
  - unfold want_bound. rewrite <-(cluster_ips_perm _ _ (map_range_perm (tick (io s)) (serviceMap p0))).
    unfold a, restrict, prog. cbn [bound]. clear. set_solver.
Qed.
End loop.
End full.
