(* ===== verification/SyncSpec.v ===== *)
(** * The parts of syncProxyRules around its loops

    Applying the pending changes, taking the snapshots, closing ports and
    flushing connections, and [syncProxyRules] as their composition. *)

From S2P Require Import Prelude GoNet ProxyTypes ChangeTracking Services ServicesFacts EndpointsMap EndpointsFacts Ipvs Host Ports Conntrack Nodes Proxier ProxierFacts FullSync.
Import Proxier.
Import Services(ServiceInfo).
Import Nodes(NodeIPInterface, GetNodeIPs).

(** The addresses of the node stay the ones of [ips]; each call lists them in
    an order of its own ([UnsortedList]), and asking leaves the rules alone. *)
Class NodeIPSpec {K} `{IpvsSpec K} `{NodeIPInterface K} (ips : list IP) : Prop :=
  GetNodeIPs_spec k w : rep k →
    wp GetNodeIPs (λ r s, (∃ l, r = OK l ∧ l ≡ₚ ips) ∧ rep s.1 ∧ abs s.1 = abs k) (k, w).

(** [NodeIP.GetNodeIPs] is like that on a node whose interfaces stay, as long
    as the addresses on the interfaces that count stay: the cluster IPs come
    and go on the dummy device, which does not count. *)
Lemma NodeIP_NodeIPSpec {K} `{IF : Interface K} `{IS : !IpvsSpec K} `{NO : NetOS} `{MR : MapRange}
    (names : list string) (local : K → string → gset string) (node : gset string) :
  (∀ n, Interfaces n = OK names) →
  (∀ k, rep k → Nodes.lists_addresses (local k) names k) →
  (∀ k, rep k → ∀ ip, Nodes.kept (local k) names (local k "") ip ↔ ip ∈ node) →
  @NodeIPSpec K IF IS Nodes.NodeIP (Net.ParseIP <$> elements node).
Proof.
  intros Hn Hl Hk k w Hrep. apply wp_bind, wp_zoom, wp_ask. simpl. rewrite Hn.
  apply wp_bind, wp_zoom. eapply wp_mono; [apply (Hl k Hrep); by left|]. intros r k' [-> ->]. cbn.
  apply wp_bind, Nodes.wp_subtract_interfaces with (local := local k); [by apply Hl|]. intros s Hs.
  apply wp_bind, wp_zoom, wp_rangeM, wp_ret. split; [|done]. eexists. split; [done|].
  assert (s = node) as -> by (apply set_eq; intros ip; by rewrite Hs, Hk).
  by rewrite set_range_elements.
Qed.

Lemma stale_names_fold (sm : gmap ServicePortName ServiceInfo) names stale ip :
  ip ∈ foldl (λ stale svcPortName, match sm !! svcPortName with
    | Some svcInfo => if decide (Services.Protocol svcInfo = lower_udp)
                      then {[Net.IP_String (Services.ClusterIP svcInfo)]} ∪ stale else stale
    | None => stale end) stale names ↔
  ip ∈ (stale : gset string) ∨ ∃ k info, k ∈ names ∧ sm !! k = Some info ∧
    Services.Protocol info = lower_udp ∧ ip = Net.IP_String (Services.ClusterIP info).
Proof.
  revert stale. induction names as [|k names IH]; intros stale; simpl; [set_solver|]. rewrite IH. clear IH.
  destruct (sm !! k) as [info|] eqn:E; [case_decide as Hp|]; set_solver.
Qed.

Section sync.
Context {K : Type} `{IF : Interface K} `{IS : !IpvsSpec K} `{MR : MapRange}.
Context `{NI : NodeIPInterface K} `{PO : PortOpener} `{PS : !PortOpenerSpec} `{EX : Exec} `{NO : NetOS}.
Context (ips : list IP) `{NS : !NodeIPSpec ips}.

(** ** Applying the changes *)

Definition applied (p p' : Proxier) : Prop :=
  ∃ sm em, p' = with_endpointsMap em (with_serviceMap sm p) ∧
    (∀ k, sm !! k = updated (serviceMap p) (serviceChanges p) k) ∧
    (∀ k, em !! k = updated (endpointsMap p) (endpointsChanges p) k).

Lemma applied_unique p p1 p2 : applied p p1 → applied p p2 → p1 = p2.
Proof using Type.
  intros (sm1 & em1 & -> & Hsm1 & Hem1) (sm2 & em2 & -> & Hsm2 & Hem2).
  f_equal; [|f_equal]; apply map_eq; intros k; congruence.
Qed.

(** The stale addresses a sync finds: the cluster IPs of the UDP ports its
    changes remove, and those of the UDP ports that get their first endpoint. *)
Definition stale_service (p p' : Proxier) (ip : string) : Prop :=
  (∃ nsn ch k info, serviceChanges p !! nsn = Some ch ∧ removed ch k ∧ serviceMap p !! k = Some info ∧
     Services.Protocol info = lower_udp ∧ ip = Net.IP_String (Services.ClusterIP info)) ∨
  (∃ nsn ch k info, endpointsChanges p !! nsn = Some ch ∧ default [] (gm (Previous ch) !! k) = [] ∧
     default [] (gm (Current ch) !! k) ≠ [] ∧ serviceMap p' !! k = Some info ∧
     Services.Protocol info = lower_udp ∧ ip = Net.IP_String (Services.ClusterIP info)).

(** The endpoints the changes take from their service port. *)
Definition stale_endpoint (p : Proxier) (pair : Endpoints.EndpointServicePair) : Prop :=
  ∃ nsn ch, endpointsChanges p !! nsn = Some ch ∧ is_stale (gm (Previous ch)) (gm (Current ch)) pair.

Definition stale_sets (p p' : Proxier) (stale : gset string * gset Endpoints.EndpointServicePair) : Prop :=
  (∀ ip, ip ∈ stale.1 ↔ stale_service p p' ip) ∧ (∀ pair, pair ∈ stale.2 ↔ stale_endpoint p pair).

Lemma sync_update_spec (s : Sys K) :
  changes_wf (serviceChanges (px s)) → changes_wf (endpointsChanges (px s)) →
  wp sync_update (λ stale s', applied (px s) (px s') ∧ kern s' = kern s ∧ trace (io s') = trace (io s) ∧
    stale_sets (px s) (px s') stale) s.
Proof using Type.
  intros Hsc Hec. unfold sync_update. apply wp_bind, wp_field, wp_bind, wp_field, wp_bind, wp_onIO, wp_tickM.
  intros [sm sres] n E1. apply wp_bind, wp_assign, wp_bind, wp_field, wp_bind, wp_field.
  apply wp_bind, wp_onIO, wp_tickM. intros [em eres] n' E2.
  apply wp_bind, wp_assign, wp_bind, wp_onIO, wp_rangeM, wp_ret. split_and!; [|done..|].
  - exists sm, em. split; [done|]. split; intros k.
    + by rewrite <-(UpdateServiceMap_map _ _ (tick (io s))), E1.
    + simpl in E2. by rewrite <-(UpdateEndpointsMap_map _ _ n), E2.
  - destruct (UpdateServiceMap_spec (serviceMap (px s)) _ (tick (io s)) Hsc) as (? & ? & ? & E & _ & Hst).
    rewrite E1 in E. injection E as <- <- <-.
    destruct (UpdateEndpointsMap_stale (endpointsMap (px s)) (endpointsChanges (px s)) n) as [Hep Hnames].
    simpl in E2. rewrite E2 in Hep, Hnames. cbn [fst snd] in *. split; [|exact Hep].
    intros ip. cbn [fst]. rewrite stale_names_fold, Hst. unfold stale_service.
    setoid_rewrite elem_of_set_range. setoid_rewrite Hnames.
    apply or_iff_compat_l. split.
    + intros (k & info & (nsn & ch & ? & ? & ?) & ?). by exists nsn, ch, k, info.
    + intros (nsn & ch & k & info & ? & ? & ? & ?). exists k, info. split; [|done]. by exists nsn, ch.
Qed.

(** ** Closing ports and flushing connections *)

(** The commands that flush the entries of a service IP and of a stale peer. *)
Definition flush_ip (path ip : string) : event :=
  EExec path (Conntrack.parametersWithFamily (Conntrack.IsIPv6String ip) ["-D"; "--orig-dst"; ip; "-p"; "udp"]).
Definition flush_peer (path : string) (sm : gmap ServicePortName ServiceInfo)
    (pair : Endpoints.EndpointServicePair) : option event :=
  info ← sm !! Endpoints.pair_ServicePortName pair;
  if decide (Services.Protocol info = lower_udp) then
    let origin := Net.IP_String (Services.ClusterIP info) in
    Some (EExec path (Conntrack.parametersWithFamily (Conntrack.IsIPv6String origin)
      ["-D"; "--orig-dst"; origin; "--dst-nat"; Conntrack.IPPart (Endpoints.Endpoint pair); "-p"; "udp"]))
  else None.

(** The trace from [t] to [t'] closes the ports given up and flushes the stale
    addresses, each once. *)
Definition flushed (path : string) (p : Proxier) (replacement : gmap LocalPort Closeable)
    (stale : gset string * gset Endpoints.EndpointServicePair) (t t' : list event) : Prop :=
  ∃ fds addrs pairs, fds ≡ₚ Ports.dropped replacement (map_to_list (portsMap p)) ∧
    addrs ≡ₚ elements stale.1 ∧ pairs ≡ₚ elements stale.2 ∧
    t' = t ++ (EClose <$> fds) ++ (flush_ip path <$> addrs) ++ omap (flush_peer path (serviceMap p)) pairs.

(** Whatever came before, the trace of [s'] ends so. *)
Definition ends_flushing (p : Proxier) (replacement : gmap LocalPort Closeable)
    (stale : gset string * gset Endpoints.EndpointServicePair) (s' : Sys K) : Prop :=
  ∃ t, ∀ path, (∀ n, LookPath n "conntrack" = OK path) → flushed path p replacement stale t (trace (io s')).

Lemma sync_finish_spec (s : Sys K) replacement stale staleEps :
  Ports.no_nil (portsMap (px s)) →
  wp (sync_finish replacement stale staleEps)
    (λ _ s', px s' = with_portsMap replacement (px s) ∧ kern s' = kern s ∧
       ∀ path, (∀ n, LookPath n "conntrack" = OK path) →
         flushed path (px s) replacement (stale, staleEps) (trace (io s)) (trace (io s'))) s.
Proof using Type.
  intros Hnn. unfold sync_finish. apply wp_bind, wp_field, wp_bind, wp_onIO.
  apply Ports.wp_close_unless; [done|]. intros fds w Hfds Ht.
  apply wp_bind, wp_assign, wp_bind, wp_onIO, wp_rangeM, wp_bind.
  set (addrs := (map_range _ _).*1). set (p1 := with_portsMap replacement (px s)).
  set (I don s' := px s' = p1 ∧ kern s' = kern s ∧
    ∀ path, (∀ n, LookPath n "conntrack" = OK path) → trace (io s') = trace w ++ (flush_ip path <$> don)).
  eapply wp_mono with (Q := λ _, I addrs); [apply (wp_for_each I)|].
  { cbn. split_and!; [done..|]. intros. by rewrite app_nil_r. }
  { intros don ip rest s' _ (Hp & Hk & Hf). apply wp_bind, wp_onIO, Conntrack.wp_ClearUDPConntrackForIP.
    intros e w' Hw. apply wp_ret. split_and!; [done..|]. intros path Hpath. cbn [io].
    rewrite (Conntrack.conntrack_found path _ _ _ Hpath Hw), (Hf path Hpath), fmap_app, (assoc_L (++)). done. }
  { done. }
  intros [] s1 (Hp1 & Hk1 & Hf1). unfold deleteEndpointConnections. apply wp_bind, wp_onIO, wp_rangeM.
  set (pairs := (map_range _ _).*1).
  apply (wp_for_each (λ don s', px s' = p1 ∧ kern s' = kern s ∧
    ∀ path, (∀ n, LookPath n "conntrack" = OK path) →
      trace (io s') = trace (io s1) ++ omap (flush_peer path (serviceMap p1)) don)).
  { cbn. split_and!; [done..|]. intros. by rewrite app_nil_r. }
  { intros don pair rest s' _ (Hp & Hk & Hf). apply wp_bind, wp_field. rewrite Hp.
    apply wp_mono with (Q := λ _ s2, px s2 = p1 ∧ kern s2 = kern s ∧ ∀ path, (∀ n, LookPath n "conntrack" = OK path) →
      trace (io s2) = trace (io s') ++ omap (flush_peer path (serviceMap p1)) [pair]).
    2: { intros [] s2 (? & ? & Ht2). split_and!; [done..|]. intros path Hpath.
         by rewrite omap_app, (Ht2 path Hpath), (Hf path Hpath), (assoc_L (++)). }
    cbn [omap list_omap]. unfold flush_peer.
    destruct (serviceMap p1 !! Endpoints.pair_ServicePortName pair) as [info|]; simpl; [case_decide|];
      try (apply wp_ret; split_and!; [done..|]; intros; by rewrite app_nil_r).
    apply wp_bind, wp_onIO, Conntrack.wp_ClearUDPConntrackForPeers. intros e w' Hw. apply wp_ret.
    split_and!; [done..|]. intros path Hpath. exact (Conntrack.conntrack_found path _ _ _ Hpath Hw). }
  intros s' (Hp & Hk & Hf). split_and!; [done..|]. intros path Hpath.
  exists fds, addrs, pairs. split_and!; [done|apply set_range_elements|apply set_range_elements|].
  rewrite (Hf path Hpath), (Hf1 path Hpath), Ht. cbn [serviceMap p1 with_portsMap]. by rewrite !(assoc_L (++)).
Qed.

(** ** The snapshots *)

(** The state the three programming blocks start from. *)
Definition prepared (p p1 : Proxier) (a : vstate) : Prop :=
  snapshot p1 a ∧ (∀ ip, is_Some (kernelClusterMap p1 !! ip) ↔ ip ∈ bound a) ∧
  ∃ m1 m2 l, l ≡ₚ ips ∧ p1 = with_nodeIPs l (with_kernelClusterMap m2 (with_kernelIpvsMap m1 p)).

Lemma sync_apply_spec (R : Proxier → vstate → Prop) s a link stale :
  kern_is s a → dummy a = Some link → Ports.no_nil (portsMap (px s)) →
  (∀ s1, kern_is s1 a → prepared (px s) (px s1) a →
     wp (sync_rules link) (λ _ s', Ports.no_nil (portsMap (px s'.1)) ∧
       Ports.no_nil (replacementPortsMap s'.2) ∧ ∃ a', kern_is s'.1 a' ∧ R (px s'.1) a') (s1, no_locals)) →
  wp (sync_apply link stale) (λ _ s', ∃ p' rp a', px s' = with_portsMap rp p' ∧ Ports.no_nil rp ∧
    kern_is s' a' ∧ R p' a' ∧ ends_flushing p' rp stale s') s.
Proof using NS.
  intros Hk Hd Hnn Hrules. unfold sync_apply. apply wp_bind.
  eapply wp_mono; [by apply BuildIpvsMap_spec|]. intros [] s1 (Ht1 & Hk1 & Hsn & m1 & Hp1).
  apply wp_bind. eapply wp_mono; [by apply BuildClusterMap_spec|].
  intros [] s2 (Ht2 & [Hrep2 Ha2] & Hb & m2 & Hp2).
  apply wp_bind, wp_zoom. eapply wp_mono; [by apply GetNodeIPs_spec|].
  intros r [k w] ((l & -> & Hl) & Hrep3 & Ha3). apply wp_bind, wp_assign.
  apply wp_bind. cbn [fst snd px kern io] in *.
  set (s3 := {| px := with_nodeIPs l (px s2); kern := k; io := w |}).
  assert (wp (sync_rules link) (λ _ s', Ports.no_nil (portsMap (px s'.1)) ∧
       Ports.no_nil (replacementPortsMap s'.2) ∧ ∃ a', kern_is s'.1 a' ∧ R (px s'.1) a') (s3, no_locals)) as Hr.
  { apply Hrules; [split; [done|]; simpl; congruence|]. split_and!.
    - intros key. rewrite <-Hsn. simpl. by rewrite Hp2.
    - intros ip. by rewrite <-Hb.
    - exists m1, m2, l. simpl. by rewrite Hp2, Hp1. }
  apply wp_run in Hr as (u & [s4 loc] & Hrun & Hnn4 & Hrp & a' & Hk4 & HR). cbn [fst snd] in *.
  unfold wp at 1. rewrite Hrun. eapply wp_mono; [by apply sync_finish_spec|].
  intros [] s5 (Hp5 & Hk5 & Hfl). exists (px s4), (replacementPortsMap loc), a'. split_and!; [done..| |done|].
  - destruct Hk4 as [??]. unfold kern_is. by rewrite Hk5.
  - exists (trace (io s4)). intros path Hpath. destruct stale. by apply Hfl.
Qed.

(** What the node addresses contribute is the same in every order. *)
Lemma prepared_config p p1 a :
  prepared p p1 a → wf_config (with_nodeIPs ips p) → wf_config p1.
Proof using Type.
  intros (_ & _ & m1 & m2 & l & Hl & ->) Hwf.
  apply (wf_config_perm _ _ l) in Hwf; [|done]. destruct Hwf. by split.
Qed.
Lemma prepared_want p p1 a : prepared p p1 a → want p1 = want (with_nodeIPs ips p).
Proof using Type. intros (_ & _ & m1 & m2 & l & Hl & ->). by rewrite <-(want_perm p l ips Hl). Qed.

(** ** syncProxyRules *)
Lemma syncProxyRules_ends (R : Proxier → vstate → Prop) s a :
  kern_is s a → endpointsSynced (px s) = true → servicesSynced (px s) = true →
  changes_wf (serviceChanges (px s)) → changes_wf (endpointsChanges (px s)) →
  Ports.no_nil (portsMap (px s)) →
  (∀ p link s1, let a1 := {| vs := vs a; bound := bound a; dummy := Some link |} in
     applied (px s) p → kern_is s1 a1 → prepared p (px s1) a1 →
     wp (sync_rules link) (λ _ s', Ports.no_nil (portsMap (px s'.1)) ∧
       Ports.no_nil (replacementPortsMap s'.2) ∧ ∃ a', kern_is s'.1 a' ∧ R (px s'.1) a') (s1, no_locals)) →
  wp syncProxyRules (λ _ s', ∃ p' rp a', px s' = with_portsMap rp p' ∧ Ports.no_nil rp ∧
    kern_is s' a' ∧ R p' a' ∧ ∃ p1 stale, applied (px s) p1 ∧ stale_sets (px s) p1 stale ∧
      ends_flushing p' rp stale s') s.
Proof using NS.
  intros Hk Hes Hss Hsc Hec Hnn Hrules. unfold syncProxyRules.
  apply wp_bind, wp_field, wp_bind, wp_field. rewrite Hes, Hss. cbn [negb orb].
  apply wp_bind. eapply wp_mono; [by apply sync_update_spec|].
  intros stale s1 (Happ & Hk1 & Ht1 & Hst). apply wp_bind, wp_onK. destruct Hk as [Hrep Ha].
  eapply wp_mono; [apply GetDummyLink_spec; by rewrite Hk1|].
  intros r k (Hrep2 & link & -> & Ha2). rewrite Hk1, Ha in Ha2.
  eapply wp_mono with (Q := λ _ s', ∃ p' rp a', px s' = with_portsMap rp p' ∧ Ports.no_nil rp ∧
    kern_is s' a' ∧ R p' a' ∧ ends_flushing p' rp stale s').
  2: { intros [] s' (p' & rp & a' & ? & ? & ? & ? & ?). exists p', rp, a'. split_and!; [done..|].
       by exists (px s1), stale. }
  eapply sync_apply_spec; [by split|done| |].
  - destruct Happ as (sm & em & -> & _). done.
  - intros s2 Hk2 Hprep. by apply (Hrules (px s1)).
Qed.

Lemma syncProxyRules_spec (R : Proxier → vstate → Prop) s a :
  kern_is s a → endpointsSynced (px s) = true → servicesSynced (px s) = true →
  changes_wf (serviceChanges (px s)) → changes_wf (endpointsChanges (px s)) →
  Ports.no_nil (portsMap (px s)) →
  (∀ p link s1, let a1 := {| vs := vs a; bound := bound a; dummy := Some link |} in
     applied (px s) p → kern_is s1 a1 → prepared p (px s1) a1 →
     wp (sync_rules link) (λ _ s', Ports.no_nil (portsMap (px s'.1)) ∧
       Ports.no_nil (replacementPortsMap s'.2) ∧ ∃ a', kern_is s'.1 a' ∧ R (px s'.1) a') (s1, no_locals)) →
  wp syncProxyRules (λ _ s', ∃ p' rp a', px s' = with_portsMap rp p' ∧ Ports.no_nil rp ∧
    kern_is s' a' ∧ R p' a') s.
Proof using NS.
  intros. eapply wp_mono; [by eapply (syncProxyRules_ends R s a)|].
  intros [] s' (p' & rp & a' & ? & ? & ? & ? & _). by exists p', rp, a'.
Qed.

(** ** The full sync *)

Lemma converged_ext p p' a :
  serviceMap p = serviceMap p' → endpointsMap p = endpointsMap p' → nodeIPs p = nodeIPs p' →
  converged p a → converged p' a.
Proof using Type.
  destruct p, p'. simpl. intros -> -> -> [H1 H2 H3 H4]. split; [exact H1|exact H2|exact H3|exact H4].
Qed.

Lemma wf_config_ext p p' :
  serviceMap p = serviceMap p' → endpointsMap p = endpointsMap p' → nodeIPs p ≡ₚ nodeIPs p' →
  wf_config p → wf_config p'.
Proof using Type.
  intros Hsm Hem Hl Hwf. assert (wf_config (with_nodeIPs (nodeIPs p) p)) as H by (by destruct p).
  apply (wf_config_perm _ _ _ Hl) in H. destruct p, p'. simpl in *. subst. destruct H as [H1 H2 H3].
  split; [exact H1|exact H2|exact H3].
Qed.

Lemma applied_nothing p p' :
  serviceChanges p = ∅ → endpointsChanges p = ∅ → applied p p' → p' = p.
Proof using Type.
  intros Hsc Hec (sm & em & -> & Hsm & Hem).
  assert (sm = serviceMap p) as -> by (apply map_eq; intros k; rewrite Hsm, Hsc; done).
  assert (em = endpointsMap p) as -> by (apply map_eq; intros k; rewrite Hem, Hec; done).
  by destruct p.
Qed.

Lemma full_sync_rules s p a link :
  wf_config (with_nodeIPs ips p) → serviceChanges p = ∅ → endpointsChanges p = ∅ →
  kern_is s a → dummy a = Some link → prepared p (px s) a →
  wp (sync_rules link) (λ _ s', px s'.1 = px s ∧ Ports.no_nil (replacementPortsMap s'.2) ∧
    ∃ a', kern_is s'.1 a' ∧ converged (px s) a') (s, no_locals).
Proof using PS.
  intros Hwf Hsc Hec Hk Hd Hprep. pose proof (prepared_config _ _ _ Hprep Hwf) as Hwf1.
  destruct Hprep as (Hsn & Hb & m1 & m2 & ip0 & Hl & Hp). unfold sync_rules.
  assert (serviceChanges (px s) = ∅ ∧ endpointsChanges (px s) = ∅) as [Hsc' Hec'] by (by rewrite Hp).
  apply wp_bind, wp_lift, wp_field, wp_bind, wp_lift, wp_field, wp_bind. cbn [fst snd].
  rewrite decide_True by done. eapply wp_mono.
  { apply (full_sync_spec (px s) a link); [done..|].
    split_and!; [done..| |done]. by rewrite prog_empty. }
  intros [] [s1 l1] (Hp1 & Hnn & a' & Hk' & _ & Hconv). cbn [fst snd] in *.
  apply wp_bind. unfold sync_service_changes. apply wp_bind, wp_lift, wp_field. cbn [fst snd].
  rewrite Hp1, decide_True by done. apply wp_ret, wp_lift. unfold sync_endpoint_changes.
  apply wp_bind, wp_field. cbn [fst snd]. rewrite Hp1, decide_True by done. apply wp_ret.
  split_and!; [done..|]. by exists a'.
Qed.

(** The fields a full sync keeps. *)
Definition same_config (p p' : Proxier) : Prop :=
  serviceMap p' = serviceMap p ∧ endpointsMap p' = endpointsMap p ∧
  serviceChanges p' = serviceChanges p ∧ endpointsChanges p' = endpointsChanges p ∧
  endpointsSynced p' = endpointsSynced p ∧ servicesSynced p' = servicesSynced p.

(** The precondition of a full sync. *)
Record ready (s : Sys K) : Prop := {
  ready_rep : rep (kern s);
  ready_endpoints : endpointsSynced (px s) = true;
  ready_services : servicesSynced (px s) = true;
  ready_sc : serviceChanges (px s) = ∅;
  ready_ec : endpointsChanges (px s) = ∅;
  ready_ports : Ports.no_nil (portsMap (px s));
  ready_config : wf_config (with_nodeIPs ips (px s));
}.

Lemma syncProxyRules_full s :
  ready s →
  wp syncProxyRules (λ _ s', ready s' ∧ same_config (px s) (px s') ∧ nodeIPs (px s') ≡ₚ ips ∧
    converged (px s') (abs (kern s'))) s.
Proof using NS PS.
  intros [Hrep Hes Hss Hsc Hec Hnn Hwf].
  assert (changes_wf (serviceChanges (px s)) ∧ changes_wf (endpointsChanges (px s))) as [??].
  { by rewrite Hsc, Hec. }
  eapply wp_mono; [apply (syncProxyRules_spec (λ p' a', (same_config (px s) p' ∧ nodeIPs p' ≡ₚ ips) ∧
    converged p' a') s (abs (kern s))); try done|].
  - intros p link s1 a1 Happ%applied_nothing Hk1 Hprep; [|done..]. subst p.
    eapply wp_mono; [by apply full_sync_rules with (2 := Hsc) (3 := Hec) (6 := Hprep)|].
    destruct Hprep as (_ & _ & m1 & m2 & ip0 & Hl & Hp). intros [] [s2 l2] (Hp2 & Hnn2 & a' & Hk' & Hconv).
    cbn [fst snd] in *. rewrite Hp2 at 1. rewrite Hp at 1. split_and!; [done..|]. exists a'.
    split; [done|]. rewrite Hp2. split; [|done]. by rewrite Hp.
  - intros [] s' (p' & rp & a' & Hp & Hrp & [Hrep' <-] & (Hsame & Hips) & Hconv).
    destruct Hsame as (H1 & H2 & H3 & H4 & H5 & H6). rewrite Hp. split_and!.
    + split; rewrite ?Hp; simpl; try congruence; [done..|].
      eapply wf_config_ext; [..|exact Hwf]; simpl; by rewrite ?H1, ?H2, ?Hips.
    + by repeat split.
    + done.
    + by apply (converged_ext p').
Qed.
End sync.
