(* ===== verification/EndpointSync.v ===== *)
(** * The incremental sync of endpoints is exact

    When only endpoints changed, [syncProxyRules] reprograms the virtual
    addresses of the service ports named by the changes and leaves the others:
    from a kernel that holds the wanted table it leads to the table wanted
    after the changes. *)

From S2P Require Import Prelude GoNet ProxyTypes ChangeTracking Services EndpointsMap Ipvs Host Ports Conntrack Nodes Proxier ProxierFacts FullSync SyncSpec.
Import Proxier.
Import Services(ServiceInfo).
Import Nodes(NodeIPInterface, GetNodeIPs).

Lemma bind_NoDup_disjoint {A B} (f : A → list B) (l : list A) x y k :
  NoDup (l ≫= f) → x ∈ l → y ∈ l → x ≠ y → k ∈ f x → k ∉ f y.
Proof.
  induction l as [|z l IH]; intros Hnd Hx Hy Hne Hkx Hky; [by apply elem_of_nil in Hx|].
  rewrite bind_cons in Hnd. apply NoDup_app in Hnd as (_ & Hdis & Hnd).
  assert (∀ w, w ∈ l → k ∈ f w → k ∈ l ≫= f) as Hin by (intros w ??; apply list_elem_of_bind; eauto).
  apply elem_of_cons in Hx as [->|Hx], Hy as [->|Hy]; [done|by eapply Hdis, Hin|by eapply Hdis, Hin|].
  by apply IH.
Qed.

Lemma bind_bind {A B C} (f : A → list B) (g : B → list C) (l : list A) :
  (l ≫= λ x, f x ≫= g) = (l ≫= f) ≫= g.
Proof. induction l as [|x l IH]; [done|]. by rewrite !bind_cons, bind_app, IH. Qed.

(** The virtual addresses of a service port name. *)
Definition keys_of (p : Proxier) (name : ServicePortName) : list activeServiceKey :=
  match serviceMap p !! name with
  | Some info => rule_keys (nodeIPs p) info
  | None => []
  end.

Lemma keys_of_NoDup p (names : list ServicePortName) :
  wf_config p → NoDup names → NoDup (names ≫= keys_of p).
Proof.
  intros Hwf. pose proof (wfc_distinct _ Hwf) as Hd. rewrite rule_table_keys in Hd.
  induction 1 as [|name names Hn Hnd IH]; [constructor|]. rewrite bind_cons. apply NoDup_app.
  unfold keys_of at 1 2. destruct (serviceMap p !! name) as [info|] eqn:E; [|by split_and!; [constructor|set_solver|]].
  apply elem_of_map_to_list in E as Hin. split_and!; [|intros key Hk|done].
  - apply list_elem_of_split in Hin as (l1 & l2 & Hl). rewrite Hl, bind_app, bind_cons in Hd.
    apply NoDup_app in Hd as (_ & _ & Hd). by apply NoDup_app in Hd as (? & _).
  - intros (name' & Hk' & Hin')%list_elem_of_bind. unfold keys_of in Hk'.
    destruct (serviceMap p !! name') as [info'|] eqn:E'; [|by apply elem_of_nil in Hk'].
    apply elem_of_map_to_list in E' as Hin2.
    assert (name ≠ name') as Hne by (intros ->; done).
    by apply (bind_NoDup_disjoint (λ e, rule_keys (nodeIPs p) e.2) _ (name, info) (name', info') key Hd Hin Hin2);
      [congruence|..].
Qed.

(** The service ports a change reprograms: those it drops, then those it
    has. *)
Definition names_of (ch : Change (list Endpoints.EndpointsInfo)) : list ServicePortName :=
  filter (λ name, gm (Current ch) !! name = None) (map_to_list (gm (Previous ch))).*1 ++
  (map_to_list (gm (Current ch))).*1.

Lemma elem_of_names_of ch name :
  name ∈ names_of ch ↔ is_Some (gm (Previous ch) !! name) ∨ is_Some (gm (Current ch) !! name).
Proof.
  assert (∀ m : gmap ServicePortName (list Endpoints.EndpointsInfo),
    name ∈ (map_to_list m).*1 ↔ is_Some (m !! name)) as Hm.
  { intros m. rewrite list_elem_of_fmap. split.
    - intros ([k v] & -> & Hin%elem_of_map_to_list). by eexists.
    - intros [v Hv]. exists (name, v). by rewrite elem_of_map_to_list. }
  unfold names_of. rewrite elem_of_app, list_elem_of_filter, !Hm, eq_None_not_Some.
  destruct (decide (is_Some (gm (Current ch) !! name))); naive_solver.
Qed.

Lemma names_of_NoDup ch : NoDup (names_of ch).
Proof.
  apply NoDup_app. split_and!; [apply NoDup_filter, NoDup_fst_map_to_list| |apply NoDup_fst_map_to_list].
  intros name [Hn _]%list_elem_of_filter ([k v] & -> & Hin%elem_of_map_to_list)%list_elem_of_fmap.
  simpl in Hn. by rewrite Hin in Hn.
Qed.

Lemma changes_names_NoDup (l : list (NamespacedName * Change (list Endpoints.EndpointsInfo))) :
  NoDup l.*1 → Forall (λ e, change_wf e.1 e.2) l → NoDup (l.*2 ≫= names_of).
Proof.
  induction l as [|[nsn ch] l IH]; intros Hnd Hwf; [constructor|].
  rewrite fmap_cons, bind_cons in *. apply NoDup_cons in Hnd as [Hn Hnd].
  apply Forall_cons in Hwf as [[Hp Hc] Hwf]. cbn [fst snd] in *. apply NoDup_app.
  split_and!; [apply names_of_NoDup| |by apply IH].
  intros name Hin (ch' & Hin' & Hch')%list_elem_of_bind. apply list_elem_of_fmap in Hch' as ([nsn' ch2] & -> & Hel).
  apply elem_of_names_of in Hin, Hin'. cbn [snd] in *.
  assert (nsn_of name = nsn) as Hns by (destruct Hin; auto).
  eapply Forall_forall in Hwf as [Hp' Hc']; [|exact Hel]. cbn [fst snd] in *.
  assert (nsn_of name = nsn') as Hns' by (destruct Hin'; auto).
  apply Hn, list_elem_of_fmap. exists (nsn', ch2). split; [simpl; congruence|done].
Qed.

Section endpoint_sync.
Context {K : Type} `{IF : Interface K} `{IS : !IpvsSpec K} `{MR : MapRange}.
Context `{NI : NodeIPInterface K} `{PO : PortOpener} `{EX : Exec} `{NO : NetOS}.

(** A loop that programs the keys [f x] in its round [x]. *)
Lemma wp_grow_loop {A} (J : gset activeServiceKey → Sys K → Prop) (f : A → list activeServiceKey)
    (body : A → M (Sys K) unit) (l : list A) act s :
  (∀ x act s, x ∈ l → J act s → (∀ k, k ∈ f x → k ∉ act) →
     wp (body x) (λ _, J (act ∪ list_to_set (f x))) s) →
  NoDup (l ≫= f) → (∀ k, k ∈ l ≫= f → k ∉ act) → J act s →
  wp (for_each l body) (λ _, J (act ∪ list_to_set (l ≫= f))) s.
Proof.
  revert act s. induction l as [|x l IH]; intros act s Hbody Hnd Hfresh HJ.
  { apply wp_ret. simpl. by rewrite union_empty_r_L. }
  rewrite bind_cons in *. apply NoDup_app in Hnd as (Hnd1 & Hdis & Hnd2).
  apply wp_bind. eapply wp_mono.
  { apply Hbody; [left|exact HJ|]. intros k Hk. apply Hfresh, elem_of_app. by left. }
  intros [] s1 HJ1. eapply wp_mono.
  { apply (IH (act ∪ list_to_set (f x)) s1); [|done| |done].
    - intros y act' s' Hy. apply Hbody. by right.
    - intros k Hk [Hin|Hin%elem_of_list_to_set]%elem_of_union; [|by apply (Hdis k)].
      apply (Hfresh k); [apply elem_of_app; by right|done]. }
  intros [] s2 HJ2. by rewrite list_to_set_app_L, (assoc_L (∪)).
Qed.

Section loop.
(** The proxier and the kernel when the block starts. *)
Context (p1 : Proxier) (a0 : vstate) (link : Link).
Hypothesis Hwf : wf_config p1.
Hypothesis Hsnap : snapshot p1 a0.
Hypothesis Hsame : dom (vs a0) = dom (want p1).

Definition J (act : gset activeServiceKey) (s : Sys K) : Prop :=
  px s = p1 ∧ kern_is s (prog p1 a0 link act ∅).

Lemma syncEndpointChange_spec name info ip port act s :
  let svc := ipvs_service ip port info in
  serviceMap p1 !! name = Some info → svc ∈ service_rules (nodeIPs p1) info →
  J act s → service_key svc ∉ act →
  wp (syncEndpointChange ip port info name) (λ _, J (act ∪ {[service_key svc]})) s.
Proof using Hwf Hsnap Hsame.
  intros svc Hl Hsvc [Hpx Hk] Hn. unfold syncEndpointChange. fold svc.
  apply wp_bind, wp_field. rewrite Hpx. set (key := service_key svc) in *.
  assert (want p1 !! key = Some (eps_of p1 name)) as Hw.
  { eapply want_lookup; [done..|]. by apply list_elem_of_fmap_2. }
  assert (is_Some (vs a0 !! key)) as [eps Heps] by (rewrite <-elem_of_dom, Hsame, elem_of_dom; eauto).
  pose proof (Hsnap key) as Hkey. rewrite Heps in Hkey. apply fmap_Some in Hkey as (ke & Hke & ->).
  rewrite Hke. cbn [default]. eapply wp_mono.
  { apply CreateEndpointRule_spec with (1 := Hk).
    - by eapply wfc_rules.
    - rewrite Hpx. apply wfc_eps; eauto.
    - fold key. by rewrite prog_lookup, decide_False. }
  intros [] s' [[Hp' _] Hk']. split; [congruence|]. fold key in Hk'.
  rewrite Hpx, prog_extend in Hk' by done. by rewrite (comm_L (∪)).
Qed.

Lemma sync_port_endpoints_spec name act s :
  J act s → (∀ k, k ∈ keys_of p1 name → k ∉ act) →
  wp (sync_port_endpoints name) (λ _, J (act ∪ list_to_set (keys_of p1 name))) s.
Proof using Hwf Hsnap Hsame.
  intros HJ Hfresh. pose proof (keys_of_NoDup p1 [name] Hwf ltac:(apply NoDup_singleton)) as Hnd.
  rewrite bind_cons, app_nil_r in Hnd. unfold sync_port_endpoints, keys_of in *. apply wp_bind, wp_field.
  replace (px s) with p1 by (by destruct HJ as [-> _]).
  destruct (serviceMap p1 !! name) as [info|] eqn:El.
  2: { apply wp_ret. simpl. by rewrite union_empty_r_L. }
  unfold rule_keys in *.
  assert (∀ ip port, let svc := ipvs_service ip port info in svc ∈ service_rules (nodeIPs p1) info →
    ∀ act s, J act s → (∀ k, k ∈ [service_key svc] → k ∉ act) →
    wp (syncEndpointChange ip port info name) (λ _, J (act ∪ list_to_set [service_key svc])) s) as Hone.
  { intros ip port svc Hsvc act' s' HJ' Hf. simpl. rewrite union_empty_r_L.
    eapply syncEndpointChange_spec; [done..|]. apply Hf. left. }
  unfold service_rules in *. rewrite fmap_cons, fmap_app in *.
  apply NoDup_cons in Hnd as [Hn0 Hnd]. apply NoDup_app in Hnd as (Hnd1 & Hdis & Hnd2).
  rewrite elem_of_app in Hn0. setoid_rewrite elem_of_cons in Hfresh. setoid_rewrite elem_of_app in Hfresh.
  rewrite list_to_set_cons, list_to_set_app_L, !(assoc_L (∪)).
  apply wp_bind. eapply wp_mono; [apply Hone; [left|exact HJ|]|].
  { intros k ->%list_elem_of_singleton. apply Hfresh. by left. }
  intros [] s1 HJ1. cbn [list_to_set foldr] in HJ1. rewrite union_empty_r_L in HJ1.
  apply wp_bind. rewrite external_keys in *. eapply wp_mono.
  { apply (wp_grow_loop J); [..|exact HJ1]; [|done|].
    - intros e act' s' He HJ'. apply Hone; [|done]. apply elem_of_cons. right. apply elem_of_app. left.
      by apply elem_of_external_rules.
    - intros k Hk. rewrite elem_of_union, elem_of_singleton. intros [Hin| ->]; [|by destruct Hn0; left].
      by apply (Hfresh k); [auto|]. }
  intros [] s2 HJ2. destruct (decide (Services.NodePort info = 0%Z)) as [Hz|Hz].
  { apply wp_ret. unfold node_rules. rewrite decide_True by done. simpl. by rewrite union_empty_r_L. }
  apply wp_bind, wp_field. replace (px s2) with p1 by (by destruct HJ2 as [-> _]).
  rewrite node_keys in * by done. apply wp_grow_loop; [..|exact HJ2]; [|done|].
  - intros ip act' s' Hip HJ'. apply Hone; [|done]. apply elem_of_cons. right. apply elem_of_app. right.
    by apply elem_of_node_rules.
  - intros k Hk. rewrite !elem_of_union, elem_of_singleton, elem_of_list_to_set.
    intros [[Hin| ->]|Hin]; [by apply (Hfresh k); [auto|]|by destruct Hn0; right|by apply (Hdis k)].
Qed.

Definition change_keys (ch : Change (list Endpoints.EndpointsInfo)) : list activeServiceKey :=
  names_of ch ≫= keys_of p1.

Lemma sync_endpoint_change_spec ch act s :
  J act s → (∀ k, k ∈ change_keys ch → k ∉ act) →
  wp (sync_endpoint_change ch) (λ _, J (act ∪ list_to_set (change_keys ch))) s.
Proof using Hwf Hsnap Hsame.
  intros HJ Hfresh. pose proof (keys_of_NoDup p1 _ Hwf (names_of_NoDup ch)) as Hnd.
  unfold change_keys, names_of in *. rewrite bind_app in *. apply NoDup_app in Hnd as (Hnd1 & Hdis & Hnd2).
  setoid_rewrite elem_of_app in Hfresh. rewrite list_to_set_app_L, (assoc_L (∪)).
  set (prev := (map_to_list (gm (Previous ch))).*1) in *. set (cur := (map_to_list (gm (Current ch))).*1) in *.
  set (f1 name := match gm (Current ch) !! name with Some _ => [] | None => keys_of p1 name end).
  assert (∀ l, filter (λ name, gm (Current ch) !! name = None) l ≫= keys_of p1 = l ≫= f1) as Hf1.
  { clear. induction l as [|x l IH]; [done|]. rewrite bind_cons, <-IH. unfold f1.
    rewrite filter_cons. destruct (gm (Current ch) !! x); by case_decide. }
  rewrite Hf1 in *. unfold sync_endpoint_change.
  apply wp_bind, wp_onIO, wp_rangeM, wp_bind.
  set (l1 := (map_range _ (gm (Previous ch))).*1).
  assert (l1 ≫= f1 ≡ₚ prev ≫= f1) as Hl1 by (unfold l1, prev; by rewrite map_range_perm).
  eapply wp_mono; [apply (wp_grow_loop J f1 _ l1 act)|].
  { intros name act' s' _ HJ' Hf. unfold f1 in *. destruct (gm (Current ch) !! name).
    - apply wp_ret. simpl. by rewrite union_empty_r_L.
    - by apply sync_port_endpoints_spec. }
  { by rewrite Hl1. }
  { intros k. rewrite Hl1. auto. }
  { done. }
  intros [] s1 HJ1. rewrite (list_to_set_perm_L _ _ Hl1) in HJ1.
  apply wp_bind, wp_onIO, wp_rangeM. set (l2 := (map_range _ (gm (Current ch))).*1).
  assert (l2 ≫= keys_of p1 ≡ₚ cur ≫= keys_of p1) as Hl2 by (unfold l2, cur; by rewrite map_range_perm).
  rewrite <-(list_to_set_perm_L _ _ Hl2). apply wp_grow_loop; [..|exact HJ1].
  - intros name act' s' _ HJ' Hf. by apply sync_port_endpoints_spec.
  - by rewrite Hl2.
  - intros k. rewrite Hl2. intros Hk [Hin|Hin%elem_of_list_to_set]%elem_of_union; [|by apply (Hdis k)].
    by apply (Hfresh k); [right|].
Qed.

Definition all_keys (items : Changes (list Endpoints.EndpointsInfo)) : gset activeServiceKey :=
  list_to_set ((map_to_list items).*2 ≫= change_keys).

Lemma sync_endpoint_changes_spec s :
  changes_wf (endpointsChanges p1) → J ∅ s →
  wp sync_endpoint_changes (λ _ s', px s' = with_endpointsChanges ∅ p1 ∧
    kern_is s' (prog p1 a0 link (all_keys (endpointsChanges p1)) ∅)) s.
Proof using Hwf Hsnap Hsame.
  intros Hch HJ. unfold sync_endpoint_changes. apply wp_bind, wp_field.
  replace (px s) with p1 by (by destruct HJ as [-> _]). set (items := endpointsChanges p1) in *.
  case_decide as He.
  { apply wp_ret. destruct HJ as [-> Hk]. split.
    - unfold items in He. destruct p1. simpl in *. by subst.
    - rewrite He. done. }
  apply wp_bind, wp_onIO, wp_rangeM, wp_bind. set (l := map_range _ items).
  assert (l.*2 ≫= change_keys ≡ₚ (map_to_list items).*2 ≫= change_keys) as Hl by (unfold l; by rewrite map_range_perm).
  eapply wp_mono; [apply (wp_grow_loop J change_keys _ l.*2 ∅)|].
  { intros ch act' s' _ HJ' Hf. by apply sync_endpoint_change_spec. }
  { unfold change_keys. rewrite bind_bind. apply keys_of_NoDup, changes_names_NoDup; [done| |].
    - apply NoDup_map_range.
    - apply Forall_forall. intros [nsn ch] Hin%elem_of_map_range. by apply Hch. }
  { intros k _. apply not_elem_of_empty. }
  { done. }
  intros [] s1 [Hp1 Hk1]. apply wp_assign. split; [by rewrite <-Hp1|].
  unfold all_keys. rewrite <-(list_to_set_perm_L _ _ Hl). by rewrite union_empty_l_L in Hk1.
Qed.
End loop.

(** ** syncProxyRules when only endpoints changed *)

(** Endpoints of names no change mentions are the same before and after. *)
Lemma applied_eps p p' name :
  applied p p' → serviceChanges p = ∅ →
  (∀ nsn ch, endpointsChanges p !! nsn = Some ch → name ∉ names_of ch) → eps_of p' name = eps_of p name.
Proof.
  intros (sm & em & -> & _ & Hem) _ Hn. unfold eps_of. simpl. rewrite Hem. unfold updated.
  destruct (endpointsChanges p !! nsn_of name) as [ch|] eqn:E; [|done].
  specialize (Hn _ _ E). rewrite elem_of_names_of in Hn. unfold updated1.
  destruct (gm (Current ch) !! name) eqn:Ec; [by destruct Hn; right|].
  destruct (gm (Previous ch) !! name) eqn:Ep; [by destruct Hn; left|done].
Qed.

Lemma prog_all_keys ips p p' p1 a0 link :
  applied p p' → serviceChanges p = ∅ → prepared ips p' p1 a0 →
  wf_config p1 → vs a0 = want (with_nodeIPs ips p) →
  vs (prog p1 a0 link (all_keys p1 (endpointsChanges p1)) ∅) = want p1.
Proof.
  intros Happ Hsc (_ & _ & m1 & m2 & l & Hl & Hp1) Hwf Ha0. apply map_eq. intros key.
  rewrite <-(want_perm p l ips Hl) in Ha0.
  etrans; [apply prog_lookup|]. case_decide as Hin; [done|]. rewrite Ha0.
  assert (serviceMap p' = serviceMap p ∧ endpointsChanges p' = endpointsChanges p) as [Hsm Hec].
  { destruct Happ as (sm & em & -> & Hs & _). split; [|done]. apply map_eq. intros k. simpl. by rewrite Hs, Hsc. }
  pose proof (wfc_distinct _ Hwf) as Hnd. rewrite rule_table_keys in Hnd.
  assert (serviceMap p1 = serviceMap p ∧ nodeIPs p1 = l ∧ endpointsChanges p1 = endpointsChanges p) as (H1 & H2 & H3).
  { rewrite Hp1. simpl. by rewrite Hsm, Hec. }
  destruct (want p1 !! key) as [eps|] eqn:E1.
  - assert (is_Some (want p1 !! key)) as Hsome by eauto.
    apply want_dom in Hsome as ([name info] & Hel%elem_of_map_to_list & Hkey). cbn [fst snd] in Hkey.
    rewrite (want_lookup p1 name info key Hwf Hel Hkey) in E1. injection E1 as <-.
    rewrite H1, H2 in *. rewrite (want_lookup_distinct (with_nodeIPs l p) name info key) by done.
    f_equal. replace (eps_of p1 name) with (eps_of p' name) by (by rewrite Hp1).
    symmetry. apply (applied_eps p p'); [done..|]. intros nsn ch Hch Hname. apply Hin.
    apply elem_of_list_to_set, list_elem_of_bind. exists ch. split.
    + apply list_elem_of_bind. exists name. split; [|done]. unfold keys_of. by rewrite H1, Hel, H2.
    + apply list_elem_of_fmap. exists (nsn, ch). split; [done|]. apply elem_of_map_to_list. by rewrite H3.
  - apply eq_None_not_Some. rewrite want_dom. simpl. intros (e & Hel & Hkey).
    apply eq_None_not_Some in E1. apply E1, want_dom. exists e. by rewrite H1, H2.
Qed.

Lemma endpoint_sync_rules ips s p p' a link :
  applied p p' → serviceChanges p = ∅ → endpointsChanges p ≠ ∅ → changes_wf (endpointsChanges p) →
  wf_config (with_nodeIPs ips p') → vs a = want (with_nodeIPs ips p) → dummy a = Some link →
  kern_is s a → prepared ips p' (px s) a →
  wp (sync_rules link) (λ _ s', px s'.1 = with_endpointsChanges ∅ (px s) ∧
    replacementPortsMap s'.2 = ∅ ∧ ∃ a', kern_is s'.1 a' ∧ vs a' = want (px s) ∧ bound a' = bound a) (s, no_locals).
Proof.
  intros Happ Hsc Hne Hch Hwf Hv Hd Hk Hprep. pose proof Hprep as (Hsn & _ & m1 & m2 & l & Hl & Hp).
  assert (serviceChanges (px s) = ∅ ∧ endpointsChanges (px s) = endpointsChanges p) as [Hsc' Hec'].
  { rewrite Hp. by destruct Happ as (sm & em & -> & _). }
  pose proof (prepared_config _ _ _ _ Hprep Hwf) as Hwf1.
  assert (dom (vs a) = dom (want (px s))) as Hdom.
  { apply set_eq. intros key. rewrite !elem_of_dom, Hv, <-(want_perm p l ips Hl), !want_dom. rewrite Hp. simpl.
    destruct Happ as (sm & em & -> & Hsm & _). simpl.
    assert (sm = serviceMap p) as -> by (apply map_eq; intros k; by rewrite Hsm, Hsc). done. }
  assert (kern_is s (prog (px s) a link ∅ ∅)) as Hk0 by (by rewrite prog_empty).
  unfold sync_rules. apply wp_bind, wp_lift, wp_field, wp_bind, wp_lift, wp_field, wp_bind. cbn [fst snd].
  rewrite decide_False by (rewrite Hec'; tauto). apply wp_ret, wp_bind. unfold sync_service_changes.
  apply wp_bind, wp_lift, wp_field. cbn [fst snd]. rewrite decide_True by done. apply wp_ret, wp_lift. cbn [fst snd].
  eapply wp_mono; [apply (sync_endpoint_changes_spec (px s) a link); [done..|by rewrite Hec'|done]|].
  intros [] s1 [Hp1 Hk1]. split; [done|]. split; [done|]. eexists. split; [exact Hk1|]. split.
  - by apply (prog_all_keys ips p p').
  - simpl. by rewrite union_empty_r_L.
Qed.
End endpoint_sync.
