(* ===== verification/IncrSync.v ===== *)
(** * The incremental sync always completes

    Over an IPVS implementation that tolerates redundant additions and
    deletions ([IpvsRobust], met by [EnnIpvs]), [syncProxyRules] returns from
    every pending change, keeps the implementation's invariant, applies the
    changes to the maps and clears them. What it programs in between need not
    be the wanted table; the next sync without pending changes repairs it. *)

From S2P Require Import Prelude GoNet ProxyTypes ChangeTracking Services EndpointsMap Ipvs Host Ports Conntrack Nodes Proxier ProxierFacts FullSync SyncSpec.
Import Proxier.
Import Services(ServiceInfo).
Import Nodes(NodeIPInterface, GetNodeIPs).

(** Service ports whose rules can be programmed. *)
Definition wf_info (ips : list IP) (info : ServiceInfo) : Prop :=
  Forall wf_service (service_rules ips info).
Definition wf_infos (ips : list IP) (m : gmap ServicePortName ServiceInfo) : Prop :=
  map_Forall (λ _, wf_info ips) m.

(** Pending service changes that can be programmed and taken back. *)
Definition wf_service_items (ips : list IP) (items : Changes ServiceInfo) : Prop :=
  map_Forall (λ _ ch, wf_infos ips (gm (Previous ch)) ∧ wf_infos ips (gm (Current ch))) items.

Lemma wf_service_items_perm l l' items : l ≡ₚ l' → wf_service_items l items → wf_service_items l' items.
Proof.
  intros Hl Hwf n ch Hch. destruct (Hwf n ch Hch) as [Hp Hc].
  split; intros k info Hi; unfold wf_info;
    rewrite <-(service_rules_perm l l') by done.
  - by apply (Hp k).
  - by apply (Hc k).
Qed.

Section incremental.
Context {K : Type} `{IF : Interface K} `{IS : !IpvsSpec K} `{IR : !IpvsRobust K} `{MR : MapRange}.
Context `{NI : NodeIPInterface K} `{PO : PortOpener} `{PS : !PortOpenerSpec} `{EX : Exec} `{NO : NetOS}.

(** The kernel is usable and the device is [link]. *)
Definition usable (link : Link) (s : Sys K) : Prop := rep (kern s) ∧ dummy (abs (kern s)) = Some link.

Section steps.
Context (p1 : Proxier) (link : Link).

(** The invariant of the blocks: the proxier's fields do not change. *)
Definition U (s : Sys K) : Prop := px s = p1 ∧ usable link s.

Lemma U_onK {A} (c : M K A) (Q : A → Sys K → Prop) s :
  px s = p1 →
  wp c (λ a k, ∀ s', px s' = p1 → kern s' = k → Q a s') (kern s) → wp (onK c) Q s.
Proof. intros Hp Hc. apply wp_onK. eapply wp_mono; [exact Hc|]. intros a k HQ. by apply HQ. Qed.

Lemma CreateEndpointRule_total svc name ke s :
  U s → wf_service svc → wf_endpoints p1 name → Forall (wf_server ∘ server_of) ke →
  wp (CreateEndpointRule svc name ke) (λ _, U) s.
Proof using IR.
  intros HU Hsvc Hep Hke. unfold CreateEndpointRule. apply wp_bind, wp_field, wp_bind, wp_onIO, wp_rangeM, wp_bind.
  replace (px s) with p1 by (by destruct HU as [-> _]). set (new := endpoint_key <$> _).
  assert (∀ (P : endpointKey → Prop) n l, (∀ e, e ∈ l → P e) → ∀ e, e ∈ (map_range n (key_map l)).*1 → P e) as Hr.
  { intros P n l HP e He%key_map_range. by apply HP. }
  eapply wp_mono; [apply (wp_for_each_inv U); [by split; [|apply HU]|]|].
  - intros e s' He [Hp [Hrep Hd]]. destruct (key_map ke !! e); [by apply wp_ret|].
    apply wp_bind, U_onK; [done|]. eapply wp_mono; [apply AddIpvsServer_total; [done..|]|].
    + revert e He. apply (Hr (λ e, wf_server (server_of e))). intros e (i & -> & Hi)%list_elem_of_fmap.
      by eapply Forall_forall in Hep.
    + intros err k [Hrep' Ha'] s2 Hp2 <-. apply wp_ret. split; [done|]. split; [done|]. by rewrite Ha'.
  - intros [] s2 HU2. apply wp_bind, wp_onIO, wp_rangeM. apply (wp_for_each_inv U); [exact HU2|].
    intros e s' He [Hp [Hrep Hd]]. destruct (key_map new !! e); [by apply wp_ret|].
    apply wp_bind, U_onK; [done|]. eapply wp_mono; [apply DeleteIpvsServer_total; [done..|]|].
    + revert e He. apply (Hr (λ e, wf_server (server_of e))). intros e He. by eapply Forall_forall in Hke.
    + intros err k [Hrep' Ha'] s3 Hp3 <-. apply wp_ret. split; [done|]. split; [done|]. by rewrite Ha'.
Qed.

Lemma deleteIpvsService_total ip port info s :
  U s → wf_service (ipvs_service ip port info) → wp (deleteIpvsService ip port info) (λ _, U) s.
Proof using Type.
  intros [Hp [Hrep Hd]] Hsvc. apply wp_bind, U_onK; [done|].
  eapply wp_mono; [by apply DeleteIpvsService_spec|]. intros e k (_ & Hrep' & Ha') s' Hp' <-.
  apply wp_ret. split; [done|]. split; [done|]. by rewrite Ha'.
Qed.

(** A rule of a programmable service port. *)
Lemma wf_info_rule ips info svc : wf_info ips info → svc ∈ service_rules ips info → wf_service svc.
Proof using Type. intros Hwf Hin. by eapply Forall_forall in Hwf. Qed.

Lemma cluster_in ips info : cluster_rule info ∈ service_rules ips info.
Proof using Type. left. Qed.
Lemma external_in ips info e : e ∈ Services.ExternalIPs info →
  ipvs_service (Net.ParseIP e) (Services.Port info) info ∈ service_rules ips info.
Proof using Type. intros He. right. apply elem_of_app. left. by apply elem_of_external_rules. Qed.
Lemma node_in ips info ip : Services.NodePort info ≠ 0%Z → ip ∈ ips →
  ipvs_service ip (Services.NodePort info) info ∈ service_rules ips info.
Proof using Type. intros Hn Hip. right. apply elem_of_app. right. by apply elem_of_node_rules. Qed.

Lemma delete_previous_total info s :
  U s → wf_info (nodeIPs p1) info → wp (delete_previous info) (λ _, U) s.
Proof using Type.
  intros HU Hwf. unfold delete_previous. apply wp_bind. eapply wp_mono.
  { apply deleteIpvsService_total; [done|]. eapply wf_info_rule; [done|apply cluster_in]. }
  intros [] s1 HU1. apply wp_bind. eapply wp_mono; [apply (wp_for_each_inv U); [done|]|].
  { intros e s' He HU'. apply deleteIpvsService_total; [done|]. by eapply wf_info_rule, external_in. }
  intros [] s2 HU2. case_decide; [by apply wp_ret|]. apply wp_bind, wp_field.
  replace (px s2) with p1 by (by destruct HU2 as [-> _]). apply (wp_for_each_inv U); [done|].
  intros ip s' Hip HU'. apply deleteIpvsService_total; [done|]. by eapply wf_info_rule, node_in.
Qed.

Lemma sync_port_endpoints_total name s :
  U s → (∀ info, serviceMap p1 !! name = Some info → wf_info (nodeIPs p1) info) →
  (is_Some (serviceMap p1 !! name) → wf_endpoints p1 name) →
  (∀ key, Forall (wf_server ∘ server_of) (default [] (kernelIpvsMap p1 !! key))) →
  wp (sync_port_endpoints name) (λ _, U) s.
Proof using IR.
  intros HU Hwf Hep Hke. unfold sync_port_endpoints. apply wp_bind, wp_field.
  replace (px s) with p1 by (by destruct HU as [-> _]).
  destruct (serviceMap p1 !! name) as [info|]; [|by apply wp_ret].
  specialize (Hwf info eq_refl). specialize (Hep ltac:(eauto)).
  assert (∀ ip port s, U s → ipvs_service ip port info ∈ service_rules (nodeIPs p1) info →
    wp (syncEndpointChange ip port info name) (λ _, U) s) as Hone.
  { intros ip port s' HU' Hin. unfold syncEndpointChange. apply wp_bind, wp_field.
    replace (px s') with p1 by (by destruct HU' as [-> _]).
    apply CreateEndpointRule_total; [done|by eapply wf_info_rule|done|done]. }
  apply wp_bind. eapply wp_mono; [apply Hone; [done|apply cluster_in]|]. intros [] s1 HU1.
  apply wp_bind. eapply wp_mono; [apply (wp_for_each_inv U); [done|]|].
  { intros e s' He HU'. apply Hone; [done|]. by apply external_in. }
  intros [] s2 HU2. case_decide; [by apply wp_ret|]. apply wp_bind, wp_field.
  replace (px s2) with p1 by (by destruct HU2 as [-> _]). apply (wp_for_each_inv U); [done|].
  intros ip s' Hip HU'. apply Hone; [done|]. by apply node_in.
Qed.

(** ** Changed services *)

(** The same invariant with the local maps of the loops. *)
Definition UL (s : Sys K * Locals) : Prop := U s.1 ∧ Ports.no_nil (replacementPortsMap s.2).

Lemma UL_framed : framed UL.
Proof using Type.
  intros s s' l l' [[Hp [Hrep Hd]] Hnn] Hp' Hk' _ _ Hn. unfold UL, U, usable. cbn [fst snd] in *.
  rewrite Hp', Hk'. auto.
Qed.

Lemma wp_lift_U {A} (c : M (Sys K) A) s : wp c (λ _, U) s.1 → UL s → wp (lift c) (λ _, UL) s.
Proof using Type. intros Hc [_ Hn]. apply wp_lift. eapply wp_mono; [exact Hc|]. intros a s' HU. by split. Qed.

Lemma add_rule_total svc s : UL s → wf_service svc → wp (add_rule svc) (λ _, UL) s.
Proof using Type.
  intros HU Hsvc. apply wp_bind. eapply wp_mono; [apply wp_lift_U; [|done]|by intros; apply wp_ret].
  destruct HU as [[Hp [Hrep Hd]] _]. apply U_onK; [done|].
  eapply wp_mono; [by apply AddIpvsService_spec|]. intros e k (_ & Hrep' & Ha') s' Hp' <-.
  split; [done|]. split; [done|]. by rewrite Ha'.
Qed.

Lemma add_current_total e s :
  UL s → wf_info (nodeIPs p1) e.2 → wp (add_current link e) (λ _, UL) s.
Proof using PS.
  destruct e as [name info]. intros HU Hwf. cbn [snd] in Hwf.
  destruct (wf_info_rule _ _ _ Hwf (cluster_in _ _)) as (Hip & _ & Hproto).
  unfold add_current. apply wp_bind. eapply wp_mono with (Q := λ _, UL).
  { apply wp_lift_U; [|done]. destruct HU as [[Hp [Hrep Hd]] _]. apply U_onK; [done|].
    eapply wp_mono; [by apply AddDummyClusterIp_spec|]. intros err k (_ & Hrep' & Ha') s' Hp' <-.
    split; [done|]. split; [done|]. by rewrite Ha'. }
  intros [err|] s1 HU1; [by apply wp_ret|]. apply wp_bind, wp_local, wp_bind.
  eapply wp_mono; [apply add_rule_total; [by destruct s1|]|].
  { eapply wf_info_rule; [done|apply cluster_in]. }
  intros [] s2 HU2. apply wp_bind. eapply wp_mono; [apply (wp_for_each_inv UL); [done|]|].
  { intros eip s' Heip HU'. unfold add_external. apply wp_bind.
    eapply wp_mono; [by apply (hold_external_spec UL); [apply UL_framed|..]|].
    intros [] s3 [HU3 _]; [|by apply wp_ret]. apply add_rule_total; [done|]. by eapply wf_info_rule, external_in. }
  intros [] s3 HU3. unfold add_node_port. case_decide; [by apply wp_ret|]. apply wp_bind.
  eapply wp_mono; [by apply (hold_node_port_spec UL); [apply UL_framed|..]|].
  intros [] s4 [HU4 _]; [|by apply wp_ret]. apply wp_bind, wp_lift, wp_field.
  replace (px s4.1) with p1 by (by destruct HU4 as [[-> _] _]).
  apply (wp_for_each_inv UL); [by destruct s4|]. intros ip s' Hip' HU'. apply add_rule_total; [done|].
  by eapply wf_info_rule, node_in.
Qed.

Lemma sync_service_change_total ch s :
  UL s → wf_infos (nodeIPs p1) (gm (Previous ch)) → wf_infos (nodeIPs p1) (gm (Current ch)) →
  wp (sync_service_change link ch) (λ _, UL) s.
Proof using PS.
  intros HU Hp Hc. unfold sync_service_change. apply wp_bind, wp_lift, wp_onIO, wp_rangeM, wp_bind.
  eapply wp_mono; [apply (wp_for_each_inv UL); [by destruct s|]|].
  { intros info s' Hin HU'. apply wp_lift_U; [|done]. apply delete_previous_total; [apply HU'|].
    apply list_elem_of_fmap in Hin as ([k i] & -> & Hin%elem_of_map_range). by apply (Hp k). }
  intros [] s1 HU1. apply wp_bind, wp_lift, wp_onIO, wp_rangeM.
  apply (wp_for_each_inv UL); [by destruct s1|]. intros [k i] s' Hin%elem_of_map_range HU'.
  apply add_current_total; [done|]. by apply (Hc k).
Qed.

Lemma sync_service_changes_run s :
  UL s → wf_service_items (nodeIPs p1) (serviceChanges p1) →
  wp (sync_service_changes link) (λ _ s', px s'.1 = with_serviceChanges ∅ p1 ∧ usable link s'.1 ∧
    Ports.no_nil (replacementPortsMap s'.2)) s.
Proof using PS.
  intros HU Hwf. unfold sync_service_changes. apply wp_bind, wp_lift, wp_field.
  replace (px s.1) with p1 by (by destruct HU as [[-> _] _]). case_decide as He.
  { apply wp_ret. destruct HU as [[Hp Hu] Hn]. cbn [fst snd] in *. split_and!; [|done..].
    rewrite Hp. destruct p1. simpl in *. by subst. }
  apply wp_bind, wp_lift, wp_onIO, wp_rangeM, wp_bind. eapply wp_mono; [apply (wp_for_each_inv UL)|].
  { destruct HU as [[Hp Hu] Hn]. by split. }
  { intros ch s' Hin HU'. apply list_elem_of_fmap in Hin as ([nsn c] & -> & Hin%elem_of_map_range).
    destruct (Hwf nsn c Hin). by apply sync_service_change_total. }
  intros [] s1 [[Hp1 Hu1] Hn1]. apply wp_lift, wp_assign. cbn [fst snd px]. by rewrite Hp1.
Qed.

Lemma sync_endpoint_changes_run s :
  U s → wf_config p1 → (∀ key, Forall (wf_server ∘ server_of) (default [] (kernelIpvsMap p1 !! key))) →
  wp sync_endpoint_changes (λ _ s', px s' = with_endpointsChanges ∅ p1 ∧ usable link s') s.
Proof using IR.
  intros HU Hwf Hke. unfold sync_endpoint_changes. apply wp_bind, wp_field.
  replace (px s) with p1 by (by destruct HU as [-> _]). case_decide as He.
  { apply wp_ret. destruct HU as [Hp Hu]. split; [|done]. rewrite Hp. destruct p1. simpl in *. by subst. }
  assert (∀ name s, U s → wp (sync_port_endpoints name) (λ _, U) s) as Hport.
  { intros name s' HU'. apply sync_port_endpoints_total; [done| | |done].
    - intros info Hl. apply Forall_forall. intros svc Hsvc. by eapply wfc_rules.
    - by apply wfc_eps. }
  apply wp_bind, wp_onIO, wp_rangeM, wp_bind. eapply wp_mono; [apply (wp_for_each_inv U)|].
  { by destruct HU. }
  { intros ch s' _ HU'. unfold sync_endpoint_change. apply wp_bind, wp_onIO, wp_rangeM, wp_bind.
    eapply wp_mono; [apply (wp_for_each_inv U); [by destruct HU'|]|].
    - intros name s2 _ HU2. destruct (gm (Current ch) !! name); [by apply wp_ret|by apply Hport].
    - intros [] s2 HU2. apply wp_bind, wp_onIO, wp_rangeM. apply (wp_for_each_inv U); [by destruct HU2|].
      intros name s3 _ HU3. by apply Hport. }
  intros [] s1 [Hp1 Hu1]. apply wp_assign. cbn [px]. by rewrite Hp1.
Qed.
End steps.

(** ** The whole sync *)
Context (ips : list IP) `{NS : !NodeIPSpec ips}.

Lemma snapshot_servers s a :
  kern_is s a → snapshot (px s) a →
  ∀ key, Forall (wf_server ∘ server_of) (default [] (kernelIpvsMap (px s) !! key)).
Proof using IR.
  intros [Hrep Ha] Hsn key. pose proof (Hsn key) as Hkey.
  destruct (kernelIpvsMap (px s) !! key) as [ke|]; [|constructor]. simpl in *. apply Forall_forall.
  intros e He. apply (servers_wf (kern s) key (list_to_set ke)); [done|by rewrite Ha|].
  by apply elem_of_list_to_set.
Qed.

Lemma sync_rules_total s p a link :
  wf_config (with_nodeIPs ips p) → wf_service_items ips (serviceChanges p) →
  kern_is s a → dummy a = Some link → prepared ips p (px s) a →
  wp (sync_rules link) (λ _ s', px s'.1 = with_endpointsChanges ∅ (with_serviceChanges ∅ (px s)) ∧
    Ports.no_nil (replacementPortsMap s'.2) ∧ rep (kern s'.1)) (s, no_locals).
Proof using IR PS.
  intros Hwf Hitems Hk Hd Hprep. pose proof Hprep as (Hsn & _ & m1 & m2 & l & Hl & Hp).
  destruct (decide (serviceChanges p = ∅ ∧ endpointsChanges p = ∅)) as [[Hsc Hec]|Hne].
  { eapply wp_mono; [by apply (full_sync_rules ips s p a link)|].
    intros [] s' (Hp' & Hn & a' & [Hrep' _] & _). split_and!; [|done..]. rewrite Hp', Hp.
    destruct p. simpl in *. by subst. }
  unfold sync_rules. apply wp_bind, wp_lift, wp_field, wp_bind, wp_lift, wp_field, wp_bind. cbn [fst snd].
  rewrite decide_False by (by rewrite Hp). apply wp_ret, wp_bind.
  eapply wp_mono; [apply (sync_service_changes_run (px s) link)|].
  { split; [|apply map_Forall_empty]. split; [done|]. destruct Hk as [Hrep Ha]. split; [done|]. cbn [fst]. by rewrite Ha. }
  { rewrite Hp. by apply (wf_service_items_perm ips l). }
  intros [] [s1 l1] (Hp1 & Hu1 & Hn1). cbn [fst snd] in *. apply wp_lift. cbn [fst snd].
  eapply wp_mono; [apply (sync_endpoint_changes_run (with_serviceChanges ∅ (px s)) link)|].
  { by split. }
  { destruct (prepared_config _ _ _ _ Hprep Hwf). by split. }
  { apply (snapshot_servers s a Hk Hsn). }
  intros [] s2 [Hp2 [Hrep2 _]]. done.
Qed.

(** The fields no event changes. *)
Definition settings (p : Proxier) : string * bool * string * Z :=
  (hostname p, masqueradeAll p, clusterCIDR p, syncPeriod p).

(** What a sync with pending changes needs. *)
Record syncable (s : Sys K) : Prop := {
  sy_rep : rep (kern s);
  sy_endpoints : endpointsSynced (px s) = true;
  sy_services : servicesSynced (px s) = true;
  sy_sc : changes_wf (serviceChanges (px s));
  sy_ec : changes_wf (endpointsChanges (px s));
  sy_items : wf_service_items ips (serviceChanges (px s));
  sy_ports : Ports.no_nil (portsMap (px s));
  sy_config p' : applied (px s) p' → wf_config (with_nodeIPs ips p');
}.

(** The fields of the proxier after a sync that applied the changes; [l] lists
    the node addresses. *)
Definition programmed (p' : Proxier) l m1 m2 rp : Proxier :=
  with_portsMap rp (with_endpointsChanges ∅ (with_serviceChanges ∅ (with_nodeIPs l
    (with_kernelClusterMap m2 (with_kernelIpvsMap m1 p'))))).

Lemma syncProxyRules_run s :
  syncable s →
  wp syncProxyRules (λ _ s', ∃ p' l m1 m2 rp stale, applied (px s) p' ∧ l ≡ₚ ips ∧ px s' = programmed p' l m1 m2 rp ∧
    Ports.no_nil rp ∧ rep (kern s') ∧ stale_sets (px s) p' stale ∧ ends_flushing p' rp stale s') s.
Proof using IR PS NS.
  intros [Hrep Hes Hss Hsc Hec Hitems Hnn Hcfg].
  eapply wp_mono; [apply (syncProxyRules_ends ips (λ p2 _, ∃ p', applied (px s) p' ∧
    ∃ l m1 m2, l ≡ₚ ips ∧ p2 = with_endpointsChanges ∅ (with_serviceChanges ∅ (with_nodeIPs l
      (with_kernelClusterMap m2 (with_kernelIpvsMap m1 p'))))) s (abs (kern s))); try done|].
  - intros p link s1 a1 Happ Hk1 Hprep.
    assert (serviceChanges p = serviceChanges (px s)) as Hsc' by (by destruct Happ as (? & ? & -> & _)).
    eapply wp_mono; [apply (sync_rules_total s1 p a1 link); [by apply Hcfg|by rewrite Hsc'|done..]|].
    destruct Hprep as (_ & _ & m1 & m2 & l & Hl & Hp1). intros [] [s2 l2] (Hp2 & Hn2 & Hrep2). cbn [fst snd] in *.
    rewrite Hp2, Hp1. split; [by destruct Happ as (? & ? & -> & _)|]. split; [done|].
    exists (abs (kern s2)). split; [done|]. exists p. split; [done|]. by exists l, m1, m2.
  - intros [] s' (p2 & rp & a' & Hp & Hrp & [Hrep' _] & (p' & Happ & l & m1 & m2 & Hl & Hp2) & p1 & stale & Happ1 & Hst & Ht).
    rewrite (applied_unique _ _ _ Happ1 Happ) in *. exists p', l, m1, m2, rp, stale.
    rewrite Hp2 in *. by split_and!.
Qed.

Lemma syncProxyRules_total s :
  syncable s →
  wp syncProxyRules (λ _ s', ready ips s' ∧ ∃ p', applied (px s) p' ∧
    serviceMap (px s') = serviceMap p' ∧ endpointsMap (px s') = endpointsMap p' ∧
    initialized (px s') = initialized (px s) ∧ settings (px s') = settings (px s)) s.
Proof using IR PS NS.
  intros Hs. eapply wp_mono; [by apply syncProxyRules_run|].
  intros [] s' (p' & l & m1 & m2 & rp & stale & Happ & Hl & Hp & Hrp & Hrep & _). destruct Hs.
  pose proof (sy_config0 p' Happ) as Hcfg. split.
  - destruct Happ as (sm & em & -> & _). split; rewrite ?Hp; try done. by eapply wf_config_ext; [..|exact Hcfg].
  - exists p'. rewrite Hp. split_and!; [done..| |]; by destruct Happ as (sm & em & -> & _).
Qed.
End incremental.
