(* ===== verification/WfCheck.v ===== *)
(** * Deciding well-formedness

    Boolean checkers for the well-formedness predicates of the sync theorems,
    with their soundness: what a concrete configuration is checked with. *)

From S2P Require Import Prelude GoNet ProxyTypes ChangeTracking Services EndpointsMap Ipvs Host Proxier ProxierFacts FullSync IncrSync.
Import Proxier.

Definition byte_b (z : Z) : bool := (0 <=? z)%Z && (z <? 256)%Z.
Definition port_b (z : Z) : bool := (0 <=? z)%Z && (z <? 65536)%Z.

Definition wf_addr_b (ip : IP) : bool :=
  match ip with
  | [_; _; _; _] => forallb byte_b ip
  | _ => bool_decide (take 12 ip = Net.v4InV6Prefix) && (length (drop 12 ip) =? 4)%nat &&
         forallb byte_b (drop 12 ip)
  end.

Lemma bytes_b_sound l : forallb byte_b l = true → Forall Net.is_byte l.
Proof.
  intros H. apply Forall_forall. intros x Hx. rewrite forallb_forall in H.
  specialize (H x (proj1 (list_elem_of_In _ _) Hx)). unfold byte_b, Net.is_byte in *.
  apply andb_true_iff in H as [?%Z.leb_le ?%Z.ltb_lt]. lia.
Qed.

Lemma wf_addr_b_sound ip : wf_addr_b ip = true → Net.wf_addr ip.
Proof.
  intros H.
  assert (bool_decide (take 12 ip = Net.v4InV6Prefix) && (length (drop 12 ip) =? 4)%nat &&
      forallb byte_b (drop 12 ip) = true ∨ (length ip = 4%nat ∧ forallb byte_b ip = true)) as [H'|[Hl Hb]].
  { destruct ip as [|? [|? [|? [|? [|??]]]]]; auto. }
  - apply andb_true_iff in H' as [[Hp%bool_decide_eq_true_1 Hl%Nat.eqb_eq]%andb_true_iff Hb].
    exists (drop 12 ip). split; [done|]. split; [by apply bytes_b_sound|]. right.
    unfold Net.IPv4. rewrite <-Hp. symmetry. apply take_drop.
  - exists ip. split; [done|]. split; [by apply bytes_b_sound|by left].
Qed.

Lemma port_b_sound p : port_b p = true → port_ok p.
Proof. unfold port_b, port_ok. intros [?%Z.leb_le ?%Z.ltb_lt]%andb_true_iff. lia. Qed.

Definition wf_service_b (s : Service) : bool :=
  wf_addr_b (ClusterIP s) && port_b (Port s) &&
  (bool_decide (Protocol s = "tcp") || bool_decide (Protocol s = "udp")).

Lemma wf_service_b_sound s : wf_service_b s = true → wf_service s.
Proof.
  intros [[Ha%wf_addr_b_sound Hp%port_b_sound]%andb_true_iff Hproto]%andb_true_iff.
  split_and!; [done..|]. apply orb_true_iff in Hproto as [Hp'|Hp']; apply bool_decide_eq_true_1 in Hp'; auto.
Qed.

Definition wf_server_b (s : Server) : bool :=
  wf_addr_b (Net.ParseIP (srv_Ip s)) && bool_decide (Net.IP_String (Net.ParseIP (srv_Ip s)) = srv_Ip s) &&
  port_b (srv_Port s).

Lemma wf_server_b_sound s : wf_server_b s = true → wf_server s.
Proof.
  intros [[?%wf_addr_b_sound ?%bool_decide_eq_true_1]%andb_true_iff ?%port_b_sound]%andb_true_iff.
  split; [|done]. by exists (Net.ParseIP (srv_Ip s)).
Qed.

Definition wf_config_b (p : Proxier) : bool :=
  let l := map_to_list (serviceMap p) in
  forallb (λ e, forallb wf_service_b (service_rules (nodeIPs p) e.2) &&
    forallb (λ i, wf_server_b (server_of (endpoint_key i))) (default [] (endpointsMap p !! e.1))) l &&
  bool_decide (NoDup (rule_table p l).*1).

Lemma wf_config_b_sound p : wf_config_b p = true → wf_config p.
Proof.
  intros [Hl Hnd%bool_decide_eq_true_1]%andb_true_iff. rewrite forallb_forall in Hl.
  assert (∀ name info, serviceMap p !! name = Some info →
    forallb wf_service_b (service_rules (nodeIPs p) info) = true ∧
    forallb (λ i, wf_server_b (server_of (endpoint_key i))) (default [] (endpointsMap p !! name)) = true) as Hel.
  { intros name info Hin%elem_of_map_to_list. apply andb_true_iff.
    apply (Hl (name, info)). by apply list_elem_of_In. }
  split; [| |done].
  - intros name info svc [Hr _]%Hel Hsvc. rewrite forallb_forall in Hr.
    apply wf_service_b_sound, Hr. by apply list_elem_of_In.
  - intros name [info [_ He]%Hel]. apply Forall_forall. intros i Hi. rewrite forallb_forall in He.
    apply wf_server_b_sound, He. by apply list_elem_of_In.
Qed.

Definition wf_infos_b (ips : list IP) (m : gmap ServicePortName Services.ServiceInfo) : bool :=
  forallb (λ e, forallb wf_service_b (service_rules ips e.2)) (map_to_list m).

Lemma wf_infos_b_sound ips m : wf_infos_b ips m = true → wf_infos ips m.
Proof.
  unfold wf_infos_b. rewrite forallb_forall. intros Hl k info Hin%elem_of_map_to_list%list_elem_of_In%Hl.
  rewrite forallb_forall in Hin. apply Forall_forall. intros svc Hsvc. by apply wf_service_b_sound, Hin, list_elem_of_In.
Qed.
