(* ===== verification/TestBed.v ===== *)
(** * A concrete node

    The environment in which the sync theorems are exercised: the in-memory
    IPVS of the test suite, a host whose sockets always open, a conntrack tool
    that always succeeds, one node address; with example services and
    endpoints. *)

From S2P Require Import Prelude GoNet ProxyTypes ChangeTracking Services ServicesFacts EndpointsMap Ipvs FakeIpvs Host Ports Nodes Proxier ProxierFacts FullSync SyncSpec WfCheck.
Import Proxier Fake Ports.
Import Nodes(NodeIPInterface, GetNodeIPs).

Module TestBed.

#[export] Existing Instance canonical_range.

#[export] Instance bed_exec : Exec := {|
  LookPath _ _ := OK "/usr/sbin/conntrack"; CombinedOutput _ _ _ := ("", None) |}.

(** The sockets are numbered by the question that opened them. *)
#[export] Instance bed_net : NetOS := {|
  InterfaceAddrs _ := OK ["127.0.0.1/8"; "10.0.0.7/24"];
  Interfaces _ := OK ["lo"; "eth0"];
  Listen n _ _ := OK n;
  ResolveUDPAddr _ _ addr := OK addr;
  ListenUDP n _ _ := OK n;
  Hostname _ := OK "node1";
|}.

Definition bed_ips : list IP := [Net.IPv4 [10; 0; 0; 7]%Z].
#[export] Instance bed_nodeip : NodeIPInterface Fake.Faker := {| GetNodeIPs := mret (OK bed_ips) |}.
#[export] Instance bed_nodeip_spec : NodeIPSpec (K := Fake.Faker) bed_ips.
Proof. intros k w Hk. apply wp_ret. split; [by eexists|done]. Qed.

Lemma bed_opens : opens_all.
Proof.
  intros lp w Hp. cbn [OpenLocalPort Ports.ListenPortOpener]. unfold Ports.openLocalPort.
  destruct Hp as [-> | ->].
  - apply wp_bind, wp_ask, wp_bind, wp_emit, wp_ret. eauto.
  - apply wp_bind, wp_ask, wp_bind, wp_ask, wp_bind, wp_emit, wp_ret. eauto.
Qed.

(** ** Example objects *)
Definition port (name proto : string) (p np : Z) : Api.ServicePort :=
  {| Api.sp_Name := name; Api.sp_Protocol := proto; Api.sp_Port := p; Api.sp_NodePort := np |}.
Definition service (name ip : string) (ports : list Api.ServicePort) (ext : list string) : Api.Service := {|
  Api.svc_Namespace := "ns1"; Api.svc_Name := name; Api.spec_ClusterIP := ip; Api.spec_Type := "ClusterIP";
  Api.spec_Ports := ports; Api.spec_ExternalIPs := ext; Api.spec_SessionAffinity := "None" |}.
Definition endpoints (name pname : string) (p : Z) (ips : list string) : Api.Endpoints := {|
  Api.eps_Namespace := "ns1"; Api.eps_Name := name;
  Api.Subsets := [{| Api.Addresses := (λ ip, {| Api.addr_IP := ip; Api.addr_NodeName := None |}) <$> ips;
                     Api.Ports := [{| Api.ep_Name := pname; Api.ep_Port := p |}] |}] |}.

Definition web : Api.Service := service "web" "10.20.30.41" [port "p80" "TCP" 80 30080] ["10.0.0.7"].
Definition dns : Api.Service := service "dns" "10.20.30.53" [port "p53" "UDP" 53 0] [].
Definition web_eps : Api.Endpoints := endpoints "web" "p80" 8080 ["10.180.0.1"; "10.180.0.2"].
Definition dns_eps : Api.Endpoints := endpoints "dns" "p53" 53 ["10.180.0.3"].

Definition start : Sys Fake.Faker := {|
  px := new_proxier false "" "node1" 30000000000; kern := Fake.NewFake; io := {| tick := 0; trace := [] |} |}.

(** The events of a start-up, in the order the informers may deliver them. *)
Definition startup : M (Sys Fake.Faker) unit :=
  OnServiceAdd web ;; OnServiceAdd dns ;; OnEndpointsAdd web_eps ;; OnEndpointsAdd dns_eps ;;
  OnEndpointsSynced ;; OnServiceSynced.

Definition started : Sys Fake.Faker := (startup start).2.

Definition table (s : Sys Fake.Faker) : gmap activeServiceKey (list endpointKey) := gm (Fake.IpvsMap (kern s)).

(** The same proxier in front of a kernel that lost its rules and has one of
    a service that no longer exists. *)
Definition gone : Ipvs.Service := {| ClusterIP := Net.IPv4 [10; 20; 30; 99]%Z; Port := 99; Protocol := "tcp";
  Scheduler := "rr"; SessionAffinity := false |}.
Definition outdated : Sys Fake.Faker := {|
  px := px started; kern := (fake_AddIpvsService (Some gone) NewFake).2; io := io started |}.

Lemma NewFake_rep : fake_rep NewFake.
Proof. exists ∅, ∅. split_and!; [done..| |]; apply map_Forall_empty. Qed.

Lemma outdated_rep : fake_rep (kern outdated).
Proof.
  assert (wf_service gone) as Hg by (apply wf_service_b_sound; reflexivity).
  pose proof (fake_AddIpvsService_spec NewFake gone NewFake_rep Hg) as Hwp.
  apply wp_run in Hwp as (e & f & Hrun & _ & Hrep & _). unfold outdated. cbn [kern]. by rewrite Hrun.
Qed.

Lemma outdated_ready : ready bed_ips outdated.
Proof.
  split; [apply outdated_rep|vm_compute; reflexivity..|by_eval|by_eval| |].
  - unfold Ports.no_nil. by_eval.
  - apply wf_config_b_sound. vm_compute. reflexivity.
Qed.

End TestBed.
