(* ===== verification/SyncClaims.v ===== *)
(** * Properties of syncProxyRules

    Convergence of the full sync against the contract of the IPVS interface,
    and what the incremental sync does not do, shown on concrete runs. *)

From S2P Require Import Prelude GoNet ProxyTypes ChangeTracking Services ServicesFacts EndpointsMap EndpointsFacts Ipvs FakeIpvs Host Ports Nodes Proxier ProxierFacts FullSync SyncSpec EndpointSync WfCheck TestBed.
Import Proxier.
Import Nodes(NodeIPInterface, GetNodeIPs).
Import Fake Ports TestBed.

(** C4: With both informers synced, no change pending and a programmable
    configuration ([ready]), over a reliable IPVS implementation,
    [syncProxyRules] returns and converges from any kernel state: afterwards the kernel has no virtual
    service that is not wanted, each wanted one it has carries exactly the
    endpoints of its service port, the cluster addresses of all service ports
    are there, the table is the wanted one when every local port could be
    held, and exactly the cluster IPs are bound to the dummy device. *)
Theorem full_sync_converges {K : Type} `{IF : Interface K} `{IS : !IpvsSpec K} `{MR : MapRange}
    `{NI : NodeIPInterface K} `{PO : PortOpener} `{PS : !PortOpenerSpec} `{EX : Exec} `{NO : NetOS}
    (ips : list IP) `{NS : !NodeIPSpec ips} (s : Sys K) :
  ready ips s →
  ∃ s', syncProxyRules s = (Ret tt, s') ∧ rep (kern s') ∧
    serviceMap (px s') = serviceMap (px s) ∧ endpointsMap (px s') = endpointsMap (px s) ∧
    nodeIPs (px s') ≡ₚ ips ∧ Ports.no_nil (portsMap (px s')) ∧
    vs (abs (kern s')) ⊆ want (px s') ∧
    (∀ name info, serviceMap (px s) !! name = Some info →
       vs (abs (kern s')) !! service_key (cluster_rule info) = Some (eps_of (px s) name)) ∧
    (opens_all → vs (abs (kern s')) = want (px s')) ∧
    bound (abs (kern s')) = want_bound (px s).
Proof.
  intros Hready. pose proof (syncProxyRules_full ips s Hready) as Hwp.
  apply wp_run in Hwp as ([] & s' & Hrun & Hready' & (H1 & H2 & _) & H3 & [Hs Hc Hall Hb]).
  exists s'. split; [done|]. split; [apply Hready'|]. split_and!; [done..|apply Hready'|done| |done|].
  - intros name info Hl. rewrite <-H1 in Hl. rewrite (Hc name info Hl). unfold eps_of. by rewrite H2.
  - rewrite Hb. unfold want_bound. by rewrite H1.
Qed.

Lemma full_sync_converges_witness :
  ∃ s', syncProxyRules outdated = (Ret tt, s') ∧ vs (abs (kern s')) = want (px s') ∧
    bound (abs (kern s')) = want_bound (px outdated).
Proof.
  destruct (full_sync_converges bed_ips outdated outdated_ready)
    as (s' & Hrun & _ & _ & _ & _ & _ & _ & _ & Hall & Hb).
  exists s'. split; [exact Hrun|]. split; [exact (Hall bed_opens)|exact Hb].
Defined.

(** C12: The full sync is idempotent: when every local port can be held, a
    second sync right after the first leaves the virtual services, their
    endpoints and the bound addresses as they are. *)
Theorem full_sync_stable {K : Type} `{IF : Interface K} `{IS : !IpvsSpec K} `{MR : MapRange}
    `{NI : NodeIPInterface K} `{PO : PortOpener} `{PS : !PortOpenerSpec} `{EX : Exec} `{NO : NetOS}
    (ips : list IP) `{NS : !NodeIPSpec ips} (s : Sys K) :
  ready ips s → opens_all →
  ∃ s1 s2, syncProxyRules s = (Ret tt, s1) ∧ syncProxyRules s1 = (Ret tt, s2) ∧
    vs (abs (kern s2)) = vs (abs (kern s1)) ∧ bound (abs (kern s2)) = bound (abs (kern s1)).
Proof.
  intros Hready Hopen. pose proof (syncProxyRules_full ips s Hready) as Hwp1.
  apply wp_run in Hwp1 as ([] & s1 & Hrun1 & Hready1 & _ & Hn1 & Hconv1).
  pose proof (syncProxyRules_full ips s1 Hready1) as Hwp2.
  apply wp_run in Hwp2 as ([] & s2 & Hrun2 & _ & (H1 & H2 & _) & Hn2 & Hconv2).
  exists s1, s2. split_and!; [done..| |].
  - rewrite (conv_complete _ _ Hconv2 Hopen), (conv_complete _ _ Hconv1 Hopen).
    by apply want_ext; [..|rewrite Hn1, Hn2].
  - rewrite (conv_bound _ _ Hconv2), (conv_bound _ _ Hconv1). unfold want_bound. by rewrite H1.
Qed.

Lemma full_sync_stable_witness :
  ∃ s1 s2, syncProxyRules outdated = (Ret tt, s1) ∧ syncProxyRules s1 = (Ret tt, s2) ∧
    vs (abs (kern s2)) = vs (abs (kern s1)) ∧ bound (abs (kern s2)) = bound (abs (kern s1)).
Proof. exact (full_sync_stable bed_ips outdated outdated_ready bed_opens). Defined.

(** C5: When only endpoints changed and the kernel held the wanted table
    before, the incremental sync leads it to the table wanted after the
    changes: every virtual address of every changed service port has exactly
    the new endpoints, all others are untouched, and the changes are
    cleared. *)
Theorem endpoint_sync_exact {K : Type} `{IF : Interface K} `{IS : !IpvsSpec K} `{MR : MapRange}
    `{NI : NodeIPInterface K} `{PO : PortOpener} `{PS : !PortOpenerSpec} `{EX : Exec} `{NO : NetOS}
    (ips : list IP) `{NS : !NodeIPSpec ips} (s : Sys K) (p' : Proxier) :
  rep (kern s) → endpointsSynced (px s) = true → servicesSynced (px s) = true →
  serviceChanges (px s) = ∅ → endpointsChanges (px s) ≠ ∅ → changes_wf (endpointsChanges (px s)) →
  Ports.no_nil (portsMap (px s)) → vs (abs (kern s)) = want (with_nodeIPs ips (px s)) →
  applied (px s) p' → wf_config (with_nodeIPs ips p') →
  ∃ s', syncProxyRules s = (Ret tt, s') ∧ rep (kern s') ∧ endpointsChanges (px s') = ∅ ∧
    serviceMap (px s') = serviceMap p' ∧ endpointsMap (px s') = endpointsMap p' ∧
    vs (abs (kern s')) = want (with_nodeIPs ips p') ∧ bound (abs (kern s')) = bound (abs (kern s)).
Proof.
  intros Hrep Hes Hss Hsc Hne Hch Hnn Hv Happ Hwf.
  assert (changes_wf (serviceChanges (px s))) as Hsc' by (by rewrite Hsc).
  pose proof (syncProxyRules_spec ips (λ p a, endpointsChanges p = ∅ ∧ serviceMap p = serviceMap p' ∧
    endpointsMap p = endpointsMap p' ∧ vs a = want (with_nodeIPs ips p') ∧ bound a = bound (abs (kern s)))
    s (abs (kern s))) as Hwp.
  apply wp_run in Hwp as ([] & s' & Hrun & p2 & rp & a2 & Hp2 & Hrp & [Hrep2 <-] & H1 & H2 & H3 & H4 & H5);
    [|try done..].
  - exists s'. split; [done|]. rewrite Hp2. by split_and!.
  - intros p link s1 a1 Happ1 Hk1 Hprep. rewrite (applied_unique _ _ _ Happ1 Happ) in *.
    eapply wp_mono; [by apply (endpoint_sync_rules ips s1 (px s) p' a1 link); auto|].
    pose proof (prepared_want _ _ _ _ Hprep) as Hw. destruct Hprep as (_ & _ & m1 & m2 & ip0 & _ & Hp1).
    intros [] [s2 l2] (Hp & Hl & a' & Hk' & Hv' & Hb'). cbn [fst snd] in *. rewrite Hp, Hl, Hp1.
    split; [by destruct Happ as (sm & em & -> & _)|]. split; [apply map_Forall_empty|].
    exists a'. split; [done|]. split_and!; [done..| |done]. by rewrite Hv'.
Qed.

(** [web] loses an endpoint and gains one. *)
Definition settled : Sys Faker := (syncProxyRules outdated).2.
Definition web_eps2 : Api.Endpoints := endpoints "web" "p80" 8080 ["10.180.0.2"; "10.180.0.9"].
Definition announce (s : Sys Faker) : Sys Faker := {|
  px := with_endpointsChanges (Endpoints.Update "node1" ∅ (Api.endpoints_nsn web_eps)
          (Some web_eps) (Some web_eps2)).1 (px s);
  kern := kern s; io := io s |}.
Abbreviation pending := (announce settled).

Lemma announce_kern s : kern (announce s) = kern s.
Proof. reflexivity. Qed.
Lemma announce_want ips s : nodeIPs (px s) ≡ₚ ips → want (with_nodeIPs ips (px (announce s))) = want (px s).
Proof. intros Hl. by apply want_ext. Qed.

Lemma settled_facts : rep (kern settled) ∧ vs (abs (kern settled)) = want (px settled) ∧ nodeIPs (px settled) ≡ₚ bed_ips.
Proof.
  pose proof (syncProxyRules_full bed_ips outdated outdated_ready) as Hwp.
  apply wp_run in Hwp as (u & s' & Hrun & Hready & _ & Hn & Hconv). unfold settled. rewrite Hrun. cbn [snd].
  split_and!; [apply Hready|apply (conv_complete _ _ Hconv), bed_opens|done].
Qed.

Lemma pending_wf : changes_wf (endpointsChanges (px pending)).
Proof.
  assert (∀ k, is_Some (gm (Endpoints.endpointsToEndpointsMap "node1" (Some web_eps)) !! k) →
    nsn_of k = Api.endpoints_nsn web_eps) as H1 by apply endpointsToEndpointsMap_nsn.
  assert (∀ k, is_Some (gm (Endpoints.endpointsToEndpointsMap "node1" (Some web_eps2)) !! k) →
    nsn_of k = Api.endpoints_nsn web_eps2) as H2 by apply endpointsToEndpointsMap_nsn.
  assert (endpointsChanges (px pending) = {[Api.endpoints_nsn web_eps :=
    {| Previous := Endpoints.endpointsToEndpointsMap "node1" (Some web_eps);
       Current := Endpoints.endpointsToEndpointsMap "node1" (Some web_eps2) |}]}) as -> by by_eval.
  apply map_Forall_singleton. by split.
Qed.

Lemma endpoint_sync_exact_witness :
  ∃ s' p', syncProxyRules pending = (Ret tt, s') ∧ applied (px pending) p' ∧
    vs (abs (kern s')) = want (with_nodeIPs bed_ips p') ∧ bound (abs (kern s')) = bound (abs (kern pending)).
Proof.
  destruct settled_facts as (Hrep & Hv & Hn).
  assert (serviceChanges (px pending) = ∅) as Hsc by by_eval.
  assert (applied (px pending) (px (sync_update pending).2)) as Happ.
  { pose proof (sync_update_spec pending) as Hwp.
    apply wp_run in Hwp as (st & s1 & Hrun & Happ & _); [|by rewrite Hsc|exact pending_wf]. by rewrite Hrun. }
  destruct (endpoint_sync_exact bed_ips pending (px (sync_update pending).2))
    as (s' & Hrun & _ & _ & _ & _ & Hv' & Hb').
  - rewrite announce_kern. exact Hrep.
  - vm_compute; reflexivity.
  - vm_compute; reflexivity.
  - exact Hsc.
  - by_eval.
  - exact pending_wf.
  - unfold Ports.no_nil. by_eval.
  - rewrite announce_kern, announce_want; [exact Hv|exact Hn].
  - exact Happ.
  - apply wf_config_b_sound. vm_compute. reflexivity.
  - exists s', (px (sync_update pending).2). auto.
Defined.

(** ** What the incremental sync leaves undone *)

Definition web_key : activeServiceKey :=
  {| key_ip := "10.20.30.41"; key_port := 80; key_protocol := "tcp" |}.
Definition web_name : ServicePortName :=
  {| spn_NamespacedName := Api.service_nsn web; spn_Port := "p80" |}.

(** The service of [web] with session affinity switched on. *)
Definition web_sticky : Api.Service := {|
  Api.svc_Namespace := "ns1"; Api.svc_Name := "web"; Api.spec_ClusterIP := "10.20.30.41";
  Api.spec_Type := "ClusterIP"; Api.spec_Ports := [port "p80" "TCP" 80 30080];
  Api.spec_ExternalIPs := ["10.0.0.7"]; Api.spec_SessionAffinity := "ClientIP" |}.

Definition after_update : Sys Faker := (OnServiceUpdate web web_sticky started).2.

(** Updating a service whose endpoints did not change leaves it without
    endpoints: the incremental sync deletes the virtual service and creates it
    again, and only changed endpoints are added. The table has the endpoints
    before the update, none after it although [endpointsMap] lists two, and
    they come back at the next sync without pending changes. *)
Theorem service_update_drops_endpoints :
  (length <$> table started !! web_key) = Some 2%nat ∧
  (OnServiceUpdate web web_sticky started).1 = Ret tt ∧
  table after_update !! web_key = Some [] ∧
  (length <$> endpointsMap (px after_update) !! web_name) = Some 2%nat ∧
  (length <$> table (syncProxyRules after_update).2 !! web_key) = Some 2%nat.
Proof. split_and!; vm_compute; reflexivity. Qed.

(** The local ports held for [web]. *)
Definition web_ports : list LocalPort := [
  {| lp_Desc := "externalIP for ns1/web"; lp_Ip := "10.0.0.7"; lp_Port := 80; lp_Protocol := "tcp" |};
  {| lp_Desc := "nodePort for ns1/web"; lp_Ip := ""; lp_Port := 30080; lp_Protocol := "tcp" |}].

Definition other : Api.Service := service "other" "10.20.30.60" [port "p1" "TCP" 1 0] [].
Definition after_add : Sys Faker := (OnServiceAdd other started).2.

(** A sync caused by a change of one service closes the local ports held
    for all the others: adding an unrelated service closes the sockets of the
    external IP and of the node port of [web], whose rules stay. *)
Theorem incremental_closes_other_ports :
  Ports.held (portsMap (px started)) <$> web_ports = [Some 20; Some 21]%nat ∧
  (OnServiceAdd other started).1 = Ret tt ∧
  Ports.held (portsMap (px after_add)) <$> web_ports = [None; None] ∧
  EClose 20 ∈ trace (io after_add) ∧ EClose 21 ∈ trace (io after_add) ∧
  table after_add !! web_key = table started !! web_key.
Proof. split_and!; first [by_eval | vm_compute; reflexivity]. Qed.

(** A sync with a service event between its two parts: [Update] takes the
    lock of the change map only, which [syncProxyRules] holds neither while it
    applies the changes nor while it takes the snapshots. [during] runs after
    the changes were applied. *)
Definition syncProxyRules_with (during : M (Sys Faker) unit) : M (Sys Faker) unit :=
  stale ← sync_update;
  during ;;
  r ← onK GetDummyLink;
  match r with
  | Err _ => mret tt
  | OK dummylink => sync_apply dummylink stale
  end.

(** [OnServiceAdd] up to the call of [syncProxyRules], which waits for the
    mutex. *)
Definition record_service (service : Api.Service) : M (Sys Faker) unit :=
  sc ← field serviceChanges;
  assign (with_serviceChanges (Services.Update sc (Api.service_nsn service) None (Some service)).1).

Definition other_key : activeServiceKey :=
  {| key_ip := "10.20.30.60"; key_port := 1; key_protocol := "tcp" |}.
Definition other_name : ServicePortName :=
  {| spn_NamespacedName := Api.service_nsn other; spn_Port := "p1" |}.
Definition after_race : Sys Faker := (syncProxyRules_with (record_service other) started).2.

(** A service announced while a sync is between applying the changes and
    clearing them is lost: its change is programmed and cleared but never
    merged into [serviceMap], and the next sync deletes its rule as unused. *)
Theorem service_announced_during_sync_is_lost :
  (syncProxyRules_with (record_service other) started).1 = Ret tt ∧
  table after_race !! other_key = Some [] ∧
  serviceChanges (px after_race) = ∅ ∧ serviceMap (px after_race) !! other_name = None ∧
  table (syncProxyRules after_race).2 !! other_key = None.
Proof. split_and!; first [by_eval | vm_compute; reflexivity]. Qed.

(** The uninterrupted sync is the same composition. *)
Lemma syncProxyRules_with_nothing (s : Sys Faker) :
  endpointsSynced (px s) = true → servicesSynced (px s) = true →
  syncProxyRules s = syncProxyRules_with (mret tt) s.
Proof.
  intros Hes Hss. unfold syncProxyRules, syncProxyRules_with, mbind, M_bind, field, gets. rewrite Hes, Hss.
  cbn [negb orb]. by destruct (sync_update s) as [[]].
Qed.
