(* ===== verification/SyncFlush.v ===== *)
(** * What a sync does to the host besides the kernel's table

    With pending changes, [syncProxyRules] ends by closing the local ports it
    gives up and flushing the connection-tracking entries of stale UDP
    addresses: which ones, from the changes to the commands. *)

From S2P Require Import Prelude GoNet ProxyTypes ChangeTracking Services ServicesFacts EndpointsMap EndpointsFacts Ipvs FakeIpvs EnnIpvs RefKernel Host Ports Conntrack Nodes Proxier ProxierFacts FullSync SyncSpec IncrSync WfCheck TestBed.
Import Proxier.
Import Nodes(NodeIPInterface, GetNodeIPs).
Import Fake Ports TestBed.

Lemma stale_service_ext p p1 p2 ip : serviceMap p1 = serviceMap p2 → stale_service p p1 ip → stale_service p p2 ip.
Proof. unfold stale_service. by intros <-. Qed.

Section flush.
Context {K : Type} `{IF : Interface K} `{IS : !IpvsSpec K} `{IR : !IpvsRobust K} `{MR : MapRange}.
Context `{NI : NodeIPInterface K} `{PO : PortOpener} `{PS : !PortOpenerSpec} `{EX : Exec} `{NO : NetOS}.
Context (ips : list IP) `{NS : !NodeIPSpec ips}.

(** C13: A sync that applies pending changes ends by closing the local ports it
    gives up and flushing the conntrack entries of exactly the stale UDP
    addresses, each once: the cluster IPs of the removed ports and of the ports
    that get their first endpoint, then the endpoints taken from the ports that
    remain; an IPv4 endpoint is flushed under its own address. *)
Theorem sync_flushes_stale (s : Sys K) (path : string) :
  syncable ips s → (∀ n, LookPath n "conntrack" = OK path) →
  ∃ s' t fds addrs pairs, syncProxyRules s = (Ret tt, s') ∧
    (∀ k, serviceMap (px s') !! k = updated (serviceMap (px s)) (serviceChanges (px s)) k) ∧
    trace (io s') = t ++ (EClose <$> fds) ++ (flush_ip path <$> addrs) ++
      omap (flush_peer path (serviceMap (px s'))) pairs ∧
    fds ≡ₚ Ports.dropped (portsMap (px s')) (map_to_list (portsMap (px s))) ∧
    NoDup addrs ∧ (∀ ip, ip ∈ addrs ↔ stale_service (px s) (px s') ip) ∧
    NoDup pairs ∧ (∀ pair, pair ∈ pairs ↔ stale_endpoint (px s) pair) ∧
    (∀ nsn ch k ep ip info, endpointsChanges (px s) !! nsn = Some ch →
       ep ∈ default [] (gm (Previous ch) !! k) → ep ∉ default [] (gm (Current ch) !! k) →
       Endpoints.Ip ep = Net.IP_String ip → Net.wf_ip4 ip → (0 ≤ Endpoints.Port ep)%Z →
       serviceMap (px s') !! k = Some info → Services.Protocol info = lower_udp →
       let origin := Net.IP_String (Services.ClusterIP info) in
       EExec path (Conntrack.parametersWithFamily (Conntrack.IsIPv6String origin)
         ["-D"; "--orig-dst"; origin; "--dst-nat"; Endpoints.Ip ep; "-p"; "udp"]) ∈ trace (io s')).
Proof using IR PS NS.
  intros Hs Hpath. pose proof (syncProxyRules_run ips s Hs) as Hwp.
  apply wp_run in Hwp as ([] & s' & Hrun & p' & nips & m1 & m2 & rp & stale & Happ & _ & Hp & _ & _ & [Hst1 Hst2] & t & Ht).
  destruct (Ht path Hpath) as (fds & addrs & pairs & Hfds & Ha & Hpr & Htr). clear Ht.
  assert (serviceMap (px s') = serviceMap p') as Hsm by (by rewrite Hp).
  assert (∀ pair, pair ∈ pairs ↔ stale_endpoint (px s) pair) as Hpairs.
  { intros pair. by rewrite Hpr, elem_of_elements. }
  exists s', t, fds, addrs, pairs. rewrite Hsm. split; [done|]. split_and!; [|done| | | | |done|].
  - intros k. destruct Happ as (? & ? & -> & Hk & _). apply Hk.
  - rewrite Hfds, Hp. by destruct Happ as (? & ? & -> & _).
  - rewrite Ha. apply NoDup_elements.
  - intros ip. rewrite Ha, elem_of_elements, Hst1. split; by apply stale_service_ext.
  - rewrite Hpr. apply NoDup_elements.
  - intros nsn ch k ep ip info Hch Hin Hnin Hip Hwf Hport Hinfo Hudp origin. rewrite Htr.
    apply elem_of_app. right. apply elem_of_app. right. apply elem_of_app. right.
    apply list_elem_of_omap. exists {| Endpoints.Endpoint := Endpoints.endpoint_string ep;
      Endpoints.pair_ServicePortName := k |}. split.
    + apply Hpairs. exists nsn, ch. split; [done|]. by exists k, ep.
    + unfold flush_peer. cbn. rewrite Hinfo. cbn. rewrite decide_True by done.
      destruct ep as [a p lo]. cbn in *. subst a. by rewrite Conntrack.IPPart_endpoint.
Qed.

End flush.

(** ** An example

    [dns] (UDP) is deleted and the endpoint of [ntp] (UDP) moves. *)

Definition ntp : Api.Service := service "ntp" "10.20.30.123" [port "p123" "UDP" 123 0] [].
Definition ntp_eps : Api.Endpoints := endpoints "ntp" "p123" 123 ["10.180.0.5"].
Definition ntp_moved : Api.Endpoints := endpoints "ntp" "p123" 123 ["10.180.0.6"].
Definition with_ntp : Sys Fake.Faker := ((OnServiceAdd ntp ;; OnEndpointsAdd ntp_eps) started).2.

Import EnnIpvs Ref.

Definition moving_kernel : Ref.RefKernel := Ref.boot [{| link_Name := "lo"; link_Index := 1 |}] [].
#[local] Instance moving_nodeip : NodeIPInterface Ref.RefKernel := {| GetNodeIPs := mret (OK bed_ips) |}.
#[local] Instance moving_nodeip_spec : NodeIPSpec (K := Ref.RefKernel) bed_ips.
Proof. intros k w Hk. apply wp_ret. split; [by eexists|done]. Qed.

Definition moving : Sys Ref.RefKernel := {|
  px := with_endpointsChanges (Endpoints.Update "node1" ∅ (Api.endpoints_nsn ntp_eps)
            (Some ntp_eps) (Some ntp_moved)).1
          (with_serviceChanges (Services.Update ∅ (Api.service_nsn dns) (Some dns) None).1 (px with_ntp));
  kern := moving_kernel; io := io with_ntp |}.

Lemma moving_service_changes : serviceChanges (px moving) =
  {[Api.service_nsn dns := {| Previous := Services.serviceToServiceMap (Some dns); Current := None |}]}.
Proof. by_eval. Qed.
Lemma moving_endpoints_changes : endpointsChanges (px moving) =
  {[Api.endpoints_nsn ntp_eps := {| Previous := Endpoints.endpointsToEndpointsMap "node1" (Some ntp_eps);
      Current := Endpoints.endpointsToEndpointsMap "node1" (Some ntp_moved) |}]}.
Proof. by_eval. Qed.

Lemma moving_syncable : syncable bed_ips moving.
Proof.
  assert (changes_wf (serviceChanges (px moving))) as Hsc.
  { rewrite moving_service_changes. apply map_Forall_singleton. split; intros k Hk; [|by destruct Hk].
    by apply serviceToServiceMap_nsn in Hk. }
  assert (changes_wf (endpointsChanges (px moving))) as Hec.
  { rewrite moving_endpoints_changes. apply map_Forall_singleton.
    split; [apply (endpointsToEndpointsMap_nsn "node1" ntp_eps)|apply (endpointsToEndpointsMap_nsn "node1" ntp_moved)]. }
  split; [exact (Ref.boot_rep _ _)|vm_compute; reflexivity..|done|done| | |].
  - rewrite moving_service_changes. apply map_Forall_singleton.
    split; apply wf_infos_b_sound; vm_compute; reflexivity.
  - unfold Ports.no_nil. by_eval.
  - intros p' Happ.
    assert (applied (px moving) (px (sync_update moving).2)) as Happ'.
    { pose proof (sync_update_spec moving Hsc Hec) as Hwp.
      apply wp_run in Hwp as (st & s1 & Hrun & Happ1 & _). by rewrite Hrun. }
    rewrite (applied_unique _ _ _ Happ Happ'). apply wf_config_b_sound. vm_compute. reflexivity.
Qed.

Definition dns_port : ServicePortName := {| spn_NamespacedName := Api.service_nsn dns; spn_Port := "p53" |}.
Definition ntp_port : ServicePortName := {| spn_NamespacedName := Api.service_nsn ntp; spn_Port := "p123" |}.

Lemma moving_dns : ∃ info, serviceMap (px moving) !! dns_port = Some info ∧
  Services.Protocol info = lower_udp ∧ "10.20.30.53" = Net.IP_String (Services.ClusterIP info).
Proof. eexists. split; [vm_compute; reflexivity|]. split; vm_compute; reflexivity. Qed.
Lemma moving_ntp : ∃ info, updated (serviceMap (px moving)) (serviceChanges (px moving)) ntp_port = Some info ∧
  Services.Protocol info = lower_udp ∧ Net.IP_String (Services.ClusterIP info) = "10.20.30.123".
Proof. eexists. split; [vm_compute; reflexivity|]. split; vm_compute; reflexivity. Qed.

Lemma sync_flushes_stale_witness :
  ∃ s', syncProxyRules moving = (Ret tt, s') ∧
    EExec "/usr/sbin/conntrack" ["-D"; "--orig-dst"; "10.20.30.53"; "-p"; "udp"] ∈ trace (io s') ∧
    EExec "/usr/sbin/conntrack" ["-D"; "--orig-dst"; "10.20.30.123"; "--dst-nat"; "10.180.0.5"; "-p"; "udp"]
      ∈ trace (io s').
Proof.
  assert (∀ n, LookPath n "conntrack" = OK "/usr/sbin/conntrack") as Hpath by (intros n; reflexivity).
  destruct (sync_flushes_stale bed_ips moving "/usr/sbin/conntrack" moving_syncable Hpath)
    as (s' & t & fds & addrs & pairs & Hrun & Hsm & Htr & _ & _ & Ha & _ & _ & Hep).
  exists s'. split; [exact Hrun|]. split.
  - rewrite Htr. apply elem_of_app. right. apply elem_of_app. right. apply elem_of_app. left.
    apply list_elem_of_fmap. exists "10.20.30.53". split; [by_eval|]. apply Ha. left.
    destruct moving_dns as (info & Hinfo & Hu & Hip).
    exists (Api.service_nsn dns), {| Previous := Services.serviceToServiceMap (Some dns); Current := None |}, dns_port, info.
    split; [by rewrite moving_service_changes, lookup_singleton_eq|]. split; [unfold removed; by_eval|]. exact (conj Hinfo (conj Hu Hip)).
  - destruct moving_ntp as (info & Hinfo & Hu & Hip). pose proof (Hsm ntp_port) as Hk. rewrite Hinfo in Hk.
    pose proof (Hep (Api.endpoints_nsn ntp_eps) {| Previous := Endpoints.endpointsToEndpointsMap "node1" (Some ntp_eps);
        Current := Endpoints.endpointsToEndpointsMap "node1" (Some ntp_moved) |} ntp_port
      {| Endpoints.Ip := "10.180.0.5"; Endpoints.Port := 123; Endpoints.IsLocal := false |}
      (Net.IPv4 [10; 180; 0; 5]%Z) info) as H. rewrite Hip in H. apply H; [|by_eval|by_eval|by_eval| |cbn; lia|exact Hk|exact Hu].
    + by rewrite moving_endpoints_changes, lookup_singleton_eq.
    + exists 10%Z, 180%Z, 0%Z, 5%Z. split; [reflexivity|]. repeat constructor; vm_compute; congruence.
Defined.
