(* ===== verification/EnnClaims.v ===== *)
(** * Properties of the kernel IPVS implementation *)

From S2P Require Import Prelude GoNet ProxyTypes Ipvs EnnIpvs RefKernel Host Nodes WfCheck.
Import EnnIpvs Ref.

(** ** A concrete kernel *)
Definition ex_svc : Service := {| ClusterIP := Net.IPv4 [10; 20; 30; 41]%Z; Port := 80; Protocol := "tcp";
  Scheduler := DEFAULSCHE; SessionAffinity := true |}.
Definition ex_server : Server := {| srv_Ip := "10.180.0.1"; srv_Port := 8080; srv_Weight := 1 |}.
Definition ex_links : list LinkAttrs :=
  [{| link_Name := "lo"; link_Index := 1 |}; {| link_Name := "eth0"; link_Index := 2 |};
   {| link_Name := "docker0"; link_Index := 3 |}].
Definition ex_kernel : RefKernel := boot ex_links
  [(1%Z, Net.IPv4 [127; 0; 0; 1]%Z); (2%Z, Net.IPv4 [10; 0; 0; 7]%Z); (3%Z, Net.IPv4 [172; 17; 0; 1]%Z)].

Lemma ex_svc_wf : wf_service ex_svc.
Proof. apply wf_service_b_sound. reflexivity. Qed.
Lemma ex_server_wf : wf_server ex_server.
Proof. apply wf_server_b_sound. vm_compute. reflexivity. Qed.

(** On a kernel that behaves as documented, adding a virtual service
    succeeds whether or not it is there, adding it again changes nothing, and
    deleting it afterwards succeeds and removes exactly that entry. *)
Theorem enn_service_add_delete {N : Type} `{KN : Kernel N} `{KS : !KernelSpec N} (n : N) (s : Service) :
  krep n → wf_service s →
  ∃ n1 n2 n3, enn_AddIpvsService (Some s) n = (Ret None, n1) ∧
    enn_AddIpvsService (Some s) n1 = (Ret None, n2) ∧ enn_DeleteIpvsService (Some s) n2 = (Ret None, n3) ∧
    is_Some (vs (kabs n1) !! service_key s) ∧ kabs n2 = kabs n1 ∧
    vs (kabs n3) = delete (service_key s) (vs (kabs n)).
Proof.
  intros Hrep Hs.
  pose proof (enn_AddIpvsService_spec n s Hrep Hs) as H1. apply wp_run in H1 as (? & n1 & R1 & -> & Hr1 & A1).
  pose proof (enn_AddIpvsService_spec n1 s Hr1 Hs) as H2. apply wp_run in H2 as (? & n2 & R2 & -> & Hr2 & A2).
  assert (is_Some (vs (kabs n1) !! service_key s)) as Hin.
  { rewrite A1. simpl. destruct (vs (kabs n) !! service_key s) eqn:E; [by rewrite E|].
    rewrite lookup_insert_eq. eauto. }
  assert (kabs n2 = kabs n1) as Heq.
  { rewrite A2. destruct Hin as [eps He]. unfold spec_add_service, with_vs. rewrite He. by destruct (kabs n1). }
  pose proof (DeleteIpvsService_spec n2 s Hr2 Hs) as H3. apply wp_run in H3 as (e & n3 & R3 & He & Hr3 & A3).
  assert (e = None) as -> by (apply He; simpl; by rewrite Heq).
  exists n1, n2, n3. split_and!; [done..|]. simpl in A3. rewrite A3, Heq, A1. simpl.
  destruct (vs (kabs n) !! service_key s) eqn:E; [done|]. by rewrite delete_insert_eq.
Qed.

Lemma enn_service_add_delete_witness :
  ∃ n1 n2 n3, enn_AddIpvsService (Some ex_svc) ex_kernel = (Ret None, n1) ∧
    enn_AddIpvsService (Some ex_svc) n1 = (Ret None, n2) ∧
    enn_DeleteIpvsService (Some ex_svc) n2 = (Ret None, n3) ∧
    is_Some (vs (kabs n1) !! service_key ex_svc) ∧ kabs n2 = kabs n1 ∧
    vs (kabs n3) = delete (service_key ex_svc) (vs (kabs ex_kernel)).
Proof. exact (enn_service_add_delete ex_kernel ex_svc (boot_rep _ _) ex_svc_wf). Defined.

(** A real server added to an existing virtual service is listed back
    together with the ones that were there, the same address and port, and
    adding it a second time succeeds without effect (EEXIST is tolerated). *)
Theorem enn_server_add_list {N : Type} `{KN : Kernel N} `{KS : !KernelSpec N} (n : N) (s : Service)
    (d : Server) (eps : gset endpointKey) :
  krep n → wf_service s → wf_server d → vs (kabs n) !! service_key s = Some eps →
  ∃ n1 n2 servers, enn_AddIpvsServer (Some s) (Some d) n = (Ret None, n1) ∧
    enn_AddIpvsServer (Some s) (Some d) n1 = (Ret None, n2) ∧ kabs n2 = kabs n1 ∧
    enn_ListIpvsServer (Some (toLibService s)) n2 = (Ret (OK servers), n2) ∧
    list_to_set (server_key <$> servers) = {[server_key d]} ∪ eps.
Proof.
  intros Hrep Hs Hd Hl.
  assert (∀ n eps, vs (kabs n) !! service_key s = Some eps →
    spec_add_server (service_key s) (server_key d) (kabs n) =
    with_vs (<[service_key s := {[server_key d]} ∪ eps]>) (kabs n)) as Hspec.
  { intros n' eps' Hl'. apply vstate_eq; [by apply alter_lookup_Some|done..]. }
  pose proof (enn_AddIpvsServer_run n s d Hrep Hs Hd) as H1. apply wp_run in H1 as (e1 & n1 & R1 & Hr1 & A1 & He1).
  rewrite (proj1 He1) in R1 by eauto.
  rewrite (Hspec n eps Hl) in A1.
  assert (vs (kabs n1) !! service_key s = Some ({[server_key d]} ∪ eps)) as Hl1 by (by rewrite A1; apply lookup_insert_eq).
  pose proof (enn_AddIpvsServer_run n1 s d Hr1 Hs Hd) as H2. apply wp_run in H2 as (e2 & n2 & R2 & Hr2 & A2 & He2).
  rewrite (proj1 He2) in R2 by eauto.
  assert (kabs n2 = kabs n1) as Heq.
  { rewrite A2, (Hspec n1 _ Hl1), A1. apply vstate_eq; [|done..]. simpl. rewrite insert_insert_eq. f_equal. set_solver. }
  assert (vs (kabs n2) !! lib_key (toLibService s) = Some ({[server_key d]} ∪ eps)) as Hl2.
  { by rewrite lib_key_toLib, Heq. }
  pose proof (GetDestinations_spec n2 _ _ Hr2 Hl2) as H3. apply wp_run in H3 as (r & n2' & R3 & -> & dsts & -> & Hset).
  destruct (inter_servers_spec dsts) as (servers & Hi & Hk).
  exists n1, n2, servers. split_and!; [done..| |by rewrite Hk].
  unfold enn_ListIpvsServer, mbind, M_bind. rewrite R3. unfold mret, M_ret. by rewrite Hi.
Qed.

Definition ex_kernel1 : RefKernel := (enn_AddIpvsService (Some ex_svc) ex_kernel).2.

Lemma enn_server_add_list_witness :
  ∃ n1 n2 servers, enn_AddIpvsServer (Some ex_svc) (Some ex_server) ex_kernel1 = (Ret None, n1) ∧
    enn_AddIpvsServer (Some ex_svc) (Some ex_server) n1 = (Ret None, n2) ∧ kabs n2 = kabs n1 ∧
    enn_ListIpvsServer (Some (toLibService ex_svc)) n2 = (Ret (OK servers), n2) ∧
    list_to_set (server_key <$> servers) = ({[server_key ex_server]} ∪ ∅ : gset endpointKey).
Proof.
  apply (enn_server_add_list ex_kernel1 ex_svc ex_server ∅).
  - pose proof (enn_AddIpvsService_spec ex_kernel ex_svc (boot_rep _ _) ex_svc_wf) as H.
    apply wp_run in H as (e & n & R & _ & Hr & _). unfold ex_kernel1. rewrite R. exact Hr.
  - exact ex_svc_wf.
  - exact ex_server_wf.
  - by_eval.
Defined.

(** C25: [CreateLibIpvsService] followed by [CreateInterService] gives back the
    address, the port, the protocol and the scheduler of a service with a
    16-bit port and a known protocol; the session affinity, though stored in
    the flags, is not read back. *)
Theorem service_conversion_roundtrip (s : Service) :
  port_ok (Port s) → Protocol s = "tcp" ∨ Protocol s = "udp" →
  ∃ lib, CreateLibIpvsService (Some s) = OK lib ∧
    CreateInterService (Some lib) = OK {| ClusterIP := ClusterIP s; Port := Port s; Protocol := Protocol s;
      Scheduler := Scheduler s; SessionAffinity := false |} ∧
    (Flags lib = FlagPersistent ↔ SessionAffinity s = true).
Proof.
  intros Hp Hproto. exists (toLibService s). split; [done|]. split.
  - unfold CreateInterService, toInterService. rewrite protocol_roundtrip by done. simpl. by rewrite uint16_id.
  - simpl. by destruct (SessionAffinity s).
Qed.

Lemma service_conversion_roundtrip_witness :
  ∃ lib, CreateLibIpvsService (Some ex_svc) = OK lib ∧
    CreateInterService (Some lib) = OK {| ClusterIP := ClusterIP ex_svc; Port := 80; Protocol := "tcp";
      Scheduler := DEFAULSCHE; SessionAffinity := false |} ∧
    (Flags lib = FlagPersistent ↔ SessionAffinity ex_svc = true).
Proof. apply (service_conversion_roundtrip ex_svc); [unfold port_ok; simpl; lia|by left]. Defined.

(** ** Node addresses on the concrete kernel *)
Definition ex_net : NetOS := {|
  InterfaceAddrs _ := OK []; Interfaces _ := OK ["lo"; "eth0"; "docker0"];
  Listen n _ _ := OK n; ResolveUDPAddr _ _ a := OK a; ListenUDP n _ _ := OK n; Hostname _ := OK "node1" |}.

Definition ex_local (dev : string) : gset string :=
  match (enn_GetLocalAddresses dev ex_kernel).1 with
  | Ret (OK s) => s
  | _ => ∅
  end.

Lemma ex_lists_addresses : Nodes.lists_addresses ex_local ["lo"; "eth0"; "docker0"] ex_kernel.
Proof.
  intros dev Hdev.
  assert (dev ∈ [""; "lo"; "eth0"; "docker0"]) as Hin by (destruct Hdev as [->|?]; [left|by right]).
  repeat (apply elem_of_cons in Hin as [->|Hin]; [by split|]). by apply elem_of_nil in Hin.
Qed.

Lemma GetNodeIPs_exact_witness :
  ∃ ips w', @Nodes.NodeIP_GetNodeIPs _ enn_Interface ex_net canonical_range
      (ex_kernel, {| tick := 0; trace := [] |}) = (Ret (OK ips), (ex_kernel, w')) ∧
    Net.IPv4 [10; 0; 0; 7]%Z ∈ ips.
Proof.
  destruct (@Nodes.GetNodeIPs_exact RefKernel enn_Interface ex_net canonical_range ex_local
    ["lo"; "eth0"; "docker0"] ex_kernel {| tick := 0; trace := [] |} eq_refl ex_lists_addresses)
    as (ips & w' & Hrun & Hips).
  exists ips, w'. split; [exact Hrun|]. apply Hips. exists "10.0.0.7".
  split; [vm_compute; reflexivity|]. split; [by_eval|].
  intros prefix rest Hp Hn.
  pose proof (proj2 (Nodes.skipped_prefixes _) (ex_intro _ prefix (ex_intro _ rest (conj Hp eq_refl)))) as Hs. revert Hn Hs.
  apply (Forall_forall (λ name, Nodes.skipped_interface name = true → "10.0.0.7" ∉ ex_local name)).
  repeat constructor; first [discriminate | intros _; by_eval].
Defined.
