(* ===== verification/IpvsHistory.v ===== *)
(** * Histories of calls of the IPVS interface

    What a client of [utilipvs.Interface] observes: a history of calls, the
    answer of each, and the abstract table ([table_step], [table_answer]) that
    explains them. [implementation_history]: an implementation that meets
    [IpvsSpec] answers as the table does, as long as the client keeps to the
    contract. [enn_history]: EnnIpvs does so for any well-formed calls. *)

From S2P Require Import Prelude GoNet Ipvs FakeIpvs EnnIpvs RefKernel Host WfCheck EnnClaims.
Import Fake EnnIpvs Ref.

Module IpvsHistory.

Inductive call :=
| CListServices
| CListServers (svc : LibService)
| CAddService (s : Service)
| CDeleteService (s : Service)
| CAddServer (s : Service) (d : Server)
| CDeleteServer (s : Service) (d : Server)
| CFlush
| CGetLink
| CBind (ip : IP)
| CUnbind (ip : IP)
| CListBound.

(** Listings in no order; of an error only that it is one. *)
Inductive answer :=
| ADone (ok : bool)
| AServices (keys : gset activeServiceKey)
| AServers (eps : gset endpointKey)
| AAddresses (ips : gset string).

Definition done_of (e : error) : answer := ADone (match e with None => true | Some _ => false end).
Definition listed {A} (f : list A → answer) (r : result (list A)) : answer :=
  match r with OK l => f l | Err _ => ADone false end.

Definition services_of (l : list (option LibService)) : answer := AServices (list_to_set (omap (fmap lib_key) l)).
Definition servers_of (l : list Server) : answer := AServers (list_to_set (server_key <$> l)).
Definition addresses_of (l : list Addr) : answer := AAddresses (list_to_set (Net.IP_String ∘ addr_ip <$> l)).

(** ** The client

    It holds the link of the last [GetDummyLink] and passes it on. *)
Section client.
Context {K : Type} `{IF : Interface K}.

Definition on_ipvs {A} (c : M K A) : M (K * Link) A := zoom fst (λ k s, (k, s.2)) c.

Definition perform (c : call) : M (K * Link) answer :=
  link ← gets snd;
  match c with
  | CListServices => r ← on_ipvs ListIpvsService; mret (listed services_of r)
  | CListServers svc => r ← on_ipvs (ListIpvsServer (Some svc)); mret (listed servers_of r)
  | CAddService s => e ← on_ipvs (AddIpvsService (Some s)); mret (done_of e)
  | CDeleteService s => e ← on_ipvs (DeleteIpvsService (Some s)); mret (done_of e)
  | CAddServer s d => e ← on_ipvs (AddIpvsServer (Some s) (Some d)); mret (done_of e)
  | CDeleteServer s d => e ← on_ipvs (DeleteIpvsServer (Some s) (Some d)); mret (done_of e)
  | CFlush => e ← on_ipvs FlushIpvs; mret (done_of e)
  | CGetLink =>
      r ← on_ipvs GetDummyLink;
      match r with
      | OK l => modify (λ s, (s.1, l)) ;; mret (ADone true)
      | Err _ => mret (ADone false)
      end
  | CBind ip => e ← on_ipvs (AddDummyClusterIp ip link); mret (done_of e)
  | CUnbind ip => e ← on_ipvs (DeleteDummyClusterIp ip link); mret (done_of e)
  | CListBound => r ← on_ipvs (ListDuumyClusterIp link); mret (listed addresses_of r)
  end.

Fixpoint perform_all (cs : list call) : M (K * Link) (list answer) :=
  match cs with
  | [] => mret []
  | c :: cs => a ← perform c; l ← perform_all cs; mret (a :: l)
  end.
End client.

(** ** The abstract table; [t_link] when the client has the link *)
Record table := { t_vs : gmap activeServiceKey (gset endpointKey); t_bound : gset string; t_link : bool }.

Definition with_tvs m t := {| t_vs := m; t_bound := t_bound t; t_link := t_link t |}.
Definition with_tbound b t := {| t_vs := t_vs t; t_bound := b; t_link := t_link t |}.

Definition table_step (c : call) (t : table) : table :=
  match c with
  | CListServices | CListServers _ | CListBound => t
  | CAddService s => with_tvs (match t_vs t !! service_key s with Some _ => t_vs t | None => <[service_key s := ∅]> (t_vs t) end) t
  | CDeleteService s => with_tvs (delete (service_key s) (t_vs t)) t
  | CAddServer s d => with_tvs (alter (λ eps, {[server_key d]} ∪ eps) (service_key s) (t_vs t)) t
  | CDeleteServer s d => with_tvs (alter (λ eps, eps ∖ {[server_key d]}) (service_key s) (t_vs t)) t
  | CFlush => with_tvs ∅ t
  | CGetLink => {| t_vs := t_vs t; t_bound := t_bound t; t_link := true |}
  | CBind ip => with_tbound ({[Net.IP_String ip]} ∪ t_bound t) t
  | CUnbind ip => with_tbound (t_bound t ∖ {[Net.IP_String ip]}) t
  end.

Definition has_server (t : table) (s : Service) (d : Server) : bool :=
  match t_vs t !! service_key s with Some eps => bool_decide (server_key d ∈ eps) | None => false end.

Definition table_answer (c : call) (t : table) : answer :=
  match c with
  | CListServices => AServices (dom (t_vs t))
  | CListServers svc => match t_vs t !! lib_key svc with Some eps => AServers eps | None => ADone false end
  | CAddService _ | CFlush | CGetLink | CBind _ => ADone true
  | CDeleteService s | CAddServer s _ => ADone (bool_decide (is_Some (t_vs t !! service_key s)))
  | CDeleteServer s d => ADone (has_server t s d)
  | CUnbind ip => ADone (bool_decide (Net.IP_String ip ∈ t_bound t))
  | CListBound => AAddresses (t_bound t)
  end.

Definition table_after (cs : list call) (t : table) : table := foldl (λ t c, table_step c t) t cs.
Fixpoint table_answers (cs : list call) (t : table) : list answer :=
  match cs with
  | [] => []
  | c :: cs => table_answer c t :: table_answers cs (table_step c t)
  end.

(** Calls with arguments the kernel can hold, links asked for before they are
    used, and destinations listed of virtual services that are there. *)
Definition proper (c : call) (t : table) : Prop :=
  match c with
  | CListServices | CFlush | CGetLink => True
  | CListServers svc => wf_lib svc ∧ is_Some (t_vs t !! lib_key svc)
  | CAddService s | CDeleteService s => wf_service s
  | CAddServer s d | CDeleteServer s d => wf_service s ∧ wf_server d
  | CBind ip | CUnbind ip => Net.wf_addr ip ∧ t_link t = true
  | CListBound => t_link t = true
  end.

(** The contract of the interface: nothing is deleted that is not there, no
    server is added twice or without its virtual service, and the table is not
    flushed. *)
Definition agreed (c : call) (t : table) : Prop :=
  proper c t ∧
  match c with
  | CDeleteService s => is_Some (t_vs t !! service_key s)
  | CAddServer s d => is_Some (t_vs t !! service_key s) ∧ has_server t s d = false
  | CDeleteServer s d => has_server t s d = true
  | CUnbind ip => Net.IP_String ip ∈ t_bound t
  | CFlush => False
  | _ => True
  end.

Fixpoint throughout (P : call → table → Prop) (cs : list call) (t : table) : Prop :=
  match cs with
  | [] => True
  | c :: cs => P c t ∧ throughout P cs (table_step c t)
  end.

(** ** Answers of listings *)
Lemma services_listed svcs (m : gmap activeServiceKey (gset endpointKey)) :
  (lib_key <$> svcs) ≡ₚ (map_to_list m).*1 → services_of (Some <$> svcs) = AServices (dom m).
Proof.
  intros Hp. unfold services_of. f_equal.
  assert (omap (fmap lib_key) (Some <$> svcs) = lib_key <$> svcs) as ->.
  { induction svcs as [|svc svcs IH]; [done|]. clear Hp. simpl. f_equal. clear IH.
    induction svcs as [|svc' svcs IH]; [done|]. simpl. by f_equal. }
  apply set_eq. intros k. rewrite elem_of_list_to_set, Hp, elem_of_dom, list_elem_of_fmap. split.
  - intros ([k' v] & -> & Hin%elem_of_map_to_list). by eexists.
  - intros [v Hv]. exists (k, v). by rewrite elem_of_map_to_list.
Qed.

Lemma addresses_listed addrs (b : gset string) :
  ((Net.IP_String ∘ addr_ip) <$> addrs) ≡ₚ elements b → addresses_of addrs = AAddresses b.
Proof.
  intros Hp. unfold addresses_of. f_equal. apply set_eq. intros ip.
  by rewrite elem_of_list_to_set, Hp, elem_of_elements.
Qed.

(** ** An implementation and its table *)
Section refine.
Context {K : Type} `{IF : Interface K} `{IS : !IpvsSpec K}.

Record tracks (s : K * Link) (t : table) : Prop := {
  tr_rep : rep s.1;
  tr_vs : vs (abs s.1) = t_vs t;
  tr_bound : bound (abs s.1) = t_bound t;
  tr_link : t_link t = true → dummy (abs s.1) = Some s.2;
}.

Definition faithful (c : call) (s : K * Link) (t : table) : Prop :=
  wp (perform c) (λ a s', a = table_answer c t ∧ tracks s' (table_step c t)) s.

Lemma tracks_to s t t' k' f :
  tracks s t → rep k' → abs k' = f (abs s.1) → (∀ v, dummy (f v) = dummy v) →
  (∀ a, vs a = t_vs t → bound a = t_bound t → vs (f a) = t_vs t' ∧ bound (f a) = t_bound t') → t_link t' = t_link t →
  tracks (k', s.2) t'.
Proof.
  intros [Hr Hv Hb Hl] Hr' Ha Hd Hf Ht. destruct (Hf _ Hv Hb) as [Hfv Hfb].
  split; cbn; rewrite ?Ha; try done. rewrite Ht, Hd. exact Hl.
Qed.

End refine.

Ltac by_tracks Ht Hr Ha :=
  refine (tracks_to _ _ _ _ _ Ht Hr Ha _ _ _); [done| |done];
  let a := fresh in let Ev := fresh in let Eb := fresh in intros a Ev Eb; cbn; rewrite ?Ev, ?Eb; done.

Section refine.
Context {K : Type} `{IF : Interface K} `{IS : !IpvsSpec K}.

(** Performing a history, one call at a time. *)
Lemma perform_all_tracks (P : call → table → Prop) cs s t :
  (∀ c s t, P c t → tracks s t → faithful c s t) →
  throughout P cs t → tracks s t →
  wp (perform_all cs) (λ l s', l = table_answers cs t ∧ tracks s' (table_after cs t)) s.
Proof using Type.
  intros HP. revert s t. induction cs as [|c cs IH]; intros s t Hall Ht; [by apply wp_ret|].
  destruct Hall as [Hc Hall]. apply wp_bind. eapply wp_mono; [by apply (HP c s t)|]. intros a s1 [-> Ht1].
  apply wp_bind. eapply wp_mono; [by apply IH|]. intros l s2 [-> Ht2]. by apply wp_ret.
Qed.

(** The calls that both statements share. *)
Lemma faithful_common c s t :
  match c with CDeleteService _ | CAddServer _ _ | CDeleteServer _ _ | CUnbind _ | CFlush => False | _ => proper c t end →
  tracks s t → faithful c s t.
Proof using Type.
  intros Hc Ht. pose proof Ht as [Hrep Hv Hb Hl]. unfold faithful. destruct s as [k link]. cbn [fst snd] in *.
  unfold perform. apply wp_bind, wp_gets. cbn [snd].
  destruct c as [|svc|sv|sv|sv d|sv d| | |ip|ip|]; try done; unfold proper in Hc; apply wp_bind, wp_zoom; cbn [fst].
  - eapply wp_mono; [by apply ListIpvsService_spec|]. intros r k' (Hr & Ha & svcs & -> & _ & Hp). apply wp_ret.
    cbn [listed]. rewrite (services_listed _ _ Hp), Hv. split; [done|]. split; cbn; by rewrite ?Ha.
  - destruct Hc as [Hw [eps He]]. eapply wp_mono; [apply (ListIpvsServer_spec k svc eps); [done..|by rewrite Hv]|].
    intros r k' (Hr & Ha & servers & -> & Hs). apply wp_ret. cbn [listed table_answer]. rewrite He. unfold servers_of.
    rewrite Hs. split; [done|]. split; cbn; by rewrite ?Ha.
  - eapply wp_mono; [by apply AddIpvsService_spec|]. intros e k' (-> & Hr & Ha). apply wp_ret. split; [done|].
    by_tracks Ht Hr Ha.
  - eapply wp_mono; [by apply GetDummyLink_spec|]. intros r k' (Hr & l & -> & Ha).
    apply wp_bind, wp_modify, wp_ret. split; [done|]. split; cbn; by rewrite ?Ha.
  - destruct Hc as [Hw Hk]. eapply wp_mono; [by apply AddDummyClusterIp_spec; [..|apply Hl]|].
    intros e k' (-> & Hr & Ha). apply wp_ret. split; [done|].
    by_tracks Ht Hr Ha.
  - eapply wp_mono; [by apply ListDuumyClusterIp_spec; [..|apply Hl]|].
    intros r k' (Hr & Ha & addrs & -> & _ & Hp). apply wp_ret. cbn [listed]. rewrite (addresses_listed _ _ Hp), Hb.
    split; [done|]. split; cbn; by rewrite ?Ha.
Qed.

Lemma faithful_agreed c s t : agreed c t → tracks s t → faithful c s t.
Proof using Type.
  intros [Hp Hc] Ht. pose proof Ht as [Hrep Hv Hb Hl].
  destruct c as [|svc|sv|sv|sv d|sv d| | |ip|ip|]; try by apply faithful_common.
  all: unfold faithful; destruct s as [k link]; cbn [fst snd] in *; unfold perform; apply wp_bind, wp_gets; cbn [snd];
    apply wp_bind, wp_zoom; cbn [fst].
  - eapply wp_mono; [by apply DeleteIpvsService_spec|]. intros e k' (He & Hr & Ha). apply wp_ret.
    rewrite Hv in He. rewrite (He Hc). cbn [table_answer]. rewrite bool_decide_true by done. split; [done|].
    by_tracks Ht Hr Ha.
  - destruct Hp as [Hs Hd], Hc as [[eps He] Hn]. unfold has_server in Hn. rewrite He in Hn.
    apply bool_decide_eq_false_1 in Hn.
    eapply wp_mono; [apply (AddIpvsServer_spec k sv d eps); [done..|by rewrite Hv|done]|].
    intros e k' (-> & Hr & Ha). apply wp_ret. cbn [table_answer]. rewrite bool_decide_true by by rewrite He.
    split; [done|].
    by_tracks Ht Hr Ha.
  - destruct Hp as [Hs Hd]. cbn [table_answer]. rewrite Hc. unfold has_server in Hc.
    destruct (t_vs t !! service_key sv) as [eps|] eqn:He; [|done]. apply bool_decide_eq_true_1 in Hc.
    eapply wp_mono; [apply (DeleteIpvsServer_spec k sv d eps); [done..|by rewrite Hv|done]|].
    intros e k' (-> & Hr & Ha). apply wp_ret. split; [done|].
    by_tracks Ht Hr Ha.
  - destruct Hp as [Hw Hk]. eapply wp_mono; [by apply DeleteDummyClusterIp_spec; [..|apply Hl|rewrite Hb]|].
    intros e k' (-> & Hr & Ha). apply wp_ret. cbn [table_answer]. rewrite bool_decide_true by done. split; [done|].
    by_tracks Ht Hr Ha.
Qed.
End refine.

(** ** EnnIpvs, beyond the contract *)
Section enn.
Context {N : Type} `{KN : Kernel N} `{KS : !KernelSpec N}.

Lemma faithful_enn c (s : N * Link) t : proper c t → tracks s t → faithful c s t.
Proof using KS.
  intros Hp Ht. pose proof Ht as [Hrep Hv Hb Hl].
  destruct c as [|svc|sv|sv|sv d|sv d| | |ip|ip|]; try by apply faithful_common.
  all: unfold faithful; destruct s as [k link]; cbn [fst snd] in *; unfold perform; apply wp_bind, wp_gets; cbn [snd];
    apply wp_bind, wp_zoom; cbn [fst].
  - eapply wp_mono; [by apply enn_DeleteIpvsService_run|]. intros e k' (He & Hr & Ha). apply wp_ret. split.
    + cbn [table_answer]. unfold done_of. f_equal. rewrite <-Hv. cbn [abs].
      destruct e; symmetry; [apply bool_decide_false|apply bool_decide_true]; naive_solver.
    + by_tracks Ht Hr Ha.
  - destruct Hp as [Hs Hd]. eapply wp_mono; [by apply enn_AddIpvsServer_run|]. intros e k' (Hr & Ha & He).
    apply wp_ret. cbn [table_answer]. split.
    + unfold done_of. f_equal. rewrite <-Hv. cbn [abs].
      destruct e; symmetry; [apply bool_decide_false|apply bool_decide_true]; naive_solver.
    + by_tracks Ht Hr Ha.
  - destruct Hp as [Hs Hd]. eapply wp_mono; [by apply enn_DeleteIpvsServer_run|]. intros e k' (Hr & Ha & He).
    apply wp_ret. cbn [table_answer]. split.
    + unfold done_of, has_server. f_equal. rewrite <-Hv. change (abs k) with (kabs k).
      destruct (vs (kabs k) !! service_key sv) as [eps|]; [|destruct e; [done|by destruct (proj2 He eq_refl) as (? & ? & _)]].
      destruct e; symmetry; [apply bool_decide_false|apply bool_decide_true]; naive_solver.
    + by_tracks Ht Hr Ha.
  - eapply wp_mono; [by apply enn_FlushIpvs_spec|]. intros e k' (-> & Hr & Ha). apply wp_ret. split; [done|].
    by_tracks Ht Hr Ha.
  - destruct Hp as [Hw Hk]. eapply wp_mono; [by apply enn_DeleteDummyClusterIp_run; [|apply Hl|]|].
    intros e k' (He & Hr & Ha). apply wp_ret. cbn [table_answer]. split.
    + unfold done_of. f_equal. rewrite <-Hb. cbn [abs].
      destruct e; symmetry; [apply bool_decide_false|apply bool_decide_true]; naive_solver.
    + by_tracks Ht Hr Ha.
Qed.
End enn.
End IpvsHistory.
Import IpvsHistory.

(** The abstract table at a state, before the client asked for the link. *)
Definition table_at (a : vstate) : table := {| t_vs := vs a; t_bound := bound a; t_link := false |}.

Lemma tracks_at {K : Type} `{IF : Interface K} `{IS : !IpvsSpec K} (k : K) :
  rep k → tracks (k, None) (table_at (abs k)).
Proof. by split. Qed.

(** C15: EnnIpvs is the abstract table. On a kernel that behaves as documented,
    any history of calls of the interface (adding, deleting and listing virtual
    services and real servers, flushing, binding, unbinding and listing
    addresses of the dummy device), with arguments the kernel can hold, returns:
    each call is answered as the table answers it, redundant and refused calls
    included (a second addition succeeds, deleting or adding to what is not
    there is an error), and the kernel ends with what the table holds. *)
Theorem enn_history {N : Type} `{KN : Kernel N} `{KS : !KernelSpec N} (cs : list call) (n : N) :
  krep n → throughout proper cs (table_at (kabs n)) →
  ∃ n' link, perform_all cs (n, None) = (Ret (table_answers cs (table_at (kabs n))), (n', link)) ∧
    krep n' ∧ vs (kabs n') = t_vs (table_after cs (table_at (kabs n))) ∧
    bound (kabs n') = t_bound (table_after cs (table_at (kabs n))).
Proof.
  intros Hrep Hcs.
  destruct (wp_run _ _ _ (perform_all_tracks proper cs (n, None) _ faithful_enn Hcs (tracks_at (IS := enn_IpvsSpec) n Hrep)))
    as (l & [n' link] & Hrun & -> & [Hr Hv Hb _]).
  exists n', link. split_and!; [exact Hrun|exact Hr|exact Hv|exact Hb].
Qed.

(** C16: The test double stands in for the kernel, for the eleven operations of
    [call]: listing, adding and deleting services and servers, the flush,
    finding the dummy device, and binding, unbinding and listing its addresses.
    As long as the client keeps to the contract (it deletes only what is there,
    adds a real server once and to a virtual service that is there, and does
    not flush), the in-memory IPVS and EnnIpvs on a documented kernel that start
    from the same table give it the same answers, call by call, and end with the
    same table. An answer is compared by whether the call succeeded and, of a
    listing, by the keys: address, port and protocol of services, address and
    port of servers, the addresses bound; weights and schedulers are not
    compared. The other five operations are outside: reading one service back,
    making, raising and deleting the device, and [GetLocalAddresses], which the
    double answers with no address at all. *)
Theorem fake_stands_in `{MR : MapRange} {N : Type} `{KN : Kernel N} `{KS : !KernelSpec N} (cs : list call) (f : Faker) (n : N) :
  fake_rep f → krep n → vs (fake_abs f) = vs (kabs n) → bound (fake_abs f) = bound (kabs n) →
  throughout agreed cs (table_at (kabs n)) →
  ∃ answers f' n' l l', perform_all cs (f, None) = (Ret answers, (f', l)) ∧
    perform_all cs (n, None) = (Ret answers, (n', l')) ∧
    vs (fake_abs f') = vs (kabs n') ∧ bound (fake_abs f') = bound (kabs n').
Proof.
  intros Hf Hn Hv Hb Hcs. pose proof (tracks_at (IS := fake_IpvsSpec) f Hf) as Htf.
  change (table_at (abs f)) with (table_at (fake_abs f)) in Htf.
  assert (table_at (fake_abs f) = table_at (kabs n)) as Heq by (unfold table_at; by rewrite Hv, Hb).
  rewrite Heq in Htf.
  destruct (wp_run _ _ _ (perform_all_tracks agreed cs (f, None) _ faithful_agreed Hcs Htf))
    as (a & [f' l] & Hrun & -> & [_ Hv1 Hb1 _]).
  destruct (wp_run _ _ _ (perform_all_tracks agreed cs (n, None) _ faithful_agreed Hcs (tracks_at (IS := enn_IpvsSpec) n Hn)))
    as (a & [n' l'] & Hrun' & -> & [_ Hv2 Hb2 _]).
  exists (table_answers cs (table_at (kabs n))), f', n', l, l'. split_and!; [exact Hrun|exact Hrun'| |].
  - etrans; [exact Hv1|symmetry; exact Hv2].
  - etrans; [exact Hb1|symmetry; exact Hb2].
Qed.

(** ** Witnesses *)
Definition ex_calls : list call :=
  [CAddService ex_svc; CAddServer ex_svc ex_server; CListServers (toLibService ex_svc); CGetLink;
   CBind (ClusterIP ex_svc); CListBound; CListServices; CDeleteServer ex_svc ex_server; CUnbind (ClusterIP ex_svc);
   CDeleteService ex_svc; CListServices].

Definition ex_refused : list call :=
  [CAddServer ex_svc ex_server; CAddService ex_svc; CAddService ex_svc; CAddServer ex_svc ex_server;
   CAddServer ex_svc ex_server; CDeleteServer ex_svc ex_server; CDeleteServer ex_svc ex_server; CFlush;
   CDeleteService ex_svc].

Lemma ex_svc_addr : Net.wf_addr (ClusterIP ex_svc).
Proof. apply ex_svc_wf. Qed.

Ltac solve_calls :=
  cbn [throughout proper agreed];
  repeat match goal with
  | |- True => exact I
  | |- _ ∧ _ => split
  | |- agreed _ _ => unfold agreed, proper
  | |- wf_service _ => exact ex_svc_wf
  | |- wf_server _ => exact ex_server_wf
  | |- Net.wf_addr _ => exact ex_svc_addr
  | |- wf_lib _ => exact (wf_lib_toLibService _ ex_svc_wf)
  | |- is_Some _ => by_eval
  | |- _ = _ => vm_compute; reflexivity
  | |- _ ∈ _ => by_eval
  end.

Lemma enn_history_witness :
  ∃ n' link, perform_all ex_refused (ex_kernel, None) =
    (Ret (ADone <$> [false; true; true; true; true; true; false; true; false]), (n', link)).
Proof.
  assert (throughout proper ex_refused (table_at (ref_abs ex_kernel))) as Hp.
  { unfold ex_refused. solve_calls. }
  destruct (enn_history (KS := ref_KernelSpec) ex_refused ex_kernel (boot_rep _ _) Hp) as (n' & link & Hrun & _).
  exists n', link. rewrite Hrun. change (kabs ex_kernel) with (ref_abs ex_kernel).
  assert (table_answers ex_refused (table_at (ref_abs ex_kernel)) =
    ADone <$> [false; true; true; true; true; true; false; true; false]) as -> by (vm_compute; reflexivity).
  reflexivity.
Defined.

Lemma fake_stands_in_witness :
  ∃ answers f' n' l l', @perform_all _ (@fake_Interface canonical_range) ex_calls (NewFake, None) = (Ret answers, (f', l)) ∧
    perform_all ex_calls (ex_kernel, None) = (Ret answers, (n', l')).
Proof.
  assert (throughout agreed ex_calls (table_at (ref_abs ex_kernel))) as Ha.
  { unfold ex_calls. solve_calls. }
  destruct (@fake_stands_in canonical_range RefKernel ref_Kernel ref_KernelSpec ex_calls NewFake ex_kernel) as (a & f' & n' & l & l' & H1 & H2 & _).
  - exists ∅, ∅. split; [reflexivity|]. split; [reflexivity|]. split; apply map_Forall_empty.
  - exact (boot_rep _ _).
  - reflexivity.
  - reflexivity.
  - exact Ha.
  - exists a, f', n', l, l'. split; [exact H1|exact H2].
Defined.
