(* ===== verification/Events.v ===== *)
(** * Event histories

    The proxier driven by its event handlers. A world is the system with the
    objects the API server has announced; a step runs one handler, called as
    the informers call it (with the object known before). The proof follows
    two things along every history: the proxier's maps and pending changes
    refine the change-tracking machine of [ChangeTracking], and the IPVS
    implementation stays in its invariant. *)

From S2P Require Import Prelude GoNet ProxyTypes ChangeTracking Services ServicesFacts EndpointsMap EndpointsFacts Ipvs Host Ports Conntrack Nodes Proxier ProxierFacts FullSync SyncSpec IncrSync.
Import Proxier.
Import Services(ServiceInfo, serviceToServiceMap).
Import Endpoints(EndpointsInfo, endpointsToEndpointsMap).
Import Nodes(NodeIPInterface, GetNodeIPs).

Inductive happening :=
| EvServiceAdd (o : Api.Service)
| EvServiceUpdate (old o : Api.Service)
| EvServiceDelete (old : Api.Service)
| EvServiceSynced
| EvEndpointsAdd (o : Api.Endpoints)
| EvEndpointsUpdate (old o : Api.Endpoints)
| EvEndpointsDelete (old : Api.Endpoints)
| EvEndpointsSynced
| EvPeriodic.

Global Instance happening_eq_dec : EqDecision happening.
Proof. solve_decision. Defined.

Abbreviation api_services := (gmap NamespacedName Api.Service).
Abbreviation api_endpoints := (gmap NamespacedName Api.Endpoints).

(** When the informer delivers the event, given what it delivered before. *)
Definition delivers (e : happening) (svcs : api_services) (epss : api_endpoints) : Prop :=
  match e with
  | EvServiceAdd o => svcs !! Api.service_nsn o = None
  | EvServiceUpdate old o => svcs !! Api.service_nsn o = Some old
  | EvServiceDelete old => svcs !! Api.service_nsn old = Some old
  | EvEndpointsAdd o => epss !! Api.endpoints_nsn o = None
  | EvEndpointsUpdate old o => epss !! Api.endpoints_nsn o = Some old
  | EvEndpointsDelete old => epss !! Api.endpoints_nsn old = Some old
  | EvServiceSynced | EvEndpointsSynced | EvPeriodic => True
  end.

Definition services_after (e : happening) (svcs : api_services) : api_services :=
  match e with
  | EvServiceAdd o | EvServiceUpdate _ o => <[Api.service_nsn o := o]> svcs
  | EvServiceDelete old => delete (Api.service_nsn old) svcs
  | _ => svcs
  end.
Definition endpoints_after (e : happening) (epss : api_endpoints) : api_endpoints :=
  match e with
  | EvEndpointsAdd o | EvEndpointsUpdate _ o => <[Api.endpoints_nsn o := o]> epss
  | EvEndpointsDelete old => delete (Api.endpoints_nsn old) epss
  | _ => epss
  end.

Lemma NoDup_bind_inj {A B} (f : A → list B) (l : list A) :
  NoDup l → (∀ x, x ∈ l → NoDup (f x)) →
  (∀ x y k, x ∈ l → y ∈ l → k ∈ f x → k ∈ f y → x = y) → NoDup (l ≫= f).
Proof.
  induction 1 as [|x l Hx Hnd IH]; intros Hf Hinj; [constructor|]. rewrite bind_cons. apply NoDup_app.
  split_and!.
  - apply Hf. left.
  - intros k Hk (y & Hk' & Hy)%list_elem_of_bind. apply Hx.
    rewrite (Hinj x y k); [done|left|by right|done..].
  - apply IH; [intros y Hy; apply Hf; by right|]. intros y z k Hy Hz. by apply Hinj; right.
Qed.

Section events.
Context {K : Type} `{IF : Interface K} `{IS : !IpvsSpec K} `{IR : !IpvsRobust K} `{MR : MapRange}.
Context `{NI : NodeIPInterface K} `{PO : PortOpener} `{PS : !PortOpenerSpec} `{EX : Exec} `{NO : NetOS}.
Context (ips : list IP) `{NS : !NodeIPSpec ips} (host : string).

Definition run_ev (e : happening) : M (Sys K) unit :=
  match e with
  | EvServiceAdd o => OnServiceAdd o
  | EvServiceUpdate old o => OnServiceUpdate old o
  | EvServiceDelete old => OnServiceDelete old
  | EvServiceSynced => OnServiceSynced
  | EvEndpointsAdd o => OnEndpointsAdd o
  | EvEndpointsUpdate old o => OnEndpointsUpdate old o
  | EvEndpointsDelete old => OnEndpointsDelete old
  | EvEndpointsSynced => OnEndpointsSynced
  | EvPeriodic => syncProxyRules
  end.

Abbreviation desired_endpoints := (desired_ports (endpointsToEndpointsMap host)).

(** The API objects can be programmed: IPv4 addresses, known protocols,
    16-bit ports, and no virtual address claimed twice. *)
Record good (svcs : api_services) (epss : api_endpoints) : Prop := {
  good_infos : map_Forall (λ _ o, wf_infos ips (gm (serviceToServiceMap (Some o)))) svcs;
  good_eps : map_Forall (λ _ o, ∀ k e, e ∈ default [] (gm (endpointsToEndpointsMap host (Some o)) !! k) →
    wf_server (server_of (endpoint_key e))) epss;
  good_keys k info : desired_services svcs k = Some info → NoDup (rule_keys ips info);
  good_distinct k1 i1 k2 i2 key : desired_services svcs k1 = Some i1 → desired_services svcs k2 = Some i2 →
    key ∈ rule_keys ips i1 → key ∈ rule_keys ips i2 → k1 = k2;
}.

Record world := { sys : Sys K; svcs : api_services; epss : api_endpoints }.

(** The change-tracking machines the proxier's fields implement. *)
Definition svc_tracker (w : world) : tracker Api.Service ServiceInfo :=
  {| t_map := serviceMap (px (sys w)); t_items := serviceChanges (px (sys w)); t_api := svcs w |}.
Definition ep_tracker (w : world) : tracker Api.Endpoints (list EndpointsInfo) :=
  {| t_map := endpointsMap (px (sys w)); t_items := endpointsChanges (px (sys w)); t_api := epss w |}.

Record Winv (w : world) : Prop := {
  wi_svc : rtc svc_step tracker_init (svc_tracker w);
  wi_ep : rtc (ep_step host) tracker_init (ep_tracker w);
  wi_rep : rep (kern (sys w));
  wi_ports : Ports.no_nil (portsMap (px (sys w)));
  wi_items : wf_service_items ips (serviceChanges (px (sys w)));
  wi_good : good (svcs w) (epss w);
  wi_host : hostname (px (sys w)) = host;
}.

(** ** Configurations from API objects *)
Lemma desired_services_wf svcs' epss' k info :
  good svcs' epss' → desired_services svcs' k = Some info → wf_info ips info.
Proof.
  intros Hg Hd. unfold desired_ports in Hd. destruct (svcs' !! nsn_of k) as [o|] eqn:E.
  - by eapply (good_infos _ _ Hg).
  - simpl in Hd. by rewrite lookup_empty in Hd.
Qed.

Lemma good_config p svcs' epss' :
  good svcs' epss' → (∀ k, serviceMap p !! k = desired_services svcs' k) →
  (∀ k, endpointsMap p !! k = desired_endpoints epss' k) → nodeIPs p ≡ₚ ips → wf_config p.
Proof.
  intros Hg Hsm Hem Hn. split.
  - intros name info svc Hl Hsvc. rewrite Hsm in Hl. rewrite Hn in Hsvc.
    by eapply Forall_forall in Hsvc; [|by eapply desired_services_wf].
  - intros name _. apply Forall_forall. intros e He. rewrite Hem in He. unfold desired_ports in He.
    destruct (epss' !! nsn_of name) as [o|] eqn:E.
    + by eapply (good_eps _ _ Hg).
    + simpl in He. rewrite lookup_empty in He. by apply elem_of_nil in He.
  - rewrite rule_table_keys. apply NoDup_bind_inj; [apply NoDup_map_to_list|..]; cbn [snd].
    + intros [name info] Hin%elem_of_map_to_list. cbn [snd]. rewrite Hn. rewrite Hsm in Hin. by eapply good_keys.
    + intros [n1 i1] [n2 i2] key H1%elem_of_map_to_list H2%elem_of_map_to_list. cbn [snd]. rewrite Hn.
      intros Hk1 Hk2.
      assert (n1 = n2) as <- by (rewrite Hsm in H1, H2; by eapply good_distinct). congruence.
Qed.

Lemma applied_desired w p' :
  Winv w → applied (px (sys w)) p' →
  (∀ k, serviceMap p' !! k = desired_services (svcs w) k) ∧
  (∀ k, endpointsMap p' !! k = desired_endpoints (epss w) k).
Proof.
  intros Hw (sm & em & -> & Hsm & Hem). simpl. split; intros k.
  - etrans; [apply Hsm|]. etrans; [|apply (svc_reachable_apply _ 0 k (wi_svc _ Hw))]. symmetry.
    apply UpdateServiceMap_map, (svc_reachable_wf _ (wi_svc _ Hw)).
  - etrans; [apply Hem|]. etrans; [|apply (ep_reachable_apply host _ 0 k (wi_ep _ Hw))]. symmetry.
    apply UpdateEndpointsMap_map, (ep_reachable_wf host _ (wi_ep _ Hw)).
Qed.

Lemma Winv_syncable w :
  Winv w → endpointsSynced (px (sys w)) = true → servicesSynced (px (sys w)) = true → syncable ips (sys w).
Proof.
  intros Hw Hes Hss. split; [apply Hw|done|done| | |apply Hw..|].
  - apply (svc_reachable_wf _ (wi_svc _ Hw)).
  - apply (ep_reachable_wf host _ (wi_ep _ Hw)).
  - intros p' Happ. destruct (applied_desired _ _ Hw Happ) as [Hsm Hem].
    eapply good_config; [apply Hw|done|done|done].
Qed.

(** ** A sync keeps the invariant *)

(** What a handler other than the two [Synced] ones does to the flags, and
    to the kernel before both are set. *)
Definition flags (s : Sys K) : bool * bool * Z :=
  (endpointsSynced (px s), servicesSynced (px s), initialized (px s)).
Definition keeps (s s' : Sys K) : Prop :=
  flags s' = flags s ∧ settings (px s') = settings (px s) ∧ (endpointsSynced (px s) && servicesSynced (px s) = false → kern s' = kern s).

Lemma keeps_refl s : keeps s s.
Proof using Type. done. Qed.

(** Two systems in the same place as far as the invariant is concerned. *)
Lemma svc_sync_step w k' p' :
  changes_wf (serviceChanges (px (sys w))) → serviceChanges (px p') = ∅ →
  (∀ k, serviceMap (px p') !! k = updated (serviceMap (px (sys w))) (serviceChanges (px (sys w))) k) →
  svc_step (svc_tracker w) (svc_tracker {| sys := p'; svcs := svcs w; epss := k' |}).
Proof using Type.
  intros Hwf Hsc Hsm. unfold svc_tracker. cbn [sys svcs]. rewrite Hsc.
  replace (serviceMap (px p')) with ((Services.UpdateServiceMap (serviceMap (px (sys w)))
    (serviceChanges (px (sys w))) 0).1.1).
  - exact (t_sync _ _ (λ sm items n, (Services.UpdateServiceMap sm items n).1.1) _ _ _ 0).
  - apply map_eq. intros k. by rewrite UpdateServiceMap_map, Hsm.
Qed.

Lemma ep_sync_step w k' p' :
  changes_wf (endpointsChanges (px (sys w))) → endpointsChanges (px p') = ∅ →
  (∀ k, endpointsMap (px p') !! k = updated (endpointsMap (px (sys w))) (endpointsChanges (px (sys w))) k) →
  ep_step host (ep_tracker w) (ep_tracker {| sys := p'; svcs := k'; epss := epss w |}).
Proof using Type.
  intros Hwf Hec Hem. unfold ep_tracker. cbn [sys epss]. rewrite Hec.
  replace (endpointsMap (px p')) with ((Endpoints.UpdateEndpointsMap (endpointsMap (px (sys w)))
    (endpointsChanges (px (sys w))) 0).1.1).
  - exact (t_sync _ _ (λ em items n, (Endpoints.UpdateEndpointsMap em items n).1.1) _ _ _ 0).
  - apply map_eq. intros k. by rewrite UpdateEndpointsMap_map, Hem.
Qed.

Lemma sync_not_synced s :
  endpointsSynced (px s) && servicesSynced (px s) = false → syncProxyRules s = (Ret tt, s).
Proof using Type.
  intros E. destruct s as [p k w]. simpl in E. unfold syncProxyRules, field, gets, mbind, M_bind. simpl.
  by destruct (endpointsSynced p), (servicesSynced p).
Qed.

Lemma sync_Winv w :
  Winv w → wp syncProxyRules (λ _ s', Winv {| sys := s'; svcs := svcs w; epss := epss w |} ∧
    keeps (sys w) s') (sys w).
Proof using IR PS NS.
  intros Hw. destruct (endpointsSynced (px (sys w)) && servicesSynced (px (sys w))) eqn:E.
  2: { unfold wp. rewrite sync_not_synced by done. split; [by destruct w|done]. }
  pose proof E as [Hes Hss]%andb_true_iff. pose proof (Winv_syncable w Hw Hes Hss) as Hsy.
  eapply wp_mono; [by apply syncProxyRules_total|].
  intros [] s' (Hready & p' & Happ & Hsm & Hem & Hini & Hset). split.
  - split; cbn [sys svcs epss].
    + eapply rtc_r; [apply Hw|]. apply svc_sync_step; [apply Hsy|apply Hready|].
      intros k. rewrite Hsm. by destruct Happ as (sm & em & -> & ? & ?).
    + eapply rtc_r; [apply Hw|]. apply ep_sync_step; [apply Hsy|apply Hready|].
      intros k. rewrite Hem. by destruct Happ as (sm & em & -> & ? & ?).
    + apply Hready.
    + apply Hready.
    + rewrite (ready_sc _ _ Hready). apply map_Forall_empty.
    + apply Hw.
    + injection Hset as -> _ _ _. apply Hw.
  - split; [|by rewrite E, Hset]. unfold flags. rewrite Hini, (ready_endpoints _ _ Hready), (ready_services _ _ Hready).
    by rewrite Hes, Hss.
Qed.

(** ** Handlers keep the invariant *)

Lemma wf_items_update items nsn previous current :
  wf_service_items ips items → wf_infos ips (gm (serviceToServiceMap previous)) →
  wf_infos ips (gm (serviceToServiceMap current)) →
  wf_service_items ips (Services.Update items nsn previous current).1.
Proof using Type.
  intros Hi Hp Hc. unfold Services.Update, update. cbn [fst]. case_decide; [by apply map_Forall_delete|].
  apply map_Forall_insert_2; [|done]. split; [|done]. cbn [Previous].
  destruct (items !! nsn) as [ch|] eqn:E; [|done]. apply (Hi nsn ch E).
Qed.

Lemma good_known svcs' epss' nsn : good svcs' epss' → wf_infos ips (gm (serviceToServiceMap (svcs' !! nsn))).
Proof using Type.
  intros Hg. destruct (svcs' !! nsn) as [o|] eqn:E; [by apply (good_infos _ _ Hg nsn)|apply map_Forall_empty].
Qed.

Definition with_sys (f : Proxier → Proxier) (s : Sys K) : Sys K :=
  {| px := f (px s); kern := kern s; io := io s |}.

(** After recording a change a handler syncs or returns. *)
Lemma then_sync_Winv w (b : bool) (s0 : Sys K) :
  Winv w → keeps s0 (sys w) → flags s0 = flags (sys w) → kern (sys w) = kern s0 →
  wp (if b then ini ← isInitialized; if (ini : bool) then syncProxyRules else mret tt else mret tt)
    (λ _ s', Winv {| sys := s'; svcs := svcs w; epss := epss w |} ∧ keeps s0 s') (sys w).
Proof using IR PS NS.
  intros Hw Hk Hf Hkern. destruct b; [apply wp_bind, wp_field; destruct (0 <? _)%Z|].
  2,3: apply wp_ret; by destruct w.
  replace {| px := px (sys w); kern := kern (sys w); io := io (sys w) |} with (sys w) by by destruct (sys w).
  eapply wp_mono; [by apply sync_Winv|]. intros [] s' [Hw' (Hf' & Hs' & Hk')]. split; [done|].
  destruct Hk as (_ & Hs & _). split_and!; [congruence..|]. intros E. rewrite Hk'; [done|]. unfold flags in Hf. congruence.
Qed.

(** The change a handler records, before it syncs. *)
Definition note_service (nsn : NamespacedName) (previous current : option Api.Service) (p : Proxier) : Proxier :=
  with_serviceChanges (Services.Update (serviceChanges p) nsn previous current).1 p.
Definition note_endpoints (nsn : NamespacedName) (previous current : option Api.Endpoints) (p : Proxier) : Proxier :=
  with_endpointsChanges (Endpoints.Update (hostname p) (endpointsChanges p) nsn previous current).1 p.

Lemma service_note_Winv w nsn o svcs' :
  Winv w → good svcs' (epss w) → svcs' !! nsn = o →
  (∀ m items, svc_step {| t_map := m; t_items := items; t_api := svcs w |}
     {| t_map := m; t_items := (Services.Update items nsn (svcs w !! nsn) o).1; t_api := svcs' |}) →
  Winv {| sys := with_sys (note_service nsn (svcs w !! nsn) o) (sys w); svcs := svcs'; epss := epss w |}.
Proof using Type.
  intros Hw Hg Ho Hstep. split; cbn [sys svcs epss with_sys px]; try apply Hw; [|..|done].
  - eapply rtc_r; [apply (wi_svc _ Hw)|apply Hstep].
  - apply wf_items_update; [apply Hw|eapply good_known, Hw|]. rewrite <-Ho. by eapply good_known.
Qed.

Lemma service_event_Winv w nsn o svcs' :
  Winv w → good svcs' (epss w) → svcs' !! nsn = o →
  (∀ m items, svc_step {| t_map := m; t_items := items; t_api := svcs w |}
     {| t_map := m; t_items := (Services.Update items nsn (svcs w !! nsn) o).1; t_api := svcs' |}) →
  wp (service_event nsn (svcs w !! nsn) o)
    (λ _ s', Winv {| sys := s'; svcs := svcs'; epss := epss w |} ∧ keeps (sys w) s') (sys w).
Proof using IR PS NS.
  intros Hw Hg Ho Hstep. pose proof (service_note_Winv w nsn o svcs' Hw Hg Ho Hstep) as Hn. revert Hn.
  unfold service_event, note_service, with_sys. intros Hn. apply wp_bind, wp_field.
  destruct (Services.Update _ nsn _ o) as [sc b]. apply wp_bind, wp_assign.
  by apply (then_sync_Winv _ b (sys w) Hn).
Qed.

Lemma endpoints_note_Winv w nsn o epss' :
  Winv w → good (svcs w) epss' →
  (∀ m items, ep_step host {| t_map := m; t_items := items; t_api := epss w |}
     {| t_map := m; t_items := (Endpoints.Update host items nsn (epss w !! nsn) o).1; t_api := epss' |}) →
  Winv {| sys := with_sys (note_endpoints nsn (epss w !! nsn) o) (sys w); svcs := svcs w; epss := epss' |}.
Proof using Type.
  intros Hw Hg Hstep. split; cbn [sys svcs epss with_sys px]; try apply Hw; [|done].
  eapply rtc_r; [apply (wi_ep _ Hw)|]. unfold ep_tracker, with_sys, note_endpoints. cbn. rewrite (wi_host _ Hw). apply Hstep.
Qed.

Lemma endpoints_event_Winv w nsn o epss' :
  Winv w → good (svcs w) epss' →
  (∀ m items, ep_step host {| t_map := m; t_items := items; t_api := epss w |}
     {| t_map := m; t_items := (Endpoints.Update host items nsn (epss w !! nsn) o).1; t_api := epss' |}) →
  wp (endpoints_event nsn (epss w !! nsn) o)
    (λ _ s', Winv {| sys := s'; svcs := svcs w; epss := epss' |} ∧ keeps (sys w) s') (sys w).
Proof using IR PS NS.
  intros Hw Hg Hstep. pose proof (endpoints_note_Winv w nsn o epss' Hw Hg Hstep) as Hn. revert Hn.
  unfold endpoints_event, note_endpoints, with_sys. intros Hn. apply wp_bind, wp_field, wp_bind, wp_field.
  destruct (Endpoints.Update _ _ nsn _ o) as [ec b]. apply wp_bind, wp_assign.
  by apply (then_sync_Winv _ b (sys w) Hn).
Qed.

(** What each event does to the flags. *)
Definition flags_after (e : happening) (f : bool * bool * Z) : bool * bool * Z :=
  let '(es, ss, ini) := f in
  match e with
  | EvServiceSynced => (es, true, if es then 1 else 0)%Z
  | EvEndpointsSynced => (true, ss, ini)
  | _ => f
  end.

Definition both_synced (f : bool * bool * Z) : bool := f.1.1 && f.1.2.

Definition kept (e : happening) (s s' : Sys K) : Prop :=
  flags s' = flags_after e (flags s) ∧ settings (px s') = settings (px s) ∧ (both_synced (flags s') = false → kern s' = kern s).

Lemma keeps_kept e s s' : flags_after e (flags s) = flags s → keeps s s' → kept e s s'.
Proof using Type.
  intros He (Hf & Hs & Hk). split_and!; [by rewrite He|done|]. rewrite Hf. apply Hk.
Qed.

Lemma synced_Winv w f :
  Winv w → Winv {| sys := with_sys (λ p, with_synced (f p).1.1 (f p).1.2 (f p).2 p) (sys w);
                   svcs := svcs w; epss := epss w |}.
Proof using Type. intros Hw. split; apply Hw. Qed.

Lemma synced_kept e w f :
  Winv w → flags_after e (flags (sys w)) = f (px (sys w)) →
  wp syncProxyRules (λ _ s', Winv {| sys := s'; svcs := svcs w; epss := epss w |} ∧ kept e (sys w) s')
    (with_sys (λ p, with_synced (f p).1.1 (f p).1.2 (f p).2 p) (sys w)).
Proof using IR PS NS.
  intros Hw He. eapply wp_mono; [apply (sync_Winv _ (synced_Winv w f Hw))|].
  intros [] s' [Hw' (Hf & Hs & Hk)]. split; [done|]. cbn [sys] in *.
  assert (flags s' = flags_after e (flags (sys w))) as Hf'.
  { rewrite Hf, He. unfold flags, with_sys, with_synced. cbn. by destruct (f _) as [[? ?] ?]. }
  split_and!; [done..|]. intros Hb. rewrite Hk; [done|]. rewrite <-Hb, Hf', He. done.
Qed.

(** Every handler returns, from every world in the invariant. *)
Lemma run_ev_Winv e w :
  Winv w → delivers e (svcs w) (epss w) → good (services_after e (svcs w)) (endpoints_after e (epss w)) →
  wp (run_ev e) (λ _ s', Winv {| sys := s'; svcs := services_after e (svcs w); epss := endpoints_after e (epss w) |} ∧
    kept e (sys w) s') (sys w).
Proof using IR PS NS.
  intros Hw Hd Hg.
  assert (∀ A (c : M (Sys K) A) svcs' epss', flags_after e (flags (sys w)) = flags (sys w) →
    wp c (λ _ s', Winv {| sys := s'; svcs := svcs'; epss := epss' |} ∧ keeps (sys w) s') (sys w) →
    wp c (λ _ s', Winv {| sys := s'; svcs := svcs'; epss := epss' |} ∧ kept e (sys w) s') (sys w)) as Hkeep.
  { intros A c svcs' epss' He Hc. eapply wp_mono; [exact Hc|]. intros a s' [? ?]. split; [done|]. by apply keeps_kept. }
  destruct e as [o|old o|old| |o|old o|old| |]; simpl in Hd, Hg |- *.
  - apply Hkeep; [done|]. unfold OnServiceAdd. rewrite <-Hd.
    apply service_event_Winv; [done..|by rewrite lookup_insert_eq|]. intros m items. rewrite Hd. by constructor.
  - apply Hkeep; [done|]. unfold OnServiceUpdate. rewrite <-Hd.
    apply service_event_Winv; [done..|by rewrite lookup_insert_eq|]. intros m items. rewrite Hd. by constructor.
  - apply Hkeep; [done|]. unfold OnServiceDelete. rewrite <-Hd.
    apply service_event_Winv; [done..|by rewrite lookup_delete_eq|]. intros m items. rewrite Hd. by constructor.
  - apply wp_bind, wp_assign, wp_bind, wp_assign.
    apply (synced_kept EvServiceSynced w (λ p, (endpointsSynced p, true, if endpointsSynced p then 1 else 0)%Z)); done.
  - apply Hkeep; [done|]. unfold OnEndpointsAdd. rewrite <-Hd.
    apply endpoints_event_Winv; [done..|]. intros m items. rewrite Hd. by constructor.
  - apply Hkeep; [done|]. unfold OnEndpointsUpdate. rewrite <-Hd.
    apply endpoints_event_Winv; [done..|]. intros m items. rewrite Hd. by constructor.
  - apply Hkeep; [done|]. unfold OnEndpointsDelete. rewrite <-Hd.
    apply endpoints_event_Winv; [done..|]. intros m items. rewrite Hd. by constructor.
  - apply wp_bind, wp_assign.
    apply (synced_kept EvEndpointsSynced w (λ p, (true, servicesSynced p, initialized p))); done.
  - apply Hkeep; [done|]. by apply sync_Winv.
Qed.

(** ** Histories *)

(** The handlers called one after the other. *)
Definition run_events (es : list happening) : M (Sys K) unit := for_each es run_ev.

(** The informers can deliver the list, and the objects are programmable
    throughout. *)
Fixpoint deliverable (es : list happening) (svcs : api_services) (epss : api_endpoints) : Prop :=
  match es with
  | [] => True
  | e :: es => delivers e svcs epss ∧ good (services_after e svcs) (endpoints_after e epss) ∧
               deliverable es (services_after e svcs) (endpoints_after e epss)
  end.

Lemma deliverable_app es es' sv ep :
  deliverable (es ++ es') sv ep ↔ deliverable es sv ep ∧
    deliverable es' (foldl (flip services_after) sv es) (foldl (flip endpoints_after) ep es).
Proof using Type.
  revert sv ep. induction es as [|e es IH]; intros sv ep; cbn; [tauto|]. rewrite IH. tauto.
Qed.

Definition starting (k : K) (w : IO) : Sys K :=
  {| px := new_proxier false "" host 0; kern := k; io := w |}.

Lemma good_empty : good ∅ ∅.
Proof using Type.
  split; [apply map_Forall_empty..| |]; intros k; intros *; unfold desired_ports; rewrite lookup_empty; simpl;
    by rewrite lookup_empty.
Qed.

(** The proxier as [NewProxier] makes it, whatever the masquerading. *)
Lemma fresh_Winv all cidr period k w :
  rep k → Winv {| sys := {| px := new_proxier all cidr host period; kern := k; io := w |}; svcs := ∅; epss := ∅ |}.
Proof using Type.
  intros Hrep. split; [apply rtc_refl..|done|apply map_Forall_empty|apply map_Forall_empty|apply good_empty|done].
Qed.
Lemma starting_Winv k w : rep k → Winv {| sys := starting k w; svcs := ∅; epss := ∅ |}.
Proof using Type. apply fresh_Winv. Qed.

(** A run of events from the invariant returns in the invariant. *)
Lemma run_events_Winv es w :
  Winv w → deliverable es (svcs w) (epss w) →
  wp (run_events es) (λ _ s',
    Winv {| sys := s'; svcs := foldl (flip services_after) (svcs w) es;
            epss := foldl (flip endpoints_after) (epss w) es |} ∧
    flags s' = foldl (flip flags_after) (flags (sys w)) es ∧ settings (px s') = settings (px (sys w))) (sys w).
Proof using IR PS NS.
  revert w. induction es as [|e es IH]; intros w Hw Hd; [apply wp_ret; by destruct w|].
  destruct Hd as (Hd & Hg & Hds). apply wp_bind. eapply wp_mono; [by apply run_ev_Winv|].
  intros [] s1 [Hw1 (Hf1 & Hs1 & _)]. eapply wp_mono; [by apply (IH _ Hw1)|].
  intros [] s2 (Hw2 & Hf2 & Hs2). cbn [sys] in *. split; [done|]. split; [|congruence].
  rewrite Hf2. cbn [foldl flip]. by rewrite Hf1.
Qed.

(** While the two flags are not both set the kernel is left alone. *)
Lemma run_events_kern es w :
  Winv w → deliverable es (svcs w) (epss w) →
  both_synced (foldl (flip flags_after) (flags (sys w)) es) = false →
  wp (run_events es) (λ _ s', kern s' = kern (sys w)) (sys w).
Proof using IR PS NS.
  revert w. induction es as [|e es IH]; intros w Hw Hd Hb; [by apply wp_ret|].
  destruct Hd as (Hd & Hg & Hds). apply wp_bind. eapply wp_mono; [by apply run_ev_Winv|].
  intros [] s1 [Hw1 (Hf1 & _ & Hk1)].
  assert (∀ es f, both_synced f = true → both_synced (foldl (flip flags_after) f es) = true) as Hmono.
  { clear. induction es as [|e es IH]; intros f Hf; [done|]. apply IH.
    destruct f as [[[] []] z]; try done. by destruct e. }
  cbn [foldl flip] in Hb. rewrite <-Hf1 in Hb.
  assert (both_synced (flags s1) = false) as Hb1.
  { destruct (both_synced (flags s1)) eqn:E; [|done]. by rewrite (Hmono es _ E) in Hb. }
  rewrite <-(Hk1 Hb1). by apply (IH _ Hw1).
Qed.

(** The flags along a history. *)
Lemma flags_no_services es es0 ss0 ini0 :
  EvServiceSynced ∉ es → (foldl (flip flags_after) (es0, ss0, ini0) es).2 = ini0 ∧
    (foldl (flip flags_after) (es0, ss0, ini0) es).1.2 = ss0.
Proof using Type.
  revert es0. induction es as [|e es IH]; intros es0 Hn; [done|]. apply not_elem_of_cons in Hn as [He Hn].
  cbn [foldl flip]. destruct e; try done; by apply IH.
Qed.
Lemma flags_no_endpoints es es0 ss0 ini0 :
  EvEndpointsSynced ∉ es → (foldl (flip flags_after) (es0, ss0, ini0) es).1.1 = es0.
Proof using Type.
  revert ss0 ini0. induction es as [|e es IH]; intros ss0 ini0 Hn; [done|]. apply not_elem_of_cons in Hn as [He Hn].
  cbn [foldl flip]. destruct e; try done; by apply IH.
Qed.
Lemma flags_synced es f :
  (EvServiceSynced ∈ es ∨ f.1.2 = true) → (EvEndpointsSynced ∈ es ∨ f.1.1 = true) →
  both_synced (foldl (flip flags_after) f es) = true.
Proof using Type.
  revert f. induction es as [|e es IH]; intros [[a b] z] Hs He.
  - destruct Hs as [[]%elem_of_nil|Hs], He as [[]%elem_of_nil|He]. simpl in *. by subst.
  - cbn [foldl flip]. apply IH.
    + destruct Hs as [[Hs|Hs]%elem_of_cons|Hs]; [right; by subst|by left|]. right. simpl in Hs. subst. by destruct e.
    + destruct He as [[He|He]%elem_of_cons|He]; [right; by subst|by left|]. right. simpl in He. subst. by destruct e.
Qed.

(** ** Convergence from the invariant *)

(** What the announced objects ask of the kernel. *)
Definition asked_rules (svcs' : api_services) (epss' : api_endpoints) (key : activeServiceKey) (eps : gset endpointKey) : Prop :=
  ∃ name info, desired_services svcs' name = Some info ∧ key ∈ rule_keys ips info ∧
    eps = list_to_set (endpoint_key <$> default [] (desired_endpoints epss' name)).
Definition asked_bound (svcs' : api_services) (ip : string) : Prop :=
  ∃ name info, desired_services svcs' name = Some info ∧ ip = Net.IP_String (Services.ClusterIP info).

Lemma want_asked p svcs' epss' :
  good svcs' epss' → (∀ k, serviceMap p !! k = desired_services svcs' k) →
  (∀ k, endpointsMap p !! k = desired_endpoints epss' k) → nodeIPs p ≡ₚ ips →
  (∀ key eps, want p !! key = Some eps ↔ asked_rules svcs' epss' key eps) ∧
  (∀ ip, ip ∈ want_bound p ↔ asked_bound svcs' ip).
Proof using Type.
  intros Hg Hsm Hem Hn. pose proof (good_config p svcs' epss' Hg Hsm Hem Hn) as Hwf. split.
  - assert (∀ name info key, serviceMap p !! name = Some info → key ∈ rule_keys ips info →
      want p !! key = Some (eps_of p name)) as Hw.
    { intros name info key Hl Hk. apply (want_lookup p name info); [done..|by rewrite Hn]. }
    intros key eps. split.
    + intros Hl. destruct (proj1 (want_dom p key)) as ([name info] & He%elem_of_map_to_list & Hk); [eauto|].
      rewrite Hn in Hk. exists name, info. rewrite <-Hsm, <-Hem. split_and!; [done..|].
      rewrite (Hw name info key He Hk) in Hl. by injection Hl as <-.
    + intros (name & info & Hd & Hk & ->). rewrite <-Hsm in Hd. rewrite (Hw name info key Hd Hk).
      unfold eps_of. by rewrite Hem.
  - intros ip. unfold want_bound, cluster_ips. rewrite elem_of_list_to_set, list_elem_of_fmap. split.
    + intros ([name info] & -> & He%elem_of_map_to_list). exists name, info. by rewrite <-Hsm.
    + intros (name & info & Hd & ->). rewrite <-Hsm in Hd. exists (name, info). split; [done|].
      by apply elem_of_map_to_list.
Qed.

Lemma sync_ready w :
  Winv w → both_synced (flags (sys w)) = true →
  wp syncProxyRules (λ _ s', ready ips s' ∧ Winv {| sys := s'; svcs := svcs w; epss := epss w |} ∧
    settings (px s') = settings (px (sys w))) (sys w).
Proof using IR PS NS.
  intros Hw [Hes Hss]%andb_true_iff. pose proof (sync_Winv w Hw) as Hs. revert Hs.
  pose proof (syncProxyRules_total ips (sys w) (Winv_syncable w Hw Hes Hss)) as Ht. revert Ht.
  unfold wp. destruct (syncProxyRules (sys w)) as [[[]|] s']; [|done]. intros [Hr _] [Hw' (_ & Hset & _)]. done.
Qed.

Lemma applied_refl p : serviceChanges p = ∅ → endpointsChanges p = ∅ → applied p p.
Proof using Type.
  intros Hs He. exists (serviceMap p), (endpointsMap p). rewrite Hs, He. split_and!; [by destruct p|done..].
Qed.

Lemma ready_converges w :
  Winv w → ready ips (sys w) → opens_all →
  wp syncProxyRules (λ _ s', (∀ key eps, vs (abs (kern s')) !! key = Some eps ↔ asked_rules (svcs w) (epss w) key eps) ∧
    (∀ ip, ip ∈ bound (abs (kern s')) ↔ asked_bound (svcs w) ip)) (sys w).
Proof using IR PS NS.
  intros Hw Hr Hop. eapply wp_mono; [by apply syncProxyRules_full|].
  intros [] s' (_ & (H1 & H2 & _) & Hn & Hconv). rewrite (conv_complete _ _ Hconv Hop), (conv_bound _ _ Hconv).
  destruct (applied_desired w (px (sys w)) Hw) as [Hsm Hem]; [by apply applied_refl; apply Hr|].
  apply want_asked; [apply Hw| | |done]; intros k; rewrite ?H1, ?H2; auto.
Qed.
(** Two syncs from the invariant, once both informers have synced. *)
Lemma ready_after_sync w :
  Winv w → both_synced (flags (sys w)) = true → opens_all →
  ∃ s2 s3, syncProxyRules (sys w) = (Ret tt, s2) ∧ syncProxyRules s2 = (Ret tt, s3) ∧
    (∀ key eps, vs (abs (kern s3)) !! key = Some eps ↔ asked_rules (svcs w) (epss w) key eps) ∧
    (∀ ip, ip ∈ bound (abs (kern s3)) ↔ asked_bound (svcs w) ip).
Proof using IR PS NS.
  intros Hw Hb Hop. pose proof (sync_ready w Hw Hb) as Hs. apply wp_run in Hs as ([] & s2 & Hrun2 & Hready & Hw2 & _).
  pose proof (ready_converges _ Hw2 Hready Hop) as Hs. apply wp_run in Hs as ([] & s3 & Hrun3 & H). by exists s2, s3.
Qed.

(** The maps with their pending changes are the announced ports. *)
Lemma Winv_maps w : Winv w →
  (∀ name, updated (serviceMap (px (sys w))) (serviceChanges (px (sys w))) name = desired_services (svcs w) name) ∧
  (∀ name, updated (endpointsMap (px (sys w))) (endpointsChanges (px (sys w))) name = desired_endpoints (epss w) name).
Proof using Type.
  intros Hw. split; intros name.
  - rewrite <-(UpdateServiceMap_map _ _ 0) by apply (svc_reachable_wf _ (wi_svc _ Hw)).
    apply (svc_reachable_apply _ 0 name (wi_svc _ Hw)).
  - rewrite <-(UpdateEndpointsMap_map _ _ 0) by apply (ep_reachable_wf host _ (wi_ep _ Hw)).
    apply (ep_reachable_apply host _ 0 name (wi_ep _ Hw)).
Qed.
End events.
