(* ===== verification/EventsClaims.v ===== *)
(** * Properties of event histories

    End to end: from the objects the API server announces to the rules in the
    kernel, over the real IPVS implementation. *)

From S2P Require Import Prelude GoNet ProxyTypes ChangeTracking Services ServicesFacts EndpointsMap EndpointsFacts Ipvs EnnIpvs RefKernel Host Ports Nodes Proxier ProxierFacts FullSync SyncSpec IncrSync WfCheck Events TestBed.
Import Proxier EnnIpvs Ref Ports.
Import Services(ServiceInfo, serviceToServiceMap).
Import Endpoints(EndpointsInfo, endpointsToEndpointsMap).
Import Nodes(NodeIPInterface, GetNodeIPs).

(** ** Checking announced objects *)

Definition service_ports (svcs : api_services) : list (ServicePortName * ServiceInfo) :=
  map_to_list svcs ≫= λ o, map_to_list (gm (serviceToServiceMap (Some o.2))).

Definition good_b (ips : list IP) (host : string) (svcs : api_services) (epss : api_endpoints) : bool :=
  forallb (λ e, forallb wf_service_b (service_rules ips e.2)) (service_ports svcs) &&
  forallb (λ o, forallb (λ e, forallb (λ i, wf_server_b (server_of (endpoint_key i))) e.2)
    (map_to_list (gm (endpointsToEndpointsMap host (Some o.2))))) (map_to_list epss) &&
  bool_decide (NoDup (service_ports svcs ≫= λ e, rule_keys ips e.2)).

Lemma NoDup_bind_elim {A B} (f : A → list B) l :
  NoDup (l ≫= f) → (∀ x, x ∈ l → NoDup (f x)) ∧
    (∀ x y k, x ∈ l → y ∈ l → k ∈ f x → k ∈ f y → x = y).
Proof.
  induction l as [|a l IH]; rewrite ?bind_cons.
  - intros _. split; intros *; by intros ?%elem_of_nil.
  - intros (Ha & Hdis & Hl)%NoDup_app. destruct (IH Hl) as [IH1 IH2].
    assert (∀ y k, k ∈ f a → y ∈ l → k ∈ f y → False) as Hno.
    { intros y k Hk Hy Hky. apply (Hdis k Hk), list_elem_of_bind. eauto. }
    split.
    + intros x [->|Hx]%elem_of_cons; auto.
    + intros x y k [->|Hx]%elem_of_cons [->|Hy]%elem_of_cons Hkx Hky; [done| | |eauto].
      * by destruct (Hno y k).
      * by destruct (Hno x k).
Qed.

Lemma desired_service_ports svcs k info :
  desired_services svcs k = Some info → (k, info) ∈ service_ports svcs.
Proof.
  unfold desired_ports. destruct (svcs !! nsn_of k) as [o|] eqn:E.
  - intros Hd. apply list_elem_of_bind. exists (nsn_of k, o). by split; apply elem_of_map_to_list.
  - simpl. by rewrite lookup_empty.
Qed.

Lemma good_b_sound ips host svcs epss : good_b ips host svcs epss = true → good ips host svcs epss.
Proof.
  intros [[Hs He]%andb_true_iff Hnd%bool_decide_eq_true_1]%andb_true_iff.
  rewrite forallb_forall in Hs, He. destruct (NoDup_bind_elim _ _ Hnd) as [Hk Hd].
  assert (∀ k info, (k, info) ∈ service_ports svcs → wf_info ips info) as Hs'.
  { intros k info Hin%list_elem_of_In. specialize (Hs _ Hin). rewrite forallb_forall in Hs.
    apply Forall_forall. intros svc Hsvc. apply wf_service_b_sound, Hs. by apply list_elem_of_In. }
  split.
  - intros nsn o Ho k info Hi. apply (Hs' k info), list_elem_of_bind. exists (nsn, o).
    by split; apply elem_of_map_to_list.
  - intros nsn o Ho k i Hi. destruct (gm (endpointsToEndpointsMap host (Some o)) !! k) as [l|] eqn:El.
    2: by apply elem_of_nil in Hi.
    specialize (He (nsn, o) (proj1 (list_elem_of_In _ _) (proj2 (elem_of_map_to_list _ _ _) Ho))).
    rewrite forallb_forall in He.
    specialize (He (k, l) (proj1 (list_elem_of_In _ _) (proj2 (elem_of_map_to_list _ _ _) El))).
    rewrite forallb_forall in He. apply wf_server_b_sound, He. by apply list_elem_of_In.
  - intros k info Hi%desired_service_ports. by apply (Hk (k, info)).
  - intros k1 i1 k2 i2 key H1%desired_service_ports H2%desired_service_ports Hk1 Hk2.
    by injection (Hd (k1, i1) (k2, i2) key H1 H2 Hk1 Hk2).
Qed.

(** ** The node of the examples: the reference kernel under [EnnIpvs]. *)
#[local] Existing Instances canonical_range TestBed.bed_exec TestBed.bed_net.
#[local] Instance ref_nodeip : NodeIPInterface RefKernel := {| GetNodeIPs := mret (OK TestBed.bed_ips) |}.
#[local] Instance ref_nodeip_spec : NodeIPSpec (K := RefKernel) TestBed.bed_ips.
Proof. intros k w Hk. apply wp_ret. split; [by eexists|done]. Qed.

Definition node_kernel : RefKernel := boot [{| link_Name := "lo"; link_Index := 1 |}] [].
Lemma node_rep : rep node_kernel.
Proof. exact (boot_rep _ _). Qed.
Definition quiet_io : IO := {| tick := 0; trace := [] |}.

(** Services and endpoints come, one service changes, one goes. *)
Definition web2 : Api.Service :=
  TestBed.service "web" "10.20.30.41" [TestBed.port "p80" "TCP" 80 0; TestBed.port "p443" "TCP" 443 0] [].
Definition ex_events : list happening :=
  [EvServiceAdd TestBed.web; EvEndpointsAdd TestBed.web_eps; EvServiceAdd TestBed.dns; EvEndpointsSynced;
   EvServiceSynced; EvEndpointsAdd TestBed.dns_eps; EvServiceUpdate TestBed.web web2; EvPeriodic;
   EvServiceDelete TestBed.dns].
Definition services_first : list happening :=
  [EvServiceSynced; EvEndpointsAdd TestBed.web_eps; EvEndpointsSynced].

Ltac solve_deliverable :=
  repeat (split; [first [exact I | vm_compute; reflexivity]|split; [apply good_b_sound; vm_compute; reflexivity|]]);
  exact I.

Lemma ex_deliverable : deliverable TestBed.bed_ips "node1" ex_events ∅ ∅.
Proof. solve_deliverable. Qed.
Lemma services_first_deliverable : deliverable TestBed.bed_ips "node1" services_first ∅ ∅.
Proof. solve_deliverable. Qed.

Section claims.
Context {K : Type} `{IF : Interface K} `{IS : !IpvsSpec K} `{IR : !IpvsRobust K} `{MR : MapRange}.
Context `{NI : NodeIPInterface K} `{PO : PortOpener} `{PS : !PortOpenerSpec} `{EX : Exec} `{NO : NetOS}.
Context (ips : list IP) `{NS : !NodeIPSpec ips} (host : string).

(** The objects announced by a history. *)
Definition services_of (es : list happening) : api_services := foldl (flip services_after) ∅ es.
Definition endpoints_of (es : list happening) : api_endpoints := foldl (flip endpoints_after) ∅ es.

(** C2: End to end, with handlers that run one after the other: each records
    its change and runs the sync it asks for before the next event. The
    informers deliver consistently, and after every event the announced objects
    can be programmed: IPv4 addresses, tcp or udp, 16-bit ports, no virtual
    address claimed twice ([deliverable], [good]); the IPVS implementation is
    reliable ([rep], [IpvsRobust]), the node's addresses stay ([NodeIPSpec]),
    and every local port, of a node port or an external address, can be opened
    ([opens_all]; the code skips one that cannot). After a history of events in
    which both informers reported their initial listing, two runs of
    [syncProxyRules] lead the kernel to what the API server announced: a
    virtual service with key [key] and endpoints [eps] exists exactly when some
    announced service port has that virtual address and those ready endpoints,
    and the addresses bound to the dummy device are exactly the announced
    cluster IPs. *)
Theorem announced_objects_are_programmed (es : list happening) (k : K) (w : IO) :
  rep k → deliverable ips host es ∅ ∅ → EvServiceSynced ∈ es → EvEndpointsSynced ∈ es → opens_all →
  ∃ s1 s2 s3, run_events es (starting host k w) = (Ret tt, s1) ∧
    syncProxyRules s1 = (Ret tt, s2) ∧ syncProxyRules s2 = (Ret tt, s3) ∧
    (∀ key eps, vs (abs (kern s3)) !! key = Some eps ↔
       asked_rules ips host (services_of es) (endpoints_of es) key eps) ∧
    (∀ ip, ip ∈ bound (abs (kern s3)) ↔ asked_bound (services_of es) ip).
Proof using IR PS NS.
  intros Hrep Hd Hss Hes Hop.
  pose proof (run_events_Winv ips host es _ (starting_Winv ips host k w Hrep) Hd) as Hr.
  apply wp_run in Hr as ([] & s1 & Hrun & Hw & Hf & _).
  assert (both_synced (flags s1) = true) as Hb by (rewrite Hf; apply flags_synced; by left).
  destruct (ready_after_sync ips host _ Hw Hb Hop) as (s2 & s3 & H). by exists s1, s2, s3.
Qed.

(** The flags are 0 or 1, and 1 only when both informers have synced. *)
Definition flags_ok (f : bool * bool * Z) : Prop := (f.2 = 0 ∨ f.2 = 1 ∧ f.1.1 = true ∧ f.1.2 = true)%Z.
Lemma flags_after_ok e f : flags_ok f → flags_ok (flags_after e f).
Proof.
  destruct f as [[es ss] ini]. unfold flags_ok, flags_after. cbn.
  destruct e; try done; cbn; destruct es; cbn; naive_solver.
Qed.
Lemma flags_foldl_ok es f : flags_ok f → flags_ok (foldl (flip flags_after) f es).
Proof. revert f. induction es as [|e es IH]; intros f Hf; [done|]. by apply IH, flags_after_ok. Qed.

(** C18: Until both informers reported their initial listing nothing is
    programmed: the kernel is the one the proxier found. As for the history end
    to end, the objects delivered can be programmed and the IPVS
    implementation is reliable. *)
Theorem nothing_before_synced (es : list happening) (k : K) (w : IO) :
  rep k → deliverable ips host es ∅ ∅ → EvServiceSynced ∉ es ∨ EvEndpointsSynced ∉ es →
  ∃ s, run_events es (starting host k w) = (Ret tt, s) ∧ kern s = k.
Proof using IR PS NS.
  intros Hrep Hd Hno.
  assert (both_synced (foldl (flip flags_after) (flags (starting host k w)) es) = false) as Hb.
  { change (flags (starting host k w)) with (false, false, 0%Z). unfold both_synced. destruct Hno as [Hno|Hno].
    - destruct (flags_no_services es false false 0 Hno) as [_ ->]. apply andb_false_r.
    - by rewrite (flags_no_endpoints es false false 0 Hno). }
  pose proof (run_events_kern ips host es _ (starting_Winv ips host k w Hrep) Hd Hb) as Hr.
  apply wp_run in Hr as ([] & s & Hrun & Hk). by exists s.
Qed.

(** Events that announce an object. *)
Definition announces (e : happening) : bool :=
  match e with EvServiceSynced | EvEndpointsSynced | EvPeriodic => false | _ => true end.

Lemma announce_idle e s :
  announces e = true → initialized (px s) = 0%Z → ∃ s', run_ev e s = (Ret tt, s') ∧ kern s' = kern s.
Proof using Type.
  intros He Hini.
  assert (∀ nsn p c, ∃ s', service_event nsn p c s = (Ret tt, s') ∧ kern s' = kern s) as Hs.
  { intros nsn p c. unfold service_event, mbind, M_bind, field, gets. destruct (Services.Update _ _ _ _) as [sc []];
      cbn; rewrite ?Hini; cbn; eauto. }
  assert (∀ nsn p c, ∃ s', endpoints_event nsn p c s = (Ret tt, s') ∧ kern s' = kern s) as Hep.
  { intros nsn p c. unfold endpoints_event, mbind, M_bind, field, gets. destruct (Endpoints.Update _ _ _ _ _) as [ec []];
      cbn; rewrite ?Hini; cbn; eauto. }
  destruct e; try done; apply Hs || apply Hep.
Qed.

(** [OnEndpointsSynced] does not set [initialized]. When the services'
    initial listing is reported before the endpoints' and not again, the
    proxier stays uninitialized: from then on no announcement, of services
    or of endpoints, programs the kernel; only the periodic sync does. *)
Theorem services_first_never_initialized (es1 es2 : list happening) (k : K) (w : IO) :
  rep k → deliverable ips host (es1 ++ EvServiceSynced :: es2) ∅ ∅ →
  EvEndpointsSynced ∉ es1 → EvServiceSynced ∉ es2 →
  ∃ s, run_events (es1 ++ EvServiceSynced :: es2) (starting host k w) = (Ret tt, s) ∧
    initialized (px s) = 0%Z ∧
    ∀ e, announces e = true → ∃ s', run_ev e s = (Ret tt, s') ∧ kern s' = kern s.
Proof using IR PS NS.
  intros Hrep Hd H1 H2. pose proof (run_events_Winv ips host _ _ (starting_Winv ips host k w Hrep) Hd) as Hr.
  apply wp_run in Hr as ([] & s & Hrun & _ & Hf & _). exists s.
  assert (initialized (px s) = 0%Z) as Hini.
  { change (initialized (px s)) with ((flags s).2). rewrite Hf, foldl_app. cbn [foldl flip sys].
    change (flags (starting host k w)) with (false, false, 0%Z).
    pose proof (flags_no_endpoints es1 false false 0 H1) as He.
    destruct (foldl (flip flags_after) (false, false, 0%Z) es1) as [[es0 ss0] ini0]. simpl in He. subst es0.
    apply (flags_no_services es2 false true 0%Z H2). }
  split; [exact Hrun|]. split; [done|]. intros e He. by apply announce_idle.
Qed.
End claims.

(** ** Witnesses *)

Lemma announced_objects_are_programmed_witness :
  ∃ s1 s2 s3, run_events ex_events (starting "node1" node_kernel quiet_io) = (Ret tt, s1) ∧
    syncProxyRules s1 = (Ret tt, s2) ∧ syncProxyRules s2 = (Ret tt, s3) ∧
    (∀ key eps, vs (abs (kern s3)) !! key = Some eps ↔
       asked_rules TestBed.bed_ips "node1" (services_of ex_events) (endpoints_of ex_events) key eps).
Proof.
  destruct (announced_objects_are_programmed TestBed.bed_ips "node1" ex_events node_kernel quiet_io node_rep
    ex_deliverable ltac:(by_eval) ltac:(by_eval) TestBed.bed_opens) as (s1 & s2 & s3 & H1 & H2 & H3 & H & _).
  exists s1, s2, s3. split; [exact H1|]. split; [exact H2|]. split; [exact H3|exact H].
Defined.

Lemma nothing_before_synced_witness :
  ∃ s, run_events (take 4 ex_events) (starting "node1" node_kernel quiet_io) = (Ret tt, s) ∧ kern s = node_kernel.
Proof.
  apply (nothing_before_synced TestBed.bed_ips "node1" (take 4 ex_events) node_kernel quiet_io node_rep).
  - solve_deliverable.
  - left. by_eval.
Defined.

Lemma services_first_never_initialized_witness :
  ∃ s, run_events services_first (starting "node1" node_kernel quiet_io) = (Ret tt, s) ∧ initialized (px s) = 0%Z ∧
    ∃ s', OnServiceAdd TestBed.web s = (Ret tt, s') ∧ kern s' = kern s.
Proof.
  destruct (services_first_never_initialized TestBed.bed_ips "node1" [] (drop 1 services_first) node_kernel quiet_io
    node_rep services_first_deliverable ltac:(by_eval) ltac:(by_eval)) as (s & Hrun & Hini & H).
  exists s. split; [exact Hrun|]. split; [exact Hini|]. exact (H (EvServiceAdd TestBed.web) eq_refl).
Defined.
