(* ===== verification/Interleave.v ===== *)
(** * Announcements during a sync

    [syncProxyRules] holds the proxier's mutex, but the informers' handlers
    record a change before they ask for it: they only take the lock of the
    change map, which a sync holds while it applies that map's changes and while
    it programs and clears them. So a change may be recorded in the middle of a
    sync. Here a sync is cut where those locks are free, and the history of the
    program is one of recordings and syncs in any order. *)

From S2P Require Import Prelude GoNet ProxyTypes ChangeTracking Services ServicesFacts EndpointsMap EndpointsFacts Ipvs EnnIpvs RefKernel Host Ports Conntrack Nodes Proxier ProxierFacts FullSync SyncSpec IncrSync WfCheck Events TestBed EventsClaims.
Import Proxier EnnIpvs Ref Ports.
Import Nodes(NodeIPInterface, GetNodeIPs).

(** ** Handlers in two halves *)

(** What a handler does to the proxier before it calls [syncProxyRules]. *)
Definition noted (e : happening) (p : Proxier) : Proxier :=
  match e with
  | EvServiceAdd o => note_service (Api.service_nsn o) None (Some o) p
  | EvServiceUpdate old o => note_service (Api.service_nsn o) (Some old) (Some o) p
  | EvServiceDelete old => note_service (Api.service_nsn old) (Some old) None p
  | EvServiceSynced => with_synced (endpointsSynced p) true (if endpointsSynced p then 1 else 0)%Z p
  | EvEndpointsAdd o => note_endpoints (Api.endpoints_nsn o) None (Some o) p
  | EvEndpointsUpdate old o => note_endpoints (Api.endpoints_nsn o) (Some old) (Some o) p
  | EvEndpointsDelete old => note_endpoints (Api.endpoints_nsn old) (Some old) None p
  | EvEndpointsSynced => with_synced true (servicesSynced p) (initialized p) p
  | EvPeriodic => p
  end.
Definition noted_all (es : list happening) (p : Proxier) : Proxier := foldl (flip noted) p es.

(** Whether it then calls it. *)
Definition changes (e : happening) (p : Proxier) : bool :=
  match e with
  | EvServiceAdd o => (Services.Update (serviceChanges p) (Api.service_nsn o) None (Some o)).2
  | EvServiceUpdate old o => (Services.Update (serviceChanges p) (Api.service_nsn o) (Some old) (Some o)).2
  | EvServiceDelete old => (Services.Update (serviceChanges p) (Api.service_nsn old) (Some old) None).2
  | EvEndpointsAdd o => (Endpoints.Update (hostname p) (endpointsChanges p) (Api.endpoints_nsn o) None (Some o)).2
  | EvEndpointsUpdate old o =>
      (Endpoints.Update (hostname p) (endpointsChanges p) (Api.endpoints_nsn o) (Some old) (Some o)).2
  | EvEndpointsDelete old =>
      (Endpoints.Update (hostname p) (endpointsChanges p) (Api.endpoints_nsn old) (Some old) None).2
  | _ => true
  end.
Definition wants_sync (e : happening) (p : Proxier) : bool := changes e p && (negb (announces e) || (0 <? initialized p)%Z).

Definition service_announcement (e : happening) : bool :=
  match e with EvServiceAdd _ | EvServiceUpdate _ _ | EvServiceDelete _ => true | _ => false end.
Definition endpoints_announcement (e : happening) : bool := announces e && negb (service_announcement e).

Section interleaving.
Context {K : Type} `{IF : Interface K} `{MR : MapRange}.
Context `{NI : NodeIPInterface K} `{PO : PortOpener} `{EX : Exec} `{NO : NetOS}.

(** The handlers are these halves. *)
Lemma handler_halves e s :
  run_ev e s = (assign (noted e) ;; (if wants_sync e (px s) then syncProxyRules else mret tt)) s.
Proof using Type.
  assert (∀ nsn previous current, service_event nsn previous current s =
    (assign (note_service nsn previous current) ;;
     if (Services.Update (serviceChanges (px s)) nsn previous current).2 && (0 <? initialized (px s))%Z
     then syncProxyRules else mret tt) s) as Hs.
  { intros. unfold service_event, note_service, mbind, M_bind, field, gets, assign, modify.
    destruct (Services.Update (serviceChanges (px s)) nsn previous current) as [sc []]; [|done]. cbn.
    by destruct (0 <? _)%Z. }
  assert (∀ nsn previous current, endpoints_event nsn previous current s =
    (assign (note_endpoints nsn previous current) ;;
     if (Endpoints.Update (hostname (px s)) (endpointsChanges (px s)) nsn previous current).2 && (0 <? initialized (px s))%Z
     then syncProxyRules else mret tt) s) as He.
  { intros. unfold endpoints_event, note_endpoints, mbind, M_bind, field, gets, assign, modify.
    destruct (Endpoints.Update (hostname (px s)) (endpointsChanges (px s)) nsn previous current) as [ec []]; [|done]. cbn.
    by destruct (0 <? _)%Z. }
  destruct e; first [apply Hs | apply He | by destruct s].
Qed.
(** ** A sync with gaps

    [sync_update] in its two locked parts. *)
Definition update_services : M (Sys K) Services.UpdateServiceMapResult :=
  sm ← field serviceMap;
  sc ← field serviceChanges;
  '(sm, sres) ← onIO (tickM (Services.UpdateServiceMap sm sc));
  assign (with_serviceMap sm) ;;
  mret sres.
Definition update_endpoints (sres : Services.UpdateServiceMapResult) : M (Sys K) (gset string * gset Endpoints.EndpointServicePair) :=
  sm ← field serviceMap;
  em ← field endpointsMap;
  ec ← field endpointsChanges;
  '(em, eres) ← onIO (tickM (Endpoints.UpdateEndpointsMap em ec));
  assign (with_endpointsMap em) ;;
  names ← onIO (rangeM (gset_to_gmap true (Endpoints.StaleServiceNames eres)));
  let staleServices := foldl (λ stale svcPortName,
    match sm !! svcPortName with
    | Some svcInfo =>
        if decide (Services.Protocol svcInfo = lower_udp)
        then {[Net.IP_String (Services.ClusterIP svcInfo)]} ∪ stale else stale
    | None => stale
    end) (Services.StaleServices sres) names.*1 in
  mret (staleServices, Endpoints.StaleEndpoints eres).

Lemma sync_update_parts s : sync_update s = (sres ← update_services; update_endpoints sres) s.
Proof using Type.
  unfold sync_update, update_services, update_endpoints, mbind, M_bind, field, gets. cbn.
  destruct (onIO _ s) as [[[sm sres]|] s1] eqn:E; [|done]. cbn. done.
Qed.
(** The rest of a sync. The emptiness of the changes is read without their
    locks, so a change may be recorded right before the test of the full sync
    ([u2]), between that and the block of the services ([u3]), between the two
    blocks ([u4]) and after them ([u5]). What is recorded elsewhere in these
    parts is not seen by them, as if it came at the next of these points. *)
Definition sync_services_part (u3 : Proxier → Proxier) (dummylink : Link) : LM unit :=
  sc ← lift (field serviceChanges);
  ec ← lift (field endpointsChanges);
  (if decide (sc = ∅ ∧ ec = ∅) then full_sync dummylink else mret tt) ;;
  lift (assign u3) ;;
  sync_service_changes dummylink.

Definition with_locals (c : LM unit) : M (Sys K) Locals := λ s,
  match c (s, no_locals) with
  | (Ret _, (s', loc)) => (Ret loc, s')
  | (Panic msg, (s', _)) => (Panic msg, s')
  end.

Definition sync_apply_gaps (u2 u3 u4 u5 : Proxier → Proxier) (dummylink : Link)
    (stale : gset string * gset Endpoints.EndpointServicePair) : M (Sys K) unit :=
  BuildIpvsMap ;;
  BuildClusterMap dummylink ;;
  r ← onKIO GetNodeIPs;
  assign (with_nodeIPs (match r with OK ips => ips | Err _ => [] end)) ;;
  assign u2 ;;
  loc ← with_locals (sync_services_part u3 dummylink);
  assign u4 ;;
  sync_endpoint_changes ;;
  assign u5 ;;
  sync_finish (replacementPortsMap loc) stale.1 stale.2.

(** How far a sync came. *)
Inductive sync_end := NotSynced | NoDevice | Programmed.

(** [u1] is recorded between the two updates. When the sync stops early, the
    rest is recorded after it. *)
Definition sync_gaps (u1 u2 u3 u4 u5 : Proxier → Proxier) : M (Sys K) sync_end :=
  es ← field endpointsSynced;
  ss ← field servicesSynced;
  if negb es || negb ss then
    assign u1 ;; assign u2 ;; assign u3 ;; assign u4 ;; assign u5 ;; mret NotSynced
  else
    sres ← update_services;
    assign u1 ;;
    stale ← update_endpoints sres;
    r ← onK GetDummyLink;
    match r with
    | Err _ => assign u2 ;; assign u3 ;; assign u4 ;; assign u5 ;; mret NoDevice
    | OK dummylink => sync_apply_gaps u2 u3 u4 u5 dummylink stale ;; mret Programmed
    end.

(** With nothing recorded it is [syncProxyRules]. *)
Abbreviation nothing := (λ p : Proxier, p).

Lemma wp_assign_id (Q : unit → Sys K → Prop) s : wp (assign nothing) Q s ↔ Q tt s.
Proof using Type. by destruct s. Qed.

Lemma sync_rules_parts dummylink s :
  with_locals (sync_rules dummylink) s =
  (loc ← with_locals (sync_services_part nothing dummylink); sync_endpoint_changes ;; mret loc) s.
Proof using Type.
  assert (∀ s l, (let '(o, p) := (sync_service_changes dummylink ≫= λ _, lift sync_endpoint_changes) (s, l) in
      match o with Ret _ => let '(s', loc) := p in (Ret loc, s') | Panic msg => let '(s', _) := p in (Panic msg, s') end) =
    (loc ← (λ s, let '(o, p) := sync_service_changes dummylink (s, l) in
      match o with Ret _ => let '(s', loc) := p in (Ret loc, s') | Panic msg => let '(s', _) := p in (Panic msg, s') end);
     sync_endpoint_changes ;; mret loc) s) as Htail.
  { clear. intros s l. unfold mbind, M_bind, lift, zoom.
    destruct (sync_service_changes dummylink (s, l)) as [[[]|] [s2 l2]]; [|done]. cbn.
    by destruct (sync_endpoint_changes _) as [[[]|] s3]. }
  unfold sync_rules, sync_services_part, with_locals. unfold mbind, M_bind in Htail |- *. cbn in Htail |- *.
  destruct (decide _).
  - destruct (full_sync dummylink (s, no_locals)) as [[[]|] [s1 l1]]; [|done].
    destruct s1 as [p1 k1 w1]. apply Htail.
  - destruct s as [p0 k0 w0]. apply Htail.
Qed.

Lemma wp_sync_apply_none dummylink stale Q s :
  wp (sync_apply dummylink stale) Q s → wp (sync_apply_gaps nothing nothing nothing nothing dummylink stale) Q s.
Proof using Type.
  unfold sync_apply, sync_apply_gaps. intros H.
  do 4 (apply wp_bind_inv in H; apply wp_bind; eapply wp_mono; [exact H|]; clear s H; intros ? s H).
  apply wp_bind, wp_assign_id.
  assert (wp (loc ← with_locals (sync_rules dummylink); sync_finish (replacementPortsMap loc) stale.1 stale.2) Q s)
    as H' by exact H. revert H'. clear H.
  unfold wp, mbind, M_bind. rewrite sync_rules_parts. unfold mbind, M_bind.
  destruct (with_locals (sync_services_part _ dummylink) s) as [[loc|] [p2 k2 w2]]; [|done]. cbn.
  by destruct (sync_endpoint_changes _) as [[[]|] [p3 k3 w3]].
Qed.

Lemma wp_sync_none (Q : Sys K → Prop) s :
  wp syncProxyRules (λ _, Q) s → wp (sync_gaps nothing nothing nothing nothing nothing) (λ _, Q) s.
Proof using Type.
  unfold syncProxyRules, sync_gaps. intros H.
  do 2 (apply wp_bind, wp_field; apply wp_bind_inv in H; change (wp (field ?f) ?P s) with (P (f (px s)) s) in H; cbv beta in H).
  destruct (negb _ || negb _); [by destruct s|].
  assert (wp (stale ← (sres ← update_services; update_endpoints sres); r ← onK GetDummyLink;
    match r with Err _ => mret tt | OK dummylink => sync_apply dummylink stale end) (λ _, Q) s) as H'.
  { revert H. unfold wp, mbind, M_bind. by rewrite sync_update_parts. }
  clear H. apply wp_bind_inv, wp_bind_inv in H'. apply wp_bind. eapply wp_mono; [exact H'|]. clear s H'. intros sres s H.
  apply wp_bind, wp_assign_id, wp_bind. eapply wp_mono; [exact H|]. clear s H. intros stale s H.
  apply wp_bind_inv in H. apply wp_bind. eapply wp_mono; [exact H|]. clear s H. intros [link|e] s H; [|by destruct s].
  apply wp_bind. by apply wp_sync_apply_none.
Qed.
(** ** Parts that do not see a recording *)

(** [c] neither reads nor overwrites what [u] changes. *)
Definition blind {A} (u : Proxier → Proxier) (c : M (Sys K) A) : Prop :=
  ∀ s, c (with_sys u s) = (let '(o, s') := c s in (o, with_sys u s')).

Lemma blind_ret {A} u (a : A) : blind u (mret a).
Proof using Type. done. Qed.
Lemma blind_bind {A B} u (c : M (Sys K) A) (f : A → M (Sys K) B) : blind u c → (∀ a, blind u (f a)) → blind u (c ≫= f).
Proof using Type.
  intros Hc Hf s. unfold mbind, M_bind. rewrite Hc. destruct (c s) as [[a|] s']; [apply Hf|done].
Qed.
Lemma blind_onK {A} u (c : M K A) : blind u (onK c).
Proof using Type. intros s. unfold onK, zoom. cbn. by destruct (c _). Qed.
Lemma blind_onIO {A} u (c : M IO A) : blind u (onIO c).
Proof using Type. intros s. unfold onIO, zoom. cbn. by destruct (c _). Qed.
Lemma blind_field {A} u (f : Proxier → A) : (∀ p, f (u p) = f p) → blind u (field f).
Proof using Type. intros Hf s. unfold field, gets. cbn. by rewrite Hf. Qed.
Lemma blind_assign u g : (∀ p, g (u p) = u (g p)) → blind u (assign g).
Proof using Type. intros Hg s. unfold assign, modify, with_sys. cbn. by rewrite Hg. Qed.
Lemma blind_for_each {A} u (l : list A) body : (∀ x, blind u (body x)) → blind u (for_each l body).
Proof using Type. intros Hb. induction l as [|x l IH]; [apply blind_ret|]. by apply blind_bind. Qed.
Lemma blind_comp {A} u v (c : M (Sys K) A) : blind u c → blind v c → blind (λ p, v (u p)) c.
Proof using Type.
  intros Hu Hv s. change (with_sys (λ p, v (u p)) s) with (with_sys v (with_sys u s)). rewrite Hv, Hu.
  by destruct (c s).
Qed.
Lemma blind_id {A} (c : M (Sys K) A) : blind (λ p, p) c.
Proof using Type.
  intros s. assert (∀ s : Sys K, with_sys (λ p, p) s = s) as Hid by (by intros []). rewrite Hid.
  destruct (c s). by rewrite Hid.
Qed.
Lemma blind_noted {A} es (c : M (Sys K) A) : (∀ e, e ∈ es → blind (noted e) c) → blind (noted_all es) c.
Proof using Type.
  induction es as [|e es IH] using rev_ind; intros H; [apply blind_id|].
  assert (blind (λ p, noted e (noted_all es p)) c) as Hb.
  { apply blind_comp; [apply IH; intros; apply H; set_solver|apply H; set_solver]. }
  assert (∀ s : Sys K, with_sys (noted_all (es ++ [e])) s = with_sys (λ p, noted e (noted_all es p)) s) as E.
  { intros s. unfold with_sys, noted_all. by rewrite foldl_app. }
  intros s. rewrite E, Hb. destruct (c s). by rewrite E.
Qed.
Lemma wp_blind {A} u (c : M (Sys K) A) (Q : A → Sys K → Prop) s :
  blind u c → wp c (λ a s', Q a (with_sys u s')) s ↔ wp c Q (with_sys u s).
Proof using Type. intros Hb. unfold wp. rewrite Hb. by destruct (c s) as [[]]. Qed.

(** The loops of a sync, case by case. *)
Ltac blind :=
  repeat lazymatch goal with
  | |- blind _ (mret _) => apply blind_ret
  | |- blind _ (mbind _ _) => apply blind_bind; [|intros ?]
  | |- blind _ (onK _) => apply blind_onK
  | |- blind _ (onIO _) => apply blind_onIO
  | |- blind _ (field _) => apply blind_field; intros []; reflexivity
  | |- blind _ (assign _) => apply blind_assign; intros []; reflexivity
  | |- blind _ (for_each _ _) => apply blind_for_each; intros ?
  | |- blind _ (if decide ?P then _ else _) => destruct (decide P)
  | |- blind _ (let '(_, _) := ?x in _) => destruct x
  | |- blind _ (match ?x with _ => _ end) => destruct x
  end.

Lemma finish_blind e replacement stale1 stale2 : announces e = true → blind (noted e) (sync_finish replacement stale1 stale2).
Proof using Type. intros He. unfold sync_finish, deleteEndpointConnections. destruct e; try done; blind. Qed.
Lemma endpoints_part_blind e : service_announcement e = true → blind (noted e) sync_endpoint_changes.
Proof using Type.
  intros He. unfold sync_endpoint_changes, sync_endpoint_change, sync_port_endpoints, syncEndpointChange, CreateEndpointRule.
  destruct e; try done; blind.
Qed.
Lemma update_services_blind e : endpoints_announcement e = true → blind (noted e) update_services.
Proof using Type. intros He. unfold update_services. destruct e; try done; blind. Qed.
(** ** A sync with recordings outside the windows

    What the handlers record in the five gaps of a sync. *)
Record gaps := {
  between_updates : list happening;
  before_programming : list happening;
  during_programming : list happening;
  after_services : list happening;
  after_endpoints : list happening;
}.
Definition no_gaps : gaps := {| between_updates := []; before_programming := []; during_programming := [];
  after_services := []; after_endpoints := [] |}.
Definition recorded_in (g : gaps) : list happening :=
  between_updates g ++ before_programming g ++ during_programming g ++ after_services g ++ after_endpoints g.

Definition sync_with (g : gaps) : M (Sys K) sync_end :=
  sync_gaps (noted_all (between_updates g)) (noted_all (before_programming g)) (noted_all (during_programming g))
    (noted_all (after_services g)) (noted_all (after_endpoints g)).

(** Endpoints may be announced between the two updates; services once theirs are
    cleared; anything once both are. Then nothing is lost: it is as if the
    first had come before the sync and the others after it. *)
Definition outside_windows (g : gaps) : bool :=
  forallb endpoints_announcement (between_updates g) && bool_decide (before_programming g = []) &&
  bool_decide (during_programming g = []) && forallb service_announcement (after_services g) &&
  forallb announces (after_endpoints g).

Lemma forallb_in (f : happening → bool) l e : forallb f l = true → e ∈ l → f e = true.
Proof. rewrite forallb_forall, list_elem_of_In. auto. Qed.

Lemma noted_synced es p : forallb announces es = true →
  endpointsSynced (noted_all es p) = endpointsSynced p ∧ servicesSynced (noted_all es p) = servicesSynced p.
Proof.
  revert p. induction es as [|e es IH]; intros p; [done|]. intros [He Hes]%andb_true_iff.
  change (noted_all (e :: es) p) with (noted_all es (noted e p)).
  destruct (IH (noted e p) Hes) as [-> ->]. by destruct e.
Qed.

Lemma gaps_serial g (Q : Sys K → Prop) s : outside_windows g = true →
  wp syncProxyRules (λ _ s', Q (with_sys (noted_all (after_endpoints g)) (with_sys (noted_all (after_services g)) s')))
    (with_sys (noted_all (between_updates g)) s) →
  wp (sync_with g) (λ _, Q) s.
Proof using Type.
  destruct g as [g1 g2' g3' g2 g3]. unfold sync_with, outside_windows.
  cbn [between_updates before_programming during_programming after_services after_endpoints].
  intros [[[[H1 E2%bool_decide_eq_true]%andb_true_iff E3%bool_decide_eq_true]%andb_true_iff H2]%andb_true_iff H3]%andb_true_iff
    H%wp_sync_none.
  subst g2' g3'. change (noted_all []) with nothing. revert H. unfold sync_gaps. intros H.
  assert (forallb announces g1 = true) as Ha.
  { apply forallb_forall. intros e He. rewrite forallb_forall in H1. specialize (H1 e He).
    by apply andb_true_iff in H1 as [? _]. }
  do 2 (apply wp_bind_inv in H; change (wp (field ?f) ?P ?s) with (P (f (px s)) s) in H; cbv beta in H; apply wp_bind, wp_field).
  destruct (noted_synced g1 (px s) Ha) as [E1 E2]. cbn [px with_sys] in H. rewrite E1, E2 in H.
  destruct (negb _ || negb _).
  { do 5 (apply wp_bind_inv in H; apply wp_assign_id in H). exact H. }
  apply wp_bind_inv in H. apply wp_blind in H.
  2: { apply blind_noted. intros e He. by apply update_services_blind, (forallb_in _ _ _ H1). }
  apply wp_bind. eapply wp_mono; [exact H|]. clear s H E1 E2. intros sres s H. apply wp_bind_inv in H.
  apply wp_assign_id, wp_bind_inv in H. apply wp_bind, wp_assign, wp_bind. eapply wp_mono; [exact H|].
  clear s H. intros stale s H. apply wp_bind_inv in H. apply wp_bind. eapply wp_mono; [exact H|].
  clear s H. intros [link|err] s H.
  2: { do 4 (apply wp_bind_inv in H; apply wp_assign_id in H). exact H. }
  apply wp_bind_inv in H. apply wp_bind. change (wp (mret ?a) ?P) with (P a) in *.
  unfold sync_apply_gaps in *.
  do 6 (apply wp_bind_inv in H; apply wp_bind; eapply wp_mono; [exact H|]; clear s H; intros ? s H).
  apply wp_bind_inv in H. apply wp_assign_id, wp_bind_inv in H. apply wp_bind, wp_assign, wp_bind, (wp_blind (noted_all g2)).
  { apply blind_noted. intros e He. by apply endpoints_part_blind, (forallb_in _ _ _ H2). }
  eapply wp_mono; [exact H|]. clear s H. intros [] s H. apply wp_bind_inv in H. apply wp_assign_id in H.
  apply wp_bind, wp_assign.
  apply (wp_blind (noted_all g3) _ _ (with_sys (noted_all g2) s)).
  { apply blind_noted. intros e He. by apply finish_blind, (forallb_in _ _ _ H3). }
  apply (wp_blind (noted_all g2)); [|eapply wp_mono; [exact H|by intros []]]. apply blind_noted. intros e He. apply finish_blind.
  pose proof (forallb_in _ _ _ H2 He) as Hs. by destruct e.
Qed.
End interleaving.

(** ** Histories of recordings and syncs *)
Inductive moment :=
| Recorded (e : happening)
| Synced (g : gaps).

(** The events of a moment, and whether it keeps outside the windows. *)
Definition told (m : moment) : list happening :=
  match m with
  | Recorded e => [e]
  | Synced g => between_updates g ++ EvPeriodic :: before_programming g ++ during_programming g ++
      after_services g ++ after_endpoints g
  end.
Definition in_time (m : moment) : bool :=
  match m with Recorded _ => true | Synced g => outside_windows g end.

Section histories.
Context {K : Type} `{IF : Interface K} `{IS : !IpvsSpec K} `{IR : !IpvsRobust K} `{MR : MapRange}.
Context `{NI : NodeIPInterface K} `{PO : PortOpener} `{PS : !PortOpenerSpec} `{EX : Exec} `{NO : NetOS}.
Context (ips : list IP) `{NS : !NodeIPSpec ips} (host : string).

(** How a sync ended is kept beside the state. *)
Definition run_moment (m : moment) : M (Sys K) (option sync_end) :=
  match m with
  | Recorded e => assign (noted e) ;; mret None
  | Synced g => e ← sync_with g; mret (Some e)
  end.
Fixpoint run_moments (ms : list moment) : M (Sys K) (list (option sync_end)) :=
  match ms with
  | [] => mret []
  | m :: ms => e ← run_moment m; l ← run_moments ms; mret (e :: l)
  end.

Definition after_all (es : list happening) (w : @world K) (s : Sys K) : @world K :=
  {| sys := s; svcs := foldl (flip services_after) (svcs w) es; epss := foldl (flip endpoints_after) (epss w) es |}.

Lemma noted_Winv e w :
  Winv ips host w → delivers e (svcs w) (epss w) → good ips host (services_after e (svcs w)) (endpoints_after e (epss w)) →
  Winv ips host (after_all [e] w (with_sys (noted e) (sys w))) ∧
  flags (with_sys (noted e) (sys w)) = flags_after e (flags (sys w)) ∧
  settings (noted e (px (sys w))) = settings (px (sys w)).
Proof using Type.
  intros Hw Hd Hg. split; [|split; [|by destruct e]]; revert Hw Hd Hg; [|by destruct (sys w), e].
  intros Hw Hd Hg. destruct e as [o|old o|old| |o|old o|old| |]; simpl in Hd, Hg; unfold after_all, noted;
    cbn [foldl flip services_after endpoints_after].
  - rewrite <-Hd. apply service_note_Winv; [done..|by rewrite lookup_insert_eq|].
    intros m items. rewrite Hd. by constructor.
  - rewrite <-Hd. apply service_note_Winv; [done..|by rewrite lookup_insert_eq|].
    intros m items. rewrite Hd. by constructor.
  - rewrite <-Hd. apply service_note_Winv; [done..|by rewrite lookup_delete_eq|].
    intros m items. rewrite Hd. by constructor.
  - apply (synced_Winv ips host w (λ p, (endpointsSynced p, true, if endpointsSynced p then 1 else 0)%Z) Hw).
  - rewrite <-Hd. apply endpoints_note_Winv; [done..|]. intros m items. rewrite Hd. by constructor.
  - rewrite <-Hd. apply endpoints_note_Winv; [done..|]. intros m items. rewrite Hd. by constructor.
  - rewrite <-Hd. apply endpoints_note_Winv; [done..|]. intros m items. rewrite Hd. by constructor.
  - apply (synced_Winv ips host w (λ p, (true, servicesSynced p, initialized p)) Hw).
  - by destruct w as [[]].
Qed.

Lemma notes_Winv es w :
  Winv ips host w → deliverable ips host es (svcs w) (epss w) →
  Winv ips host (after_all es w (with_sys (noted_all es) (sys w))) ∧
  flags (with_sys (noted_all es) (sys w)) = foldl (flip flags_after) (flags (sys w)) es ∧
  settings (noted_all es (px (sys w))) = settings (px (sys w)).
Proof using Type.
  revert w. induction es as [|e es IH]; intros w Hw Hd; [by destruct w as [[]]|].
  destruct Hd as (Hd & Hg & Hds). destruct (noted_Winv e w Hw Hd Hg) as (Hw1 & Hf1 & Hs1).
  destruct (IH _ Hw1 Hds) as (Hw2 & Hf2 & Hs2). split; [exact Hw2|]. split.
  - cbn [foldl flip]. rewrite <-Hf1. exact Hf2.
  - etrans; [exact Hs2|exact Hs1].
Qed.

(** A sync outside the windows is the history of its events. *)
Lemma sync_with_Winv g w :
  Winv ips host w → outside_windows g = true → deliverable ips host (told (Synced g)) (svcs w) (epss w) →
  wp (sync_with g) (λ _ s', Winv ips host (after_all (told (Synced g)) w s') ∧
    flags s' = foldl (flip flags_after) (flags (sys w)) (told (Synced g)) ∧
    settings (px s') = settings (px (sys w))) (sys w).
Proof using IR PS NS.
  intros Hw Ht Hd. apply gaps_serial; [done|]. destruct g as [g1 g2' g3' g2 g3].
  unfold outside_windows in Ht. cbn [told between_updates before_programming during_programming after_services after_endpoints] in *.
  repeat apply andb_true_iff in Ht as [Ht ?Ht]. apply bool_decide_eq_true in Ht2, Ht3. subst g2' g3'. cbn [app] in *.
  apply deliverable_app in Hd as [Hd1 (_ & _ & Hd)]. apply deliverable_app in Hd as [Hd2 Hd3].
  cbn [services_after endpoints_after] in *. destruct (notes_Winv g1 w Hw Hd1) as (Hw1 & Hf1 & Hs1).
  eapply wp_mono; [exact (sync_Winv ips host _ Hw1)|].
  intros [] s1 [Hw2 (Hf2 & Hs2 & _)]. destruct (notes_Winv g2 _ Hw2 Hd2) as (Hw3 & Hf3 & Hs3).
  destruct (notes_Winv g3 _ Hw3 Hd3) as (Hw4 & Hf4 & Hs4). cbn [sys after_all] in *. split_and!.
  - unfold after_all in *. cbn [svcs epss sys] in *. rewrite !foldl_app. cbn [foldl flip]. by rewrite !foldl_app.
  - rewrite Hf4, Hf3, Hf2, Hf1, foldl_app. cbn [foldl flip]. rewrite foldl_app. do 2 f_equal.
    generalize (foldl (flip flags_after) (flags (sys w)) g1). by intros [[]].
  - exact (eq_trans Hs4 (eq_trans Hs3 (eq_trans Hs2 Hs1))).
Qed.
Lemma moment_Winv m w :
  Winv ips host w → in_time m = true → deliverable ips host (told m) (svcs w) (epss w) →
  wp (run_moment m) (λ _ s', Winv ips host (after_all (told m) w s') ∧
    flags s' = foldl (flip flags_after) (flags (sys w)) (told m)) (sys w).
Proof using IR PS NS.
  intros Hw Ht Hd. destruct m as [e|g].
  - destruct Hd as (Hd & Hg & _). apply wp_bind, wp_assign, wp_ret.
    destruct (noted_Winv e w Hw Hd Hg) as (? & ? & _). done.
  - cbn [run_moment]. apply wp_bind. eapply wp_mono; [exact (sync_with_Winv g w Hw Ht Hd)|].
    intros e s' (? & ? & _). by apply wp_ret.
Qed.
Lemma moments_Winv ms w :
  Winv ips host w → forallb in_time ms = true → deliverable ips host (ms ≫= told) (svcs w) (epss w) →
  wp (run_moments ms) (λ _ s', Winv ips host (after_all (ms ≫= told) w s') ∧
    flags s' = foldl (flip flags_after) (flags (sys w)) (ms ≫= told)) (sys w).
Proof using IR PS NS.
  revert w. induction ms as [|m ms IH]; intros w Hw Ht Hd; [by destruct w|]. rewrite bind_cons in Hd |- *.
  apply andb_true_iff in Ht as [Ht Hts]. apply deliverable_app in Hd as [Hd Hds]. apply wp_bind.
  eapply wp_mono; [exact (moment_Winv m w Hw Ht Hd)|]. intros e s1 [Hw1 Hf1].
  apply wp_bind. eapply wp_mono; [exact (IH _ Hw1 Hts Hds)|]. intros l s2 [Hw2 Hf2].
  apply wp_ret. unfold after_all in *. cbn [sys svcs epss] in *.
  by rewrite !foldl_app, <-Hf1.
Qed.

(** C3: At the granularity of the locks, outside the windows. The program is a
    history of recordings, each the first half of a handler, and of syncs by
    whichever goroutine has the proxier's mutex, in any order and number; in
    the middle of a sync other handlers record endpoints between the two
    updates, services once the service changes were cleared, and anything once
    the endpoints changes were ([in_time]: what is recorded between a map's
    update and its clearing is excluded, it may be lost). The informers deliver
    consistently and after every event the announced objects can be programmed:
    IPv4 addresses, tcp or udp, 16-bit ports, no virtual address claimed twice
    ([deliverable]); the IPVS implementation is reliable ([rep], [IpvsRobust])
    and the node's addresses stay ([NodeIPSpec]). Then every step returns, and
    the maps with their pending changes are exactly the ports of the announced
    objects. If moreover both listings were reported and every local port can
    be opened ([opens_all]), two more syncs in which nothing is recorded
    program exactly what was announced. *)
Theorem recorded_outside_windows (ms : list moment) (k : K) (w : IO) :
  rep k → forallb in_time ms = true → let es := ms ≫= told in deliverable ips host es ∅ ∅ →
  ∃ ends s1, run_moments ms (starting host k w) = (Ret ends, s1) ∧
    (∀ name, updated (serviceMap (px s1)) (serviceChanges (px s1)) name = desired_services (services_of es) name) ∧
    (∀ name, updated (endpointsMap (px s1)) (endpointsChanges (px s1)) name =
       desired_ports (Endpoints.endpointsToEndpointsMap host) (endpoints_of es) name) ∧
    (EvServiceSynced ∈ es → EvEndpointsSynced ∈ es → opens_all →
     ∃ s2 s3, syncProxyRules s1 = (Ret tt, s2) ∧ syncProxyRules s2 = (Ret tt, s3) ∧
       (∀ key eps, vs (abs (kern s3)) !! key = Some eps ↔ asked_rules ips host (services_of es) (endpoints_of es) key eps) ∧
       (∀ ip, ip ∈ bound (abs (kern s3)) ↔ asked_bound (services_of es) ip)).
Proof using IR PS NS.
  intros Hrep Ht es Hd. pose proof (moments_Winv ms _ (starting_Winv ips host k w Hrep) Ht Hd) as Hr.
  apply wp_run in Hr as (ends & s1 & Hrun & Hw & Hf). exists ends, s1. split; [exact Hrun|].
  destruct (Winv_maps ips host _ Hw) as [Hsm Hem]. split; [exact Hsm|]. split; [exact Hem|].
  intros Hss Hes Hop. assert (both_synced (flags s1) = true) as Hb by (rewrite Hf; apply flags_synced; by left).
  by apply (ready_after_sync ips host (after_all es _ s1) Hw Hb Hop).
Qed.
End histories.

(** ** A race on a node: a handler records the endpoints of a service while the
    sync for that service is between its two updates, another service when the
    first is programmed, and a change of the first at the end. *)
Definition ex_moments : list moment :=
  [Recorded EvEndpointsSynced; Recorded EvServiceSynced; Recorded (EvServiceAdd TestBed.web);
   Synced {| between_updates := [EvEndpointsAdd TestBed.web_eps]; before_programming := []; during_programming := [];
     after_services := [EvServiceAdd TestBed.dns];
     after_endpoints := [EvEndpointsAdd TestBed.dns_eps; EvServiceUpdate TestBed.web web2] |};
   Recorded (EvServiceDelete TestBed.dns)].

#[local] Existing Instances canonical_range TestBed.bed_exec TestBed.bed_net ref_nodeip ref_nodeip_spec.

Lemma ex_moments_deliverable : deliverable TestBed.bed_ips "node1" (ex_moments ≫= told) ∅ ∅.
Proof. cbn [ex_moments mbind list_bind told app between_updates before_programming during_programming after_services after_endpoints]. solve_deliverable. Qed.

Lemma recorded_outside_windows_witness :
  ∃ ends s1 s2 s3, run_moments ex_moments (starting "node1" node_kernel quiet_io) = (Ret ends, s1) ∧
    syncProxyRules s1 = (Ret tt, s2) ∧ syncProxyRules s2 = (Ret tt, s3).
Proof.
  destruct (recorded_outside_windows TestBed.bed_ips "node1" ex_moments node_kernel quiet_io node_rep eq_refl
    ex_moments_deliverable) as (ends & s1 & H1 & _ & _ & H).
  destruct H as (s2 & s3 & H2 & H3 & _); [by_eval|by_eval|exact TestBed.bed_opens|].
  exists ends, s1, s2, s3. split; [exact H1|]. split; [exact H2|exact H3].
Defined.
