(* ===== verification/Returns.v ===== *)
(** * What a sync does whatever IPVS answers

    The theorems about what is programmed ask for objects that can be
    programmed and for a reliable IPVS. Here neither is asked: an IPVS
    implementation is only one whose operations return ([IpvsReturns], met by
    [EnnIpvs] over a kernel that lists its services), the objects are any
    objects, and a sync is followed through its fields: it never panics, and
    its programming leaves the maps and the pending changes alone. *)

From S2P Require Import Prelude GoNet ProxyTypes ChangeTracking Services EndpointsMap Ipvs EnnIpvs RefKernel Host Ports Conntrack Nodes Proxier ProxierFacts FullSync IncrSync Events Interleave.
Import Proxier.
Import Nodes(NodeIPInterface, GetNodeIPs).

(** ** The operations return *)
Class IpvsReturns (K : Type) `{Interface K} := {
  kinv : K → Prop;
  ListIpvsService_ret k : kinv k →
    wp ListIpvsService (λ r k', kinv k' ∧ match r with OK l => Forall is_Some l | Err _ => True end) k;
  ListIpvsServer_ret k s : kinv k → wp (ListIpvsServer (Some s)) (λ _, kinv) k;
  AddIpvsService_ret k s : kinv k → wp (AddIpvsService (Some s)) (λ _, kinv) k;
  DeleteIpvsService_ret k s : kinv k → wp (DeleteIpvsService (Some s)) (λ _, kinv) k;
  AddIpvsServer_ret k s d : kinv k → wp (AddIpvsServer (Some s) (Some d)) (λ _, kinv) k;
  DeleteIpvsServer_ret k s d : kinv k → wp (DeleteIpvsServer (Some s) (Some d)) (λ _, kinv) k;
  GetDummyLink_ret k : kinv k → wp GetDummyLink (λ _, kinv) k;
  AddDummyClusterIp_ret k ip link : kinv k → wp (AddDummyClusterIp ip link) (λ _, kinv) k;
  DeleteDummyClusterIp_ret k ip link : kinv k → wp (DeleteDummyClusterIp ip link) (λ _, kinv) k;
  ListDuumyClusterIp_ret k link : kinv k → wp (ListDuumyClusterIp link) (λ _, kinv) k;
}.

Class NodeIPsReturn (K : Type) `{IpvsReturns K} `{NodeIPInterface K} : Prop :=
  GetNodeIPs_ret k w : kinv k → wp GetNodeIPs (λ _ s, kinv s.1) (k, w).

(** *** EnnIpvs

    Its [AddIpvsService] panics when the services cannot be listed, and its
    [GetDummyLink] when a device that is not there cannot be made; everything
    else of the kernel may fail. *)
Class KernelReturns (N : Type) `{Kernel N} := {
  nrep : N → Prop;
  GetServices_ret n : nrep n →
    wp GetServices (λ r n', nrep n' ∧ ∃ l, r = OK l ∧ Forall is_Some l) n;
  GetDestinations_ret n s : nrep n → wp (GetDestinations (Some s)) (λ _, nrep) n;
  NewService_ret n s : nrep n → wp (NewService s) (λ _, nrep) n;
  DelService_ret n s : nrep n → wp (DelService s) (λ _, nrep) n;
  NewDestination_ret n s d : nrep n → wp (NewDestination s d) (λ _, nrep) n;
  DelDestination_ret n s d : nrep n → wp (DelDestination s d) (λ _, nrep) n;
  LinkByName_ret n name : nrep n → wp (LinkByName name) (λ r n', nrep n' ∧
    (r = Err IFACE_NOT_FOUND → wp (LinkAdd name) (λ e n2, e = None ∧ nrep n2) n')) n;
  AddrAdd_ret n link a : nrep n → wp (AddrAdd link a) (λ _, nrep) n;
  AddrDel_ret n link a : nrep n → wp (AddrDel link a) (λ _, nrep) n;
  AddrList_ret n link : nrep n → wp (AddrList link) (λ _, nrep) n;
}.

Section enn.
Context {N : Type} `{KN : Kernel N} `{KR : !KernelReturns N}.
Import EnnIpvs.

Lemma wp_ret_after {A B} (c : M N A) (f : A → B) n (I : N → Prop) :
  wp c (λ _, I) n → wp (a ← c; mret (f a)) (λ _, I) n.
Proof. intros Hc. apply wp_bind. eapply wp_mono; [exact Hc|]. intros a n' HI. exact HI. Qed.

Lemma find_service_some s l : Forall is_Some l → is_Some (find_service s l).
Proof. induction 1 as [|o l [svc ->] _ IH]; simpl; [eauto|]. case_match; eauto. Qed.

#[export] Instance enn_returns : IpvsReturns N.
Proof using KR.
  refine {| kinv := nrep |}; cbn [ListIpvsService ListIpvsServer AddIpvsService DeleteIpvsService AddIpvsServer
    DeleteIpvsServer GetDummyLink AddDummyClusterIp DeleteDummyClusterIp ListDuumyClusterIp enn_Interface].
  - intros n Hn. eapply wp_mono; [by apply GetServices_ret|]. by intros r n' (? & l & -> & ?).
  - intros n s Hn. by apply wp_ret_after, GetDestinations_ret.
  - intros n s Hn. apply wp_bind. eapply wp_mono; [by apply GetServices_ret|]. intros r n' (Hn' & l & -> & Hl).
    destruct (find_service_some s l Hl) as [[] ->]; [by apply wp_ret|]. by apply wp_ret_after, NewService_ret.
  - intros n s Hn. by apply wp_ret_after, DelService_ret.
  - intros n s d Hn. by apply wp_ret_after, NewDestination_ret.
  - intros n s d Hn. by apply wp_ret_after, DelDestination_ret.
  - intros n Hn. apply wp_bind. eapply wp_mono; [by apply LinkByName_ret|]. intros [link|err] n' [Hn' Hadd]; [by apply wp_ret|].
    case_decide as He; [|by apply wp_ret]. apply wp_bind. eapply wp_mono; [apply Hadd; by rewrite He|].
    intros e n2 [-> Hn2]. eapply wp_mono; [by apply LinkByName_ret|]. by intros r n3 [? _].
  - intros n ip link Hn. by apply wp_ret_after, AddrAdd_ret.
  - intros n ip link Hn. by apply AddrDel_ret.
  - intros n link Hn. by apply AddrList_ret.
Defined.
End enn.

Import Ref.

(** The reference kernel returns from every state. *)
#[export] Instance ref_kernel_returns : KernelReturns Ref.RefKernel.
Proof.
  assert (∀ A (c : M Ref.RefKernel A) n, (∃ a n', c n = (Ret a, n')) → wp c (λ _ _, True) n) as Hr.
  { intros A c n (a & n' & E). unfold wp. by rewrite E. }
  refine {| nrep _ := True |}; intros.
  - apply wp_bind, wp_get, wp_ret. split; [done|]. eexists. split; [done|]. apply Forall_fmap, Forall_true. by eexists.
  - apply Hr. eexists _, _. reflexivity.
  - apply wp_bind, wp_get. by destruct (_ !! _).
  - apply wp_bind, wp_get. by destruct (_ !! _).
  - apply wp_bind, wp_get. destruct (_ !! _) as [[? ds]|]; [|done]. by destruct (ds !! _).
  - apply wp_bind, wp_get. destruct (_ !! _) as [[? ds]|]; [|done]. by destruct (ds !! _).
  - apply wp_bind, wp_get, wp_ret. split; [done|]. intros _. by apply wp_bind, wp_modify, wp_ret.
  - apply wp_bind, wp_get. by destruct (_ !! _).
  - apply wp_bind, wp_get. by destruct (_ !! _).
  - apply Hr. eexists _, _. reflexivity.
Defined.

(** ** Computations that keep an invariant *)
Definition keeping {S A} (I : S → Prop) (c : M S A) : Prop := ∀ s, I s → wp c (λ _, I) s.

Section keeping.
Context {S : Type} (I : S → Prop).

Lemma keeping_ret {A} (a : A) : keeping I (mret a).
Proof. intros s H. exact H. Qed.
Lemma keeping_bind {A B} (c : M S A) (f : A → M S B) : keeping I c → (∀ a, keeping I (f a)) → keeping I (c ≫= f).
Proof. intros Hc Hf s H. apply wp_bind. eapply wp_mono; [by apply Hc|]. intros a s' H'. by apply Hf. Qed.
Lemma keeping_for_each {A} (l : list A) body : (∀ x, keeping I (body x)) → keeping I (for_each l body).
Proof. intros Hb s H. apply (wp_for_each_inv I); [done|]. intros x s' _ H'. by apply Hb. Qed.
Lemma keeping_gets {A} (f : S → A) : keeping I (gets f).
Proof. intros s H. exact H. Qed.
Lemma keeping_modify f : (∀ s, I s → I (f s)) → keeping I (modify f).
Proof. intros Hf s H. by apply Hf. Qed.
End keeping.

(** The host always answers. *)
Abbreviation answers c := (∀ w : IO, wp c (λ _ _, True) w).

Section syncs.
Context {K : Type} `{IF : Interface K} `{KR : !IpvsReturns K} `{MR : MapRange}.
Context `{NI : NodeIPInterface K} `{NR : !NodeIPsReturn K} `{PO : PortOpener} `{PS : !PortOpenerSpec} `{EX : Exec} `{NO : NetOS}.

(** What the programming of a sync does not touch: all but the snapshots and the
    node addresses. *)
Definition core (p : Proxier) :=
  (serviceChanges p, endpointsChanges p, serviceMap p, endpointsMap p, portsMap p,
   (endpointsSynced p, servicesSynced p, initialized p), settings p).
Definition core_is (c : Proxier) (s : Sys K) : Prop := core (px s) = core c ∧ kinv (kern s).
Definition local_core (c : Proxier) (s : Sys K * Locals) : Prop :=
  core_is c s.1 ∧ Ports.no_nil (replacementPortsMap s.2).

Section one.
Context (c : Proxier).

Lemma keeping_onK {A} (d : M K A) : keeping kinv d → keeping (core_is c) (onK d).
Proof using Type.
  intros Hd s [Hc Hk]. apply wp_onK. eapply wp_mono; [by apply Hd|]. intros a k Hk'. by split.
Qed.
Lemma keeping_onIO {A} (d : M IO A) : answers d → keeping (core_is c) (onIO d).
Proof using Type. intros Hd s Hs. apply wp_onIO. eapply wp_mono; [apply Hd|]. intros a w _. exact Hs. Qed.
Lemma keeping_field {A} (f : Proxier → A) : keeping (core_is c) (field f).
Proof using Type. intros s Hs. exact Hs. Qed.
Lemma keeping_assign f : (∀ p, core (f p) = core p) → keeping (core_is c) (assign f).
Proof using Type. intros Hf s [Hc Hk]. split; [|done]. cbn [px]. by rewrite Hf. Qed.
Lemma keeping_lift {A} (d : M (Sys K) A) : keeping (core_is c) d → keeping (local_core c) (lift d).
Proof using Type. intros Hd s [Hs Hn]. apply wp_lift. eapply wp_mono; [by apply Hd|]. intros a s' H. by split. Qed.
Lemma keeping_local f : (∀ l, Ports.no_nil (replacementPortsMap l) → Ports.no_nil (replacementPortsMap (f l))) →
  keeping (local_core c) (local f).
Proof using Type. intros Hf s [Hs Hn]. split; [done|]. by apply Hf. Qed.
Lemma keeping_gets_local {A} (f : Sys K * Locals → A) : keeping (local_core c) (gets f).
Proof using Type. apply keeping_gets. Qed.

Lemma rangeM_answers `{Countable Key} {V} (m : gmap Key V) : answers (rangeM m).
Proof using Type. intros w. by apply wp_rangeM. Qed.
Lemma emit_answers e : answers (emit e).
Proof using Type. intros w. by apply wp_emit. Qed.
Lemma isLocalIP_answers ip : answers (isLocalIP ip).
Proof using Type. intros w. by apply wp_bind, wp_ask, wp_ret. Qed.
Lemma clear_port_answers port : answers (Conntrack.ClearUdpConntrackForPort port).
Proof using Type. intros w. by apply Conntrack.wp_ClearUdpConntrackForPort. Qed.
Lemma clear_ip_answers ip : answers (Conntrack.ClearUDPConntrackForIP ip).
Proof using Type. intros w. by apply Conntrack.wp_ClearUDPConntrackForIP. Qed.
Lemma clear_peers_answers origin dest : answers (Conntrack.ClearUDPConntrackForPeers origin dest).
Proof using Type. intros w. by apply Conntrack.wp_ClearUDPConntrackForPeers. Qed.

(** The operations of a sync, case by case. *)
Ltac keeping :=
  repeat lazymatch goal with
  | |- keeping _ (mret _) => apply keeping_ret
  | |- keeping _ (mbind _ _) => apply keeping_bind; [|intros ?]
  | |- keeping _ (lift _) => apply keeping_lift
  | |- keeping _ (local _) => apply keeping_local; intros ? ?; first [assumption | by apply map_Forall_insert_2]
  | |- keeping _ (onK _) => apply keeping_onK; intros ? ?
  | |- keeping _ (onIO (rangeM _)) => apply keeping_onIO, rangeM_answers
  | |- keeping _ (onIO (emit _)) => apply keeping_onIO, emit_answers
  | |- keeping _ (onIO (isLocalIP _)) => apply keeping_onIO, isLocalIP_answers
  | |- keeping _ (onIO (Conntrack.ClearUdpConntrackForPort _)) => apply keeping_onIO, clear_port_answers
  | |- keeping _ (onIO (Conntrack.ClearUDPConntrackForIP _)) => apply keeping_onIO, clear_ip_answers
  | |- keeping _ (onIO (Conntrack.ClearUDPConntrackForPeers _ _)) => apply keeping_onIO, clear_peers_answers
  | |- keeping _ (field _) => apply keeping_field
  | |- keeping _ (gets _) => apply keeping_gets
  | |- keeping _ (assign _) => apply keeping_assign; intros []; reflexivity
  | |- keeping _ (for_each _ _) => apply keeping_for_each; intros ?
  | |- keeping _ (if decide ?P then _ else _) => destruct (decide P)
  | |- keeping _ (let x := _ in _) => cbv zeta
  | |- keeping _ (let '(_, _) := ?x in _) => destruct x
  | |- keeping _ (match ?x with _ => _ end) => destruct x
  | |- wp (AddIpvsService _) _ _ => by apply AddIpvsService_ret
  | |- wp (DeleteIpvsService _) _ _ => by apply DeleteIpvsService_ret
  | |- wp (AddIpvsServer _ _) _ _ => by apply AddIpvsServer_ret
  | |- wp (DeleteIpvsServer _ _) _ _ => by apply DeleteIpvsServer_ret
  | |- wp (AddDummyClusterIp _ _) _ _ => by apply AddDummyClusterIp_ret
  | |- wp (DeleteDummyClusterIp _ _) _ _ => by apply DeleteDummyClusterIp_ret
  | |- wp (ListDuumyClusterIp _) _ _ => by apply ListDuumyClusterIp_ret
  | |- wp (GetDummyLink) _ _ => by apply GetDummyLink_ret
  end.

(** *** The rules *)
Lemma CreateEndpointRule_keeps svc name ke : keeping (core_is c) (CreateEndpointRule svc name ke).
Proof using Type. unfold CreateEndpointRule. keeping. Qed.
Lemma syncEndpointChange_keeps ip port info name : keeping (core_is c) (syncEndpointChange ip port info name).
Proof using Type. unfold syncEndpointChange. keeping. apply CreateEndpointRule_keeps. Qed.
Lemma CreateServiceRule_keeps b svc : keeping (core_is c) (CreateServiceRule b svc).
Proof using Type. unfold CreateServiceRule. keeping. Qed.

(** *** The ports *)
Lemma hold_port_keeps lp opened : keeping (local_core c) opened → keeping (local_core c) (hold_port lp opened).
Proof using PS.
  intros Hop. unfold hold_port. apply keeping_bind; [keeping|]. intros m.
  destruct (Ports.held m lp) as [fd|]; [keeping|]. intros [s l] [[Hc Hk] Hn]. apply wp_bind, wp_lift, wp_onIO.
  eapply wp_mono; [apply OpenLocalPort_returns|]. intros [socket|err] w Hs; [|by apply wp_ret].
  apply wp_bind. eapply wp_mono; [apply Hop; by split|]. intros [] [s2 l2] [Hs2 Hn2].
  apply wp_bind, wp_local, wp_ret. split; [done|]. by apply map_Forall_insert_2.
Qed.
Lemma hold_external_keeps name info eip : keeping (local_core c) (hold_external name info eip).
Proof using PS.
  unfold hold_external. apply keeping_bind; [keeping|]. intros [[]|]; [|keeping..].
  apply keeping_bind; [apply hold_port_keeps; keeping|]. intros [err|]; keeping.
Qed.
Lemma hold_node_port_keeps name info : keeping (local_core c) (hold_node_port name info).
Proof using PS. unfold hold_node_port. apply keeping_bind; [apply hold_port_keeps; keeping|]. intros [err|]; keeping. Qed.

(** *** The blocks *)
Lemma full_rule_keeps name svc : keeping (local_core c) (full_rule name svc).
Proof using Type.
  unfold full_rule. keeping; [apply CreateServiceRule_keeps|apply CreateEndpointRule_keeps].
Qed.
Lemma listed_services_keep {A} (d : result (list (option LibService)) → M (Sys K) A) :
  (∀ err, keeping (core_is c) (d (Err err))) →
  (∀ l, Forall is_Some l → keeping (core_is c) (d (OK l))) →
  keeping (core_is c) (r ← onK ListIpvsService; d r).
Proof using Type.
  intros Herr Hl s [Hc Hk]. apply wp_bind, wp_onK. eapply wp_mono; [by apply ListIpvsService_ret|].
  intros [l|err] k [Hk' Hs]; [apply (Hl l Hs); by split|apply Herr; by split].
Qed.
Lemma wp_for_each_some (l : list (option LibService)) body :
  Forall is_Some l → (∀ svc, keeping (core_is c) (body (Some svc))) → keeping (core_is c) (for_each l body).
Proof using Type.
  intros Hl Hb s Hs. apply (wp_for_each_inv (core_is c)); [done|]. intros o s' Ho Hs'.
  eapply Forall_forall in Hl as [svc ->]; [|exact Ho]. by apply Hb.
Qed.
Lemma CheckUnusedRule_keeps active bind link : keeping (core_is c) (CheckUnusedRule active bind link).
Proof using Type.
  apply listed_services_keep; [intros err; keeping|]. intros l Hl. apply keeping_bind; [|intros []; keeping].
  apply wp_for_each_some; [done|]. intros svc. cbn [CreateInterService]. keeping.
Qed.
Lemma full_sync_keeps link : keeping (local_core c) (full_sync link).
Proof using PS.
  unfold full_sync. keeping; [|apply CheckUnusedRule_keeps].
  unfold full_service, full_bind, full_external, full_node_port. keeping;
    first [apply full_rule_keeps | apply hold_external_keeps | apply hold_node_port_keeps].
Qed.
Lemma sync_service_change_keeps link ch : keeping (local_core c) (sync_service_change link ch).
Proof using PS.
  unfold sync_service_change, delete_previous, deleteIpvsService, add_current, add_external, add_node_port, add_rule. keeping;
    first [apply CreateServiceRule_keeps | apply hold_external_keeps | apply hold_node_port_keeps].
Qed.
Lemma sync_endpoint_change_keeps ch : keeping (core_is c) (sync_endpoint_change ch).
Proof using Type. unfold sync_endpoint_change, sync_port_endpoints. keeping; apply syncEndpointChange_keeps. Qed.
Lemma build_ipvs_keeps l m : Forall is_Some l → keeping (core_is c) (build_ipvs l m).
Proof using Type.
  intros Hl. revert m. induction Hl as [|o l [svc ->] _ IH]; intros m; [apply keeping_ret|].
  cbn [build_ipvs]. apply keeping_bind; [|intros; apply IH]. unfold build_ipvs_step. cbn [CreateInterService].
  apply keeping_bind; [|intros r; keeping]. apply keeping_onK. intros k Hk. by apply ListIpvsServer_ret.
Qed.
Lemma BuildIpvsMap_keeps : keeping (core_is c) BuildIpvsMap.
Proof using Type.
  apply listed_services_keep; [intros err; keeping|]. intros l Hl. apply keeping_bind; [by apply build_ipvs_keeps|intros m; keeping].
Qed.
Lemma BuildClusterMap_keeps link : keeping (core_is c) (BuildClusterMap link).
Proof using Type. unfold BuildClusterMap. keeping. Qed.
Lemma GetNodeIPs_keeps : keeping (core_is c) (onKIO GetNodeIPs).
Proof using NR.
  intros s [Hc Hk]. apply wp_zoom. eapply wp_mono; [by apply GetNodeIPs_ret|]. intros r t Ht. by split.
Qed.
End one.
End syncs.
