(* ===== verification/Robust.v ===== *)
(** * Every history, whatever is announced and whatever IPVS answers

    The history of the program at the granularity of the locks ([Interleave]),
    with recordings anywhere, of any objects, over an IPVS implementation that
    only returns ([Returns]). What is recorded while a map's changes are applied
    and not cleared may be lost: the history and the ends of its syncs tell
    which objects these are. For all others the maps stay exact. *)

From S2P Require Import Prelude GoNet ProxyTypes ChangeTracking Services ServicesFacts EndpointsMap EndpointsFacts Ipvs EnnIpvs RefKernel Host Ports Conntrack Nodes Proxier ProxierFacts FullSync SyncSpec IncrSync Events TestBed EventsClaims Interleave Returns.
Import Proxier.
Import Services(ServiceInfo, serviceToServiceMap).
Import Endpoints(EndpointsInfo, endpointsToEndpointsMap).
Import Nodes(NodeIPInterface, GetNodeIPs).

(** ** Windows

    For each map: whether its changes are applied and not cleared, and the
    objects announced at such times. *)
Record windows := {
  svc_open : bool;
  svc_missed : gset NamespacedName;
  eps_open : bool;
  eps_missed : gset NamespacedName;
}.
Definition no_windows : windows := {| svc_open := false; svc_missed := ∅; eps_open := false; eps_missed := ∅ |}.

Definition service_of_event (e : happening) : option NamespacedName :=
  match e with
  | EvServiceAdd o | EvServiceUpdate _ o | EvServiceDelete o => Some (Api.service_nsn o)
  | _ => None
  end.
Definition endpoints_of_event (e : happening) : option NamespacedName :=
  match e with
  | EvEndpointsAdd o | EvEndpointsUpdate _ o | EvEndpointsDelete o => Some (Api.endpoints_nsn o)
  | _ => None
  end.
Definition miss (op : bool) (n : option NamespacedName) (m : gset NamespacedName) : gset NamespacedName :=
  match n with Some n => if op then {[n]} ∪ m else m | None => m end.

Definition record_window (e : happening) (wd : windows) : windows := {|
  svc_open := svc_open wd; svc_missed := miss (svc_open wd) (service_of_event e) (svc_missed wd);
  eps_open := eps_open wd; eps_missed := miss (eps_open wd) (endpoints_of_event e) (eps_missed wd) |}.
Definition record_windows (es : list happening) (wd : windows) : windows := foldl (flip record_window) wd es.
Definition set_services (b : bool) (wd : windows) : windows :=
  {| svc_open := b; svc_missed := svc_missed wd; eps_open := eps_open wd; eps_missed := eps_missed wd |}.
Definition set_endpoints (b : bool) (wd : windows) : windows :=
  {| svc_open := svc_open wd; svc_missed := svc_missed wd; eps_open := b; eps_missed := eps_missed wd |}.

(** A sync opens the windows when it applies the changes and closes them when it
    clears them; one that finds no dummy device leaves them open. *)
Definition window_moment (m : moment) (out : option sync_end) (wd : windows) : windows :=
  match m with
  | Recorded e => record_window e wd
  | Synced g =>
      match out with
      | Some NoDevice =>
          record_windows (before_programming g ++ during_programming g ++ after_services g ++ after_endpoints g)
            (set_endpoints true (record_windows (between_updates g) (set_services true wd)))
      | Some Programmed =>
          record_windows (after_endpoints g) (set_endpoints false
            (record_windows (after_services g) (set_services false
              (record_windows (before_programming g ++ during_programming g) (set_endpoints true
                (record_windows (between_updates g) (set_services true wd)))))))
      | _ => record_windows (recorded_in g) wd
      end
  end.
Fixpoint windows_after (ms : list moment) (ends : list (option sync_end)) (wd : windows) : windows :=
  match ms, ends with
  | m :: ms, e :: ends => windows_after ms ends (window_moment m e wd)
  | _, _ => wd
  end.

(** ** Histories the informers can deliver *)
Fixpoint informed (es : list happening) (sv : api_services) (ep : api_endpoints) : Prop :=
  match es with
  | [] => True
  | e :: es => delivers e sv ep ∧ informed es (services_after e sv) (endpoints_after e ep)
  end.
Lemma informed_app es es' sv ep :
  informed (es ++ es') sv ep ↔ informed es sv ep ∧
    informed es' (foldl (flip services_after) sv es) (foldl (flip endpoints_after) ep es).
Proof. revert sv ep. induction es as [|e es IH]; intros sv ep; cbn; [tauto|]. rewrite IH. tauto. Qed.

(** A version of an object that was announced. *)
Definition announced_service (es : list happening) (o : Api.Service) : Prop :=
  EvServiceAdd o ∈ es ∨ ∃ old, EvServiceUpdate old o ∈ es.
Definition announced_endpoints (es : list happening) (o : Api.Endpoints) : Prop :=
  EvEndpointsAdd o ∈ es ∨ ∃ old, EvEndpointsUpdate old o ∈ es.

Section histories.
Context {K : Type} `{IF : Interface K} `{KR : !IpvsReturns K} `{MR : MapRange}.
Context `{NI : NodeIPInterface K} `{NR : !NodeIPsReturn K} `{PO : PortOpener} `{PS : !PortOpenerSpec} `{EX : Exec} `{NO : NetOS}.
Context (host : string).
Abbreviation epmap := (endpointsToEndpointsMap host).

(** The port of a service, or of endpoints, comes from a version announced. *)
Definition service_port_from (es : list happening) (k : ServicePortName) (info : ServiceInfo) : Prop :=
  ∃ o, announced_service es o ∧ gm (serviceToServiceMap (Some o)) !! k = Some info.
Definition endpoints_port_from (es : list happening) (k : ServicePortName) (l : list EndpointsInfo) : Prop :=
  ∃ o, announced_endpoints es o ∧ gm (epmap (Some o)) !! k = Some l.

(** ** The invariant *)
Definition svc_side (es : list happening) (wd : windows) (p : Proxier) : windowed Api.Service ServiceInfo := {|
  w_track := {| t_map := serviceMap p; t_items := serviceChanges p; t_api := services_of es |};
  w_open := svc_open wd; w_missed := svc_missed wd |}.
Definition eps_side (es : list happening) (wd : windows) (p : Proxier) : windowed Api.Endpoints (list EndpointsInfo) := {|
  w_track := {| t_map := endpointsMap p; t_items := endpointsChanges p; t_api := endpoints_of es |};
  w_open := eps_open wd; w_missed := eps_missed wd |}.

Record pinv (es : list happening) (wd : windows) (p : Proxier) : Prop := {
  pi_svc : wtracks serviceToServiceMap Api.service_nsn (svc_side es wd p);
  pi_eps : wtracks epmap Api.endpoints_nsn (eps_side es wd p);
  pi_ports : Ports.no_nil (portsMap p);
  pi_flags : (endpointsSynced p, servicesSynced p, initialized p) = foldl (flip flags_after) (false, false, 0%Z) es;
  pi_settings : settings p = (host, false, "", 0%Z);
  pi_svc_from : map_Forall (service_port_from es) (serviceMap p) ∧ changes_from (service_port_from es) (serviceChanges p);
  pi_eps_from : map_Forall (endpoints_port_from es) (endpointsMap p) ∧ changes_from (endpoints_port_from es) (endpointsChanges p);
  pi_real : changes_real (serviceChanges p) ∧ changes_real (endpointsChanges p);
  pi_known : (∀ n o, services_of es !! n = Some o → announced_service es o) ∧
             (∀ n o, endpoints_of es !! n = Some o → announced_endpoints es o);
}.

Lemma pinv_core es wd p p' : core p' = core p → pinv es wd p → pinv es wd p'.
Proof using Type.
  intros E. injection E as E1 E2 E3 E4 E5 E6 E7 E8 E9 E10 E11 E12.
  intros []. split; unfold svc_side, eps_side, settings in *; rewrite ?E1, ?E2, ?E3, ?E4, ?E5, ?E6, ?E7, ?E8; try done.
  congruence.
Qed.

(** ** Recordings *)
Lemma announced_more es es' :
  (∀ o, announced_service es o → announced_service (es ++ es') o) ∧
  (∀ o, announced_endpoints es o → announced_endpoints (es ++ es') o).
Proof using Type.
  split; intros o [H|[old H]]; [left|right; exists old|left|right; exists old]; apply elem_of_app; by left.
Qed.

Lemma from_more es es' p :
  (map_Forall (service_port_from es) (serviceMap p) ∧ changes_from (service_port_from es) (serviceChanges p) →
   map_Forall (service_port_from (es ++ es')) (serviceMap p) ∧ changes_from (service_port_from (es ++ es')) (serviceChanges p)) ∧
  (map_Forall (endpoints_port_from es) (endpointsMap p) ∧ changes_from (endpoints_port_from es) (endpointsChanges p) →
   map_Forall (endpoints_port_from (es ++ es')) (endpointsMap p) ∧ changes_from (endpoints_port_from (es ++ es')) (endpointsChanges p)).
Proof using Type.
  destruct (announced_more es es') as [Hs He].
  assert (∀ k v, service_port_from es k v → service_port_from (es ++ es') k v) as Hs' by (intros k v (o & ? & ?); exists o; auto).
  assert (∀ k v, endpoints_port_from es k v → endpoints_port_from (es ++ es') k v) as He' by (intros k v (o & ? & ?); exists o; auto).
  split; intros [H1 H2]; (split; [by eapply map_Forall_impl|]);
    (eapply map_Forall_impl; [exact H2|]; intros n ch [? ?]; split; by eapply map_Forall_impl).
Qed.

Lemma services_snoc es e : services_of (es ++ [e]) = services_after e (services_of es).
Proof using Type. unfold services_of. by rewrite foldl_app. Qed.
Lemma endpoints_snoc es e : endpoints_of (es ++ [e]) = endpoints_after e (endpoints_of es).
Proof using Type. unfold endpoints_of. by rewrite foldl_app. Qed.

Lemma known_services es o n : (∀ n o, services_of es !! n = Some o → announced_service es o) →
  services_of es !! n = o → map_Forall (service_port_from es) (gm (serviceToServiceMap o)).
Proof using Type.
  intros Hk Ho k v Hv. destruct o as [o|]; [exists o; eauto|]. simpl in Hv. by rewrite lookup_empty in Hv.
Qed.
Lemma known_endpoints es o n : (∀ n o, endpoints_of es !! n = Some o → announced_endpoints es o) →
  endpoints_of es !! n = o → map_Forall (endpoints_port_from es) (gm (epmap o)).
Proof using Type.
  intros Hk Ho k v Hv. destruct o as [o|]; [exists o; eauto|]. simpl in Hv. by rewrite lookup_empty in Hv.
Qed.

(** An event that announces nothing. *)
Lemma other_pinv es wd p e f :
  pinv es wd p → service_of_event e = None → endpoints_of_event e = None →
  (∀ sv, services_after e sv = sv) → (∀ ep, endpoints_after e ep = ep) →
  f = flags_after e (endpointsSynced p, servicesSynced p, initialized p) →
  pinv (es ++ [e]) (record_window e wd) (with_synced f.1.1 f.1.2 f.2 p).
Proof using Type.
  intros [Hs He Hp Hf Hset Hsf Hef Hr [Hk1 Hk2]] Esn Een Esv Eep ->. destruct (from_more es [e] p) as [Hsf' Hef'].
  split; try done; [| | |by apply Hsf'|by apply Hef'|].
  - unfold svc_side. rewrite services_snoc, Esv. cbn [svc_open svc_missed record_window]. rewrite Esn. exact Hs.
  - unfold eps_side. rewrite endpoints_snoc, Eep. cbn [eps_open eps_missed record_window]. rewrite Een. exact He.
  - rewrite foldl_app, <-Hf. cbn [foldl flip with_synced endpointsSynced servicesSynced initialized].
    by destruct (flags_after _ _) as [[]].
  - rewrite services_snoc, endpoints_snoc, Esv, Eep. split; intros n x Hx; apply announced_more; eauto.
Qed.

Lemma noted_service_pinv es wd p e n o :
  pinv es wd p → service_of_event e = Some n → endpoints_of_event e = None → (∀ f, flags_after e f = f) →
  services_after e (services_of es) = partial_alter (λ _, o) n (services_of es) →
  endpoints_after e (endpoints_of es) = endpoints_of es →
  (∀ x, o = Some x → Api.service_nsn x = n ∧ announced_service (es ++ [e]) x) →
  pinv (es ++ [e]) (record_window e wd) (note_service n (services_of es !! n) o p).
Proof using MR.
  intros [Hs He Hp Hf Hset Hsf Hef [Hr1 Hr2] [Hk1 Hk2]] Esn Een Hfl Esv Eep Ho.
  destruct (from_more es [e] p) as [Hsf' Hef']. specialize (Hsf' Hsf). specialize (Hef' Hef).
  assert (map_Forall (service_port_from (es ++ [e])) (gm (serviceToServiceMap o))) as Hof.
  { intros k v Hv. destruct o as [x|]; [|simpl in Hv; by rewrite lookup_empty in Hv].
    exists x. split; [|done]. by apply Ho. }
  assert (map_Forall (service_port_from (es ++ [e])) (gm (serviceToServiceMap (services_of es !! n)))) as Hold.
  { intros k v Hv. destruct (known_services es _ n Hk1 eq_refl k v Hv) as (x & ? & ?). exists x. split; [|done].
    by apply announced_more. }
  unfold note_service. split; cbn [portsMap endpointsSynced servicesSynced initialized serviceMap endpointsMap
    serviceChanges endpointsChanges with_serviceChanges].
  - unfold svc_side. rewrite services_snoc, Esv. cbn [svc_open svc_missed record_window].
    rewrite Esn. cbn [miss].
    apply (wstep_wtracks serviceToServiceMap Api.service_nsn (λ sm items n, (Services.UpdateServiceMap sm items n).1.1)
      eq_refl serviceToServiceMap_nsn (λ m items i H, UpdateServiceMap_map m items i H) _ _ Hs).
    unfold svc_side. apply (w_record _ _ _ {| t_map := serviceMap p; t_items := serviceChanges p; t_api := services_of es |}).
    intros x Hx. by apply Ho.
  - unfold eps_side. rewrite endpoints_snoc, Eep. cbn [eps_open eps_missed record_window]. rewrite Een. exact He.
  - exact Hp.
  - rewrite foldl_app, <-Hf. cbn [foldl flip]. by rewrite Hfl.
  - exact Hset.
  - split; [apply Hsf'|]. apply update_from; [done..|apply Hsf'].
  - exact Hef'.
  - split; [|done]. by apply update_real.
  - rewrite services_snoc, endpoints_snoc, Esv, Eep. split.
    + intros n' x Hx. destruct (decide (n' = n)) as [->|Hn].
      * rewrite lookup_partial_alter_eq in Hx. by apply Ho.
      * rewrite lookup_partial_alter_ne in Hx by done. apply announced_more. eauto.
    + intros n' x Hx. apply announced_more. eauto.
Qed.

Lemma noted_endpoints_pinv es wd p e n o :
  pinv es wd p → service_of_event e = None → endpoints_of_event e = Some n → (∀ f, flags_after e f = f) →
  services_after e (services_of es) = services_of es →
  endpoints_after e (endpoints_of es) = partial_alter (λ _, o) n (endpoints_of es) →
  (∀ x, o = Some x → Api.endpoints_nsn x = n ∧ announced_endpoints (es ++ [e]) x) →
  pinv (es ++ [e]) (record_window e wd) (note_endpoints n (endpoints_of es !! n) o p).
Proof using MR.
  intros [Hs He Hp Hf Hset Hsf Hef [Hr1 Hr2] [Hk1 Hk2]] Esn Een Hfl Esv Eep Ho.
  assert (hostname p = host) as Hhost by (by injection Hset).
  destruct (from_more es [e] p) as [Hsf' Hef']. specialize (Hsf' Hsf). specialize (Hef' Hef).
  assert (map_Forall (endpoints_port_from (es ++ [e])) (gm (epmap o))) as Hof.
  { intros k v Hv. destruct o as [x|]; [|simpl in Hv; by rewrite lookup_empty in Hv].
    exists x. split; [|done]. by apply Ho. }
  assert (map_Forall (endpoints_port_from (es ++ [e])) (gm (epmap (endpoints_of es !! n)))) as Hold.
  { intros k v Hv. destruct (known_endpoints es _ n Hk2 eq_refl k v Hv) as (x & ? & ?). exists x. split; [|done].
    by apply announced_more. }
  unfold note_endpoints. rewrite Hhost. split; cbn [portsMap endpointsSynced servicesSynced initialized serviceMap endpointsMap
    serviceChanges endpointsChanges with_endpointsChanges].
  - unfold svc_side. rewrite services_snoc, Esv. cbn [svc_open svc_missed record_window]. rewrite Esn. exact Hs.
  - unfold eps_side. rewrite endpoints_snoc, Eep. cbn [eps_open eps_missed record_window].
    rewrite Een. cbn [miss].
    apply (wstep_wtracks epmap Api.endpoints_nsn (λ em items n, (Endpoints.UpdateEndpointsMap em items n).1.1)
      eq_refl (endpointsToEndpointsMap_nsn host) (λ m items i H, UpdateEndpointsMap_map m items i H) _ _ He).
    unfold eps_side. apply (w_record _ _ _ {| t_map := endpointsMap p; t_items := endpointsChanges p; t_api := endpoints_of es |}).
    intros x Hx. by apply Ho.
  - exact Hp.
  - rewrite foldl_app, <-Hf. cbn [foldl flip]. by rewrite Hfl.
  - exact Hset.
  - exact Hsf'.
  - split; [apply Hef'|]. apply update_from; [done..|apply Hef'].
  - split; [done|]. by apply update_real.
  - rewrite services_snoc, endpoints_snoc, Esv, Eep. split.
    + intros n' x Hx. apply announced_more. eauto.
    + intros n' x Hx. destruct (decide (n' = n)) as [->|Hn].
      * rewrite lookup_partial_alter_eq in Hx. by apply Ho.
      * rewrite lookup_partial_alter_ne in Hx by done. apply announced_more. eauto.
Qed.

(** The first half of a handler, of any event. *)
Lemma noted_pinv es wd p e :
  pinv es wd p → delivers e (services_of es) (endpoints_of es) → pinv (es ++ [e]) (record_window e wd) (noted e p).
Proof using MR.
  intros Hi Hd. destruct e as [o|old o|old| |o|old o|old| |]; simpl in Hd; cbn [noted].
  - rewrite <-Hd. apply noted_service_pinv; [done..|by intros [[]]|done|done|]. intros x [= ->]. split; [done|]. left. apply elem_of_app. right. left.
  - rewrite <-Hd. apply noted_service_pinv; [done..|by intros [[]]|done|done|]. intros x [= ->]. split; [done|]. right. exists old. apply elem_of_app. right. left.
  - rewrite <-Hd. apply noted_service_pinv; [done..|by intros [[]]|done|done|done].
  - by apply (other_pinv es wd p EvServiceSynced (endpointsSynced p, true, if endpointsSynced p then 1 else 0)%Z).
  - rewrite <-Hd. apply noted_endpoints_pinv; [done..|by intros [[]]|done|done|]. intros x [= ->]. split; [done|]. left. apply elem_of_app. right. left.
  - rewrite <-Hd. apply noted_endpoints_pinv; [done..|by intros [[]]|done|done|]. intros x [= ->]. split; [done|]. right. exists old. apply elem_of_app. right. left.
  - rewrite <-Hd. apply noted_endpoints_pinv; [done..|by intros [[]]|done|done|done].
  - by apply (other_pinv es wd p EvEndpointsSynced (true, servicesSynced p, initialized p)).
  - replace p with (with_synced (endpointsSynced p) (servicesSynced p) (initialized p) p) by (by destruct p).
    by apply (other_pinv es wd p EvPeriodic (endpointsSynced p, servicesSynced p, initialized p)).
Qed.

Lemma noted_all_pinv es wd p l :
  pinv es wd p → informed l (services_of es) (endpoints_of es) →
  pinv (es ++ l) (record_windows l wd) (noted_all l p).
Proof using MR.
  revert es wd p. induction l as [|e l IH]; intros es wd p Hi Hl; [by rewrite app_nil_r|].
  destruct Hl as [Hd Hl]. rewrite <-services_snoc, <-endpoints_snoc in Hl.
  specialize (IH _ _ _ (noted_pinv es wd p e Hi Hd) Hl). by rewrite <-(assoc_L (++)) in IH.
Qed.

(** ** A sync *)
Definition hinv (es : list happening) (wd : windows) (s : Sys K) : Prop := pinv es wd (px s) ∧ kinv (kern s).
Definition linv (es : list happening) (wd : windows) (s : Sys K * Locals) : Prop :=
  hinv es wd s.1 ∧ Ports.no_nil (replacementPortsMap s.2).

(** What leaves the fields alone keeps the invariant. *)
Lemma core_hinv {A} (d : M (Sys K) A) es wd s :
  (∀ c, keeping (core_is c) d) → hinv es wd s → wp d (λ _, hinv es wd) s.
Proof using Type.
  intros Hd [Hp Hk]. eapply wp_mono; [apply (Hd (px s)); by split|]. intros a s' [Hc Hk']. split; [by apply (pinv_core es wd (px s))|done].
Qed.
Lemma core_linv {A} (d : LM A) es wd s :
  (∀ c, keeping (local_core c) d) → linv es wd s → wp d (λ _, linv es wd) s.
Proof using Type.
  intros Hd [[Hp Hk] Hn]. eapply wp_mono; [apply (Hd (px s.1)); by split|]. intros a s' [[Hc Hk'] Hn'].
  split; [|done]. split; [by apply (pinv_core es wd (px s.1))|done].
Qed.

Lemma noted_hinv es wd s l :
  hinv es wd s → informed l (services_of es) (endpoints_of es) →
  wp (assign (noted_all l)) (λ _, hinv (es ++ l) (record_windows l wd)) s.
Proof using MR. intros [Hp Hk] Hl. apply wp_assign. split; [by apply noted_all_pinv|done]. Qed.
Lemma periodic_hinv es wd s : hinv es wd s → hinv (es ++ [EvPeriodic]) wd s.
Proof using MR.
  intros [Hp Hk]. split; [|done]. replace wd with (record_window EvPeriodic wd) by (by destruct wd).
  by apply (noted_pinv es wd (px s) EvPeriodic).
Qed.

Lemma update_services_hinv es wd s : hinv es wd s → wp update_services (λ _, hinv es (set_services true wd)) s.
Proof using Type.
  intros [[Hs He Hp Hf Hset [Hsm Hsc] Hef Hr Hk] Hkv]. unfold update_services.
  apply wp_bind, wp_field, wp_bind, wp_field, wp_bind, wp_onIO, wp_tickM. intros [sm sres] n E.
  apply wp_bind, wp_assign, wp_ret. split; [|done].
  pose proof (UpdateServiceMap_map (serviceMap (px s)) (serviceChanges (px s)) (tick (io s)) (wt_changes _ _ _ Hs)) as Hup.
  cbn [px with_sys] in *. split; try done.
  - eapply (wstep_wtracks serviceToServiceMap Api.service_nsn (λ sm items n, (Services.UpdateServiceMap sm items n).1.1)
      eq_refl serviceToServiceMap_nsn (λ m items i H, UpdateServiceMap_map m items i H) _ _ Hs).
    replace sm with (Services.UpdateServiceMap (serviceMap (px s)) (serviceChanges (px s)) (tick (io s))).1.1 by (by rewrite E).
    apply (w_apply serviceToServiceMap Api.service_nsn (λ sm items n, (Services.UpdateServiceMap sm items n).1.1)
      (serviceMap (px s)) (serviceChanges (px s)) (services_of es) (svc_open wd) (svc_missed wd) (tick (io s))).
  - split; [|done]. intros k v Hv. rewrite E in Hup. cbn in Hup, Hv. rewrite Hup in Hv. by eapply updated_from.
Qed.

Lemma update_endpoints_hinv es wd s sres :
  hinv es wd s → wp (update_endpoints sres) (λ _, hinv es (set_endpoints true wd)) s.
Proof using Type.
  intros [[Hs He Hp Hf Hset Hsf [Hem Hec] Hr Hk] Hkv]. unfold update_endpoints.
  apply wp_bind, wp_field, wp_bind, wp_field, wp_bind, wp_field, wp_bind, wp_onIO, wp_tickM. intros [em eres] n E.
  apply wp_bind, wp_assign, wp_bind, wp_onIO, wp_rangeM, wp_ret. split; [|done].
  pose proof (UpdateEndpointsMap_map (endpointsMap (px s)) (endpointsChanges (px s)) (tick (io s)) (wt_changes _ _ _ He)) as Hup.
  cbn [px with_sys] in *. split; try done.
  - eapply (wstep_wtracks epmap Api.endpoints_nsn (λ em items n, (Endpoints.UpdateEndpointsMap em items n).1.1)
      eq_refl (endpointsToEndpointsMap_nsn host) (λ m items i H, UpdateEndpointsMap_map m items i H) _ _ He).
    replace em with (Endpoints.UpdateEndpointsMap (endpointsMap (px s)) (endpointsChanges (px s)) (tick (io s))).1.1 by (by rewrite E).
    apply (w_apply epmap Api.endpoints_nsn (λ em items n, (Endpoints.UpdateEndpointsMap em items n).1.1)
      (endpointsMap (px s)) (endpointsChanges (px s)) (endpoints_of es) (eps_open wd) (eps_missed wd) (tick (io s))).
  - split; [|done]. intros k v Hv. rewrite E in Hup. cbn in Hup, Hv. rewrite Hup in Hv. by eapply updated_from.
Qed.

(** Clearing, and skipping it because nothing is pending. *)
Lemma clear_services_pinv es wd p :
  pinv es wd p → svc_open wd = true → pinv es (set_services false wd) (with_serviceChanges ∅ p).
Proof using MR.
  intros [Hs He Hp Hf Hset [Hsm Hsc] Hef [_ Hr] Hk] Hop. split; try done.
  eapply (wstep_wtracks serviceToServiceMap Api.service_nsn (λ sm items n, (Services.UpdateServiceMap sm items n).1.1)
    eq_refl serviceToServiceMap_nsn (λ m items i H, UpdateServiceMap_map m items i H) _ _ Hs).
  unfold svc_side. rewrite Hop. apply w_clear.
Qed.
Lemma clear_endpoints_pinv es wd p :
  pinv es wd p → eps_open wd = true → pinv es (set_endpoints false wd) (with_endpointsChanges ∅ p).
Proof using MR.
  intros [Hs He Hp Hf Hset Hsf [Hem Hec] [Hr _] Hk] Hop. split; try done.
  eapply (wstep_wtracks epmap Api.endpoints_nsn (λ em items n, (Endpoints.UpdateEndpointsMap em items n).1.1)
    eq_refl (endpointsToEndpointsMap_nsn host) (λ m items i H, UpdateEndpointsMap_map m items i H) _ _ He).
  unfold eps_side. rewrite Hop. apply w_clear.
Qed.

Lemma sync_service_changes_linv es wd link s :
  linv es wd s → svc_open wd = true → wp (sync_service_changes link) (λ _, linv es (set_services false wd)) s.
Proof using PS.
  intros [[Hp Hk] Hn] Hop. unfold sync_service_changes. apply wp_bind, wp_lift, wp_field. case_decide as Hc.
  - apply wp_ret. split; [|done]. split; [|done].
    pose proof (clear_services_pinv es wd _ Hp Hop) as Hp'. revert Hc Hp'. cbn [fst px]. destruct (px s.1); cbn; intros ->; exact id.
  - apply wp_bind, wp_lift, wp_onIO, wp_rangeM, wp_bind. eapply wp_mono.
    { apply (core_linv _ es wd); [|split; [split; [exact Hp|exact Hk]|exact Hn]]. intros c.
      apply keeping_for_each. intros ch. apply sync_service_change_keeps. }
    intros [] s' [[Hp' Hk'] Hn']. apply wp_lift, wp_assign. split; [|done]. split; [by apply clear_services_pinv|done].
Qed.

Lemma sync_endpoint_changes_hinv es wd s :
  hinv es wd s → eps_open wd = true → wp sync_endpoint_changes (λ _, hinv es (set_endpoints false wd)) s.
Proof using MR.
  intros [Hp Hk] Hop. unfold sync_endpoint_changes. apply wp_bind, wp_field. case_decide as Hc.
  - apply wp_ret. split; [|done].
    pose proof (clear_endpoints_pinv es wd _ Hp Hop) as Hp'. revert Hc Hp'. cbn [fst px]. destruct (px s); cbn; intros ->; exact id.
  - apply wp_bind, wp_onIO, wp_rangeM, wp_bind. eapply wp_mono.
    { apply (core_hinv _ es wd); [|split; [exact Hp|exact Hk]]. intros c.
      apply keeping_for_each. intros ch. apply sync_endpoint_change_keeps. }
    intros [] s' [Hp' Hk']. apply wp_assign. split; [by apply clear_endpoints_pinv|done].
Qed.

Lemma sync_finish_hinv es wd s replacement stale staleEps :
  hinv es wd s → Ports.no_nil replacement → wp (sync_finish replacement stale staleEps) (λ _, hinv es wd) s.
Proof using Type.
  intros [Hp Hk] Hn. eapply wp_mono; [apply sync_finish_spec, Hp|]. intros [] s' (Ep & Ek & _). unfold hinv. rewrite Ep, Ek.
  split; [|done]. by destruct Hp; split.
Qed.

(** *** With what is recorded in its gaps *)
Lemma informed_of es l l' :
  informed (l ++ l') (services_of es) (endpoints_of es) →
  informed l (services_of es) (endpoints_of es) ∧ informed l' (services_of (es ++ l)) (endpoints_of (es ++ l)).
Proof using Type. rewrite informed_app. unfold services_of, endpoints_of. by rewrite !foldl_app. Qed.
Lemma record_windows_app l l' wd : record_windows (l ++ l') wd = record_windows l' (record_windows l wd).
Proof using Type. apply foldl_app. Qed.
Lemma record_windows_open l wd :
  svc_open (record_windows l wd) = svc_open wd ∧ eps_open (record_windows l wd) = eps_open wd.
Proof using Type. revert wd. induction l as [|e l IH]; intros wd; [done|]. exact (IH (record_window e wd)). Qed.

Lemma noted_linv es wd s l :
  linv es wd s → informed l (services_of es) (endpoints_of es) →
  wp (lift (assign (noted_all l))) (λ _, linv (es ++ l) (record_windows l wd)) s.
Proof using MR. intros [[Hp Hk] Hn] Hl. apply wp_lift, wp_assign. split; [|done]. split; [by apply noted_all_pinv|done]. Qed.

Lemma sync_services_part_linv es wd link l s :
  linv es wd s → svc_open wd = true → informed l (services_of es) (endpoints_of es) →
  wp (sync_services_part (noted_all l) link) (λ _, linv (es ++ l) (set_services false (record_windows l wd))) s.
Proof using PS.
  intros Hi Hop Hl. unfold sync_services_part.
  apply wp_bind, wp_lift, wp_field, wp_bind, wp_lift, wp_field, wp_bind.
  apply wp_mono with (Q := λ _, linv es wd).
  { case_decide; [|by destruct s]. apply core_linv; [intros c; apply full_sync_keeps|by destruct s]. }
  intros [] s1 H1. apply wp_bind. eapply wp_mono; [by apply noted_linv|]. intros [] s2 H2.
  apply sync_service_changes_linv; [done|]. by rewrite (proj1 (record_windows_open _ _)).
Qed.

Lemma wp_with_locals (c : LM unit) (Q : Sys K → Prop) (R : Locals → Prop) s :
  wp c (λ _ t, Q t.1 ∧ R t.2) (s, no_locals) → wp (with_locals c) (λ loc s', Q s' ∧ R loc) s.
Proof using Type. unfold wp, with_locals. by destruct (c _) as [[[]|] []]. Qed.

Lemma sync_apply_gaps_hinv es wd link stale g2 g3 g4 g5 s :
  hinv es wd s → svc_open wd = true → eps_open wd = true →
  informed (g2 ++ g3 ++ g4 ++ g5) (services_of es) (endpoints_of es) →
  wp (sync_apply_gaps (noted_all g2) (noted_all g3) (noted_all g4) (noted_all g5) link stale)
    (λ _, hinv (es ++ g2 ++ g3 ++ g4 ++ g5)
       (record_windows g5 (set_endpoints false (record_windows g4 (set_services false (record_windows (g2 ++ g3) wd)))))) s.
Proof using NR PS.
  intros Hi Hs He [H2 [H3 [H4 H5]%informed_of]%informed_of]%informed_of. unfold sync_apply_gaps.
  apply wp_bind. eapply wp_mono; [apply core_hinv; [intros c; apply BuildIpvsMap_keeps|exact Hi]|]. clear s Hi. intros [] s Hi.
  apply wp_bind. eapply wp_mono; [apply core_hinv; [intros c; apply BuildClusterMap_keeps|exact Hi]|]. clear s Hi. intros [] s Hi.
  apply wp_bind. eapply wp_mono; [apply core_hinv; [intros c; apply GetNodeIPs_keeps|exact Hi]|]. clear s Hi. intros r s Hi.
  apply wp_bind. eapply wp_mono; [apply core_hinv; [|exact Hi]|].
  { intros c. apply keeping_assign. by intros []. }
  clear s Hi. intros [] s Hi.
  apply wp_bind. eapply wp_mono; [by apply noted_hinv|]. clear s Hi. intros [] s Hi.
  apply wp_bind. eapply wp_mono.
  { apply (wp_with_locals _ (hinv ((es ++ g2) ++ g3) (set_services false (record_windows (g2 ++ g3) wd))) (λ loc, Ports.no_nil (replacementPortsMap loc))).
    rewrite record_windows_app. apply sync_services_part_linv; [by split|by rewrite (proj1 (record_windows_open _ _))|done]. }
  clear s Hi. intros loc s [Hi Hn].
  apply wp_bind. eapply wp_mono; [by apply noted_hinv|]. clear s Hi. intros [] s Hi.
  apply wp_bind. eapply wp_mono; [apply sync_endpoint_changes_hinv; [exact Hi|]|].
  { rewrite (proj2 (record_windows_open _ _)). cbn [eps_open set_services]. by rewrite (proj2 (record_windows_open _ _)). }
  clear s Hi. intros [] s Hi.
  apply wp_bind. eapply wp_mono; [by apply noted_hinv|]. clear s Hi. intros [] s Hi.
  rewrite !(assoc_L (++)). by apply sync_finish_hinv.
Qed.

Lemma sync_with_hinv es wd g s :
  hinv es wd s → informed (told (Synced g)) (services_of es) (endpoints_of es) →
  wp (sync_with g) (λ e, hinv (es ++ told (Synced g)) (window_moment (Synced g) (Some e) wd)) s.
Proof using NR PS.
  destruct g as [g1 g2 g3 g4 g5]. unfold sync_with, sync_gaps.
  cbn [told window_moment recorded_in between_updates before_programming during_programming after_services after_endpoints].
  intros Hi [H1 [_ Hl]]%informed_of. cbn [services_after endpoints_after] in Hl.
  assert (∀ es, services_of (es ++ [EvPeriodic]) = services_of es ∧ endpoints_of (es ++ [EvPeriodic]) = endpoints_of es) as Hper.
  { intros es'. by rewrite services_snoc, endpoints_snoc. }
  destruct (Hper (es ++ g1)) as [E1 E2]. rewrite <-E1, <-E2 in Hl.
  assert (es ++ g1 ++ EvPeriodic :: g2 ++ g3 ++ g4 ++ g5 = ((es ++ g1) ++ [EvPeriodic]) ++ g2 ++ g3 ++ g4 ++ g5) as ->
    by (by rewrite <-!(assoc_L (++))).
  pose proof Hl as [H2 [H3 [H4 H5]%informed_of]%informed_of]%informed_of.
  assert (∀ wd s e wd', hinv ((es ++ g1) ++ [EvPeriodic]) wd s → record_windows (g2 ++ g3 ++ g4 ++ g5) wd = wd' e →
    wp (assign (noted_all g2) ;; assign (noted_all g3) ;; assign (noted_all g4) ;; assign (noted_all g5) ;; mret e)
      (λ e : sync_end, hinv (((es ++ g1) ++ [EvPeriodic]) ++ g2 ++ g3 ++ g4 ++ g5) (wd' e)) s) as Hrest.
  { clear Hi s wd. intros wd s e wd' Hi Ewd.
    do 4 (apply wp_bind; eapply wp_mono; [by apply noted_hinv|]; clear s Hi; intros [] s Hi).
    apply wp_ret. rewrite <-Ewd. by rewrite !(assoc_L (++)), !record_windows_app in *. }
  apply wp_bind, wp_field, wp_bind, wp_field. destruct (negb _ || negb _).
  { apply wp_bind. eapply wp_mono; [by apply noted_hinv|]. intros [] s1 Hi1.
    eapply Hrest; [by apply periodic_hinv|]. by rewrite <-record_windows_app. }
  apply wp_bind. eapply wp_mono; [by apply update_services_hinv|]. clear s Hi. intros sres s Hi.
  apply wp_bind. eapply wp_mono; [exact (noted_hinv _ _ _ _ Hi H1)|]. clear s Hi. intros [] s Hi%periodic_hinv.
  apply wp_bind. eapply wp_mono; [by apply update_endpoints_hinv|]. clear s Hi. intros stale s Hi.
  apply wp_bind. eapply wp_mono; [apply core_hinv; [intros c; apply keeping_onK; intros k Hk; by apply GetDummyLink_ret|exact Hi]|].
  clear s Hi. intros [link|err] s Hi; [|by eapply Hrest].
  apply wp_bind. eapply wp_mono; [apply (sync_apply_gaps_hinv _ _ _ _ _ _ _ _ _ Hi); [|done..]|].
  { cbn [svc_open set_endpoints]. by rewrite (proj1 (record_windows_open _ _)). }
  intros [] s' Hi'. by apply wp_ret.
Qed.

Lemma moment_hinv es wd m s :
  hinv es wd s → informed (told m) (services_of es) (endpoints_of es) →
  wp (run_moment m) (λ e, hinv (es ++ told m) (window_moment m e wd)) s.
Proof using NR PS.
  intros Hi Hl. destruct m as [e|g]; cbn [run_moment]; apply wp_bind.
  - eapply wp_mono; [exact (noted_hinv es wd s [e] Hi Hl)|]. intros [] s' Hi'. by apply wp_ret.
  - eapply wp_mono; [by apply sync_with_hinv|]. intros e s' Hi'. by apply wp_ret.
Qed.
Lemma moments_hinv es wd ms s :
  hinv es wd s → informed (ms ≫= told) (services_of es) (endpoints_of es) →
  wp (run_moments ms) (λ ends s', length ends = length ms ∧ hinv (es ++ (ms ≫= told)) (windows_after ms ends wd) s') s.
Proof using NR PS.
  revert es wd s. induction ms as [|m ms IH]; intros es wd s Hi Hl.
  - apply wp_ret. split; [done|]. by rewrite app_nil_r.
  - rewrite bind_cons in Hl |- *. apply informed_of in Hl as [Hl Hls]. cbn [run_moments].
    apply wp_bind. eapply wp_mono; [by apply moment_hinv|]. intros e s1 H1.
    apply wp_bind. eapply wp_mono; [exact (IH _ _ _ H1 Hls)|]. intros l s2 [Hlen H2]. apply wp_ret.
    split; [cbn; by rewrite Hlen|]. by rewrite (assoc_L (++)).
Qed.

Lemma starting_hinv k w : kinv k → hinv [] no_windows (starting host k w).
Proof using Type.
  intros Hk. split; [|done]. split; try done.
  - split; [done..|]. intros n _. exists None. split; [|done]. by intros key _.
  - split; [done..|]. intros n _. exists None. split; [|done]. by intros key _.
Qed.

(** The maps of objects that were not missed. *)
Lemma pinv_maps es wd p : pinv es wd p →
  (∀ name, nsn_of name ∉ svc_missed wd →
     updated (serviceMap p) (serviceChanges p) name = desired_services (services_of es) name) ∧
  (∀ name, nsn_of name ∉ eps_missed wd →
     updated (endpointsMap p) (endpointsChanges p) name = desired_ports epmap (endpoints_of es) name).
Proof using MR.
  intros [Hs He _ _ _ _ _ _ _]. split; intros name Hn.
  - rewrite <-(UpdateServiceMap_map _ _ 0) by apply (wt_changes _ _ _ Hs).
    apply (apply_name serviceToServiceMap (λ sm items n, (Services.UpdateServiceMap sm items n).1.1)
      (λ m items i H, UpdateServiceMap_map m items i H) _ _ _ (svc_open wd) (nsn_of name) 0);
      [apply (wt_changes _ _ _ Hs)|by apply (wt_names _ _ _ Hs)|done].
  - rewrite <-(UpdateEndpointsMap_map _ _ 0) by apply (wt_changes _ _ _ He).
    apply (apply_name epmap (λ em items n, (Endpoints.UpdateEndpointsMap em items n).1.1)
      (λ m items i H, UpdateEndpointsMap_map m items i H) _ _ _ (eps_open wd) (nsn_of name) 0);
      [apply (wt_changes _ _ _ He)|by apply (wt_names _ _ _ He)|done].
Qed.
End histories.

(** *** What is never missed *)
Definition closed (wd : windows) : Prop :=
  svc_open wd = false ∧ svc_missed wd = ∅ ∧ eps_open wd = false ∧ eps_missed wd = ∅.
Lemma closed_record l wd : closed wd → closed (record_windows l wd).
Proof.
  revert wd. induction l as [|e l IH]; intros wd (H1 & H2 & H3 & H4); [done|]. apply (IH (record_window e wd)).
  unfold closed. cbn. rewrite H1, H2, H3, H4. by destruct (service_of_event e), (endpoints_of_event e).
Qed.
Lemma other_record (f : happening → bool) l wd :
  (∀ e, f e = true → record_window e wd = wd) → forallb f l = true → record_windows l wd = wd.
Proof.
  intros Hf. induction l as [|e l IH]; [done|]. intros [He Hl]%andb_true_iff.
  change (record_windows l (record_window e wd) = wd). rewrite Hf by done. by apply IH.
Qed.
Lemma closed_moment m e wd : closed wd → in_time m = true → e ≠ Some NoDevice → closed (window_moment m e wd).
Proof.
  intros Hc Ht He. destruct m as [ev|[g1 g2 g3 g4 g5]]; [by apply (closed_record [ev])|].
  unfold in_time, outside_windows in Ht. unfold window_moment, recorded_in.
  cbn [between_updates before_programming during_programming after_services after_endpoints] in *.
  repeat apply andb_true_iff in Ht as [Ht ?Ht]. apply bool_decide_eq_true in Ht2, Ht3. subst g2 g3.
  destruct e as [[]|]; try done; try by apply closed_record. destruct Hc as (H1 & H2 & H3 & H4).
  rewrite (other_record _ g1 (set_services true wd)) with (2 := Ht).
  2: { intros ev Hev. unfold record_window, set_services. cbn. rewrite H3. destruct ev; done. }
  cbn [app]. change (record_windows [] ?w) with w.
  rewrite (other_record _ g4) with (2 := Ht1).
  2: { intros ev Hev. unfold record_window, set_services. cbn. destruct ev; done. }
  by apply closed_record.
Qed.
Lemma closed_after ms ends wd :
  closed wd → forallb in_time ms = true → Some NoDevice ∉ ends → closed (windows_after ms ends wd).
Proof.
  revert ends wd. induction ms as [|m ms IH]; intros [|e ends] wd Hc Ht Hn; try done.
  apply andb_true_iff in Ht as [Ht Hts]. apply not_elem_of_cons in Hn as [He Hn]. apply IH; [|done..].
  by apply closed_moment.
Qed.

(** ** Theorems *)
Section claims.
Context {K : Type} `{IF : Interface K} `{KR : !IpvsReturns K} `{MR : MapRange}.
Context `{NI : NodeIPInterface K} `{NR : !NodeIPsReturn K} `{PO : PortOpener} `{PS : !PortOpenerSpec} `{EX : Exec} `{NO : NetOS}.
Context (host : string).

(** C8: Every history completes, at the granularity of the locks: recordings
    of handlers and syncs in any order, and recordings in each of the five gaps
    of a sync, also between a map's update and its clearing. The objects are
    any objects: addresses, ports and protocols that cannot be programmed,
    virtual addresses claimed twice, local ports that cannot be opened. The
    informers only deliver each object with the version before ([informed]).
    The IPVS calls and the node addresses may answer with any error; they do
    return ([IpvsReturns], for [EnnIpvs] a kernel that lists its services and
    makes a missing dummy device; [NodeIPsReturn]). Then every step returns,
    none panics, and for every object that was not announced while its kind's changes were
    applied and not cleared ([windows_after], which follows how each sync
    ended), the proxier's map with its pending changes has exactly the ports
    last announced. When every sync found the dummy device and recordings kept
    outside those windows, that is every object. *)
Theorem every_history_completes (ms : list moment) (k : K) (w : IO) :
  kinv k → let es := ms ≫= told in informed es ∅ ∅ →
  ∃ ends s, run_moments ms (starting host k w) = (Ret ends, s) ∧ length ends = length ms ∧ kinv (kern s) ∧
    let wd := windows_after ms ends no_windows in
    (∀ name, nsn_of name ∉ svc_missed wd →
       updated (serviceMap (px s)) (serviceChanges (px s)) name = desired_services (services_of es) name) ∧
    (∀ name, nsn_of name ∉ eps_missed wd →
       updated (endpointsMap (px s)) (endpointsChanges (px s)) name =
       desired_ports (endpointsToEndpointsMap host) (endpoints_of es) name) ∧
    (forallb in_time ms = true → Some NoDevice ∉ ends → svc_missed wd = ∅ ∧ eps_missed wd = ∅).
Proof using NR PS.
  intros Hk es Hl. pose proof (moments_hinv host [] no_windows ms _ (starting_hinv host k w Hk) Hl) as Hr.
  apply wp_run in Hr as (ends & s & Hrun & Hlen & Hp & Hks). exists ends, s.
  destruct (pinv_maps host _ _ _ Hp) as [Hs He]. do 3 (split; [done|]). cbv zeta.
  split; [exact Hs|]. split; [exact He|]. intros Ht Hn.
  by destruct (closed_after ms ends no_windows ltac:(done) Ht Hn) as (_ & ? & _ & ?).
Qed.

(** C14: The proxier's state stays well typed after every such history, again
    whatever the objects are and whatever IPVS answers. No held socket is nil.
    A pending change of an object records ports under that object's name only,
    and is never void: its two sides differ. Every service port known or
    pending comes from a version of that service that was announced, and
    likewise the endpoints; a sync makes up nothing. The two flags and the
    [initialized] counter are what the events make them, whatever the syncs
    did: the counter is 0, or 1 with both listings reported. The settings are
    those of the start. *)
Theorem state_stays_well_typed (ms : list moment) (k : K) (w : IO) :
  kinv k → let es := ms ≫= told in informed es ∅ ∅ →
  ∃ ends s, run_moments ms (starting host k w) = (Ret ends, s) ∧
    Ports.no_nil (portsMap (px s)) ∧
    changes_wf (serviceChanges (px s)) ∧ changes_wf (endpointsChanges (px s)) ∧
    changes_real (serviceChanges (px s)) ∧ changes_real (endpointsChanges (px s)) ∧
    (map_Forall (service_port_from es) (serviceMap (px s)) ∧
     changes_from (service_port_from es) (serviceChanges (px s))) ∧
    (map_Forall (endpoints_port_from host es) (endpointsMap (px s)) ∧
     changes_from (endpoints_port_from host es) (endpointsChanges (px s))) ∧
    flags s = foldl (flip flags_after) (false, false, 0%Z) es ∧ flags_ok (flags s) ∧
    settings (px s) = (host, false, "", 0%Z).
Proof using NR PS.
  intros Hk es Hl. pose proof (moments_hinv host [] no_windows ms _ (starting_hinv host k w Hk) Hl) as Hr.
  apply wp_run in Hr as (ends & s & Hrun & Hlen & Hp & Hks). exists ends, s.
  destruct Hp as [Hs He Hports Hf Hset Hsf Hef [Hr1 Hr2] _].
  assert (flags s = foldl (flip flags_after) (false, false, 0%Z) es) as Hfl by exact Hf.
  split_and!; try done; try apply Hsf; try apply Hef; [apply (wt_changes _ _ _ Hs)|apply (wt_changes _ _ _ He)|].
  rewrite Hfl. apply flags_foldl_ok. by left.
Qed.
End claims.

(** ** A difficult history

    An SCTP port, an IPv6 cluster IP, a virtual address claimed twice, no local
    port that can be opened; a service and endpoints announced while their maps
    are updated and not cleared, and announced again later. *)
Import EnnIpvs Ref Ports.
#[local] Existing Instances canonical_range TestBed.bed_exec EventsClaims.ref_nodeip.
#[local] Instance busy_net : NetOS := {|
  InterfaceAddrs _ := OK ["127.0.0.1/8"; "10.0.0.7/24"];
  Interfaces _ := OK ["lo"; "eth0"];
  Listen _ _ _ := Err "address already in use";
  ResolveUDPAddr _ _ addr := OK addr;
  ListenUDP _ _ _ := Err "address already in use";
  Hostname _ := OK "node1";
|}.
#[local] Instance ref_nodeip_returns : NodeIPsReturn RefKernel.
Proof. intros k w _. by apply wp_ret. Qed.

Definition odd : Api.Service :=
  TestBed.service "odd" "2001:db8::1" [TestBed.port "s" "SCTP" 7 0; TestBed.port "p80" "TCP" 80 30080] [].
Definition thief : Api.Service := TestBed.service "thief" "10.20.30.41" [TestBed.port "x" "TCP" 80 0] [].

Definition hard_moments : list moment :=
  [Recorded EvEndpointsSynced; Recorded EvServiceSynced; Recorded (EvServiceAdd odd);
   Synced {| between_updates := [EvServiceAdd TestBed.web; EvEndpointsAdd TestBed.web_eps];
     before_programming := [EvServiceAdd thief]; during_programming := [EvEndpointsAdd TestBed.dns_eps];
     after_services := [EvServiceAdd TestBed.dns]; after_endpoints := [EvServiceUpdate TestBed.web web2] |};
   Recorded (EvServiceDelete odd); Synced no_gaps].

(** Which objects are missed when both syncs program. *)
Example hard_windows :
  windows_after hard_moments [None; None; None; Some Programmed; None; Some Programmed] no_windows =
  {| svc_open := false; eps_open := false;
     svc_missed := {[Api.service_nsn TestBed.web; Api.service_nsn thief]};
     eps_missed := {[Api.endpoints_nsn TestBed.dns_eps]} |}.
Proof. vm_compute. reflexivity. Qed.

Lemma node_kinv : kinv node_kernel.
Proof. exact I. Qed.
Lemma hard_informed : informed (hard_moments ≫= told) ∅ ∅.
Proof. by repeat (split; [first [exact I | vm_compute; reflexivity]|]). Qed.

Lemma every_history_completes_witness :
  ∃ ends s, run_moments hard_moments (starting "node1" node_kernel quiet_io) = (Ret ends, s) ∧
    ∀ name, nsn_of name ∉ svc_missed (windows_after hard_moments ends no_windows) →
      updated (serviceMap (px s)) (serviceChanges (px s)) name = desired_services (services_of (hard_moments ≫= told)) name.
Proof.
  destruct (every_history_completes "node1" hard_moments node_kernel quiet_io node_kinv hard_informed)
    as (ends & s & Hrun & _ & _ & Hs & _). exists ends, s. split; [exact Hrun|exact Hs].
Defined.

Lemma state_stays_well_typed_witness :
  ∃ ends s, run_moments hard_moments (starting "node1" node_kernel quiet_io) = (Ret ends, s) ∧
    Ports.no_nil (portsMap (px s)).
Proof.
  destruct (state_stays_well_typed "node1" hard_moments node_kernel quiet_io node_kinv hard_informed)
    as (ends & s & Hrun & Hn & _). exists ends, s. split; [exact Hrun|exact Hn].
Defined.
