(* ===== verification/Config.v ===== *)
(** * Informer callbacks (pkg/proxy/config)

    [ServiceConfig] and [EndpointsConfig] pass what the informers report to the
    registered handlers, checking the type of the object; a deletion may come
    wrapped in a tombstone when the informer missed it. *)

From S2P Require Import Prelude GoNet GoTime ProxyTypes Host.

Module Config.
Import GoTime.

(** An [interface{}] value an informer passes. *)
Inductive object :=
| OService (service : Api.Service)
| OEndpoints (endpoints : Api.Endpoints)
| OTombstone (Obj : object)              (* cache.DeletedFinalStateUnknown *)
| OOther.

Definition as_service (obj : object) : option Api.Service :=
  match obj with OService s => Some s | _ => None end.
Definition as_endpoints (obj : object) : option Api.Endpoints :=
  match obj with OEndpoints e => Some e | _ => None end.

(** The object of a deletion: itself, or the one in the tombstone. *)
Definition deleted {A} (as_type : object → option A) (obj : object) : option A :=
  match as_type obj with
  | Some a => Some a
  | None => match obj with
            | OTombstone obj' => as_type obj'
            | _ => None
            end
  end.

(** [ServiceHandler] and [EndpointsHandler], on a state [S]. *)
Record ServiceHandler (S : Type) := {
  h_OnServiceAdd : Api.Service → M S unit;
  h_OnServiceUpdate : Api.Service → Api.Service → M S unit;
  h_OnServiceDelete : Api.Service → M S unit;
  h_OnServiceSynced : M S unit;
}.
Record EndpointsHandler (S : Type) := {
  h_OnEndpointsAdd : Api.Endpoints → M S unit;
  h_OnEndpointsUpdate : Api.Endpoints → Api.Endpoints → M S unit;
  h_OnEndpointsDelete : Api.Endpoints → M S unit;
  h_OnEndpointsSynced : M S unit;
}.
Arguments h_OnServiceAdd {S}. Arguments h_OnServiceUpdate {S}. Arguments h_OnServiceDelete {S}.
Arguments h_OnServiceSynced {S}. Arguments h_OnEndpointsAdd {S}. Arguments h_OnEndpointsUpdate {S}.
Arguments h_OnEndpointsDelete {S}. Arguments h_OnEndpointsSynced {S}.

Section configs.
Context {S : Type}.

(** The registered handlers, in the order of registration. *)
Record ServiceConfig := { s_eventHandlers : list (ServiceHandler S) }.
Record EndpointsConfig := { e_eventHandlers : list (EndpointsHandler S) }.

Definition service_RegisterEventHandler (h : ServiceHandler S) (c : ServiceConfig) : ServiceConfig :=
  {| s_eventHandlers := s_eventHandlers c ++ [h] |}.
Definition endpoints_RegisterEventHandler (h : EndpointsHandler S) (c : EndpointsConfig) : EndpointsConfig :=
  {| e_eventHandlers := e_eventHandlers c ++ [h] |}.

(** [synced] is what [cache.WaitForCacheSync] gives: false when the stop
    channel is closed first. *)
Definition waitForCacheSync (synced : bool) : bool := if negb synced then false else true.

(** [Run], up to waiting for the stop channel. *)
Definition service_Run (c : ServiceConfig) (synced : bool) : M S unit :=
  if negb (waitForCacheSync synced) then mret tt
  else for_each (s_eventHandlers c) (λ h, h_OnServiceSynced h).
Definition endpoints_Run (c : EndpointsConfig) (synced : bool) : M S unit :=
  if negb (waitForCacheSync synced) then mret tt
  else for_each (e_eventHandlers c) (λ h, h_OnEndpointsSynced h).

(** An unexpected type is logged ([utilruntime.HandleError]) and dropped. *)
Definition handleAddService (c : ServiceConfig) (obj : object) : M S unit :=
  match as_service obj with
  | None => mret tt
  | Some service => for_each (s_eventHandlers c) (λ h, h_OnServiceAdd h service)
  end.
Definition handleUpdateService (c : ServiceConfig) (oldObj newObj : object) : M S unit :=
  match as_service oldObj with
  | None => mret tt
  | Some oldService =>
      match as_service newObj with
      | None => mret tt
      | Some service => for_each (s_eventHandlers c) (λ h, h_OnServiceUpdate h oldService service)
      end
  end.
Definition handleDeleteService (c : ServiceConfig) (obj : object) : M S unit :=
  match deleted as_service obj with
  | None => mret tt
  | Some service => for_each (s_eventHandlers c) (λ h, h_OnServiceDelete h service)
  end.

Definition handleAddEndpoints (c : EndpointsConfig) (obj : object) : M S unit :=
  match as_endpoints obj with
  | None => mret tt
  | Some endpoints => for_each (e_eventHandlers c) (λ h, h_OnEndpointsAdd h endpoints)
  end.
Definition handleUpdateEndpoints (c : EndpointsConfig) (oldObj newObj : object) : M S unit :=
  match as_endpoints oldObj with
  | None => mret tt
  | Some oldEndpoints =>
      match as_endpoints newObj with
      | None => mret tt
      | Some endpoints => for_each (e_eventHandlers c) (λ h, h_OnEndpointsUpdate h oldEndpoints endpoints)
      end
  end.
Definition handleDeleteEndpoints (c : EndpointsConfig) (obj : object) : M S unit :=
  match deleted as_endpoints obj with
  | None => mret tt
  | Some endpoints => for_each (e_eventHandlers c) (λ h, h_OnEndpointsDelete h endpoints)
  end.

(** [cache.ResourceEventHandlerFuncs], whose functions are methods of a config
    [C] (a pointer: they see the handlers registered later), and an informer by
    what was added to it, with the resync periods. *)
Record ResourceEventHandlerFuncs (C : Type) := {
  AddFunc : C → object → M S unit;
  UpdateFunc : C → object → object → M S unit;
  DeleteFunc : C → object → M S unit;
}.
Arguments AddFunc {C}. Arguments UpdateFunc {C}. Arguments DeleteFunc {C}.

Definition SharedInformer (C : Type) : Type := list (ResourceEventHandlerFuncs C * Duration).
Definition AddEventHandlerWithResyncPeriod {C} (h : ResourceEventHandlerFuncs C) (resyncPeriod : Duration)
    (i : SharedInformer C) : SharedInformer C := i ++ [(h, resyncPeriod)].

Definition NewServiceConfig (serviceInformer : SharedInformer ServiceConfig) (resyncPeriod : Duration)
    : ServiceConfig * SharedInformer ServiceConfig :=
  let result := {| s_eventHandlers := [] |} in
  (result, AddEventHandlerWithResyncPeriod
     {| AddFunc := handleAddService; UpdateFunc := handleUpdateService; DeleteFunc := handleDeleteService |}
     resyncPeriod serviceInformer).

Definition NewEndpointsConfig (endpointsInformer : SharedInformer EndpointsConfig) (resyncPeriod : Duration)
    : EndpointsConfig * SharedInformer EndpointsConfig :=
  let result := {| e_eventHandlers := [] |} in
  (result, AddEventHandlerWithResyncPeriod
     {| AddFunc := handleAddEndpoints; UpdateFunc := handleUpdateEndpoints; DeleteFunc := handleDeleteEndpoints |}
     resyncPeriod endpointsInformer).
End configs.
Arguments ServiceConfig : clear implicits.
Arguments EndpointsConfig : clear implicits.
Arguments SharedInformer : clear implicits.
Arguments AddFunc {S C}.
Arguments UpdateFunc {S C}.
Arguments DeleteFunc {S C}.
End Config.
