(* ===== verification/ConfigClaims.v ===== *)
(** * The informer callbacks drive the proxier *)

From S2P Require Import Prelude GoNet GoTime ProxyTypes ChangeTracking Services EndpointsMap Ipvs Host Ports Nodes Proxier Events Config.
Import Proxier Config.
Import Nodes(NodeIPInterface).

(** What reaches the program from outside: the informers' callbacks, the end of
    their initial listing, and the ticks of the sync loop. *)
Inductive notification :=
| NAddService (obj : object)
| NUpdateService (old obj : object)
| NDeleteService (obj : object)
| NServicesListed
| NAddEndpoints (obj : object)
| NUpdateEndpoints (old obj : object)
| NDeleteEndpoints (obj : object)
| NEndpointsListed
| NTick.

(** The event a notification stands for: a deletion carries the object itself
    or, when the informer missed the deletion, a tombstone with the object in
    it; a notification with anything else stands for nothing. *)
Definition event_of (n : notification) : option happening :=
  match n with
  | NAddService (OService o) => Some (EvServiceAdd o)
  | NUpdateService (OService old) (OService o) => Some (EvServiceUpdate old o)
  | NDeleteService (OService old) => Some (EvServiceDelete old)
  | NDeleteService (OTombstone (OService old)) => Some (EvServiceDelete old)
  | NServicesListed => Some EvServiceSynced
  | NAddEndpoints (OEndpoints o) => Some (EvEndpointsAdd o)
  | NUpdateEndpoints (OEndpoints old) (OEndpoints o) => Some (EvEndpointsUpdate old o)
  | NDeleteEndpoints (OEndpoints old) => Some (EvEndpointsDelete old)
  | NDeleteEndpoints (OTombstone (OEndpoints old)) => Some (EvEndpointsDelete old)
  | NEndpointsListed => Some EvEndpointsSynced
  | NTick => Some EvPeriodic
  | _ => None
  end.

Lemma then_ret {S} (c : M S unit) s : (c ;; mret tt) s = c s.
Proof. unfold mbind, M_bind. by destruct (c s) as [[[]|] s']. Qed.

(** ** Any registered handlers *)
Section handlers.
Context {S : Type} (hs : list (ServiceHandler S)) (he : list (EndpointsHandler S)) (tick : M S unit).

(** The handlers are registered one after the other; the informers of the
    factory have no other users, and the resync period does not matter here. *)
Definition serviceConfig : ServiceConfig S :=
  foldl (flip service_RegisterEventHandler) (NewServiceConfig [] 0).1 hs.
Definition endpointsConfig : EndpointsConfig S :=
  foldl (flip endpoints_RegisterEventHandler) (NewEndpointsConfig [] 0).1 he.
Definition serviceInformer : SharedInformer S (ServiceConfig S) := (NewServiceConfig [] 0).2.
Definition endpointsInformer : SharedInformer S (EndpointsConfig S) := (NewEndpointsConfig [] 0).2.

(** An informer calls every function that was added to it. *)
Definition notify_handlers (n : notification) : M S unit :=
  match n with
  | NAddService obj => for_each serviceInformer (λ h, AddFunc h.1 serviceConfig obj)
  | NUpdateService old obj => for_each serviceInformer (λ h, UpdateFunc h.1 serviceConfig old obj)
  | NDeleteService obj => for_each serviceInformer (λ h, DeleteFunc h.1 serviceConfig obj)
  | NServicesListed => service_Run serviceConfig true
  | NAddEndpoints obj => for_each endpointsInformer (λ h, AddFunc h.1 endpointsConfig obj)
  | NUpdateEndpoints old obj => for_each endpointsInformer (λ h, UpdateFunc h.1 endpointsConfig old obj)
  | NDeleteEndpoints obj => for_each endpointsInformer (λ h, DeleteFunc h.1 endpointsConfig obj)
  | NEndpointsListed => endpoints_Run endpointsConfig true
  | NTick => tick
  end.

(** What an event asks of the handlers. *)
Definition dispatch (e : happening) : M S unit :=
  match e with
  | EvServiceAdd o => for_each hs (λ h, h_OnServiceAdd h o)
  | EvServiceUpdate old o => for_each hs (λ h, h_OnServiceUpdate h old o)
  | EvServiceDelete old => for_each hs (λ h, h_OnServiceDelete h old)
  | EvServiceSynced => for_each hs h_OnServiceSynced
  | EvEndpointsAdd o => for_each he (λ h, h_OnEndpointsAdd h o)
  | EvEndpointsUpdate old o => for_each he (λ h, h_OnEndpointsUpdate h old o)
  | EvEndpointsDelete old => for_each he (λ h, h_OnEndpointsDelete h old)
  | EvEndpointsSynced => for_each he h_OnEndpointsSynced
  | EvPeriodic => tick
  end.

Lemma registered_services : s_eventHandlers serviceConfig = hs.
Proof using Type.
  assert (∀ c, s_eventHandlers (foldl (flip service_RegisterEventHandler) c hs) = s_eventHandlers c ++ hs) as H; [|apply H].
  induction hs as [|h l IH]; intros c; simpl; [by rewrite app_nil_r|]. rewrite IH. simpl. by rewrite <-app_assoc.
Qed.
Lemma registered_endpoints : e_eventHandlers endpointsConfig = he.
Proof using Type.
  assert (∀ c, e_eventHandlers (foldl (flip endpoints_RegisterEventHandler) c he) = e_eventHandlers c ++ he) as H; [|apply H].
  induction he as [|h l IH]; intros c; simpl; [by rewrite app_nil_r|]. rewrite IH. simpl. by rewrite <-app_assoc.
Qed.

Lemma notify_dispatch n s :
  notify_handlers n s = match event_of n with Some e => dispatch e s | None => (Ret tt, s) end.
Proof using Type.
  unfold notify_handlers. destruct n as [obj|old obj|obj| |obj|old obj|obj| |]; cbn [for_each serviceInformer endpointsInformer
    NewServiceConfig NewEndpointsConfig snd AddEventHandlerWithResyncPeriod app fst AddFunc UpdateFunc DeleteFunc];
    rewrite ?then_ret; [..|done];
    unfold handleAddService, handleUpdateService, handleDeleteService, service_Run, handleAddEndpoints,
      handleUpdateEndpoints, handleDeleteEndpoints, endpoints_Run, as_service, as_endpoints, deleted;
    rewrite ?registered_services, ?registered_endpoints; try done;
    repeat (case_match; cbn [event_of] in *; simplify_eq); done.
Qed.

(** C27: Whatever handlers are registered with the two configs, a sequence of
    informer callbacks calls exactly the handlers of the events it carries, in
    the order of registration and with the objects delivered: a deletion that
    comes as a tombstone calls [OnServiceDelete] or [OnEndpointsDelete] with the
    object inside, a tombstone of another type, a nested one, or any object of
    the wrong type calls nobody, and a panic of a handler ends the sequence. *)
Theorem notifications_are_events (ns : list notification) (s : S) :
  for_each ns notify_handlers s = for_each (omap event_of ns) dispatch s.
Proof using Type.
  revert s. induction ns as [|n ns IH]; intros s; [done|]. cbn [for_each]. unfold mbind, M_bind.
  rewrite notify_dispatch. simpl. destruct (event_of n) as [e|]; [|apply IH]. cbn [for_each].
  unfold mbind, M_bind. destruct (dispatch e s) as [[[]|] s']; [|done]. apply IH.
Qed.
End handlers.

(** ** The proxier as the only handler *)
Section proxier_handler.
Context {K : Type} `{IF : Interface K} `{MR : MapRange}.
Context `{NI : NodeIPInterface K} `{PO : PortOpener} `{EX : Exec} `{NO : NetOS}.

Definition proxier_services : ServiceHandler (Sys K) := {|
  h_OnServiceAdd := OnServiceAdd; h_OnServiceUpdate := OnServiceUpdate;
  h_OnServiceDelete := OnServiceDelete; h_OnServiceSynced := OnServiceSynced |}.
Definition proxier_endpoints : EndpointsHandler (Sys K) := {|
  h_OnEndpointsAdd := OnEndpointsAdd; h_OnEndpointsUpdate := OnEndpointsUpdate;
  h_OnEndpointsDelete := OnEndpointsDelete; h_OnEndpointsSynced := OnEndpointsSynced |}.

(** As [Run] of the server registers it. *)
Definition notify (n : notification) : M (Sys K) unit :=
  notify_handlers [proxier_services] [proxier_endpoints] syncProxyRules n.

Lemma notify_event n s :
  notify n s = match event_of n with Some e => run_ev e s | None => (Ret tt, s) end.
Proof using Type.
  unfold notify. rewrite notify_dispatch. destruct (event_of n) as [[]|]; simpl; rewrite ?then_ret; done.
Qed.
End proxier_handler.
