(* ===== verification/Version.v ===== *)
(** * Version numbers (pkg/util/version)

    Parsing, printing and comparison of the versions the iptables helpers
    decide on. The two regular expressions are written as the deterministic
    scanners they amount to: their greedy choices are never revised. *)

From S2P Require Import Prelude GoNet Host Strconv.
From Stdlib Require Import Ascii.

Module Version.
Import Strings StringFacts Strconv.

Record Version := {
  components : list Z;                  (* uint: 64 bits *)
  semver : bool;
  preRelease : string;
  buildMetadata : string;
}.

(** ** The regular expressions *)

(** The class [\s]: it has no vertical tab. *)
Definition re_space (c : ascii) : bool :=
  let n := nat_of_ascii c in
  (n =? 32)%nat || (n =? 9)%nat || (n =? 10)%nat || (n =? 12)%nat || (n =? 13)%nat.

Fixpoint skip_spaces (s : string) : string :=
  match s with
  | EmptyString => EmptyString
  | String c s' => if re_space c then skip_spaces s' else s
  end.

(** Letters, digits and the hyphen. *)
Definition ident_char (c : ascii) : bool :=
  let n := nat_of_ascii c in
  is_digit c || ((65 <=? n)%nat && (n <=? 90)%nat) || ((97 <=? n)%nat && (n <=? 122)%nat) || (n =? 45)%nat.

Definition dot : ascii := "."%char.

(** The longest run of [P] and of dots each followed by a [P], and the
    rest. *)
Fixpoint scan_more (P : ascii → bool) (s : string) : string * string :=
  match s with
  | EmptyString => ("", "")
  | String c s' =>
      if P c then let '(m, r) := scan_more P s' in (String c m, r)
      else if decide (c = dot) then
        match s' with
        | String d s'' =>
            if P d then let '(m, r) := scan_more P s'' in (String c (String d m), r) else ("", s)
        | EmptyString => ("", s)
        end
      else ("", s)
  end.

(** Dotted, non-empty runs of [P]. *)
Definition scan_dotted (P : ascii → bool) (s : string) : option (string * string) :=
  match s with
  | EmptyString => None
  | String c s' => if P c then let '(m, r) := scan_more P s' in Some (String c m, r) else None
  end.

(** [versionMatchRE]: spaces, an optional "v", the dotted numbers (first
    group) and anything without a newline to the end (second group). *)
Definition newline : ascii := ascii_of_nat 10.
Definition versionMatchRE (str : string) : option (string * string) :=
  let s := skip_spaces str in
  let s := match s with
           | String c s' => if decide (c = "v"%char) then s' else s
           | EmptyString => s
           end in
  match scan_dotted is_digit s with
  | Some (numbers, extra) => match byteIndex extra newline with
                              | Some _ => None
                              | None => Some (numbers, extra)
                              end
  | None => None
  end.

(** An optional group: [mark] and dotted identifiers. *)
Definition scan_group (mark : ascii) (s : string) : string * string :=
  match s with
  | String c s' =>
      if decide (c = mark) then
        match scan_dotted ident_char s' with
        | Some (m, r) => (m, r)
        | None => ("", s)
        end
      else ("", s)
  | EmptyString => ("", s)
  end.

(** [extraMatchRE]: pre-release and build metadata, then spaces to the end. *)
Definition extraMatchRE (extra : string) : option (string * string) :=
  let '(pre, s) := scan_group "-"%char extra in
  let '(build, s) := scan_group "+"%char s in
  if decide (skip_spaces s = "") then Some (pre, build) else None.

(** ** parse *)
Definition zero_prefixed (comp : string) : bool := HasPrefix comp "0" && negb (bool_decide (comp = "0")).

Fixpoint parse_components (str : string) (semver first : bool) (comps : list string) : result (list Z) :=
  match comps with
  | [] => OK []
  | comp :: comps =>
      if (first || semver) && zero_prefixed comp then
        Err ("illegal zero-prefixed version component " +:+ Quote comp +:+ " in " +:+ Quote str)
      else match ParseUint comp with
           | Err err => Err ("illegal non-numeric version component " +:+ Quote comp +:+ " in " +:+ Quote str +:+
                          ": " +:+ err)
           | OK num =>
               match parse_components str semver false comps with
               | Err err => Err err
               | OK nums => OK (num :: nums)
               end
           end
  end.

(** The numeric identifiers of a pre-release have no leading zeros. *)
Fixpoint check_prerelease (str : string) (comps : list string) : error :=
  match comps with
  | [] => None
  | comp :: comps =>
      match ParseUint comp with
      | OK _ => if zero_prefixed comp then
                  Some ("illegal zero-prefixed version component " +:+ Quote comp +:+ " in " +:+ Quote str)
                else check_prerelease str comps
      | Err _ => check_prerelease str comps
      end
  end.

Definition parse (str : string) (semver : bool) : result Version :=
  match versionMatchRE str with
  | None => Err ("could not parse " +:+ Quote str +:+ " as version")
  | Some (numbers, extra) =>
      let comps := Split numbers dot in
      if (semver && negb (length comps =? 3)%nat) || (negb semver && (length comps <? 2)%nat) then
        Err ("illegal version string " +:+ Quote str)
      else
        match parse_components str semver true comps with
        | Err err => Err err
        | OK nums =>
            let v := {| components := nums; semver := semver; preRelease := ""; buildMetadata := "" |} in
            if semver && negb (bool_decide (extra = "")) then
              match extraMatchRE extra with
              | None => Err ("could not parse pre-release/metadata (" +:+ extra +:+ ") in version " +:+ Quote str)
              | Some (pre, build) =>
                  match check_prerelease str (Split pre dot) with
                  | Some err => Err err
                  | None => OK {| components := nums; semver := semver; preRelease := pre; buildMetadata := build |}
                  end
              end
            else OK v
        end
  end.

Definition ParseGeneric (str : string) : result Version := parse str false.
Definition ParseSemantic (str : string) : result Version := parse str true.
Definition MustParseGeneric {S} (str : string) : M S Version :=
  match ParseGeneric str with OK v => mret v | Err err => panic err end.
Definition MustParseSemantic {S} (str : string) : M S Version :=
  match ParseSemantic str with OK v => mret v | Err err => panic err end.

(** ** Accessors; an index out of range panics. *)
Definition index {S A} (l : list A) (i : nat) : M S A :=
  match l !! i with Some x => mret x | None => panic "index out of range" end.
Definition BuildMetadata (v : Version) : string := buildMetadata v.
Definition PreRelease (v : Version) : string := preRelease v.
Definition Components (v : Version) : list Z := components v.

Definition Major {S} (v : Version) : M S Z := index (components v) 0.
Definition Minor {S} (v : Version) : M S Z := index (components v) 1.
Definition Patch {S} (v : Version) : M S Z :=
  if (length (components v) <? 3)%nat then mret 0%Z else index (components v) 2.

(** ** String *)
Fixpoint join_components (l : list Z) : string :=
  match l with
  | [] => ""
  | [n] => Itoa n
  | n :: l => Itoa n +:+ String dot (join_components l)
  end.

Definition opt_group (mark : ascii) (s : string) : string := if decide (s = "") then "" else String mark s.

Definition extra_String (v : Version) : string :=
  opt_group "-"%char (preRelease v) +:+ opt_group "+"%char (buildMetadata v).

Definition String (v : Version) : string := join_components (components v) +:+ extra_String v.

(** ** Comparison *)

(** The loop over [v.components]; [None] when it ends without an answer. *)
Fixpoint compare_components (vs os : list Z) : option Z :=
  match vs with
  | [] => None
  | a :: vs =>
      match os with
      | [] => if decide (a ≠ 0%Z) then Some 1%Z else compare_components vs []
      | b :: os => if (b <? a)%Z then Some 1%Z
                   else if (a <? b)%Z then Some (-1)%Z
                   else compare_components vs os
      end
  end.

(** Go's [<] on strings compares bytes. *)
Definition str_lt (a b : string) : bool :=
  match String.compare a b with Lt => true | _ => false end.

(** The answer for a pair of pre-release identifiers, if they decide. *)
Definition compare_ident (v o : string) : option Z :=
  let by_string :=
    if str_lt o v then Some 1%Z else if str_lt v o then Some (-1)%Z else None in
  match ParseUint v with
  | OK vNum =>
      match ParseUint o with
      | OK oNum => if (oNum <? vNum)%Z then Some 1%Z else if (vNum <? oNum)%Z then Some (-1)%Z else None
      | Err _ => by_string
      end
  | Err _ => by_string
  end.

Fixpoint compare_prerelease (vPR oPR : list string) : Z :=
  match vPR with
  | [] => 0
  | v :: vPR =>
      match oPR with
      | [] => 1
      | o :: oPR => match compare_ident v o with
                    | Some r => r
                    | None => compare_prerelease vPR oPR
                    end
      end
  end.

Definition compareInternal (v other : Version) : Z :=
  match compare_components (components v) (components other) with
  | Some r => r
  | None =>
      if negb (semver v) || negb (semver other) then 0
      else if bool_decide (preRelease v = "") && negb (bool_decide (preRelease other = "")) then 1
      else if negb (bool_decide (preRelease v = "")) && bool_decide (preRelease other = "") then -1
      else if bool_decide (preRelease v = preRelease other) then 0
      else compare_prerelease (Split (preRelease v) dot) (Split (preRelease other) dot)
  end.

Definition AtLeast (v min : Version) : bool := negb (bool_decide (compareInternal v min = (-1)%Z)).
Definition LessThan (v other : Version) : bool := bool_decide (compareInternal v other = (-1)%Z).
Definition Compare (v : Version) (other : string) : result Z :=
  match parse other (semver v) with
  | Err err => Err err
  | OK ov => OK (compareInternal v ov)
  end.
End Version.
