(* ===== verification/VersionClaims.v ===== *)
(** * Properties of versions: parsing what was printed, and the order. *)

From S2P Require Import Prelude GoNet Host Strconv Version.
From Stdlib Require Import Ascii.
Import Strings StringFacts Strconv Version.

Lemma zero_prefixed_Itoa z : (0 ≤ z)%Z → zero_prefixed (Itoa z) = false.
Proof.
  intros Hz. destruct (decide (z = 0)%Z) as [->|Hne]; [done|].
  rewrite Itoa_N by lia. pose proof (pretty_N_first (Z.to_N z) "" ltac:(lia)) as Hf.
  destruct (pretty_N_go (Z.to_N z) "") as [|c s]; [done|]. unfold zero_prefixed, HasPrefix. cbn [String.prefix].
  by destruct (ascii_dec "0" c) as [<-|].
Qed.

(** ** The scanners *)

(** What ends a dotted run of [P]. *)
Definition stops (P : ascii → bool) (r : string) : Prop :=
  match r with EmptyString => True | String.String c _ => P c = false ∧ c ≠ dot end.

Lemma string_two_ind (P : string → Prop) :
  P "" → (∀ c, P (String.String c "")) →
  (∀ c d s, P s → P (String.String d s) → P (String.String c (String.String d s))) → ∀ s, P s.
Proof.
  intros H0 H1 H2 s. cut (P s ∧ ∀ c, P (String.String c s)); [by intros [? _]|].
  induction s as [|d s [IH1 IH2]]; [done|]. split; [apply IH2|]. intros c. by apply H2.
Qed.

Lemma scan_more_rescan P s m r r' :
  P dot = false → scan_more P s = (m, r) → stops P r' → scan_more P (m +:+ r') = (m, r').
Proof.
  intros Hdot Hs Hr'.
  assert (scan_more P r' = ("", r')) as Hstop.
  { destruct r' as [|c r']; [done|]. destruct Hr' as [Hc Hd]. simpl. rewrite Hc. by rewrite decide_False. }
  revert m r Hs. induction s as [|c|c d s IH1 IH2] using string_two_ind; intros m r.
  - by intros [= <- <-].
  - simpl. destruct (P c) eqn:Ec; [|case_decide; by intros [= <- <-]].
    intros [= <- <-]. rewrite sapp_cons. cbn [scan_more]. rewrite Ec. change ("" +:+ r') with r'. by rewrite Hstop.
  - change (scan_more P (String.String c (String.String d s))) with
      (if P c then let '(m, r) := scan_more P (String.String d s) in (String.String c m, r)
       else if decide (c = dot) then
         if P d then let '(m, r) := scan_more P s in (String.String c (String.String d m), r)
         else ("", String.String c (String.String d s))
       else ("", String.String c (String.String d s))).
    destruct (P c) eqn:Ec.
    + destruct (scan_more P (String.String d s)) as [m1 r1]. intros [= <- <-]. rewrite sapp_cons. cbn [scan_more].
      by rewrite Ec, (IH2 m1 r1).
    + case_decide as Hc; [|by intros [= <- <-]]. destruct (P d) eqn:Ed; [|by intros [= <- <-]].
      destruct (scan_more P s) as [m1 r1]. intros [= <- <-]. rewrite !sapp_cons. cbn [scan_more].
      by rewrite Ec, decide_True, Ed, (IH1 m1 r1).
Qed.

Lemma scan_dotted_rescan P s m r r' :
  P dot = false → scan_dotted P s = Some (m, r) → stops P r' → scan_dotted P (m +:+ r') = Some (m, r').
Proof.
  intros Hdot. destruct s as [|c s]; [done|]. simpl. destruct (P c) eqn:Ec; [|done].
  destruct (scan_more P s) as [m1 r1] eqn:E. intros [= <- <-] Hr'. rewrite sapp_cons. cbn [scan_dotted].
  by rewrite Ec, (scan_more_rescan P s m1 r1).
Qed.

Lemma scan_more_all P s r :
  all P s = true → scan_more P (s +:+ r) = (s +:+ (scan_more P r).1, (scan_more P r).2).
Proof.
  induction s as [|c s IH]; intros Hs; [rewrite !sapp_nil; by destruct (scan_more P r)|].
  apply andb_true_iff in Hs as [Hc Hs]. rewrite !sapp_cons. cbn [scan_more]. by rewrite Hc, IH.
Qed.

(** ** Printed components *)

Definition uints (l : list Z) : Prop := Forall (λ n, 0 ≤ n ≤ max_uint)%Z l.

Lemma digit_not_dot : is_digit dot = false.
Proof. reflexivity. Qed.
Lemma ident_not_dot : ident_char dot = false.
Proof. reflexivity. Qed.

Lemma join_cons n m l : join_components (n :: m :: l) = Itoa n +:+ String.String dot (join_components (m :: l)).
Proof. done. Qed.

Lemma Itoa_split z : (0 ≤ z)%Z → ∃ c s, Itoa z = String.String c s ∧ is_digit c = true ∧ all is_digit s = true.
Proof.
  intros Hz. pose proof (Itoa_digits z Hz) as Hd. pose proof (Itoa_ne z Hz) as Hne.
  destruct (Itoa z) as [|c s]; [done|]. apply andb_true_iff in Hd as [??]. eauto.
Qed.

Lemma join_first n l : (0 ≤ n)%Z → ∃ c s, join_components (n :: l) = String.String c s ∧ is_digit c = true.
Proof.
  intros Hn. destruct (Itoa_split n Hn) as (c & s & E & Hc & _). destruct l as [|k l]; [by exists c, s|].
  exists c, (s +:+ String.String dot (join_components (k :: l))). split; [|done]. by rewrite join_cons, E.
Qed.

Lemma scan_join_more l n rest :
  uints (n :: l) → stops is_digit rest →
  scan_more is_digit (join_components (n :: l) +:+ rest) = (join_components (n :: l), rest).
Proof.
  intros Hu Hr. revert n Hu. induction l as [|m l IH]; intros n Hu; apply Forall_cons in Hu as [Hn Hl].
  - cbn [join_components]. rewrite scan_more_all by (apply Itoa_digits; lia).
    assert (scan_more is_digit rest = ("", rest)) as ->; [|by rewrite string_app_nil_r].
    destruct rest as [|c r]; [done|]. destruct Hr as [Hc Hd]. cbn [scan_more]. by rewrite Hc, decide_False.
  - rewrite join_cons, <-sapp_assoc, sapp_cons. rewrite scan_more_all by (apply Itoa_digits; lia).
    specialize (IH m Hl). apply Forall_cons in Hl as [Hm Hl].
    destruct (join_first m l ltac:(lia)) as (c & s & E & Hc).
    rewrite E in *. rewrite sapp_cons in *. cbn [scan_more] in IH |- *. rewrite Hc in *.
    rewrite digit_not_dot, decide_True by done.
    destruct (scan_more is_digit (s +:+ rest)) as [m1 r1]. by injection IH as -> ->.
Qed.

Lemma scan_join l rest :
  l ≠ [] → uints l → stops is_digit rest →
  scan_dotted is_digit (join_components l +:+ rest) = Some (join_components l, rest).
Proof.
  intros Hne Hl Hr. destruct l as [|n l]; [done|]. pose proof (scan_join_more l n rest Hl Hr) as H.
  apply Forall_cons in Hl as [Hn _]. destruct (join_first n l ltac:(lia)) as (c & s & E & Hc).
  rewrite E in *. rewrite sapp_cons in *. cbn [scan_dotted scan_more] in *. rewrite Hc in *.
  destruct (scan_more is_digit (s +:+ rest)) as [m1 r1]. by injection H as -> ->.
Qed.

Lemma Split_none s sep : byteIndex s sep = None → Split s sep = [s].
Proof.
  induction s as [|c s IH]; [done|]. simpl. case_decide; [done|]. intros Hs.
  rewrite IH; [done|]. by destruct (byteIndex s sep).
Qed.
Lemma Split_app s sep r : byteIndex s sep = None → Split (s +:+ String.String sep r) sep = s :: Split r sep.
Proof.
  induction s as [|c s IH]; intros Hs; rewrite ?sapp_nil, ?sapp_cons; cbn [Split].
  - by rewrite decide_True.
  - cbn [byteIndex] in Hs. case_decide; [done|]. rewrite IH; [done|]. by destruct (byteIndex s sep).
Qed.

Lemma Split_join l : l ≠ [] → uints l → Split (join_components l) dot = Itoa <$> l.
Proof.
  induction l as [|n l IH]; [done|]. intros _ [Hn Hl]%Forall_cons.
  assert (byteIndex (Itoa n) dot = None) as Hb by (apply Itoa_no_char; [lia|apply digit_not_dot]).
  destruct l as [|m l]; [by apply Split_none|]. rewrite join_cons, Split_app by done. by rewrite IH.
Qed.

Lemma parse_components_Itoa str sv first l :
  uints l → parse_components str sv first (Itoa <$> l) = OK l.
Proof.
  revert first. induction l as [|n l IH]; intros first Hu; [done|]. apply Forall_cons in Hu as [Hn Hl].
  rewrite fmap_cons. cbn [parse_components]. rewrite zero_prefixed_Itoa, andb_false_r by lia.
  by rewrite ParseUint_Itoa, IH.
Qed.

Lemma parse_components_inv str sv first comps nums :
  parse_components str sv first comps = OK nums → uints nums ∧ length nums = length comps.
Proof.
  revert first nums. induction comps as [|c comps IH]; intros first nums; simpl; [intros [= <-]; by split; [constructor|]|].
  case_match; [done|]. destruct (ParseUint c) as [n|] eqn:En; [|done].
  destruct (parse_components str sv false comps) as [ns|] eqn:Ec; [|done]. intros [= <-].
  destruct (IH _ _ Ec) as [Hu Hl]. split; [|simpl; by rewrite Hl]. constructor; [|done]. by eapply ParseUint_range.
Qed.

(** ** Printed pre-release and metadata *)

(** Empty, or what the scanner of dotted identifiers can return. *)
Definition extra_ok (s : string) : Prop := s = "" ∨ ∃ s0 r, scan_dotted ident_char s0 = Some (s, r).

Lemma scan_group_ok mark s : extra_ok (scan_group mark s).1.
Proof.
  destruct s as [|c s]; [by left|]. simpl. case_decide; [|by left].
  destruct (scan_dotted ident_char s) as [[m r]|] eqn:E; [|by left]. right. by exists s, r.
Qed.

Lemma scan_group_print mark s r :
  extra_ok s → stops ident_char r → (∀ c r', r = String.String c r' → c ≠ mark) →
  scan_group mark (opt_group mark s +:+ r) = (s, r).
Proof.
  intros Hs Hr Hm. unfold opt_group. case_decide as E.
  - subst. rewrite sapp_nil. destruct r as [|c r]; [done|]. simpl. rewrite decide_False; [done|]. by eapply Hm.
  - destruct Hs as [?|(s0 & r0 & Hs)]; [done|]. rewrite sapp_cons. cbn [scan_group]. rewrite decide_True by done.
    by rewrite (scan_dotted_rescan _ _ _ _ _ ident_not_dot Hs Hr).
Qed.

Lemma scan_more_chars P s m r :
  scan_more P s = (m, r) → all (λ c, P c || bool_decide (c = dot)) m = true.
Proof.
  revert m r. induction s as [|c|c d s IH1 IH2] using string_two_ind; intros m r.
  - by intros [= <- <-].
  - simpl. destruct (P c) eqn:Ec; [|case_decide; by intros [= <- <-]]. intros [= <- <-]. simpl. by rewrite Ec.
  - cbn [scan_more]. destruct (P c) eqn:Ec.
    + fold (scan_more P (String.String d s)). cbn [scan_more] in IH2. intros H.
      match type of H with (let '(_, _) := ?x in _) = _ => destruct x as [m1 r1] eqn:E1 end.
      injection H as <- <-. cbn [all]. rewrite Ec. by rewrite (IH2 m1 r1).
    + case_decide as Hc; [|by intros [= <- <-]]. destruct (P d) eqn:Ed; [|by intros [= <- <-]].
      destruct (scan_more P s) as [m1 r1] eqn:E1. intros [= <- <-]. cbn [all].
      rewrite Ec, Ed, bool_decide_true by done. by rewrite (IH1 m1 r1).
Qed.

Lemma extra_ok_no_char s c : extra_ok s → ident_char c = false → c ≠ dot → byteIndex s c = None.
Proof.
  intros [->|(s0 & r & Hs)] Hc Hd; [done|]. apply byteIndex_None_all.
  eapply (all_impl (λ c, ident_char c || bool_decide (c = dot))).
  - intros d [Hi|Hi%bool_decide_eq_true_1]%orb_true_iff; (case_bool_decide; [congruence|done]).
  - destruct s0 as [|d s0]; [done|]. simpl in Hs. destruct (ident_char d) eqn:E; [|done].
    destruct (scan_more ident_char s0) as [m1 r1] eqn:E1. injection Hs as <- <-. cbn [all]. rewrite E.
    by rewrite (scan_more_chars _ _ _ _ E1).
Qed.

Lemma check_prerelease_str str str' comps : check_prerelease str comps = None → check_prerelease str' comps = None.
Proof. induction comps as [|c comps IH]; [done|]. simpl. by repeat case_match. Qed.

(** ** The round trip *)

(** What [parse] guarantees of the version it returns. *)
Record parsed (sv : bool) (v : Version) : Prop := {
  p_semver : semver v = sv;
  p_uints : uints (components v);
  p_length : if sv then length (components v) = 3%nat else (2 ≤ length (components v))%nat;
  p_pre : extra_ok (preRelease v);
  p_build : extra_ok (buildMetadata v);
  p_check str : check_prerelease str (Split (preRelease v) dot) = None;
  p_generic : sv = false → preRelease v = "" ∧ buildMetadata v = "";
}.

Lemma parse_inv str sv v : parse str sv = OK v → parsed sv v.
Proof.
  unfold parse. destruct (versionMatchRE str) as [[numbers extra]|]; [|done].
  destruct (_ || _) eqn:Elen; [done|].
  destruct (parse_components str sv true _) as [nums|] eqn:Ec; [|done].
  apply parse_components_inv in Ec as [Hu Hl]. rewrite <-Hl in Elen. apply orb_false_iff in Elen as [H3 H2].
  assert (if sv then length nums = 3%nat else (2 ≤ length nums)%nat) as Hlen.
  { destruct sv; simpl in *.
    - by apply negb_false_iff, Nat.eqb_eq in H3.
    - by apply Nat.ltb_ge in H2. }
  destruct (sv && negb (bool_decide (extra = ""))) eqn:Ex.
  - apply andb_true_iff in Ex as [Hsv _]. unfold extraMatchRE.
    pose proof (scan_group_ok "-" extra) as Hp. destruct (scan_group "-" extra) as [pre s1].
    pose proof (scan_group_ok "+" s1) as Hb. destruct (scan_group "+" s1) as [build s2].
    case_decide; [|done]. destruct (check_prerelease str (Split pre dot)) eqn:Ech; [done|]. intros [= <-].
    split; simpl; try done; [intros str'; by eapply check_prerelease_str|congruence].
  - intros [= <-]. split; simpl; try done; by left.
Qed.

Lemma newline_extra v : extra_ok (preRelease v) → extra_ok (buildMetadata v) → byteIndex (extra_String v) newline = None.
Proof.
  intros Hp Hb. unfold extra_String.
  assert (∀ m s, m ≠ newline → extra_ok s → byteIndex (opt_group m s) newline = None) as H.
  { intros m s Hm Hs. unfold opt_group. case_decide; [done|]. cbn [byteIndex]. rewrite decide_False by done.
    by rewrite extra_ok_no_char. }
  rewrite byteIndex_app_None by by apply H. by rewrite H.
Qed.

Lemma extraMatchRE_print v :
  extra_ok (preRelease v) → extra_ok (buildMetadata v) →
  extraMatchRE (extra_String v) = Some (preRelease v, buildMetadata v).
Proof.
  intros Hp Hb. unfold extraMatchRE, extra_String.
  assert (stops ident_char (opt_group "+" (buildMetadata v))) as Hst by (unfold opt_group; by case_decide).
  rewrite (scan_group_print "-" _ _ Hp Hst).
  2: { unfold opt_group. case_decide; [done|]. by intros c r [= <- _]. }
  rewrite <-(string_app_nil_r (opt_group "+" _)).
  by rewrite (scan_group_print "+" _ "" Hb).
Qed.

Lemma versionMatchRE_print v :
  components v ≠ [] → uints (components v) → extra_ok (preRelease v) → extra_ok (buildMetadata v) →
  versionMatchRE (String v) = Some (join_components (components v), extra_String v).
Proof.
  intros Hne Hu Hp Hb. unfold versionMatchRE, String.
  assert (stops is_digit (extra_String v)) as Hst by (unfold extra_String, opt_group; by repeat case_decide).
  assert (∃ c s, join_components (components v) = String.String c s ∧ is_digit c = true) as (c & s & E & Hc).
  { destruct (components v) as [|n l]; [done|]. apply join_first. by apply Forall_cons in Hu as [? _]; lia. }
  assert (skip_spaces (join_components (components v) +:+ extra_String v) = join_components (components v) +:+ extra_String v
    ∧ c ≠ "v"%char) as [-> Hv].
  { rewrite E, sapp_cons. cbn [skip_spaces]. split; [|by intros ->].
    destruct (re_space c) eqn:Es; [|done]. exfalso. unfold is_digit in Hc. apply bool_decide_eq_true_1 in Hc as [d Hd].
    unfold Net.digit_val in Hd. unfold re_space in Es. case_match eqn:H1; [|done].
    apply andb_true_iff in H1 as [?%Z.leb_le ?%Z.leb_le].
    repeat (apply orb_true_iff in Es as [Es|Es]); apply Nat.eqb_eq in Es; lia. }
  pose proof (scan_join _ (extra_String v) Hne Hu Hst) as Hscan. rewrite E, sapp_cons in *.
  rewrite decide_False by done. rewrite Hscan. by rewrite newline_extra.
Qed.

(** C32: Printing is a right inverse of parsing: whatever string a version was
    parsed from (with spaces, a leading "v", leading zeros or trailing data),
    generic or semantic, its [String] parses to the same version. *)
Theorem parse_String (str : string) (sv : bool) (v : Version) :
  parse str sv = OK v → parse (String v) sv = OK v.
Proof.
  intros Hparse. apply parse_inv in Hparse as [Hsv Hu Hlen Hp Hb Hch Hgen].
  assert (components v ≠ []) as Hne by (intros E; rewrite E in Hlen; by destruct sv; simpl in Hlen; lia).
  unfold parse. rewrite versionMatchRE_print, Split_join, length_fmap by done.
  replace (_ || _) with false; [|symmetry].
  2: { destruct sv; simpl in *; [by rewrite Hlen|]. apply Nat.ltb_ge. lia. }
  rewrite parse_components_Itoa by done. destruct v as [ns sv' pre build]. simpl in *. subst sv'.
  destruct sv; [|by destruct (Hgen eq_refl) as [-> ->]]. case_bool_decide as Hx.
  - unfold extra_String, opt_group in Hx. simpl in Hx. by repeat case_decide; subst.
  - simpl. rewrite extraMatchRE_print by done. simpl. by rewrite Hch.
Qed.

Definition ex_version : Version := {| components := [1; 4; 21]%Z; semver := true; preRelease := "alpha.1";
  buildMetadata := "b-7" |}.

Lemma parse_String_witness :
  parse " v1.4.21-alpha.1+b-7 " true = OK ex_version ∧ parse (String ex_version) true = OK ex_version.
Proof.
  split; [vm_compute; reflexivity|].
  apply (parse_String " v1.4.21-alpha.1+b-7 "). vm_compute. reflexivity.
Defined.

(** ** The order on numeric components *)

(** The first position at which two sequences differ, the shorter continued
    with zeros. *)
Definition component (l : list Z) (i : nat) : Z := default 0%Z (l !! i).
Definition differ_first (vs os : list Z) (i : nat) : Prop :=
  (i < length vs)%nat ∧ component vs i ≠ component os i ∧ ∀ j, (j < i)%nat → component vs j = component os j.

Lemma differ_first_cons a b vs os i :
  a = b → differ_first vs os i → differ_first (a :: vs) (b :: os) (S i).
Proof.
  intros -> (Hi & Hd & He). split; [simpl; lia|]. split; [done|]. intros [|j] Hj; [done|]. apply He. lia.
Qed.

Lemma differ_first_nil a vs i : a = 0%Z → differ_first vs [] i → differ_first (a :: vs) [] (S i).
Proof.
  intros -> (Hi & Hd & He). split; [simpl; lia|]. split; [done|]. intros [|j] Hj; [done|].
  etrans; [apply (He j)|done]. lia.
Qed.

Lemma differ_first_here a vs os : a ≠ component os 0 → differ_first (a :: vs) os 0.
Proof. intros Ha. split; [simpl; lia|]. split; [done|]. intros j. lia. Qed.

Lemma compare_components_spec vs os :
  Forall (λ n, 0 ≤ n)%Z vs →
  match compare_components vs os with
  | Some r => ∃ i, differ_first vs os i ∧ r = if (component os i <? component vs i)%Z then 1%Z else (-1)%Z
  | None => ∀ i, (i < length vs)%nat → component vs i = component os i
  end.
Proof.
  intros Hvs. revert os. induction Hvs as [|a vs Ha Hvs IH]; intros os; [simpl; lia|]. cbn [compare_components].
  destruct os as [|b os].
  - case_decide as Hz.
    + exists 0%nat. split; [by apply differ_first_here|]. change (1%Z = if (0 <? a)%Z then 1%Z else (-1)%Z). by destruct (Z.ltb_spec 0 a); [|lia].
    + specialize (IH []). destruct (compare_components vs []) as [r|].
      * destruct IH as (i & Hi & ->). exists (S i). split; [by apply differ_first_nil|done].
      * intros [|i] Hi; [done|]. etrans; [apply (IH i)|done]. simpl in Hi. lia.
  - destruct (Z.ltb_spec b a).
    + exists 0%nat. split; [apply differ_first_here; unfold component; simpl; lia|]. change (1%Z = if (b <? a)%Z then 1%Z else (-1)%Z). by destruct (Z.ltb_spec b a); [|lia].
    + destruct (Z.ltb_spec a b).
      * exists 0%nat. split; [apply differ_first_here; unfold component; simpl; lia|]. change ((-1)%Z = if (b <? a)%Z then 1%Z else (-1)%Z). by destruct (Z.ltb_spec b a); [lia|].
      * assert (a = b) as <- by lia. specialize (IH os). destruct (compare_components vs os) as [r|].
        -- destruct IH as (i & Hi & ->). exists (S i). split; [by apply differ_first_cons|done].
        -- intros [|i] Hi; [done|]. apply (IH i). simpl in Hi. lia.
Qed.

Lemma differ_first_unique vs os i j : differ_first vs os i → differ_first vs os j → i = j.
Proof.
  intros (_ & Hi & Hie) (_ & Hj & Hje). destruct (lt_eq_lt_dec i j) as [[?|?]|?]; [|done|].
  - by destruct Hi; apply Hje.
  - by destruct Hj; apply Hie.
Qed.

(** C33: Comparing two versions of which one is generic looks at the numeric
    components of the receiver only: the result is decided by the first of them
    that differs from the other version's, one that the other version has not
    counting as 0, and is 0 when there is none. The other version's further
    components are not looked at, so 1.4 compares as equal to 1.4.11, though
    1.4.11 compares as greater than 1.4; the comments on [AtLeast] and [Compare]
    say that absent components count as 0, which would make 1.4 the lesser. *)
Theorem compare_generic (v o : Version) :
  uints (components v) → semver v && semver o = false →
  let differ := differ_first (components v) (components o) in
  (compareInternal v o = 1%Z ↔ ∃ i, differ i ∧ (component (components o) i < component (components v) i)%Z) ∧
  (compareInternal v o = (-1)%Z ↔ ∃ i, differ i ∧ (component (components v) i < component (components o) i)%Z) ∧
  (compareInternal v o = 0%Z ↔
     ∀ i, (i < length (components v))%nat → component (components v) i = component (components o) i).
Proof.
  intros Hu Hsv differ. assert (Forall (λ n, 0 ≤ n)%Z (components v)) as Hn.
  { eapply Forall_impl; [exact Hu|]. simpl. lia. }
  pose proof (compare_components_spec (components v) (components o) Hn) as Hc. unfold compareInternal.
  destruct (compare_components (components v) (components o)) as [r|].
  - destruct Hc as (i & Hi & Hr). pose proof Hi as (Hl & Hne & _).
    assert (∀ j, differ j → j = i) as Huniq by (intros j Hj; by eapply differ_first_unique).
    destruct (Z.ltb_spec (component (components o) i) (component (components v) i)); subst r; split_and!; split;
      try done; try (intros _; exists i; split; [done|lia]).
    all: try (intros (j & Hj%Huniq & ?); subst; lia). all: intros H'; by destruct Hne; apply H'.
  - assert (negb (semver v) || negb (semver o) = true) as -> by (by rewrite <-negb_andb, Hsv).
    split_and!; split; try done; intros (i & (Hl & Hne & _) & _); by destruct Hne; apply Hc.
Qed.

Lemma compare_generic_witness :
  let v := {| components := [1; 4; 21]%Z; semver := false; preRelease := ""; buildMetadata := "" |} in
  let o := {| components := [1; 6]%Z; semver := false; preRelease := ""; buildMetadata := "" |} in
  compareInternal v o = (-1)%Z ↔
    ∃ i, differ_first [1; 4; 21]%Z [1; 6]%Z i ∧ (component [1; 4; 21]%Z i < component [1; 6]%Z i)%Z.
Proof.
  intros v o. apply (compare_generic v o); [|reflexivity].
  repeat constructor; unfold max_uint; simpl; lia.
Defined.

(** The components of the minimum that the version does not have are not
    looked at: a generic version counts as at least any version that continues
    it, contrary to the documented reading of absent components as 0. *)
Theorem AtLeast_ignores_longer (v min : Version) (more : list Z) :
  semver v && semver min = false → components min = components v ++ more → AtLeast v min = true.
Proof.
  intros Hsv Hmin. unfold AtLeast, compareInternal.
  assert (∀ l, compare_components l (l ++ more) = None) as Hl.
  { induction l as [|a l IH]; [done|]. simpl. by rewrite Z.ltb_irrefl. }
  rewrite Hmin, Hl. assert (negb (semver v) || negb (semver min) = true) as -> by (by rewrite <-negb_andb, Hsv).
  done.
Qed.

Lemma AtLeast_ignores_longer_witness :
  let v := {| components := [1; 4]%Z; semver := false; preRelease := ""; buildMetadata := "" |} in
  let min := {| components := [1; 4; 11]%Z; semver := false; preRelease := ""; buildMetadata := "" |} in
  ParseGeneric "1.4" = OK v ∧ ParseGeneric "1.4.11" = OK min ∧ AtLeast v min = true.
Proof.
  split; [vm_compute; reflexivity|]. split; [vm_compute; reflexivity|].
  apply (AtLeast_ignores_longer _ _ [11%Z]); reflexivity.
Defined.
