(* ===== verification/GoIptables.v ===== *)
(** * go-iptables (pkg/util/coreos/go-iptables)

    The commands run to read and change the iptables rules. The iptables
    binary and the system calls on its lock file are parameters ([Netfilter]);
    the error of a command that ran keeps its exit status. *)

From S2P Require Import Prelude GoNet Host Strconv.
From Stdlib Require Import Ascii.

Module GoIptables.
Import Strings Strconv.

(** How [exec.Cmd.Run] ends. *)
Inductive run_result :=
| Ran (stdout : string)
| Exited (status : Z) (stderr : string)     (* *exec.ExitError *)
| NotRun (err : string).                    (* any other error *)

(** The result of [syscall.Flock]. *)
Inductive flock_result := Locked | WouldBlock | FlockErr (err : string).

Class Netfilter (N : Type) := {
  nf_LookPath : string → M N (result string);
  nf_Run : string → list string → M N run_result;      (* Args without the program's name *)
  sys_OpenLock : M N (result Z);                         (* syscall.Open(xtablesLockFilePath, O_CREATE, 0600) *)
  sys_Flock : Z → M N flock_result;                      (* LOCK_EX|LOCK_NB *)
  sys_Close : Z → M N error;
}.

(** The errors of this package: [*Error], or an error from elsewhere. *)
Inductive ipt_err :=
| ExitErr (status : Z) (msg : string)
| OtherErr (msg : string).

Definition Error (e : ipt_err) : string :=
  match e with
  | ExitErr status msg => "exit status " +:+ Itoa status +:+ ": " +:+ msg
  | OtherErr msg => msg
  end.
Abbreviation ierror := (option ipt_err).

Inductive ires (A : Type) := IOK (a : A) | IErr (e : ipt_err).
Arguments IOK {A} a.
Arguments IErr {A} e.

Inductive Protocol := ProtocolIPv4 | ProtocolIPv6.

Record IPTables := { path : string; proto : Protocol; hasCheck : bool; hasWait : bool }.

(** ** Versions *)

Fixpoint span_digits (s : string) : string * string :=
  match s with
  | String c s' => if StringFacts.is_digit c then let '(m, r) := span_digits s' in (String c m, r) else ("", s)
  | EmptyString => ("", "")
  end.

(** One number of the pattern, not empty. *)
Definition number (s : string) : option (string * string) :=
  let '(m, r) := span_digits s in if decide (m = "") then None else Some (m, r).
Definition after (c : ascii) (s : string) : option string :=
  match s with String d s' => if decide (d = c) then Some s' else None | EmptyString => None end.

(** The pattern v<n>.<n>.<n> at the start of [s]. *)
Definition match_version (s : string) : option (string * string * string) :=
  s ← after "v" s; '(v1, s) ← number s; s ← after "." s; '(v2, s) ← number s;
  s ← after "." s; '(v3, _) ← number s; Some (v1, v2, v3).

(** [FindStringSubmatch]: the leftmost match. *)
Fixpoint find_version (s : string) : option (string * string * string) :=
  match match_version s with
  | Some m => Some m
  | None => match s with String _ s' => find_version s' | EmptyString => None end
  end.

Definition extractIptablesVersion (str : string) : result (Z * Z * Z) :=
  match find_version str with
  | None => Err ("no iptables version found in string: " +:+ str)
  | Some (r1, r2, r3) =>
      match Atoi r1 with
      | Err err => Err err
      | OK v1 =>
          match Atoi r2 with
          | Err err => Err err
          | OK v2 =>
              match Atoi r3 with
              | Err err => Err err
              | OK v3 => OK (v1, v2, v3)
              end
          end
      end
  end.

Definition iptablesHasCheckCommand (v1 v2 v3 : Z) : bool :=
  if (1 <? v1)%Z then true
  else if (v1 =? 1)%Z && (4 <? v2)%Z then true
  else if (v1 =? 1)%Z && (v2 =? 4)%Z && (11 <=? v3)%Z then true
  else false.

Definition iptablesHasWaitCommand (v1 v2 v3 : Z) : bool :=
  if (1 <? v1)%Z then true
  else if (v1 =? 1)%Z && (4 <? v2)%Z then true
  else if (v1 =? 1)%Z && (v2 =? 4)%Z && (20 <=? v3)%Z then true
  else false.

Definition getIptablesCommand (proto : Protocol) : string :=
  match proto with ProtocolIPv6 => "ip6tables" | ProtocolIPv4 => "iptables" end.

Section commands.
Context {N : Type} `{NF : Netfilter N}.

(** [exec.Cmd.Run]'s error as text. *)
Definition run_error (r : run_result) : result string :=
  match r with
  | Ran out => OK out
  | Exited status _ => Err ("exit status " +:+ Itoa status)
  | NotRun err => Err err
  end.

Definition getIptablesVersionString (path : string) : M N (result string) :=
  r ← nf_Run path ["--version"]; mret (run_error r).

Definition getIptablesCommandSupport (path : string) : M N (result (bool * bool)) :=
  r ← getIptablesVersionString path;
  mret (match r with
        | Err err => Err err
        | OK vstring =>
            match extractIptablesVersion vstring with
            | Err err => Err err
            | OK (v1, v2, v3) => OK (iptablesHasCheckCommand v1 v2 v3, iptablesHasWaitCommand v1 v2 v3)
            end
        end).

Definition NewWithProtocol (proto : Protocol) : M N (result IPTables) :=
  r ← nf_LookPath (getIptablesCommand proto);
  match r with
  | Err err => mret (Err err)
  | OK path =>
      r ← getIptablesCommandSupport path;
      mret (match r with
            | Err err => Err ("error checking iptables version: " +:+ err)
            | OK (checkPresent, waitPresent) =>
                OK {| path := path; proto := proto; hasCheck := checkPresent; hasWait := waitPresent |}
            end)
  end.

Definition New : M N (result IPTables) := NewWithProtocol ProtocolIPv4.

Definition Proto (ipt : IPTables) : Protocol := proto ipt.

(** ** The lock file *)
Definition newXtablesFileLock : M N (result Z) := sys_OpenLock.

(** [Some fd] is the lock itself as its unlocker, [None] the one that does
    nothing. *)
Definition tryLock (fd : Z) : M N (result (option Z)) :=
  r ← sys_Flock fd;
  mret (match r with
        | WouldBlock => OK None
        | Locked => OK (Some fd)
        | FlockErr err => Err err
        end).

Definition Unlock (ul : option Z) : M N error :=
  match ul with
  | Some fd => sys_Close fd
  | None => mret None
  end.

(** ** Running commands *)

(** The command itself: an error that is not an [*exec.ExitError] fails the
    type assertion. *)
Definition run_command (ipt : IPTables) (args : list string) : M N (ires string) :=
  r ← nf_Run (path ipt) args;
  match r with
  | Ran out => mret (IOK out)
  | Exited status stderr => mret (IErr (ExitErr status stderr))
  | NotRun err => panic "interface conversion: error is not *exec.ExitError"
  end.

Definition runWithOutput (ipt : IPTables) (args : list string) : M N (ires string) :=
  if hasWait ipt then run_command ipt (args ++ ["--wait"])
  else                                   (* a panic ends the process, and with it the lock *)
    fmu ← newXtablesFileLock;
    match fmu with
    | Err err => mret (IErr (OtherErr err))
    | OK fmu =>
        ul ← tryLock fmu;
        match ul with
        | Err err => mret (IErr (OtherErr err))
        | OK ul => r ← run_command ipt args; Unlock ul ;; mret r
        end
    end.

Definition run (ipt : IPTables) (args : list string) : M N ierror :=
  r ← runWithOutput ipt args;
  mret (match r with IOK _ => None | IErr e => Some e end).

Definition existsForOldIptables (ipt : IPTables) (table chain : string) (rulespec : list string)
    : M N (ires bool) :=
  let rs := String.concat " " (["-A"; chain] ++ rulespec) in
  r ← runWithOutput ipt ["-t"; table; "-S"];
  mret (match r with IErr e => IErr e | IOK out => IOK (Contains out rs) end).

Definition Exists (ipt : IPTables) (table chain : string) (rulespec : list string) : M N (ires bool) :=
  if negb (hasCheck ipt) then existsForOldIptables ipt table chain rulespec
  else
    err ← run ipt (["-t"; table; "-C"; chain] ++ rulespec);
    mret (match err with
          | None => IOK true
          | Some (ExitErr status msg) =>
              if decide (status = 1%Z) then IOK false else IErr (ExitErr status msg)
          | Some e => IErr e
          end).

Definition Insert (ipt : IPTables) (table chain : string) (pos : Z) (rulespec : list string) : M N ierror :=
  run ipt (["-t"; table; "-I"; chain; Itoa pos] ++ rulespec).
Definition Append (ipt : IPTables) (table chain : string) (rulespec : list string) : M N ierror :=
  run ipt (["-t"; table; "-A"; chain] ++ rulespec).
Definition Prepend (ipt : IPTables) (table chain : string) (rulespec : list string) : M N ierror :=
  run ipt (["-t"; table; "-I"; chain] ++ rulespec).

Definition AppendUnique (ipt : IPTables) (table chain : string) (rulespec : list string) : M N ierror :=
  r ← Exists ipt table chain rulespec;
  match r with
  | IErr e => mret (Some e)
  | IOK true => mret None
  | IOK false => Append ipt table chain rulespec
  end.
Definition PrependUnique (ipt : IPTables) (table chain : string) (rulespec : list string) : M N ierror :=
  r ← Exists ipt table chain rulespec;
  match r with
  | IErr e => mret (Some e)
  | IOK true => mret None
  | IOK false => Prepend ipt table chain rulespec
  end.

Definition Delete (ipt : IPTables) (table chain : string) (rulespec : list string) : M N ierror :=
  run ipt (["-t"; table; "-D"; chain] ++ rulespec).

(** The lines of the output, without the empty one after the last newline. *)
Definition output_lines (out : string) : list string :=
  let rules := Split out (ascii_of_nat 10) in
  match list.last rules with
  | Some "" => firstn (length rules - 1) rules
  | _ => rules
  end.

Definition executeList (ipt : IPTables) (args : list string) : M N (ires (list string)) :=
  r ← runWithOutput ipt args;
  mret (match r with IErr e => IErr e | IOK out => IOK (output_lines out) end).

Definition List (ipt : IPTables) (table chain : string) : M N (ires (list string)) :=
  executeList ipt ["-t"; table; "-S"; chain].

(** [strings.Fields]: the words between runs of spaces. *)
Fixpoint fields_go (s word : string) : list string :=
  match s with
  | EmptyString => if decide (word = "") then [] else [word]
  | String c s =>
      if is_space c then (if decide (word = "") then fields_go s "" else word :: fields_go s "")
      else fields_go s (word +:+ String c "")
  end.
Definition Fields (s : string) : list string := fields_go s "".

Fixpoint chain_names (lines : list string) : M N (list string) :=
  match lines with
  | [] => mret []
  | val :: lines =>
      if HasPrefix val "-P" || HasPrefix val "-N" then
        match Fields val !! 1%nat with
        | None => panic "index out of range"
        | Some name => rest ← chain_names lines; mret (name :: rest)
        end
      else mret []
  end.
Definition ListChains (ipt : IPTables) (table : string) : M N (ires (list string)) :=
  r ← executeList ipt ["-t"; table; "-S"];
  match r with
  | IErr e => mret (IErr e)
  | IOK lines => chains ← chain_names lines; mret (IOK chains)
  end.

Definition NewChain (ipt : IPTables) (table chain : string) : M N ierror := run ipt ["-t"; table; "-N"; chain].
Definition ClearChain (ipt : IPTables) (table chain : string) : M N ierror :=
  err ← NewChain ipt table chain;
  match err with
  | Some (ExitErr 1 _) => run ipt ["-t"; table; "-F"; chain]
  | _ => mret err
  end.
Definition RenameChain (ipt : IPTables) (table oldChain newChain : string) : M N ierror :=
  run ipt ["-t"; table; "-E"; oldChain; newChain].
Definition DeleteChain (ipt : IPTables) (table chain : string) : M N ierror := run ipt ["-t"; table; "-X"; chain].
End commands.
End GoIptables.
