(* ===== verification/IptablesFacts.v ===== *)
(** * What go-iptables relies on, and what it gives back

    The documented behaviour of the iptables commands the proxy runs, as a
    contract over the rules of each chain, and the rule operations of
    [GoIptables] under it. *)

From S2P Require Import Prelude GoNet Host Strconv GoIptables.
From Stdlib Require Import Ascii.
Import GoIptables.

Abbreviation rule := (list string).

(** A rule specification starts with an option or a negation, so it is not
    taken for a rule number, and does not have the option of the program. *)
Definition rule_spec (r : rule) : bool :=
  match r with
  | a :: _ => (Strings.HasPrefix a "-" || Strings.HasPrefix a "!") && negb (bool_decide ("--wait" ∈ r))
  | [] => false
  end.

(** The option runs end with, if any. *)
Definition wait_args (w : bool) : list string := if w then ["--wait"] else [].

(** ** Version strings *)
Definition no_digit_first (s : string) : Prop :=
  match s with EmptyString => True | String c _ => StringFacts.is_digit c = false end.

Lemma span_digits_app d r :
  StringFacts.all StringFacts.is_digit d = true → no_digit_first r → span_digits (d +:+ r) = (d, r).
Proof.
  intros Hd Hr. induction d as [|c d IH].
  - rewrite StringFacts.sapp_nil. destruct r as [|c r]; [done|]. simpl in *. by rewrite Hr.
  - apply andb_true_iff in Hd as [Hc Hd]. rewrite StringFacts.sapp_cons. cbn [span_digits]. by rewrite Hc, IH.
Qed.

Lemma number_Itoa z r : (0 ≤ z)%Z → no_digit_first r → number (Itoa z +:+ r) = Some (Itoa z, r).
Proof.
  intros Hz Hr. unfold number. rewrite span_digits_app by (done || by apply StringFacts.Itoa_digits).
  by rewrite decide_False by (by apply Strconv.Itoa_ne).
Qed.

Lemma find_version_skip pre s : Strings.byteIndex pre "v" = None → find_version (pre +:+ s) = find_version s.
Proof.
  induction pre as [|c pre IH]; intros Hp; [by rewrite StringFacts.sapp_nil|]. rewrite StringFacts.sapp_cons.
  cbn [Strings.byteIndex] in Hp. destruct (decide (c = "v"%char)) as [|Hc]; [done|].
  cbn [find_version]. unfold match_version. cbn [after]. rewrite decide_False by done. cbn [mbind option_bind].
  apply IH. by destruct (Strings.byteIndex pre "v").
Qed.

Definition version_text (v1 v2 v3 : Z) (post : string) : string :=
  String "v" (Itoa v1 +:+ String "." (Itoa v2 +:+ String "." (Itoa v3 +:+ post))).

Lemma find_version_text v1 v2 v3 post :
  (0 ≤ v1)%Z → (0 ≤ v2)%Z → (0 ≤ v3)%Z → no_digit_first post →
  find_version (version_text v1 v2 v3 post) = Some (Itoa v1, Itoa v2, Itoa v3).
Proof.
  intros H1 H2 H3 Hpost. unfold version_text. cbn [find_version].
  assert (match_version (String "v" (Itoa v1 +:+ String "." (Itoa v2 +:+ String "." (Itoa v3 +:+ post)))) =
    Some (Itoa v1, Itoa v2, Itoa v3)) as ->; [|done].
  unfold match_version. cbn [after]. rewrite decide_True by done. cbn [mbind option_bind].
  rewrite number_Itoa by done. cbn [mbind option_bind after]. rewrite decide_True by done. cbn [mbind option_bind].
  rewrite number_Itoa by done. cbn [mbind option_bind after]. rewrite decide_True by done. cbn [mbind option_bind].
  by rewrite number_Itoa by done.
Qed.

(** The version printed by iptables is read back (whatever precedes the
    "v" and follows the third number), and the check and wait commands are
    used exactly from versions 1.4.11 and 1.4.20 on, in the lexicographic
    order. *)
Theorem version_detection (pre post : string) (v1 v2 v3 : Z) :
  Strings.byteIndex pre "v" = None → no_digit_first post →
  (0 ≤ v1 < 2 ^ 63)%Z → (0 ≤ v2 < 2 ^ 63)%Z → (0 ≤ v3 < 2 ^ 63)%Z →
  extractIptablesVersion (pre +:+ version_text v1 v2 v3 post) = OK (v1, v2, v3) ∧
  (iptablesHasCheckCommand v1 v2 v3 = true ↔
     (1 < v1 ∨ v1 = 1 ∧ (4 < v2 ∨ v2 = 4 ∧ 11 ≤ v3))%Z) ∧
  (iptablesHasWaitCommand v1 v2 v3 = true ↔
     (1 < v1 ∨ v1 = 1 ∧ (4 < v2 ∨ v2 = 4 ∧ 20 ≤ v3))%Z).
Proof.
  intros Hpre Hpost H1 H2 H3. split.
  - unfold extractIptablesVersion. rewrite find_version_skip, find_version_text by (done || lia).
    by rewrite !Strconv.Atoi_Itoa by lia.
  - unfold iptablesHasCheckCommand, iptablesHasWaitCommand.
    split; repeat match goal with
    | |- context [(?a <? ?b)%Z] => destruct (Z.ltb_spec a b)
    | |- context [(?a =? ?b)%Z] => destruct (Z.eqb_spec a b)
    | |- context [(?a <=? ?b)%Z] => destruct (Z.leb_spec a b)
    end; simpl; split; intros; first [done | lia].
Qed.

Lemma version_detection_witness :
  extractIptablesVersion ("iptables " +:+ version_text 1 6 1 " (legacy)") = OK (1, 6, 1)%Z ∧
  iptablesHasWaitCommand 1 6 1 = true.
Proof.
  destruct (version_detection "iptables " " (legacy)" 1 6 1) as (H1 & _ & H2); [reflexivity|reflexivity|lia..|].
  split; [exact H1|]. apply H2. lia.
Defined.

Class NetfilterSpec (N : Type) `{Netfilter N} := {
  nf_rep : N → Prop;
  nf_rules : N → gmap (string * string) (list rule);    (* table and chain *)
  nf_path : string;
  nf_version : string;
  nf_LookPath_spec n : nf_rep n → wp (nf_LookPath "iptables") (λ r n', r = OK nf_path ∧ n' = n) n;
  nf_Version_spec n : nf_rep n → wp (nf_Run nf_path ["--version"]) (λ r n', r = Ran nf_version ∧ n' = n) n;
  nf_Check_spec n table chain r l w :
    nf_rep n → rule_spec r = true → nf_rules n !! (table, chain) = Some l →
    wp (nf_Run nf_path ((["-t"; table; "-C"; chain] ++ r) ++ wait_args w))
      (λ res n', n' = n ∧ if decide (r ∈ l) then ∃ out, res = Ran out else ∃ msg, res = Exited 1 msg) n;
  nf_Insert_spec n table chain r l w :
    nf_rep n → rule_spec r = true → nf_rules n !! (table, chain) = Some l →
    wp (nf_Run nf_path ((["-t"; table; "-I"; chain] ++ r) ++ wait_args w))
      (λ res n', (∃ out, res = Ran out) ∧ nf_rep n' ∧ nf_rules n' = <[(table, chain) := r :: l]> (nf_rules n)) n;
  nf_Append_spec n table chain r l w :
    nf_rep n → rule_spec r = true → nf_rules n !! (table, chain) = Some l →
    wp (nf_Run nf_path ((["-t"; table; "-A"; chain] ++ r) ++ wait_args w))
      (λ res n', (∃ out, res = Ran out) ∧ nf_rep n' ∧ nf_rules n' = <[(table, chain) := l ++ [r]]> (nf_rules n)) n;
  nf_Lock_spec n : nf_rep n → wp sys_OpenLock (λ r n', (∃ fd, r = OK fd) ∧ nf_rep n' ∧ nf_rules n' = nf_rules n) n;
  nf_Flock_spec n fd :
    nf_rep n → wp (sys_Flock fd) (λ r n', (r = Locked ∨ r = WouldBlock) ∧ nf_rep n' ∧ nf_rules n' = nf_rules n) n;
  nf_Close_spec n fd : nf_rep n → wp (sys_Close fd) (λ _ n', nf_rep n' ∧ nf_rules n' = nf_rules n) n;
}.

Section facts.
Context {N : Type} `{NF : Netfilter N} `{NS : !NetfilterSpec N}.

(** The handle [New] returns. *)
Definition handle (v : Z * Z * Z) : IPTables := {|
  path := nf_path; proto := ProtocolIPv4; hasCheck := iptablesHasCheckCommand v.1.1 v.1.2 v.2;
  hasWait := iptablesHasWaitCommand v.1.1 v.1.2 v.2 |}.

Lemma New_spec n v :
  nf_rep n → extractIptablesVersion nf_version = OK v → wp New (λ r n', r = OK (handle v) ∧ n' = n) n.
Proof.
  intros Hrep Hv. unfold New, NewWithProtocol. apply wp_bind. eapply wp_mono; [by apply nf_LookPath_spec|].
  intros r n' [-> ->]. apply wp_bind. unfold getIptablesCommandSupport. apply wp_bind.
  unfold getIptablesVersionString. apply wp_bind. eapply wp_mono; [by apply nf_Version_spec|].
  intros r n' [-> ->]. apply wp_ret, wp_ret. cbn [run_error]. rewrite Hv. destruct v as [[v1 v2] v3].
  by apply wp_ret.
Qed.

(** A run, with or without the lock, adds nothing to the command's effect on
    the rules. *)
Lemma run_spec (ipt : IPTables) (args : list string) (R : run_result → gmap (string * string) (list rule) → Prop) n :
  path ipt = nf_path → nf_rep n →
  (∀ n1 w, nf_rep n1 → nf_rules n1 = nf_rules n →
     wp (nf_Run nf_path (args ++ wait_args w)) (λ r n', nf_rep n' ∧ R r (nf_rules n') ∧ ∀ e, r ≠ NotRun e) n1) →
  wp (run ipt args) (λ err n', nf_rep n' ∧ ∃ r, R r (nf_rules n') ∧
    err = match r with Ran _ => None | Exited st msg => Some (ExitErr st msg) | NotRun _ => None end) n.
Proof.
  intros Hp Hrep Hcmd. unfold run. apply wp_bind.
  assert (∀ n1 w, nf_rep n1 → nf_rules n1 = nf_rules n →
    wp (run_command ipt (args ++ wait_args w)) (λ o n', nf_rep n' ∧ ∃ r, R r (nf_rules n') ∧
      (match o with IOK _ => None | IErr e => Some e end) =
      match r with Ran _ => None | Exited st msg => Some (ExitErr st msg) | NotRun _ => None end) n1) as Hrun.
  { intros n1 w Hrep1 Hrules1. unfold run_command. apply wp_bind. rewrite Hp. eapply wp_mono; [by apply Hcmd|].
    intros r n' (Hrep' & HR & Hnr). destruct r as [out|st msg|e]; [| |by destruct (Hnr e)]; apply wp_ret;
      (split; [done|]); by eexists. }
  unfold runWithOutput. destruct (hasWait ipt).
  - eapply wp_mono; [by apply (Hrun n true)|]. intros o n' H. by apply wp_ret.
  - apply wp_bind. eapply wp_mono; [by apply nf_Lock_spec|]. intros r n1 ([fd ->] & Hrep1 & Hr1).
    apply wp_bind. unfold tryLock. apply wp_bind. eapply wp_mono; [by apply nf_Flock_spec|].
    intros f n2 (Hf & Hrep2 & Hr2). apply wp_ret. rewrite Hr1 in Hr2.
    assert (∃ ul, match f with WouldBlock => OK None | Locked => OK (Some fd) | FlockErr err => Err err end =
      (OK ul : result (option Z))) as [ul ->] by (destruct Hf as [-> | ->]; eauto).
    apply wp_bind. rewrite <-(app_nil_r args). eapply wp_mono; [by apply (Hrun n2 false)|].
    intros o n3 (Hrep3 & r & HR & Ho). apply wp_bind. eapply wp_mono with (Q := λ _ n', nf_rep n' ∧ nf_rules n' = nf_rules n3).
    { destruct ul as [fd'|]; [by apply nf_Close_spec|by apply wp_ret]. }
    intros _ n4 [Hrep4 Hr4]. apply wp_ret, wp_ret. split; [done|]. rewrite Hr4. eauto.
Qed.

Lemma Exists_spec v n table chain r l :
  iptablesHasCheckCommand v.1.1 v.1.2 v.2 = true → nf_rep n → rule_spec r = true →
  nf_rules n !! (table, chain) = Some l →
  wp (Exists (handle v) table chain r)
    (λ res n', res = IOK (bool_decide (r ∈ l)) ∧ nf_rep n' ∧ nf_rules n' = nf_rules n) n.
Proof.
  intros Hc Hrep Hr Hl. unfold Exists. cbn [hasCheck handle]. rewrite Hc. cbn [negb]. apply wp_bind.
  eapply wp_mono; [apply (run_spec _ _ (λ res m, m = nf_rules n ∧
    if decide (r ∈ l) then ∃ out, res = Ran out else ∃ msg, res = Exited 1 msg)); [done..|]|].
  - intros n1 w Hrep1 Hr1. eapply wp_mono; [apply nf_Check_spec with (l := l); [done..|by rewrite Hr1]|].
    intros res n' [-> H]. split_and!; [done..|]. by case_decide; destruct H as [? ->].
  - intros err n' (Hrep' & res & [Hr' H] & ->). apply wp_ret. case_decide as Hin; destruct H as [? ->].
    + by rewrite bool_decide_true.
    + rewrite decide_True by done. by rewrite bool_decide_false.
Qed.

Lemma PrependUnique_spec v n table chain r l :
  iptablesHasCheckCommand v.1.1 v.1.2 v.2 = true → nf_rep n → rule_spec r = true →
  nf_rules n !! (table, chain) = Some l →
  wp (PrependUnique (handle v) table chain r)
    (λ err n', err = None ∧ nf_rep n' ∧
       nf_rules n' = <[(table, chain) := (if decide (r ∈ l) then l else r :: l)]> (nf_rules n)) n.
Proof.
  intros Hc Hrep Hr Hl. unfold PrependUnique. apply wp_bind.
  eapply wp_mono; [by apply Exists_spec|]. intros res n1 (-> & Hrep1 & Hr1). case_bool_decide as Hin.
  - apply wp_ret. rewrite decide_True by done. by rewrite insert_id.
  - rewrite decide_False by done. unfold Prepend.
    eapply wp_mono; [apply (run_spec _ _ (λ res m, (∃ out, res = Ran out) ∧ m = <[(table, chain) := r :: l]> (nf_rules n)));
      [done..|]|].
    + intros n2 w Hrep2 Hr2. rewrite Hr1 in Hr2.
      eapply wp_mono; [apply nf_Insert_spec with (l := l); [done..|by rewrite Hr2]|].
      intros res n' ([out ->] & Hrep' & Hr'). rewrite Hr2 in Hr'. split_and!; [done|by exists out|done..].
    + intros err n' (Hrep' & res & [[out ->] Hr'] & ->). done.
Qed.

Lemma AppendUnique_spec v n table chain r l :
  iptablesHasCheckCommand v.1.1 v.1.2 v.2 = true → nf_rep n → rule_spec r = true →
  nf_rules n !! (table, chain) = Some l →
  wp (AppendUnique (handle v) table chain r)
    (λ err n', err = None ∧ nf_rep n' ∧
       nf_rules n' = <[(table, chain) := (if decide (r ∈ l) then l else l ++ [r])]> (nf_rules n)) n.
Proof.
  intros Hc Hrep Hr Hl. unfold AppendUnique. apply wp_bind.
  eapply wp_mono; [by apply Exists_spec|]. intros res n1 (-> & Hrep1 & Hr1). case_bool_decide as Hin.
  - apply wp_ret. rewrite decide_True by done. by rewrite insert_id.
  - rewrite decide_False by done. unfold Append.
    eapply wp_mono; [apply (run_spec _ _ (λ res m, (∃ out, res = Ran out) ∧ m = <[(table, chain) := l ++ [r]]> (nf_rules n)));
      [done..|]|].
    + intros n2 w Hrep2 Hr2. rewrite Hr1 in Hr2.
      eapply wp_mono; [apply nf_Append_spec with (l := l); [done..|by rewrite Hr2]|].
      intros res n' ([out ->] & Hrep' & Hr'). rewrite Hr2 in Hr'. split_and!; [done|by exists out|done..].
    + intros err n' (Hrep' & res & [[out ->] Hr'] & ->). done.
Qed.
End facts.
