(* ===== verification/Masquerade.v ===== *)
(** * The masquerade rules and the periodic sync

    The parts of the proxier that use iptables: [EnsureIPtablesMASQ],
    [cleanUpIptablesMASQ], [Sync], [SyncLoop] and [CleanupLeftovers]. The state
    is the netfilter state beside the system of [Proxier]. *)

From S2P Require Import Prelude GoNet GoTime ProxyTypes Ipvs Host Strconv GoIptables Ports Nodes Proxier.
Import Proxier.
Import Nodes(NodeIPInterface).
Import GoIptables(Netfilter, IOK, IErr).

Module Masquerade.

Definition masq_all_rule : list string :=
  ["-m"; "ipvs"; "--ipvs"; "--vdir"; "ORIGINAL"; "--vmethod"; "MASQ";
   "-m"; "comment"; "--comment"; "IPVS SNAT MASQ ALL"; "-j"; "MASQUERADE"].
Definition masq_cidr_rule (clusterCIDR : string) : list string :=
  ["!"; "-s"; clusterCIDR; "-m"; "ipvs"; "--ipvs"; "--vdir"; "ORIGINAL"; "--vmethod"; "MASQ";
   "-m"; "comment"; "--comment"; "IPVS SNAT"; "-j"; "MASQUERADE"].

Section masq.
Context {N : Type} `{NF : Netfilter N}.

(** [EnsureIPtablesMASQ], on the two fields of the proxier it reads. *)
Definition EnsureIPtablesMASQ (masqueradeAll : bool) (clusterCIDR : string) : M N error :=
  r ← GoIptables.New;
  match r with
  | Err err => mret (Some ("EnsureIPtablesMASQ: iptable init failed" +:+ err))
  | OK iptablehandler =>
      err ← (if masqueradeAll then GoIptables.PrependUnique iptablehandler "nat" "POSTROUTING" masq_all_rule
             else mret None);
      match err with
      | Some e => mret (Some ("EnsureIPtablesMASQ: iptables masq all failed" +:+ GoIptables.Error e))
      | None =>
          err ← (if decide (clusterCIDR = "") then mret None
                 else GoIptables.PrependUnique iptablehandler "nat" "POSTROUTING" (masq_cidr_rule clusterCIDR));
          mret (match err with
                | Some e => Some ("EnsureIPtablesMASQ: iptables masq all failed" +:+ GoIptables.Error e)
                | None => None
                end)
      end
  end.

(** The loop over the listed rules, with their indices. *)
Fixpoint delete_masq (ipt : GoIptables.IPTables) (i : Z) (lines : list string) : M N error :=
  match lines with
  | [] => mret None
  | post :: lines =>
      if Strings.Contains post "ipvs" && Strings.Contains post "MASQUERADE" then
        err ← GoIptables.Delete ipt "nat" "POSTROUTING" [Itoa i];
        match err with
        | Some e => mret (Some ("cleanUpIptablesMASQ: delete post routing failed" +:+ GoIptables.Error e))
        | None => delete_masq ipt (i + 1) lines
        end
      else delete_masq ipt (i + 1) lines
  end.

Definition cleanUpIptablesMASQ : M N error :=
  r ← GoIptables.New;
  match r with
  | Err err => mret (Some ("cleanUpIptablesMASQ: iptable init failed" +:+ err))
  | OK iptablehandler =>
      r ← GoIptables.List iptablehandler "nat" "POSTROUTING";
      match r with
      | IErr e => mret (Some ("cleanUpIptablesMASQ: list post routing failed" +:+ GoIptables.Error e))
      | IOK post_routing_list => delete_masq iptablehandler 0 post_routing_list
      end
  end.

Context {K : Type} `{IF : Interface K} `{MR : MapRange}.
Context `{NI : NodeIPInterface K} `{PO : PortOpener} `{EX : Exec} `{NO : NetOS}.

Definition onN {A} (c : M N A) : M (N * Sys K) A := zoom fst (λ n s, (n, s.2)) c.
Definition onSys {A} (c : M (Sys K) A) : M (N * Sys K) A := zoom snd (λ s t, (t.1, s)) c.

Definition ensure_masq : M (N * Sys K) error :=
  all ← onSys (field masqueradeAll);
  cidr ← onSys (field clusterCIDR);
  onN (EnsureIPtablesMASQ all cidr).

Definition Sync : M (N * Sys K) unit := ensure_masq ;; onSys syncProxyRules.

(** What the [select] of [SyncLoop] receives. *)
Inductive loop_event := Tick | Stop.

(** The loop on the events that arrive; [true] when it returned, [false] when
    it waits for the next one. *)
Fixpoint sync_loop (evs : list loop_event) : M (N * Sys K) bool :=
  match evs with
  | [] => mret false
  | Tick :: evs => Sync ;; sync_loop evs
  | Stop :: _ => mret true
  end.

(** Up to the loop. *)
Definition SyncLoop_start : M (N * Sys K) error :=
  period ← onSys (field syncPeriod);
  GoTime.NewTicker period ;;
  ensure_masq.

Definition SyncLoop (evs : list loop_event) : M (N * Sys K) bool :=
  err ← SyncLoop_start;
  match err with
  | Some _ => mret true
  | None => sync_loop evs
  end.

Definition CleanupLeftovers : M (N * Sys K) unit :=
  onN cleanUpIptablesMASQ ;; onSys cleanUpIpvs ;; onSys cleanUpDummyLink.
End masq.
End Masquerade.
