(* ===== verification/MasqClaims.v ===== *)
(** * Properties of the masquerade rules *)

From S2P Require Import Prelude GoNet ProxyTypes Host Strconv GoIptables IptablesFacts Proxier Masquerade.
From Stdlib Require Import Ascii.
Import GoIptables Masquerade.

(** ** A reference netfilter: the rules of each chain *)
Module RefNf.
Record RefNf := { rn_rules : gmap (string * string) (list rule); rn_locks : nat }.

Definition show_arg (a : string) : string := if Strings.Contains a " " then Quote a else a.
Definition show_rule (chain : string) (r : rule) : string :=
  String.concat " " (["-A"; chain] ++ (show_arg <$> r)) +:+ String (ascii_of_nat 10) "".
Definition show_chain (chain : string) (l : list rule) : string :=
  "-P " +:+ chain +:+ " ACCEPT" +:+ String (ascii_of_nat 10) "" +:+ String.concat "" (show_rule chain <$> l).

Definition set_chain (table chain : string) (l : list rule) (n : RefNf) : RefNf :=
  {| rn_rules := <[(table, chain) := l]> (rn_rules n); rn_locks := rn_locks n |}.

(** A rule number, or a rule. *)
Definition delete_rule (l : list rule) (r : rule) : option (list rule) :=
  match r with
  | [a] => match Strconv.Atoi a with
           | OK i => if (1 <=? i)%Z && (i <=? Z.of_nat (length l))%Z then Some (delete (Z.to_nat i - 1)%nat l) else None
           | Err _ => None
           end
  | _ => match list_find (λ r', r' = r) l with
         | Some (i, _) => Some (delete i l)
         | None => None
         end
  end.

Definition operate (op table chain : string) (r : rule) (l : list rule) : M RefNf run_result :=
  if decide (op = "-C") then mret (if decide (r ∈ l) then Ran "" else Exited 1 "iptables: Bad rule")
  else if decide (op = "-I") then modify (set_chain table chain (r :: l)) ;; mret (Ran "")
  else if decide (op = "-A") then modify (set_chain table chain (l ++ [r])) ;; mret (Ran "")
  else if decide (op = "-D") then
    match delete_rule l r with
    | Some l' => modify (set_chain table chain l') ;; mret (Ran "")
    | None => mret (Exited 1 "iptables: Index of deletion too big.")
    end
  else if decide (op = "-S") then mret (Ran (show_chain chain l))
  else mret (Exited 2 "iptables: unknown option").

(** Without the option to wait. *)
Definition strip_wait (args : list string) : list string :=
  match list.last args with
  | Some "--wait" => firstn (length args - 1) args
  | _ => args
  end.

Definition ref_run (args : list string) : M RefNf run_result :=
  match args with
  | a :: table :: op :: chain :: r =>
      if decide (a = "-t") then
        n ← get;
        match rn_rules n !! (table, chain) with
        | None => mret (Exited 1 "iptables: No chain/target/match by that name.")
        | Some l => operate op table chain (strip_wait r) l
        end
      else mret (Exited 2 "iptables: no command specified")
  | [a] => mret (if decide (a = "--version") then Ran "iptables v1.6.1" else Exited 2 "iptables: no command specified")
  | _ => mret (Exited 2 "iptables: no command specified")
  end.

#[export] Instance ref_Netfilter : Netfilter RefNf := {|
  nf_LookPath _ := mret (OK "/sbin/iptables");
  nf_Run _ args := ref_run args;
  sys_OpenLock := modify (λ n, {| rn_rules := rn_rules n; rn_locks := S (rn_locks n) |}) ;; mret (OK 3%Z);
  sys_Flock _ := mret Locked;
  sys_Close _ := modify (λ n, {| rn_rules := rn_rules n; rn_locks := pred (rn_locks n) |}) ;; mret None;
|}.

Lemma strip_wait_app r w : rule_spec r = true → strip_wait (r ++ wait_args w) = r.
Proof.
  intros Hr. assert ("--wait" ∉ r) as Hno.
  { destruct r as [|a r]; [done|]. apply andb_true_iff in Hr as [_ Hn%negb_true_iff].
    by apply bool_decide_eq_false_1 in Hn. }
  unfold strip_wait. destruct w; cbn [wait_args].
  - rewrite last_snoc, length_app, firstn_app. simpl. replace (length r + 1 - 1)%nat with (length r) by lia.
    by rewrite firstn_all, Nat.sub_diag, app_nil_r.
  - rewrite app_nil_r. destruct (list.last r) as [a|] eqn:E; [|done]. apply last_Some in E as [r' ->].
    assert (a ≠ "--wait") as Hne. { intros ->. apply Hno, elem_of_app. right. left. }
    repeat case_match; congruence.
Qed.

Lemma ref_run_op op table chain r w l n (Q : run_result → RefNf → Prop) :
  rule_spec r = true → rn_rules n !! (table, chain) = Some l →
  wp (operate op table chain r l) Q n → wp (ref_run ((["-t"; table; op; chain] ++ r) ++ wait_args w)) Q n.
Proof.
  intros Hr Hl Hop. rewrite <-app_assoc. change (wp (n0 ← get; match rn_rules n0 !! (table, chain) with
      | None => mret (Exited 1 "iptables: No chain/target/match by that name.")
      | Some l => operate op table chain (strip_wait (r ++ wait_args w)) l
      end) Q n).
  apply wp_bind, wp_get. rewrite Hl. by rewrite strip_wait_app.
Qed.

#[export] Instance ref_NetfilterSpec : NetfilterSpec RefNf.
Proof.
  refine {| nf_rep _ := True; nf_rules := rn_rules; nf_path := "/sbin/iptables"; nf_version := "iptables v1.6.1" |}.
  - done.
  - done.
  - intros n table chain r l w _ Hr Hl. apply (ref_run_op "-C" table chain r w l); [done..|].
    apply wp_ret. split; [done|]. by case_decide; eexists.
  - intros n table chain r l w _ Hr Hl. apply (ref_run_op "-I" table chain r w l); [done..|].
    apply wp_bind, wp_modify, wp_ret. split_and!; [by eexists|done..].
  - intros n table chain r l w _ Hr Hl. apply (ref_run_op "-A" table chain r w l); [done..|].
    apply wp_bind, wp_modify, wp_ret. split_and!; [by eexists|done..].
  - intros n _. apply wp_bind, wp_modify, wp_ret. split_and!; [by eexists|done..].
  - intros n fd _. apply wp_ret. split_and!; [by left|done..].
  - intros n fd _. by apply wp_bind, wp_modify, wp_ret.
Defined.
End RefNf.
Import RefNf.

(** ** Ensuring the rules *)

(** The rules the proxier's settings ask for, in the order in which they end
    up. *)
Definition wanted_rules (masqueradeAll : bool) (clusterCIDR : string) : list rule :=
  (if decide (clusterCIDR = "") then [] else [masq_cidr_rule clusterCIDR]) ++
  (if masqueradeAll then [masq_all_rule] else []).

Lemma masq_rules_ok cidr : cidr ≠ "--wait" → rule_spec masq_all_rule = true ∧ rule_spec (masq_cidr_rule cidr) = true.
Proof.
  intros Hc. split; [reflexivity|]. cbn [rule_spec masq_cidr_rule]. rewrite bool_decide_false; [reflexivity|].
  intros Hin. repeat (apply elem_of_cons in Hin as [E|Hin]; [done|]). by apply elem_of_nil in Hin.
Qed.

Section claims.
Context {N : Type} `{NF : Netfilter N} `{NS : !NetfilterSpec N}.

Lemma EnsureIPtablesMASQ_spec masqueradeAll clusterCIDR n v l :
  nf_rep n → extractIptablesVersion nf_version = OK v → iptablesHasCheckCommand v.1.1 v.1.2 v.2 = true →
  clusterCIDR ≠ "--wait" → nf_rules n !! ("nat", "POSTROUTING") = Some l →
  wp (EnsureIPtablesMASQ masqueradeAll clusterCIDR) (λ err n', err = None ∧ nf_rep n' ∧
    nf_rules n' = <[("nat", "POSTROUTING") := filter (λ r, r ∉ l) (wanted_rules masqueradeAll clusterCIDR) ++ l]> (nf_rules n)) n.
Proof.
  intros Hrep Hv Hc Hw Hl. destruct (masq_rules_ok clusterCIDR Hw) as [Hall Hcidr].
  unfold EnsureIPtablesMASQ. apply wp_bind. eapply wp_mono; [by apply New_spec|]. intros r n0 [-> ->].
  apply wp_bind. set (l1 := filter (λ r, r ∉ l) (if masqueradeAll then [masq_all_rule] else []) ++ l).
  eapply wp_mono with (Q := λ err n', err = None ∧ nf_rep n' ∧ nf_rules n' = <[("nat", "POSTROUTING") := l1]> (nf_rules n)).
  { destruct masqueradeAll; [|apply wp_ret; by rewrite insert_id].
    eapply wp_mono; [by apply PrependUnique_spec|]. intros err n' (-> & Hrep' & Hr'). split_and!; [done..|].
    rewrite Hr'. f_equal. unfold l1. rewrite filter_cons, filter_nil. case_decide as H1; case_decide as H2; done || by destruct H2. }
  intros err n1 (-> & Hrep1 & Hr1). apply wp_bind. unfold wanted_rules. rewrite filter_app, <-app_assoc. fold l1.
  destruct (decide (clusterCIDR = "")); [by apply wp_ret, wp_ret|].
  assert (nf_rules n1 !! ("nat", "POSTROUTING") = Some l1) as Hl1 by (rewrite Hr1; apply lookup_insert_eq).
  eapply wp_mono; [by apply PrependUnique_spec|]. intros err n' (-> & Hrep' & Hr'). apply wp_ret.
  split_and!; [done..|]. rewrite Hr', Hr1, insert_insert_eq. f_equal. rewrite filter_cons, filter_nil.
  assert (masq_cidr_rule clusterCIDR ∈ l1 ↔ masq_cidr_rule clusterCIDR ∈ l) as Hiff.
  { unfold l1. rewrite elem_of_app, list_elem_of_filter. split; [|by right]. intros [[_ Hin]|]; [|done].
    destruct masqueradeAll; [|by apply elem_of_nil in Hin]. by apply list_elem_of_singleton in Hin. }
  case_decide as H1; case_decide as H2; try done; [by destruct H2; apply Hiff|by destruct H1; apply Hiff].
Qed.

(** C28: On a host whose iptables has the check command, [EnsureIPtablesMASQ]
    returns nil with every masquerade rule the settings ask for in the nat
    POSTROUTING chain: the missing ones are put in front, each once, the other
    rules and chains are untouched, and running it again changes nothing. *)
Theorem ensure_masq_idempotent (masqueradeAll : bool) (clusterCIDR : string) (n : N) (v : Z * Z * Z) (l : list rule) :
  nf_rep n → extractIptablesVersion nf_version = OK v → iptablesHasCheckCommand v.1.1 v.1.2 v.2 = true →
  clusterCIDR ≠ "--wait" → nf_rules n !! ("nat", "POSTROUTING") = Some l →
  let wanted := wanted_rules masqueradeAll clusterCIDR in
  let l' := filter (λ r, r ∉ l) wanted ++ l in
  ∃ n1 n2, EnsureIPtablesMASQ masqueradeAll clusterCIDR n = (Ret None, n1) ∧
    nf_rules n1 = <[("nat", "POSTROUTING") := l']> (nf_rules n) ∧ (∀ r, r ∈ wanted → r ∈ l') ∧
    EnsureIPtablesMASQ masqueradeAll clusterCIDR n1 = (Ret None, n2) ∧ nf_rules n2 = nf_rules n1.
Proof.
  intros Hrep Hv Hc Hw Hl wanted l'.
  pose proof (EnsureIPtablesMASQ_spec masqueradeAll clusterCIDR n v l Hrep Hv Hc Hw Hl) as H1.
  apply wp_run in H1 as (? & n1 & Hrun1 & -> & Hrep1 & Hr1).
  assert (nf_rules n1 !! ("nat", "POSTROUTING") = Some l') as Hl1 by (rewrite Hr1; apply lookup_insert_eq).
  pose proof (EnsureIPtablesMASQ_spec masqueradeAll clusterCIDR n1 v l' Hrep1 Hv Hc Hw Hl1) as H2.
  apply wp_run in H2 as (? & n2 & Hrun2 & -> & Hrep2 & Hr2).
  assert (∀ r, r ∈ wanted → r ∈ l') as Hin.
  { intros r Hr. unfold l'. apply elem_of_app. destruct (decide (r ∈ l)); [by right|]. left.
    by apply list_elem_of_filter. }
  exists n1, n2. split_and!; [done..|]. rewrite Hr2.
  assert (filter (λ r, r ∉ l') (wanted_rules masqueradeAll clusterCIDR) = []) as ->.
  { apply elem_of_nil_inv. intros r [Hn Hr]%list_elem_of_filter. by destruct Hn; apply Hin. }
  by apply insert_id.
Qed.
End claims.

(** ** Examples *)
Definition other_rule : rule := ["-s"; "172.17.0.0/16"; "-j"; "MASQUERADE"].
Definition fresh_nf : RefNf :=
  {| rn_rules := {[("nat", "POSTROUTING") := [other_rule]; ("nat", "PREROUTING") := []]}; rn_locks := 0 |}.

Lemma ensure_masq_idempotent_witness :
  ∃ n1 n2, EnsureIPtablesMASQ true "10.244.0.0/16" fresh_nf = (Ret None, n1) ∧
    nf_rules n1 = <[("nat", "POSTROUTING") := [masq_cidr_rule "10.244.0.0/16"; masq_all_rule; other_rule]]> (nf_rules fresh_nf) ∧
    EnsureIPtablesMASQ true "10.244.0.0/16" n1 = (Ret None, n2) ∧ nf_rules n2 = nf_rules n1.
Proof.
  destruct (ensure_masq_idempotent true "10.244.0.0/16" fresh_nf (1, 6, 1)%Z [other_rule])
    as (n1 & n2 & H1 & H2 & _ & H3 & H4);
    [exact I|vm_compute; reflexivity|reflexivity|discriminate|vm_compute; reflexivity|].
  exists n1, n2. split; [exact H1|]. split; [exact H2|]. split; [exact H3|exact H4].
Defined.

(** [cleanUpIptablesMASQ] deletes by positions listed before it deletes
    anything. With both masquerade rules installed in front of a rule of
    another program, it returns nil having removed that rule and left one of
    its own. *)
Theorem cleanup_deletes_foreign_rule :
  ∃ n1 n2, EnsureIPtablesMASQ true "10.244.0.0/16" fresh_nf = (Ret None, n1) ∧
    cleanUpIptablesMASQ n1 = (Ret None, n2) ∧
    nf_rules n1 !! ("nat", "POSTROUTING") = Some [masq_cidr_rule "10.244.0.0/16"; masq_all_rule; other_rule] ∧
    nf_rules n2 !! ("nat", "POSTROUTING") = Some [masq_all_rule].
Proof.
  exists (EnsureIPtablesMASQ true "10.244.0.0/16" fresh_nf).2,
    (cleanUpIptablesMASQ (EnsureIPtablesMASQ true "10.244.0.0/16" fresh_nf).2).2.
  split_and!; vm_compute; reflexivity.
Qed.
