(* ===== verification/SaveRestore.v ===== *)
(** * iptables-save data (pkg/util/iptables/save_restore.go)

    Reading lines by index from the bytes iptables-save printed, and the chain
    lines of a table. *)

From S2P Require Import Prelude GoNet.
From Stdlib Require Import Ascii.

Module SaveRestore.
Import Strings.

Definition space : ascii := " "%char.
Definition newline : ascii := ascii_of_nat 10.
Abbreviation bytes := (list ascii).

(** [byteArray[i:j]]. *)
Definition slice (arr : bytes) (i j : nat) : bytes := firstn (j - i) (skipn i arr).

(** The first loop: the bytes from [cur] on are [rest]. *)
Fixpoint skip_left (rest : bytes) (cur : nat) : nat * bytes :=
  match rest with
  | c :: rest' => if decide (c = space) then skip_left rest' (S cur) else (cur, rest)
  | [] => (cur, rest)
  end.

(** The second loop; [rightTrim] is [None] for -1. The index of the last byte
    is reached when nothing follows. *)
Fixpoint read_loop (arr : bytes) (leftTrim : nat) (rest : bytes) (cur : nat) (rightTrim : option nat)
    : bytes * nat :=
  match rest with
  | [] => ([], cur)
  | c :: rest' =>
      if decide (c = space) then
        read_loop arr leftTrim rest' (S cur) (match rightTrim with None => Some cur | Some r => Some r end)
      else if bool_decide (c = newline) || bool_decide (rest' = []) then
        if (cur <=? leftTrim)%nat then ([], S cur)
        else
          let right := match rightTrim with
                       | Some r => r
                       | None => if bool_decide (rest' = []) && negb (bool_decide (c = newline)) then S cur else cur
                       end in
          (slice arr leftTrim right, S cur)
      else read_loop arr leftTrim rest' (S cur) None
  end.

Definition ReadLine (readIndex : nat) (byteArray : bytes) : bytes * nat :=
  let '(cur, rest) := skip_left (skipn readIndex byteArray) readIndex in
  read_loop byteArray cur rest cur None.

Definition MakeChainLine (chain : string) : string := ":" +:+ chain +:+ " - [0:0]".

Definition line_of (l : bytes) : string := String.string_of_list_ascii l.

(** Find the beginning of the table. Both loops run while [readIndex] is in
    range; [ReadLine] always moves on, so the length of the data is enough
    fuel. *)
Fixpoint find_table (fuel : nat) (prefix : string) (save : bytes) (readIndex : nat) : outcome nat :=
  if (readIndex <? length save)%nat then
    match fuel with
    | O => Panic "out of fuel"
    | S fuel =>
        let '(line, n) := ReadLine readIndex save in
        if HasPrefix (line_of line) prefix then Ret n else find_table fuel prefix save n
    end
  else Ret readIndex.

(** What a line of the table does to the map. *)
Inductive line_kind := LSkip | LEnd | LChain (chain : string) | LBad.
Definition classify (line : string) : line_kind :=
  if decide (line = "") then LSkip
  else if HasPrefix line "COMMIT" || HasPrefix line "*" then LEnd
  else if HasPrefix line "#" then LSkip
  else if HasPrefix line ":" && (1 <? String.length line)%nat then
    match byteIndex line " " with
    | None => LBad                                    (* line[1:-1] *)
    | Some i => LChain (take (i - 1) (drop 1 line))
    end
  else LSkip.

Fixpoint chain_loop (fuel : nat) (save : bytes) (readIndex : nat) (chainsMap : gmap string string)
    : outcome (gmap string string) :=
  if (readIndex <? length save)%nat then
    match fuel with
    | O => Panic "out of fuel"
    | S fuel =>
        let '(line, n) := ReadLine readIndex save in
        match classify (line_of line) with
        | LSkip => chain_loop fuel save n chainsMap
        | LEnd => Ret chainsMap
        | LChain chain => chain_loop fuel save n (<[chain := line_of line]> chainsMap)
        | LBad => Panic "slice bounds out of range"
        end
    end
  else Ret chainsMap.

Definition GetChainLines (table : string) (save : bytes) : outcome (gmap string string) :=
  match find_table (length save) ("*" +:+ table) save 0 with
  | Panic msg => Panic msg
  | Ret readIndex => chain_loop (length save) save readIndex ∅
  end.
End SaveRestore.
