(* ===== verification/SaveRestoreClaims.v ===== *)
(** * Properties of the iptables-save reader *)

From S2P Require Import Prelude GoNet SaveRestore.
From Stdlib Require Import Ascii.
Import Strings SaveRestore.

(** A line as iptables-save prints it: text without newlines that neither
    starts nor ends with a space, with spaces around it. *)
Definition tight (core : bytes) : Prop :=
  (newline ∉ core) ∧ (∀ c, head core = Some c → c ≠ space) ∧ (∀ c, list.last core = Some c → c ≠ space).

Record raw_line := { lead : nat; core : bytes; trail : nat }.
Definition spaces (n : nat) : bytes := replicate n space.
Lemma length_spaces n : length (spaces n) = n.
Proof. apply length_replicate. Qed.
Definition render_line (l : raw_line) : bytes := spaces (lead l) ++ core l ++ spaces (trail l) ++ [newline].
Definition render (ls : list raw_line) : bytes := ls ≫= render_line.

(** ** ReadLine *)
Lemma skip_left_spaces n rest cur :
  (∀ c, head rest = Some c → c ≠ space) → skip_left (spaces n ++ rest) cur = ((cur + n)%nat, rest).
Proof.
  intros Hr. revert cur. induction n as [|n IH]; intros cur.
  - rewrite Nat.add_0_r. destruct rest as [|c rest]; [done|]. simpl. rewrite decide_False; [done|]. by apply Hr.
  - cbn [spaces replicate app skip_left]. rewrite decide_True by done. rewrite IH. f_equal. lia.
Qed.

Lemma read_loop_core arr left cor tail cur right :
  newline ∉ cor → cor ≠ [] → (∀ c, list.last cor = Some c → c ≠ space) → tail ≠ [] →
  read_loop arr left (cor ++ tail) cur right = read_loop arr left tail (cur + length cor) None.
Proof.
  intros Hnl Hne Hlast Htail. revert cur right Hne. induction cor as [|c cor IH]; intros cur right Hne; [done|].
  apply not_elem_of_cons in Hnl as [Hc Hnl]. cbn [app read_loop].
  assert (bool_decide (c = newline) || bool_decide (cor ++ tail = []) = false) as ->.
  { rewrite bool_decide_false by congruence. rewrite bool_decide_false; [done|]. intros [_ ?]%app_nil. done. }
  destruct (decide (cor = [])) as [->|Hcor].
  - rewrite decide_False by (by apply Hlast). simpl. by rewrite Nat.add_1_r.
  - assert (∀ r, read_loop arr left (cor ++ tail) (S cur) r = read_loop arr left tail (cur + length (c :: cor)) None) as H.
    { intros r. rewrite IH; [f_equal; simpl; lia|done| |done]. intros d Hd. apply Hlast. by destruct cor. }
    case_decide; apply H.
Qed.

Lemma read_loop_spaces arr left n rest cur :
  read_loop arr left (spaces n ++ newline :: rest) cur None =
  if (n =? 0)%nat then read_loop arr left (newline :: rest) cur None
  else read_loop arr left (newline :: rest) (cur + n) (Some cur).
Proof.
  assert (∀ n cur r, read_loop arr left (space :: spaces n ++ newline :: rest) cur r =
    read_loop arr left (spaces n ++ newline :: rest) (S cur) (match r with None => Some cur | Some r => Some r end)) as Hs.
  { intros n' cur' r. cbn [read_loop]. by rewrite decide_True. }
  assert (∀ n cur r, read_loop arr left (spaces n ++ newline :: rest) cur (Some r) =
    read_loop arr left (newline :: rest) (cur + n) (Some r)) as H.
  { clear n cur. induction n as [|n IH]; intros cur r; [by rewrite Nat.add_0_r|].
    change (spaces (S n) ++ newline :: rest) with (space :: spaces n ++ newline :: rest). rewrite Hs, IH.
    by replace (S cur + n)%nat with (cur + S n)%nat by lia. }
  destruct n as [|n]; [done|].
  change (spaces (S n) ++ newline :: rest) with (space :: spaces n ++ newline :: rest). rewrite Hs, H.
  by replace (S cur + n)%nat with (cur + S n)%nat by lia.
Qed.

Lemma slice_middle pre mid post : slice (pre ++ mid ++ post) (length pre) (length pre + length mid) = mid.
Proof.
  unfold slice. rewrite skipn_app, skipn_all, Nat.sub_diag, skipn_O. cbn [app].
  replace (length pre + length mid - length pre)%nat with (length mid) by lia.
  rewrite firstn_app, firstn_all, Nat.sub_diag, firstn_O. by rewrite app_nil_r.
Qed.

Lemma ReadLine_spec pre l post :
  tight (core l) →
  ReadLine (length pre) (pre ++ render_line l ++ post) = (core l, length (pre ++ render_line l)).
Proof.
  intros (Hnl & Hhead & Hlast). unfold ReadLine. rewrite skipn_app, skipn_all, Nat.sub_diag, skipn_O. cbn [app].
  set (arr := pre ++ render_line l ++ post). unfold render_line. rewrite <-!app_assoc. cbn [app].
  destruct (decide (core l = [])) as [Hc|Hc].
  - rewrite Hc. cbn [app]. rewrite app_assoc. unfold spaces. rewrite <-replicate_add. fold (spaces (lead l + trail l)).
    rewrite skip_left_spaces by (intros c [= <-]; done). cbn [read_loop]. rewrite decide_False by done.
    rewrite bool_decide_true by done. simpl. rewrite Nat.leb_refl. f_equal.
    rewrite !length_app, ?length_spaces, ?length_replicate. simpl. lia.
  - rewrite skip_left_spaces.
    2: { destruct (core l) as [|c cor]; [done|]. intros d [= <-]. by apply Hhead. }
    rewrite read_loop_core; [|done..|]. 2: { intros [_ ?]%app_nil. done. }
    assert (length (core l) ≠ 0%nat) as Hlen by (by destruct (core l)).
    assert (slice arr (length pre + lead l) (length pre + lead l + length (core l)) = core l) as Hsl.
    { unfold arr, render_line. rewrite <-!app_assoc, app_assoc.
      replace (length pre + lead l)%nat with (length (pre ++ spaces (lead l))) by (by rewrite length_app, length_spaces).
      apply slice_middle. }
    rewrite read_loop_spaces. unfold spaces. rewrite !length_app, ?length_spaces, ?length_replicate.
    destruct (Nat.eqb_spec (trail l) 0) as [Ht|Ht]; cbn [read_loop]; rewrite decide_False by done;
      rewrite bool_decide_true by done; cbn [orb]; rewrite (proj2 (Nat.leb_gt _ _)) by lia.
    + rewrite andb_false_r. rewrite Hsl. f_equal. rewrite Ht. simpl. lia.
    + rewrite Hsl. f_equal. simpl. lia.
Qed.

(** ** GetChainLines, line by line *)

(** The lines after the one that opens the table. *)
Fixpoint after_table (prefix : string) (ls : list raw_line) : list raw_line :=
  match ls with
  | [] => []
  | l :: ls => if HasPrefix (line_of (core l)) prefix then ls else after_table prefix ls
  end.

(** The chain lines up to the end of the table. *)
Fixpoint table_chains (ls : list raw_line) (m : gmap string string) : outcome (gmap string string) :=
  match ls with
  | [] => Ret m
  | l :: ls =>
      let line := line_of (core l) in
      match classify line with
      | LSkip => table_chains ls m
      | LEnd => Ret m
      | LChain chain => table_chains ls (<[chain := line]> m)
      | LBad => Panic "slice bounds out of range"
      end
  end.

Lemma length_render_line l : (0 < length (render_line l))%nat.
Proof. unfold render_line. rewrite !length_app. simpl. lia. Qed.

Lemma length_render ls : (length ls ≤ length (render ls))%nat.
Proof.
  induction ls as [|l ls IH]; [done|]. unfold render in *. rewrite bind_cons, length_app.
  pose proof (length_render_line l). simpl. lia.
Qed.

(** Where a loop stands: [ls] remains to be read. *)
Definition at_lines (save : bytes) (i : nat) (ls : list raw_line) : Prop :=
  ∃ pre, save = pre ++ render ls ∧ i = length pre.

Lemma at_lines_end save i : at_lines save i [] → (i <? length save)%nat = false.
Proof. intros (pre & -> & ->). rewrite length_app. apply Nat.ltb_ge. simpl. lia. Qed.

Lemma at_lines_next save i l ls :
  tight (core l) → at_lines save i (l :: ls) →
  (i <? length save)%nat = true ∧ ∃ j, ReadLine i save = (core l, j) ∧ at_lines save j ls.
Proof.
  intros Ht (pre & -> & ->). unfold render. rewrite bind_cons. pose proof (length_render_line l). split.
  - rewrite !length_app. apply Nat.ltb_lt. lia.
  - exists (length (pre ++ render_line l)). split; [by apply ReadLine_spec|].
    exists (pre ++ render_line l). by rewrite <-app_assoc.
Qed.

Lemma find_table_spec fuel prefix save i ls :
  Forall (tight ∘ core) ls → (length ls ≤ fuel)%nat → at_lines save i ls →
  ∃ j, find_table fuel prefix save i = Ret j ∧ at_lines save j (after_table prefix ls).
Proof.
  intros Hls. revert fuel i. induction Hls as [|l ls Hl Hls IH]; intros fuel i Hf Hi.
  - exists i. split; [|done]. destruct fuel; simpl; by rewrite (at_lines_end _ _ Hi).
  - destruct (at_lines_next _ _ _ _ Hl Hi) as (Hlt & j & Hread & Hj). destruct fuel as [|fuel]; [simpl in Hf; lia|].
    simpl. rewrite Hlt, Hread. destruct (HasPrefix _ _); [by exists j|]. apply IH; [simpl in Hf; lia|done].
Qed.

Lemma chain_loop_spec fuel save i ls m :
  Forall (tight ∘ core) ls → (length ls ≤ fuel)%nat → at_lines save i ls →
  chain_loop fuel save i m = table_chains ls m.
Proof.
  intros Hls. revert fuel i m. induction Hls as [|l ls Hl Hls IH]; intros fuel i m Hf Hi.
  - destruct fuel; simpl; by rewrite (at_lines_end _ _ Hi).
  - destruct (at_lines_next _ _ _ _ Hl Hi) as (Hlt & j & Hread & Hj). destruct fuel as [|fuel]; [simpl in Hf; lia|].
    simpl. rewrite Hlt, Hread. destruct (classify _); try done; apply IH; try done; simpl in Hf; lia.
Qed.

Lemma after_table_incl prefix ls : (length (after_table prefix ls) ≤ length ls)%nat ∧
  ∀ l, l ∈ after_table prefix ls → l ∈ ls.
Proof.
  induction ls as [|l ls [IH1 IH2]]; [done|]. simpl. destruct (HasPrefix _ _).
  - split; [lia|]. intros x Hx. by right.
  - split; [lia|]. intros x Hx. right. by apply IH2.
Qed.

Lemma GetChainLines_spec table ls :
  Forall (tight ∘ core) ls → GetChainLines table (render ls) = table_chains (after_table ("*" +:+ table) ls) ∅.
Proof.
  intros Hls. pose proof (length_render ls) as Hlen. unfold GetChainLines.
  destruct (find_table_spec (length (render ls)) ("*" +:+ table) (render ls) 0 ls) as (j & -> & Hj); [done..|by exists []|].
  destruct (after_table_incl ("*" +:+ table) ls) as [Hl Hin].
  apply chain_loop_spec; [|lia|done]. apply Forall_forall. intros l Hl'. eapply Forall_forall in Hls; [exact Hls|auto].
Qed.

(** ** Chain lines *)
Definition plain (s : string) : raw_line := {| lead := 0; core := String.list_ascii_of_string s; trail := 0 |}.

Lemma line_of_plain s : line_of (core (plain s)) = s.
Proof. apply String.string_of_list_ascii_of_string. Qed.

Lemma classify_chain chain : byteIndex chain " " = None → classify (MakeChainLine chain) = LChain chain.
Proof.
  intros Hc. unfold classify, MakeChainLine. rewrite decide_False by done. cbn [String.append HasPrefix].
  assert (byteIndex (":" +:+ chain +:+ " - [0:0]") " " = Some (S (String.length chain))) as Hb.
  { rewrite StringFacts.sapp_cons. cbn [byteIndex]. rewrite decide_False by done. rewrite StringFacts.sapp_nil.
    by rewrite (StringFacts.byteIndex_app_char chain "- [0:0]"). }
  assert (HasPrefix (":" +:+ chain +:+ " - [0:0]") "COMMIT" || HasPrefix (":" +:+ chain +:+ " - [0:0]") "*" = false) as -> by done.
  assert (HasPrefix (":" +:+ chain +:+ " - [0:0]") "#" = false) as -> by done.
  assert (HasPrefix (":" +:+ chain +:+ " - [0:0]") ":" && (1 <? String.length (":" +:+ chain +:+ " - [0:0]"))%nat = true) as ->.
  { apply andb_true_iff. split; [by destruct chain|]. rewrite StringFacts.sapp_cons. simpl. by destruct chain. }
  rewrite Hb. rewrite StringFacts.sapp_cons, StringFacts.sapp_nil. cbn [drop]. f_equal.
  replace (S (String.length chain) - 1)%nat with (String.length chain) by lia.
  by rewrite StringFacts.take_app_length.
Qed.

Lemma list_ascii_app s1 s2 :
  String.list_ascii_of_string (s1 +:+ s2) = String.list_ascii_of_string s1 ++ String.list_ascii_of_string s2.
Proof. induction s1 as [|c s1 IH]; [done|]. rewrite StringFacts.sapp_cons. cbn [String.list_ascii_of_string app]. by rewrite IH. Qed.

Lemma byteIndex_not_in s c : byteIndex s c = None → c ∉ String.list_ascii_of_string s.
Proof.
  induction s as [|d s IH]; [intros _ []%elem_of_nil|]. cbn [byteIndex String.list_ascii_of_string].
  case_decide as Hd; [done|]. intros Hs. apply not_elem_of_cons. split; [done|]. apply IH. by destruct (byteIndex s c).
Qed.

Lemma chain_line_tight chain : byteIndex chain newline = None → tight (core (plain (MakeChainLine chain))).
Proof.
  intros Hc%byteIndex_not_in. cbn [core plain]. unfold MakeChainLine. rewrite !list_ascii_app. split_and!.
  - intros [Hin|[Hin|Hin]%elem_of_app]%elem_of_app; [|done|].
    all: repeat (apply elem_of_cons in Hin as [Hin|Hin]; [discriminate|]); by apply elem_of_nil in Hin.
  - by intros c [= <-].
  - intros c. rewrite app_assoc, last_app. by intros [= <-].
Qed.

Lemma after_table_skip prefix before l rest :
  Forall (λ l, HasPrefix (line_of (core l)) prefix = false) before → HasPrefix (line_of (core l)) prefix = true →
  after_table prefix (before ++ l :: rest) = rest.
Proof.
  intros Hb Hl. induction Hb as [|b before Hb _ IH]; cbn [app after_table]; [by rewrite Hl|]. by rewrite Hb.
Qed.

Lemma table_chains_lines chains rest m :
  Forall (λ c, byteIndex c " " = None) chains →
  table_chains ((plain ∘ MakeChainLine <$> chains) ++ rest) m =
  table_chains rest (foldl (λ m c, <[c := MakeChainLine c]> m) m chains).
Proof.
  intros Hc. revert m. induction Hc as [|c chains Hc _ IH]; intros m; [done|].
  rewrite fmap_cons. cbn [app table_chains compose]. rewrite line_of_plain, classify_chain by done. apply IH.
Qed.

Lemma foldl_chains chains (m : gmap string string) c line :
  foldl (λ m c, <[c := MakeChainLine c]> m) m chains !! c = Some line ↔
  c ∈ chains ∧ line = MakeChainLine c ∨ (c ∉ chains) ∧ m !! c = Some line.
Proof.
  revert m. induction chains as [|d chains IH]; intros m; cbn [foldl].
  - split; [intros Hm; right; split; [apply not_elem_of_nil|done]|]. intros [[[]%elem_of_nil _]|[_ ?]]; done.
  - rewrite IH, elem_of_cons. destruct (decide (c = d)) as [->|Hne].
    + rewrite lookup_insert_eq. destruct (decide (d ∈ chains)); naive_solver.
    + rewrite lookup_insert_ne by done. naive_solver.
Qed.

(** C31: [GetChainLines] recovers from iptables-save data exactly the chains
    declared in the table: with the lines of other tables before it, the
    table's opening line, a line made by [MakeChainLine] per chain, and COMMIT
    before whatever follows, it returns a map from each chain to its line and
    nothing else. *)
Theorem chain_lines_roundtrip (table : string) (chains : list string) (before after : list raw_line) :
  Forall (tight ∘ core) before → Forall (tight ∘ core) after → tight (core (plain ("*" +:+ table))) →
  Forall (λ l, HasPrefix (line_of (core l)) ("*" +:+ table) = false) before →
  Forall (λ c, byteIndex c " " = None ∧ byteIndex c newline = None) chains →
  ∃ m, GetChainLines table (render (before ++ plain ("*" +:+ table) ::
      (plain ∘ MakeChainLine <$> chains) ++ plain "COMMIT" :: after)) = Ret m ∧
    ∀ c line, m !! c = Some line ↔ c ∈ chains ∧ line = MakeChainLine c.
Proof.
  intros Hb Ha Ht Hno Hc. eexists. split.
  - rewrite GetChainLines_spec, after_table_skip; [|done| |].
    + rewrite table_chains_lines by (eapply Forall_impl; [exact Hc|]; by intros ? [? _]). reflexivity.
    + rewrite line_of_plain. clear. induction ("*" +:+ table) as [|c s IH]; [done|]. cbn. by destruct (ascii_dec c c).
    + apply Forall_app_2; [done|]. constructor; [done|]. apply Forall_app_2; [|constructor; [|done]].
      * apply Forall_fmap. eapply Forall_impl; [exact Hc|]. intros c [_ ?]. by apply chain_line_tight.
      * split_and!; [by_eval|by intros c [= <-]..].
  - intros c line. rewrite foldl_chains, lookup_empty. naive_solver.
Qed.

Lemma chain_lines_roundtrip_witness :
  ∃ m, GetChainLines "nat" (render ([plain "# Generated"; plain "*filter"; plain "COMMIT"] ++ plain "*nat" ::
      (plain ∘ MakeChainLine <$> ["PREROUTING"; "KUBE-SVC"]) ++ plain "COMMIT" :: [])) = Ret m ∧
    m !! "KUBE-SVC" = Some ":KUBE-SVC - [0:0]".
Proof.
  destruct (chain_lines_roundtrip "nat" ["PREROUTING"; "KUBE-SVC"]
    [plain "# Generated"; plain "*filter"; plain "COMMIT"] []) as (m & Hm & Hc).
  - repeat constructor; first [by_eval | by intros ? [= <-]].
  - constructor.
  - split_and!; [by_eval|by intros ? [= <-]..].
  - repeat constructor; by vm_compute.
  - repeat constructor; by vm_compute.
  - exists m. split; [exact Hm|]. apply Hc. split; [by_eval|reflexivity].
Defined.

(** Data that does not end in a newline may lose the end of its last line:
    a last word of one byte is dropped, and so is the whole line when it ends
    with a space or has one byte; a longer last word is kept. *)
Theorem unterminated_line_truncated :
  let data := String.list_ascii_of_string in
  ReadLine 0 (data "-A POSTROUTING -j MASQUERADE") = (data "-A POSTROUTING -j MASQUERADE", 28%nat) ∧
  ReadLine 0 (data "-A X -j Y") = (data "-A X -j", 9%nat) ∧
  ReadLine 0 (data "COMMIT ") = ([], 7%nat) ∧
  ReadLine 0 (data "x") = ([], 1%nat).
Proof. split_and!; vm_compute; reflexivity. Qed.
