(* ===== verification/Healthcheck.v ===== *)
(** * Health check server (pkg/proxy/healthcheck)

    The map of listening health checks and its three operations. The mutex is
    part of the state: locking a held mutex never returns, which the model
    shows as a computation that does not return ([blocked]). Accepting
    connections is left to the HTTP library; starting its goroutine is an event
    of the trace, [ServeHTTP] is the handler it calls, and [HealthServing] puts
    the two together. *)

From S2P Require Import Prelude GoNet ProxyTypes Host.

Module Healthcheck.

(** The handler of one service; its field [hcs] is the server it runs on. *)
Record hcHandler := { name : NamespacedName }.

(** An [HTTPServer], by what http.Server has of it. *)
Record HTTPServer := { Addr : string; Handler : hcHandler }.

(** The two injected interfaces. Listening is a numbered question to the node. *)
Record Listener := { Listener_Listen : nat → string → result socket }.
Record HTTPServerFactory := { New : string → hcHandler → HTTPServer }.

Definition stdNetListener `{NetOS} : Listener := {| Listener_Listen n addr := Listen n "tcp" addr |}.
Definition stdHTTPServerFactory : HTTPServerFactory :=
  {| New addr handler := {| Addr := addr; Handler := handler |} |}.

Record hcInstance := {
  port : Z;                             (* uint16 *)
  listener : socket;
  http : HTTPServer;                    (* the field server *)
  endpoints : Z;
}.

Global Instance hcHandler_eq_dec : EqDecision hcHandler.
Proof. solve_decision. Defined.
Global Instance HTTPServer_eq_dec : EqDecision HTTPServer.
Proof. solve_decision. Defined.
Global Instance hcInstance_eq_dec : EqDecision hcInstance.
Proof. solve_decision. Defined.

Record server := {
  hostname : string;
  recorder : bool;                      (* whether it is non-nil *)
  hcs_listener : Listener;
  httpFactory : HTTPServerFactory;
  services : gmap NamespacedName hcInstance;
  locked : bool;
}.

Definition with_services (m : gmap NamespacedName hcInstance) (s : server) : server :=
  {| hostname := hostname s; recorder := recorder s; hcs_listener := hcs_listener s; httpFactory := httpFactory s;
     services := m; locked := locked s |}.
Definition with_locked (b : bool) (s : server) : server :=
  {| hostname := hostname s; recorder := recorder s; hcs_listener := hcs_listener s; httpFactory := httpFactory s;
     services := services s; locked := b |}.
Definition with_endpoints (n : Z) (svc : hcInstance) : hcInstance :=
  {| port := port svc; listener := listener svc; http := http svc; endpoints := n |}.

Definition NewServer `{NetOS} (hostname : string) (recorder : bool)
    (listener : option Listener) (httpServerFactory : option HTTPServerFactory) : server :=
  {| hostname := hostname; recorder := recorder;
     hcs_listener := match listener with None => stdNetListener | Some l => l end;
     httpFactory := match httpServerFactory with None => stdHTTPServerFactory | Some f => f end;
     services := ∅; locked := false |}.

(** What [ServeHTTP] answers. *)
Record response := { status : Z; content_type : string; body : string }.

Section ops.
Context `{MR : MapRange}.

Abbreviation HM := (M (server * IO)).
Definition on_hcs {A} (c : M server A) : HM A := zoom fst (λ h s, (h, s.2)) c.
Definition on_io {A} (c : M IO A) : HM A := zoom snd (λ w s, (s.1, w)) c.

Definition blocked : string := "blocked on a mutex that is never released".
Definition Lock : HM unit :=
  on_hcs (h ← get; if locked h then panic blocked else modify (with_locked true)).
Definition Unlock : HM unit := on_hcs (modify (with_locked false)).

(** ** SyncServices *)
Definition close_unneeded (newServices : gmap NamespacedName Z) (e : NamespacedName * hcInstance) : HM unit :=
  let '(nsn, svc) := e in
  if decide (newServices !! nsn = Some (port svc)) then mret tt
  else on_io (Close (Some (listener svc))) ;; on_hcs (modify (λ h, with_services (delete nsn (services h)) h)).

Definition failed_message (h : server) (nsn : NamespacedName) (p : Z) (err : string) : string :=
  "node " +:+ hostname h +:+ " failed to start healthcheck " +:+ Quote (NamespacedName_String nsn) +:+
  " on port " +:+ Itoa p +:+ ": " +:+ err.

Definition open_needed (e : NamespacedName * Z) : HM unit :=
  let '(nsn, p) := e in
  h ← on_hcs get;
  match services h !! nsn with
  | Some _ => mret tt
  | None =>
      let addr := ":" +:+ Itoa p in
      let svc := New (httpFactory h) addr {| name := nsn |} in
      r ← on_io (ask (λ n, Listener_Listen (hcs_listener h) n addr));
      match r with
      | Err err =>
          if recorder h then
            on_io (emit (ERecord (NamespacedName_String nsn) "FailedToStartHealthcheck" (failed_message h nsn p err)))
          else mret tt
      | OK l =>
          on_hcs (modify (λ h,
            with_services (<[nsn := {| port := p; listener := l; http := svc; endpoints := 0 |}]> (services h)) h)) ;;
          on_io (emit (EServe (name (Handler svc)) l))      (* go svc.server.Serve(svc.listener) *)
      end
  end.

Definition SyncServices (newServices : gmap NamespacedName Z) : HM error :=
  Lock ;;
  h ← on_hcs get;
  old ← on_io (rangeM (services h));
  for_each old (close_unneeded newServices) ;;
  new ← on_io (rangeM newServices);
  for_each new open_needed ;;
  Unlock ;; mret None.

(** ** SyncEndpoints *)
Definition set_count (e : NamespacedName * Z) : HM unit :=
  let '(nsn, count) := e in
  on_hcs (modify (λ h, with_services (alter (with_endpoints count) nsn (services h)) h)).

Definition reset_count (newEndpoints : gmap NamespacedName Z) (e : NamespacedName * hcInstance) : HM unit :=
  match newEndpoints !! e.1 with
  | Some _ => mret tt
  | None => on_hcs (modify (λ h, with_services (alter (with_endpoints 0) e.1 (services h)) h))
  end.

Definition SyncEndpoints (newEndpoints : gmap NamespacedName Z) : HM error :=
  Lock ;;
  new ← on_io (rangeM newEndpoints);
  for_each new set_count ;;
  h ← on_hcs get;
  cur ← on_io (rangeM (services h));
  for_each cur (reset_count newEndpoints) ;;
  Unlock ;; mret None.

(** ** ServeHTTP

    The lookup of an absent name gives a nil pointer, whose field is read with
    the mutex held. [render] is the dedented template. *)
Definition ServeHTTP (render : string → string → Z → string) (hc : hcHandler) : HM response :=
  Lock ;;
  h ← on_hcs get;
  match services h !! name hc with
  | None => panic "invalid memory address or nil pointer dereference"
  | Some svc =>
      Unlock ;;
      mret {| status := if decide (endpoints svc = 0%Z) then 503 else 200;
              content_type := "application/json";
              body := render (Namespace (name hc)) (Name (name hc)) (endpoints svc) |}
  end.
End ops.
End Healthcheck.
