(* ===== verification/HealthClaims.v ===== *)
(** * Properties of the health check server *)

From S2P Require Import Prelude GoNet ProxyTypes Host Healthcheck.
Import Healthcheck.

Section facts.
Context `{MR : MapRange}.
Implicit Types (h : server) (w : IO) (nsn : NamespacedName).

Lemma wp_Lock (Q : unit → server * IO → Prop) h w :
  locked h = false → Q tt (with_locked true h, w) → wp Lock Q (h, w).
Proof. intros Hl HQ. apply wp_zoom. apply wp_bind, wp_get. cbn [fst]. rewrite Hl. by apply wp_modify. Qed.

(** ** Closing what is not needed any more *)
Definition unneeded (new : gmap NamespacedName Z) (e : NamespacedName * hcInstance) : option event :=
  if decide (new !! e.1 = Some (port e.2)) then None else Some (EClose (listener e.2)).

Definition needed (new : gmap NamespacedName Z) (old : gmap NamespacedName hcInstance) nsn : option hcInstance :=
  match old !! nsn with
  | Some svc => if decide (new !! nsn = Some (port svc)) then Some svc else None
  | None => None
  end.

Lemma needed_None new old nsn :
  needed new old nsn = None ↔ ∀ svc, old !! nsn = Some svc → new !! nsn ≠ Some (port svc).
Proof. unfold needed. destruct (old !! nsn) as [svc|]; [case_decide|]; naive_solver. Qed.

Lemma close_loop new h w l :
  l ≡ₚ map_to_list (services h) →
  wp (for_each l (close_unneeded new)) (λ _ s, ∃ m, s.1 = with_services m h ∧ (∀ nsn, m !! nsn = needed new (services h) nsn) ∧
    trace s.2 = trace w ++ omap (unneeded new) l ∧ tick s.2 = tick w) (h, w).
Proof.
  intros Hl. assert (NoDup l.*1) as Hnd by (rewrite Hl; apply NoDup_fst_map_to_list).
  assert (∀ nsn svc, (nsn, svc) ∈ l ↔ services h !! nsn = Some svc) as Hin.
  { intros nsn svc. by rewrite Hl, elem_of_map_to_list. }
  apply (wp_for_each (λ don s, ∃ m, s.1 = with_services m h ∧
    (∀ nsn, m !! nsn = if decide (nsn ∈ don.*1) then needed new (services h) nsn else services h !! nsn) ∧
    trace s.2 = trace w ++ omap (unneeded new) don ∧ tick s.2 = tick w)).
  - exists (services h). split_and!; [by destruct h|done| |done]. simpl. by rewrite app_nil_r.
  - intros don [nsn svc] rest [h1 w1] -> (m & Hh & Hm & Ht & Htk). cbn [fst snd] in *. subst h1.
    assert (services h !! nsn = Some svc) as Hsvc by (apply Hin, elem_of_app; right; left).
    assert (nsn ∉ don.*1) as Hno.
    { rewrite fmap_app in Hnd. apply NoDup_app in Hnd as (_ & Hd & _). intros Hi. apply (Hd nsn Hi).
      rewrite fmap_cons. left. }
    assert (∀ nsn', (nsn' ∈ (don ++ [(nsn, svc)]).*1) ↔ nsn' ∈ don.*1 ∨ nsn' = nsn) as Hdon.
    { intros nsn'. rewrite fmap_app, elem_of_app. cbn. by rewrite list_elem_of_singleton. }
    assert (omap (unneeded new) (don ++ [(nsn, svc)]) = omap (unneeded new) don ++
      if decide (new !! nsn = Some (port svc)) then [] else [EClose (listener svc)]) as ->.
    { rewrite omap_app. f_equal. simpl. unfold unneeded. cbn [fst snd]. by case_decide. }
    unfold close_unneeded. case_decide as Hk.
    + apply wp_ret. exists m. split_and!; [done| |by rewrite app_nil_r|done]. intros nsn'. rewrite Hm.
      destruct (decide (nsn' = nsn)) as [->|Hne].
      * rewrite decide_False, decide_True by (done || (by apply Hdon; right)). unfold needed. by rewrite Hsvc, decide_True.
      * apply decide_ext. rewrite Hdon. naive_solver.
    + apply wp_bind, wp_zoom, wp_emit, wp_zoom, wp_modify. cbn [fst snd].
      exists (delete nsn m). split_and!; [done| |by rewrite Ht, app_assoc|done].
      intros nsn'. destruct (decide (nsn' = nsn)) as [->|Hne].
      * rewrite lookup_delete_eq, decide_True by (by apply Hdon; right). unfold needed. by rewrite Hsvc, decide_False.
      * rewrite lookup_delete_ne, Hm by done. apply decide_ext. rewrite Hdon. naive_solver.
  - intros [h1 w1] (m & Hh & Hm & Ht & Htk). exists m. split_and!; [done| |done|done]. intros nsn. rewrite Hm.
    case_decide as Hi; [done|]. unfold needed. destruct (services h !! nsn) as [svc|] eqn:E; [|done].
    destruct Hi. apply list_elem_of_fmap. exists (nsn, svc). by rewrite Hin.
Qed.

(** ** Opening what is needed *)
Definition listens_all (L : Listener) : Prop := ∀ n addr, ∃ fd, Listener_Listen L n addr = OK fd.

(** [fd] is the answer to a question numbered from [a] on and before [b]. *)
Definition listened (L : Listener) (a b : nat) (fd : socket) : Prop :=
  ∃ n addr, (a ≤ n < b)%nat ∧ Listener_Listen L n addr = OK fd.

Lemma listened_mono L a b b' fd : listened L a b fd → (b ≤ b')%nat → listened L a b' fd.
Proof. intros (n & addr & Hn & Hl) Hb. exists n, addr. split; [lia|done]. Qed.

(** A listener never gives the same socket for two questions. *)
Definition fresh_listener (L : Listener) : Prop :=
  ∀ n n' addr addr' fd, Listener_Listen L n addr = OK fd → Listener_Listen L n' addr' = OK fd → n = n'.

Lemma listened_disjoint L a b c fd : fresh_listener L → listened L a b fd → listened L b c fd → False.
Proof. intros HL (n & ad & Hn & Hl) (n' & ad' & Hn' & Hl'). pose proof (HL _ _ _ _ _ Hl Hl'). lia. Qed.

Definition opened (L : Listener) (new : gmap NamespacedName Z) (mid m : gmap NamespacedName hcInstance)
    (don : list (NamespacedName * Z)) : Prop :=
  (∀ nsn svc, mid !! nsn = Some svc → m !! nsn = Some svc) ∧
  (∀ nsn svc, mid !! nsn = None → m !! nsn = Some svc → new !! nsn = Some (port svc) ∧ endpoints svc = 0%Z) ∧
  (listens_all L → ∀ nsn, nsn ∈ don.*1 → is_Some (m !! nsn)).

(** The goroutines started: one for each new health check, on its new socket. *)
Definition served (L : Listener) (a b : nat) (mid m : gmap NamespacedName hcInstance) (evs : list event) : Prop :=
  (∀ nsn fd, EServe nsn fd ∈ evs ↔ mid !! nsn = None ∧ ∃ svc, m !! nsn = Some svc ∧ listener svc = fd) ∧
  (∀ nsn fd, EServe nsn fd ∈ evs → listened L a b fd) ∧
  (fresh_listener L → ∀ nsn nsn' fd, EServe nsn fd ∈ evs → EServe nsn' fd ∈ evs → nsn = nsn').

(** The events that close a socket. *)
Definition closes (e : event) : Prop := ∃ fd, e = EClose fd.

Lemma served_other L a b b' mid m evs e :
  (∀ nsn fd, e ≠ EServe nsn fd) → (b ≤ b')%nat → served L a b mid m evs → served L a b' mid m (evs ++ [e]).
Proof.
  intros He Hb (H1 & H2 & H3).
  assert (∀ nsn fd, EServe nsn fd ∈ evs ++ [e] ↔ EServe nsn fd ∈ evs) as Hin.
  { intros nsn fd. rewrite elem_of_app, list_elem_of_singleton. naive_solver. }
  split_and!.
  - intros nsn fd. by rewrite Hin, H1.
  - intros nsn fd Hi%Hin. eapply listened_mono; [by eapply H2|done].
  - intros HL nsn nsn' fd Hi%Hin Hi'%Hin. by eapply H3.
Qed.

Lemma served_mono L a b b' mid m evs : (b ≤ b')%nat → served L a b mid m evs → served L a b' mid m evs.
Proof. intros Hb (H1 & H2 & H3). split_and!; [done| |done]. intros. eapply listened_mono; [by eapply H2|done]. Qed.

Lemma served_new L a b mid m evs nsn addr svc :
  (a ≤ b)%nat → Listener_Listen L b addr = OK (listener svc) → mid !! nsn = None → m !! nsn = None →
  served L a b mid m evs → served L a (S b) mid (<[nsn := svc]> m) (evs ++ [EServe nsn (listener svc)]).
Proof.
  intros Hab Hl Hmid Hm (H1 & H2 & H3).
  assert (∀ nsn' fd, EServe nsn' fd ∈ evs ++ [EServe nsn (listener svc)] ↔
    EServe nsn' fd ∈ evs ∨ nsn' = nsn ∧ fd = listener svc) as Hin.
  { intros nsn' fd. rewrite elem_of_app, list_elem_of_singleton. naive_solver. }
  assert (listened L b (S b) (listener svc)) as Hnew by (exists b, addr; split; [lia|done]).
  split_and!.
  - intros nsn' fd. rewrite Hin. destruct (decide (nsn' = nsn)) as [->|Hne].
    + rewrite lookup_insert_eq. split; [|naive_solver]. intros [Hi|[_ ->]]; [|naive_solver].
      apply H1 in Hi as (_ & svc' & Hs & _). congruence.
    + rewrite lookup_insert_ne, H1 by done. naive_solver.
  - intros nsn' fd [Hi|[_ ->]]%Hin; [eapply listened_mono; [by eapply H2|lia]|]. exists b, addr. split; [lia|done].
  - intros HL n1 n2 fd [Hi|[-> ->]]%Hin [Hi'|[Hn ?]]%Hin; simplify_eq; [by eapply H3| | |done];
      exfalso; eapply listened_disjoint; [done|by eapply H2|done|done|by eapply H2|done].
Qed.

Lemma served_later L a a' b mid m evs : (a ≤ a')%nat → served L a' b mid m evs → served L a b mid m evs.
Proof.
  intros Ha (H1 & H2 & H3). split_and!; [done| |done]. intros nsn fd Hi. destruct (H2 _ _ Hi) as (n & addr & Hn & Hl).
  exists n, addr. split; [lia|done].
Qed.

Lemma served_closing L a b mid m evs evs0 :
  Forall closes evs0 → served L a b mid m evs → served L a b mid m (evs0 ++ evs).
Proof.
  intros Hc (H1 & H2 & H3).
  assert (∀ nsn fd, EServe nsn fd ∈ evs0 ++ evs ↔ EServe nsn fd ∈ evs) as Hin.
  { intros nsn fd. rewrite elem_of_app. split; [|by right]. intros [Hi|?]; [|done].
    eapply Forall_forall in Hi; [|exact Hc]. by destruct Hi. }
  split_and!.
  - intros nsn fd. by rewrite Hin, H1.
  - intros nsn fd Hi%Hin. by eapply H2.
  - intros HL nsn nsn' fd Hi%Hin Hi'%Hin. by eapply H3.
Qed.

(** The factory gives the server the handler it is given, as http.Server has. *)
Definition keeps_handler (f : HTTPServerFactory) : Prop := ∀ addr hd, Handler (New f addr hd) = hd.

Lemma open_loop new h w l :
  l ≡ₚ map_to_list new → keeps_handler (httpFactory h) →
  wp (for_each l open_needed) (λ _ s, ∃ m evs, s.1 = with_services m h ∧
    opened (hcs_listener h) new (services h) m l ∧ trace s.2 = trace w ++ evs ∧ Forall (λ e, ¬ closes e) evs ∧
    (tick w ≤ tick s.2)%nat ∧ served (hcs_listener h) (tick w) (tick s.2) (services h) m evs) (h, w).
Proof.
  intros Hl Hf. apply (wp_for_each (λ don s, ∃ m evs, s.1 = with_services m h ∧
    opened (hcs_listener h) new (services h) m don ∧ trace s.2 = trace w ++ evs ∧ Forall (λ e, ¬ closes e) evs ∧
    (tick w ≤ tick s.2)%nat ∧ served (hcs_listener h) (tick w) (tick s.2) (services h) m evs)); [..|done].
  - exists (services h), []. split_and!; [by destruct h| |by rewrite app_nil_r|done|done|].
    + split_and!; [done|naive_solver|]. intros _ nsn []%elem_of_nil.
    + split_and!; [|by intros ?? []%elem_of_nil|by intros ???? []%elem_of_nil].
      intros nsn fd. split; [intros []%elem_of_nil|]. intros (? & ? & ? & ?). congruence.
  - intros don [nsn p] rest [h1 w1] -> (m & evs & Hh & (Ho1 & Ho2 & Ho3) & Ht & Hev & Htk & Hs). cbn [fst snd] in *.
    subst h1.
    assert (new !! nsn = Some p) as Hp. { apply elem_of_map_to_list. rewrite <-Hl. apply elem_of_app. right. left. }
    assert (∀ nsn', (nsn' ∈ (don ++ [(nsn, p)]).*1) ↔ nsn' ∈ don.*1 ∨ nsn' = nsn) as Hdon.
    { intros nsn'. rewrite fmap_app, elem_of_app. cbn. by rewrite list_elem_of_singleton. }
    unfold open_needed. apply wp_bind, wp_zoom, wp_get.
    cbn [fst snd services with_services hcs_listener httpFactory recorder].
    destruct (m !! nsn) as [svc|] eqn:E.
    { apply wp_ret. exists m, evs. split_and!; [done| |done..]. split_and!; [done..|].
      intros Hall nsn' [Hi| ->]%Hdon; [by apply Ho3|by rewrite E]. }
    apply wp_bind, wp_zoom, wp_ask. cbn [fst snd]. destruct (Listener_Listen _ _ _) as [fd|err] eqn:El.
    + apply wp_bind, wp_zoom, wp_modify, wp_zoom, wp_emit. rewrite Hf. cbn [fst snd trace tick name].
      exists (<[nsn := {| port := p; listener := fd; http := New (httpFactory h) (":" +:+ Itoa p) {| name := nsn |};
                          endpoints := 0 |}]> m), (evs ++ [EServe nsn fd]).
      split_and!; [done| |by rewrite Ht, app_assoc| |lia|].
      * split_and!.
        -- intros nsn' svc Hm. destruct (decide (nsn' = nsn)) as [->|Hne]; [by rewrite (Ho1 _ _ Hm) in E|].
           rewrite lookup_insert_ne by done. by apply Ho1.
        -- intros nsn' svc Hm. destruct (decide (nsn' = nsn)) as [->|Hne].
           ++ rewrite lookup_insert_eq. intros [= <-]. by split.
           ++ rewrite lookup_insert_ne by done. by apply Ho2.
        -- intros Hall nsn' Hi%Hdon. destruct (decide (nsn' = nsn)) as [->|Hne]; [by rewrite lookup_insert_eq|].
           rewrite lookup_insert_ne by done. apply Ho3; [done|]. by destruct Hi.
      * apply Forall_app_2; [done|]. constructor; [|done]. by intros [fd' ?].
      * eapply (served_new _ _ _ _ _ _ _ _ {| listener := fd |}); [done..| |done|done].
        destruct (services h !! nsn) eqn:E'; [|done]. by rewrite (Ho1 _ _ E') in E.
    + assert (opened (hcs_listener h) new (services h) m (don ++ [(nsn, p)])) as Ho.
      { split_and!; [done..|]. intros Hall. destruct (Hall (tick w1) (":" +:+ Itoa p)) as [fd Hfd]. congruence. }
      destruct (recorder _).
      * apply wp_zoom, wp_emit. cbn [fst snd trace tick]. eexists m, _.
        split_and!; [done..|by rewrite Ht, app_assoc| |lia|by eapply served_other; [| |done]; [done|lia]].
        apply Forall_app_2; [done|]. constructor; [|done]. by intros [fd ?].
      * apply wp_ret. exists m, evs. split_and!; [done..|cbn [snd tick]; lia|].
        eapply served_mono; [|done]. cbn [snd tick]. lia.
Qed.

(** What [SyncServices] leaves. *)
Definition synced (L : Listener) (new : gmap NamespacedName Z) (old m : gmap NamespacedName hcInstance) : Prop :=
  (∀ nsn svc, m !! nsn = Some svc → new !! nsn = Some (port svc)) ∧
  (∀ nsn svc, old !! nsn = Some svc → new !! nsn = Some (port svc) → m !! nsn = Some svc) ∧
  (∀ nsn svc, m !! nsn = Some svc → old !! nsn ≠ Some svc → endpoints svc = 0%Z) ∧
  (listens_all L → dom m = dom new).

Lemma SyncServices_spec new h w :
  locked h = false → keeps_handler (httpFactory h) →
  wp (SyncServices new) (λ r s, r = None ∧ ∃ m evs, s.1 = with_services m h ∧
    synced (hcs_listener h) new (services h) m ∧ trace s.2 = trace w ++ evs ∧
    (∀ fd, EClose fd ∈ evs ↔ ∃ nsn svc, services h !! nsn = Some svc ∧ new !! nsn ≠ Some (port svc) ∧ fd = listener svc) ∧
    (tick w ≤ tick s.2)%nat ∧
    ∃ mid, (∀ nsn, mid !! nsn = needed new (services h) nsn) ∧
      served (hcs_listener h) (tick w) (tick s.2) mid m evs) (h, w).
Proof.
  intros Hlk Hf. unfold SyncServices. apply wp_bind, wp_Lock; [done|]. apply wp_bind, wp_zoom, wp_get.
  apply wp_bind, wp_zoom, wp_rangeM. cbn [fst snd]. apply wp_bind. eapply wp_mono; [apply close_loop, map_range_perm|].
  intros [] [h1 w1] (mid & Hh1 & Hmid & Ht1 & Htk1). cbn [fst snd services with_locked tick] in *. subst h1.
  apply wp_bind, wp_zoom, wp_rangeM. cbn [fst snd]. apply wp_bind.
  eapply wp_mono; [apply open_loop; [apply map_range_perm|done]|].
  intros [] [h2 w2] (m & evs & Hh2 & (Ho1 & Ho2 & Ho3) & Ht2 & Hev & Htk2 & Hsv). cbn [fst snd] in *. subst h2.
  cbn [services with_services with_locked hcs_listener tick] in *.
  apply wp_bind, wp_zoom, wp_modify, wp_ret. split; [done|].
  assert (∀ nsn svc, mid !! nsn = Some svc ↔ services h !! nsn = Some svc ∧ new !! nsn = Some (port svc)) as Hmid'.
  { intros nsn svc. rewrite Hmid. unfold needed. destruct (services h !! nsn) as [svc'|]; [|naive_solver].
    case_decide; naive_solver. }
  exists m, (omap (unneeded new) (map_range (tick w) (services h)) ++ evs).
  split_and!; [destruct h; simpl in *; by subst| |rewrite app_assoc; etrans; [exact Ht2|]; f_equal; exact Ht1| |cbn; lia|].
  - split_and!.
    + intros nsn svc Hm. destruct (mid !! nsn) as [svc'|] eqn:E; [|by eapply Ho2].
      rewrite (Ho1 _ _ E) in Hm. injection Hm as <-. by apply Hmid'.
    + intros nsn svc Hs Hn. apply Ho1, Hmid'. by split.
    + intros nsn svc Hm Hne. destruct (mid !! nsn) as [svc'|] eqn:E; [|by eapply Ho2].
      rewrite (Ho1 _ _ E) in Hm. injection Hm as <-. by destruct Hne; apply Hmid'.
    + intros Hall. apply set_eq. intros nsn. rewrite !elem_of_dom. split.
      * intros [svc Hm]. destruct (mid !! nsn) as [svc'|] eqn:E; [apply Hmid' in E as [_ ?]; eauto|].
        destruct (Ho2 _ _ E Hm); eauto.
      * intros [p Hp]. apply Ho3; [done|]. apply list_elem_of_fmap. exists (nsn, p). split; [done|].
        by apply elem_of_map_range.
  - intros fd. rewrite elem_of_app, list_elem_of_omap. split.
    + intros [([nsn svc] & Hin%elem_of_map_range & Hu)|Hin].
      * unfold unneeded in Hu. cbn [fst snd] in Hu. case_decide; [done|]. injection Hu as <-. by exists nsn, svc.
      * eapply Forall_forall in Hev; [|done]. destruct Hev. by exists fd.
    + intros (nsn & svc & Hs & Hn & ->). left. exists (nsn, svc). split; [by apply elem_of_map_range|].
      unfold unneeded. cbn [fst snd]. by rewrite decide_False.
  - exists mid. split; [done|]. apply served_later with (S (tick w1)); [lia|].
    apply served_closing; [|done]. apply Forall_forall. intros e ([nsn svc] & _ & Hu)%list_elem_of_omap.
    unfold unneeded in Hu. case_decide; [done|]. injection Hu as <-. by eexists.
Qed.

(** ** Endpoint counts *)
Section counts.
Context (new : gmap NamespacedName Z) (old : gmap NamespacedName hcInstance).

Definition counted nsn : option hcInstance := with_endpoints (default 0%Z (new !! nsn)) <$> old !! nsn.

(** Some entries have their new count, the others the old one. *)
Definition counting (don : NamespacedName → Prop) (m : gmap NamespacedName hcInstance) : Prop :=
  ∀ nsn, (don nsn → m !! nsn = counted nsn) ∧ (m !! nsn = counted nsn ∨ m !! nsn = old !! nsn).

Lemma counting_step (don : NamespacedName → Prop) m nsn :
  counting don m → counting (λ nsn', don nsn' ∨ nsn' = nsn) (alter (with_endpoints (default 0%Z (new !! nsn))) nsn m).
Proof.
  intros Hc nsn'. destruct (decide (nsn' = nsn)) as [->|Hne].
  - assert (alter (with_endpoints (default 0%Z (new !! nsn))) nsn m !! nsn = counted nsn) as H.
    { rewrite lookup_alter_eq. unfold counted. destruct (Hc nsn) as [_ [-> | ->]]; [|done].
      unfold counted. by destruct (old !! nsn). }
    split; [done|by left].
  - rewrite lookup_alter_ne by done. destruct (Hc nsn') as [H1 H2]. split; [|done]. intros [?|?]; [by apply H1|done].
Qed.

Lemma counting_mono (don don' : NamespacedName → Prop) m :
  counting don m → (∀ nsn, don' nsn → don nsn) → counting don' m.
Proof. intros Hc Hd nsn. destruct (Hc nsn) as [H1 H2]. split; [|done]. intros Hn. by apply H1, Hd. Qed.
End counts.

Lemma SyncEndpoints_spec new h w :
  locked h = false →
  wp (SyncEndpoints new) (λ r s, r = None ∧ trace s.2 = trace w ∧ (tick w ≤ tick s.2)%nat ∧
    ∃ m, s.1 = with_services m h ∧ ∀ nsn, m !! nsn = counted new (services h) nsn) (h, w).
Proof.
  intros Hlk. unfold SyncEndpoints. apply wp_bind, wp_Lock; [done|]. apply wp_bind, wp_zoom, wp_rangeM. cbn [fst snd].
  set (I don s := trace (s.2 : IO) = trace w ∧ (tick w ≤ tick s.2)%nat ∧ ∃ m, s.1 = with_services m (with_locked true h) ∧
    counting new (services h) don m).
  apply wp_bind. apply (wp_for_each (λ don, I (λ nsn, nsn ∈ don.*1))).
  { split_and!; [done|cbn; lia|]. exists (services h). split; [by destruct h|]. intros nsn. split; [intros []%elem_of_nil|by right]. }
  { intros don [nsn count] rest [h1 w1] Hl (Ht & Htk & m & Hh & Hc). cbn [fst snd] in *. subst h1.
    assert (new !! nsn = Some count) as Hn.
    { apply (elem_of_map_range (tick w)). rewrite Hl. apply elem_of_app. right. left. }
    apply wp_zoom, wp_modify. split_and!; [done|done|]. eexists. split; [done|]. cbn [fst services with_services].
    replace count with (default 0%Z (new !! nsn)) by by rewrite Hn.
    eapply counting_mono; [by apply counting_step|]. intros nsn'. rewrite fmap_app, elem_of_app. cbn.
    by rewrite list_elem_of_singleton. }
  intros [h1 w1] (Ht & Htk & m & Hh & Hc). cbn [fst snd] in *. subst h1.
  apply wp_bind, wp_zoom, wp_get, wp_bind, wp_zoom, wp_rangeM. cbn [fst snd services with_services].
  apply wp_bind. apply (wp_for_each (λ don, I (λ nsn, is_Some (new !! nsn) ∨ nsn ∈ don.*1))).
  { split_and!; [done|cbn; lia|]. exists m. split; [done|]. eapply counting_mono; [exact Hc|].
    intros nsn [[c Hn]|[]%elem_of_nil]. apply list_elem_of_fmap. exists (nsn, c). split; [done|].
    by apply elem_of_map_range. }
  { intros don [nsn svc] rest [h1 w2] Hl (Ht2 & Htk2 & m2 & Hh & Hc2). cbn [fst snd] in *. subst h1.
    assert (∀ nsn', (is_Some (new !! nsn') ∨ nsn' ∈ (don ++ [(nsn, svc)]).*1) ↔
      ((is_Some (new !! nsn') ∨ nsn' ∈ don.*1) ∨ nsn' = nsn)) as Hd.
    { intros nsn'. rewrite fmap_app, elem_of_app. cbn. rewrite list_elem_of_singleton. tauto. }
    unfold reset_count. cbn [fst]. destruct (new !! nsn) as [c|] eqn:En.
    - apply wp_ret. split_and!; [done|done|]. exists m2. split; [done|]. eapply counting_mono; [exact Hc2|].
      intros nsn' [?| ->]%Hd; [done|]. left. by rewrite En.
    - apply wp_zoom, wp_modify. split_and!; [done|done|]. eexists. split; [done|]. cbn [fst services with_services].
      replace 0%Z with (default 0%Z (new !! nsn)) at 1 by by rewrite En.
      eapply counting_mono; [by apply counting_step|]. intros nsn'. apply Hd. }
  intros [h1 w2] (Ht2 & Htk2 & m2 & Hh & Hc2). cbn [fst snd] in *. subst h1.
  apply wp_bind, wp_zoom, wp_modify, wp_ret. split_and!; [done..|]. exists m2.
  split; [destruct h; simpl in *; by subst|]. intros nsn. destruct (Hc2 nsn) as [H1 H2].
  destruct (m !! nsn) as [svc|] eqn:E.
  - apply H1. right. apply list_elem_of_fmap. exists (nsn, svc). split; [done|]. by apply elem_of_map_range.
  - destruct H2 as [H2|H2]; [done|]. rewrite H2. destruct (Hc nsn) as [_ Hm]. rewrite E in Hm. unfold counted in *.
    by destruct (services h !! nsn), Hm.
Qed.
End facts.

Ltac serve_step :=
  unfold ServeHTTP, Unlock, Lock, on_hcs, zoom, get, modify, panic, mret, M_ret, mbind, M_bind;
  cbn [fst snd locked services with_locked with_services Healthcheck.hostname recorder hcs_listener httpFactory name].

(** C29: [SyncServices] makes the listening health checks the wanted ones:
    afterwards only wanted services are there, on the wanted port; those that
    were there on that port are left alone, with their listener and endpoint
    count; new ones start with no endpoints; when every port can be listened
    on, all wanted services are there; the listeners closed are exactly those
    of services no longer wanted or wanted on another port; and a goroutine
    starts to serve exactly the new listeners, with the handler of its service. *)
Theorem health_services_synced `{MR : MapRange} (new : gmap NamespacedName Z) (h : server) (w : IO) :
  locked h = false → keeps_handler (httpFactory h) →
  ∃ m evs w', SyncServices new (h, w) = (Ret None, (with_services m h, w')) ∧ trace w' = trace w ++ evs ∧
    (∀ nsn svc, m !! nsn = Some svc → new !! nsn = Some (port svc)) ∧
    (∀ nsn svc, services h !! nsn = Some svc → new !! nsn = Some (port svc) → m !! nsn = Some svc) ∧
    (∀ nsn svc, m !! nsn = Some svc → services h !! nsn ≠ Some svc → endpoints svc = 0%Z) ∧
    (listens_all (hcs_listener h) → dom m = dom new) ∧
    (∀ fd, EClose fd ∈ evs ↔
       ∃ nsn svc, services h !! nsn = Some svc ∧ new !! nsn ≠ Some (port svc) ∧ fd = listener svc) ∧
    (∀ nsn fd, EServe nsn fd ∈ evs ↔
       (∀ svc, services h !! nsn = Some svc → new !! nsn ≠ Some (port svc)) ∧
       ∃ svc, m !! nsn = Some svc ∧ listener svc = fd).
Proof.
  intros Hlk Hf. pose proof (SyncServices_spec new h w Hlk Hf) as Hwp.
  apply wp_run in Hwp as (? & [h' w'] & Hrun & -> & m & evs & Hh & (H1 & H2 & H3 & H4) & Ht & Hc & _ & mid & Hmid & (Hs & _)).
  simpl in Hh, Ht. subst h'. exists m, evs, w'. split_and!; [done..|]. intros nsn fd. rewrite Hs, Hmid.
  by rewrite needed_None.
Qed.

(** What a health check reports follows [SyncEndpoints]: a request for a
    served service is answered 200 when the last synced count of local
    endpoints is not 0 and 503 when it is 0 or the service was not in the
    synced map. *)
Theorem health_reports_endpoints `{MR : MapRange} (render : string → string → Z → string)
    (new : gmap NamespacedName Z) (h : server) (w : IO) (nsn : NamespacedName) :
  locked h = false → is_Some (services h !! nsn) →
  ∃ h' w', SyncEndpoints new (h, w) = (Ret None, (h', w')) ∧ dom (services h') = dom (services h) ∧
    ServeHTTP render {| name := nsn |} (h', w') = (Ret {| status := if decide (default 0%Z (new !! nsn) = 0%Z) then 503 else 200;
      content_type := "application/json"; body := render (Namespace nsn) (Name nsn) (default 0%Z (new !! nsn)) |}, (h', w')).
Proof.
  intros Hlk [svc Hsvc]. pose proof (SyncEndpoints_spec new h w Hlk) as Hwp.
  apply wp_run in Hwp as (? & [h' w'] & Hrun & -> & Ht & _ & m & Hh & Hm). simpl in Hh. subst h'.
  exists (with_services m h), w'. split; [done|]. split.
  - apply set_eq. intros n. rewrite !elem_of_dom. cbn [services with_services]. rewrite Hm. unfold counted.
    by rewrite fmap_is_Some.
  - specialize (Hm nsn). unfold counted in Hm. rewrite Hsvc in Hm. destruct h as [hn rc ls hf sv lk]. simpl in *. subst lk.
    serve_step. by rewrite Hm.
Qed.

(** A request for a service that [SyncServices] has removed dereferences a
    nil pointer with the mutex held; the HTTP library recovers from the panic,
    the mutex stays locked, and no later sync or request returns. *)
Theorem health_request_after_removal_blocks `{MR : MapRange} (render : string → string → Z → string)
    (h : server) (w : IO) (nsn : NamespacedName) :
  locked h = false → services h !! nsn = None →
  ∃ h', ServeHTTP render {| name := nsn |} (h, w) = (Panic "invalid memory address or nil pointer dereference", (h', w)) ∧
    (∀ new w', SyncServices new (h', w') = (Panic blocked, (h', w'))) ∧
    (∀ new w', SyncEndpoints new (h', w') = (Panic blocked, (h', w'))) ∧
    (∀ n w', ServeHTTP render n (h', w') = (Panic blocked, (h', w'))).
Proof.
  intros Hlk Hn. exists (with_locked true h). split; [|done]. destruct h as [hn rc ls hf sv lk]. simpl in *. subst lk.
  serve_step. by rewrite Hn.
Qed.

(** ** Witnesses *)
Definition ex_listen : NetOS := {|
  InterfaceAddrs _ := OK []; Interfaces _ := OK []; Listen n _ _ := OK n;
  ResolveUDPAddr _ _ a := OK a; ListenUDP n _ _ := OK n; Hostname _ := OK "node1" |}.
Definition nsn_a : NamespacedName := {| Namespace := "ns"; Name := "a" |}.
Definition nsn_b : NamespacedName := {| Namespace := "ns"; Name := "b" |}.
Definition ex_http (p : Z) (nsn : NamespacedName) : HTTPServer :=
  {| Addr := ":" +:+ Itoa p; Handler := {| name := nsn |} |}.
Definition ex_health : server := {| hostname := "node1"; recorder := true; hcs_listener := @stdNetListener ex_listen;
  httpFactory := stdHTTPServerFactory; locked := false;
  services := {[nsn_a := {| port := 9000; listener := 7; http := ex_http 9000 nsn_a; endpoints := 2 |};
                nsn_b := {| port := 9001; listener := 8; http := ex_http 9001 nsn_b; endpoints := 1 |}]} |}.
Definition idle_io : IO := {| tick := 0; trace := [] |}.

Lemma health_services_synced_witness :
  ∃ m evs w', @SyncServices canonical_range {[nsn_a := 9000%Z]} (ex_health, idle_io)
      = (Ret None, (with_services m ex_health, w')) ∧
    trace w' = [] ++ evs ∧ m !! nsn_a = Some {| port := 9000; listener := 7; http := ex_http 9000 nsn_a; endpoints := 2 |} ∧ EClose 8 ∈ evs.
Proof.
  destruct (@health_services_synced canonical_range {[nsn_a := 9000%Z]} ex_health idle_io eq_refl (λ _ _, eq_refl))
    as (m & evs & w' & Hrun & Ht & _ & Hkeep & _ & _ & Hcl & _).
  exists m, evs, w'. split; [exact Hrun|]. split; [exact Ht|]. split.
  - apply Hkeep; vm_compute; reflexivity.
  - apply Hcl. exists nsn_b, {| port := 9001; listener := 8; http := ex_http 9001 nsn_b; endpoints := 1 |}. split; [vm_compute; reflexivity|].
    split; [discriminate|reflexivity].
Defined.

Lemma health_reports_endpoints_witness :
  ∃ h' w', @SyncEndpoints canonical_range {[nsn_a := 3%Z]} (ex_health, idle_io) = (Ret None, (h', w')) ∧
    ∃ r, ServeHTTP (λ _ _ _, "") {| name := nsn_b |} (h', w') = (Ret r, (h', w')) ∧ status r = 503%Z.
Proof.
  destruct (@health_reports_endpoints canonical_range (λ _ _ _, "") {[nsn_a := 3%Z]} ex_health idle_io nsn_b eq_refl
    ltac:(vm_compute; eexists; reflexivity)) as (h' & w' & Hrun & _ & Hs).
  exists h', w'. split; [exact Hrun|]. eexists. split; [exact Hs|reflexivity].
Defined.

Lemma health_request_after_removal_blocks_witness :
  ∃ h', ServeHTTP (λ _ _ _, "") {| name := nsn_a |} (@NewServer ex_listen "node1" false None None, idle_io) =
      (Panic "invalid memory address or nil pointer dereference", (h', idle_io)) ∧
    ∀ w', @SyncServices canonical_range ∅ (h', w') = (Panic blocked, (h', w')).
Proof.
  destruct (@health_request_after_removal_blocks canonical_range (λ _ _ _, "") (@NewServer ex_listen "node1" false None None)
    idle_io nsn_a eq_refl eq_refl) as (h' & H1 & H2 & _).
  exists h'. split; [exact H1|]. intros w'. apply H2.
Defined.
