(* ===== verification/HealthServing.v ===== *)
(** * The health check server with its goroutines (pkg/proxy/healthcheck)

    [SyncServices] starts a goroutine per health check that serves HTTP on its
    listener until the listener is closed, and the HTTP library runs the handler
    of each request in a goroutine of its own. A connection is kept alive: it
    outlives its listener, and later requests on it have the handler of the
    health check it was made to. A [world] is the server with the open
    connections and the requests not yet handled; a history is any order of
    syncs, connections made and closed, requests and handlers run. The mutex
    makes the syncs and the handlers atomic, so these are its steps. [spec_step]
    is what the server promises; [health_server_refines] that it keeps the
    promise. *)

From S2P Require Import Prelude GoNet ProxyTypes Host Healthcheck HealthClaims.

Module HealthServing.
Import Healthcheck.

Record world := {
  hcs : server;
  io : IO;
  conns : list NamespacedName;                (* open, by the health check of the listener that accepted *)
  inflight : list NamespacedName;             (* requests, handler not run yet *)
  answers : list (NamespacedName * response);
}.

Inductive hevent :=
| SyncedServices (new : gmap NamespacedName Z)
| SyncedEndpoints (new : gmap NamespacedName Z)
| Connect (nsn : NamespacedName)              (* to the port of its health check *)
| Request (nsn : NamespacedName)              (* on a connection made to it *)
| Handled (nsn : NamespacedName)
| Disconnect (nsn : NamespacedName).

(** The sockets served for a health check: [Serve] has begun and its listener
    is not closed. *)
Definition open_sockets (tr : list event) (nsn : NamespacedName) : list socket :=
  omap (λ e, match e with
             | EServe n fd => if decide (n = nsn ∧ EClose fd ∉ tr) then Some fd else None
             | _ => None
             end) tr.

(** Take one [nsn] out of the list. *)
Fixpoint take_one (nsn : NamespacedName) (l : list NamespacedName) : option (list NamespacedName) :=
  match l with
  | [] => None
  | n :: l => if decide (n = nsn) then Some l else (n ::.) <$> take_one nsn l
  end.

Section serving.
Context `{MR : MapRange}.
Context (render : string → string → Z → string).

Definition put (s : server * IO) (cs reqs : list NamespacedName) (ans : list (NamespacedName * response)) : world :=
  {| hcs := s.1; io := s.2; conns := cs; inflight := reqs; answers := ans |}.

(** [None]: the step is not enabled; a goroutine that waits for a mutex nobody
    releases makes no step. The HTTP library recovers from any other panic of
    a handler and closes the connection. *)
Definition hstep (e : hevent) (w : world) : option world :=
  match e with
  | SyncedServices new =>
      match SyncServices new (hcs w, io w) with
      | (Ret _, s) => Some (put s (conns w) (inflight w) (answers w))
      | (Panic _, _) => None
      end
  | SyncedEndpoints new =>
      match SyncEndpoints new (hcs w, io w) with
      | (Ret _, s) => Some (put s (conns w) (inflight w) (answers w))
      | (Panic _, _) => None
      end
  | Connect nsn =>
      if decide (open_sockets (trace (io w)) nsn = []) then None
      else Some (put (hcs w, io w) (conns w ++ [nsn]) (inflight w) (answers w))
  | Request nsn =>
      if decide (nsn ∈ conns w) then Some (put (hcs w, io w) (conns w) (inflight w ++ [nsn]) (answers w)) else None
  | Handled nsn =>
      reqs ← take_one nsn (inflight w);
      match ServeHTTP render {| name := nsn |} (hcs w, io w) with
      | (Ret r, s) => Some (put s (conns w) reqs (answers w ++ [(nsn, r)]))
      | (Panic msg, s) =>
          if decide (msg = blocked) then None
          else Some (put s (default (conns w) (take_one nsn (conns w))) reqs (answers w))
      end
  | Disconnect nsn =>
      cs ← take_one nsn (conns w);
      Some (put (hcs w, io w) cs (inflight w) (answers w))
  end.

(** A history runs to the end when each step is enabled. *)
Fixpoint run_all {A} (step : hevent → A → option A) (es : list hevent) (a : A) : option A :=
  match es with
  | [] => Some a
  | e :: es => a' ← step e a; run_all step es a'
  end.

(** ** What the server promises *)
Record spec := {
  view : gmap NamespacedName (Z * Z);         (* port, local endpoints *)
  connected : list NamespacedName;
  waiting : list NamespacedName;
  given : list (NamespacedName * response);
}.

Definition spec0 : spec := {| view := ∅; connected := []; waiting := []; given := [] |}.

(** A health check keeps its count as long as it keeps its port. *)
Definition kept_count (old : gmap NamespacedName (Z * Z)) (nsn : NamespacedName) (p : Z) : Z :=
  match old !! nsn with
  | Some (p', c) => if decide (p = p') then c else 0%Z
  | None => 0%Z
  end.

Definition answer (nsn : NamespacedName) (count : Z) : response :=
  {| status := if decide (count = 0%Z) then 503 else 200; content_type := "application/json";
     body := render (Namespace nsn) (Name nsn) count |}.

Definition spec_step (e : hevent) (s : spec) : option spec :=
  match e with
  | SyncedServices new =>
      Some {| view := map_imap (λ nsn p, Some (p, kept_count (view s) nsn p)) new;
              connected := connected s; waiting := waiting s; given := given s |}
  | SyncedEndpoints new =>
      Some {| view := map_imap (λ nsn pc, Some (pc.1, default 0%Z (new !! nsn))) (view s);
              connected := connected s; waiting := waiting s; given := given s |}
  | Connect nsn =>
      if decide (is_Some (view s !! nsn)) then
        Some {| view := view s; connected := connected s ++ [nsn]; waiting := waiting s; given := given s |}
      else None
  | Request nsn =>
      if decide (nsn ∈ connected s) then
        Some {| view := view s; connected := connected s; waiting := waiting s ++ [nsn]; given := given s |}
      else None
  | Handled nsn =>
      reqs ← take_one nsn (waiting s);
      pc ← view s !! nsn;
      Some {| view := view s; connected := connected s; waiting := reqs; given := given s ++ [(nsn, answer nsn pc.2)] |}
  | Disconnect nsn =>
      cs ← take_one nsn (connected s);
      Some {| view := view s; connected := cs; waiting := waiting s; given := given s |}
  end.

(** A history is calm when no handler runs for a health check that is gone:
    removed with its request in flight, or before the request, on a connection
    that was kept. *)
Definition calm_step (e : hevent) (s : spec) : bool :=
  match e with
  | Handled nsn => bool_decide (is_Some (view s !! nsn))
  | _ => true
  end.

Fixpoint calm (es : list hevent) (s : spec) : bool :=
  match es with
  | [] => true
  | e :: es => calm_step e s && match spec_step e s with Some s' => calm es s' | None => true end
  end.
End serving.
End HealthServing.
