(* ===== verification/HealthServingClaims.v ===== *)
(** * The health check server keeps its promise *)

From S2P Require Import Prelude GoNet ProxyTypes Host Healthcheck HealthClaims HealthServing.
Import Healthcheck HealthServing.

Lemma elem_of_open_sockets tr nsn fd : fd ∈ open_sockets tr nsn ↔ EServe nsn fd ∈ tr ∧ EClose fd ∉ tr.
Proof.
  unfold open_sockets. rewrite list_elem_of_omap. split.
  - intros ([] & Hin & He); try done. case_decide as Hd; [|done]. destruct Hd as [-> Hc]. by injection He as ->.
  - intros [Hs Hc]. exists (EServe nsn fd). split; [done|]. by rewrite decide_True.
Qed.

Section serving.
Context `{MR : MapRange}.
Context (render : string → string → Z → string).
Implicit Types (h : server) (w : IO) (nsn : NamespacedName).

(** ** The sockets

    What ties the goroutines to the map, in every unlocked state: the sockets
    served for a health check are the listener of its entry, and every socket
    of the trace came from a question already put. *)
Record sockets_ok h w : Prop := {
  so_served nsn fd : EServe nsn fd ∈ trace w ∧ EClose fd ∉ trace w ↔ ∃ svc, services h !! nsn = Some svc ∧ listener svc = fd;
  so_listened fd : (EClose fd ∈ trace w ∨ ∃ nsn, EServe nsn fd ∈ trace w) → listened (hcs_listener h) 0 (tick w) fd;
  so_distinct nsn nsn' fd : EServe nsn fd ∈ trace w → EServe nsn' fd ∈ trace w → nsn = nsn';
}.

Lemma so_service h w nsn svc :
  sockets_ok h w → services h !! nsn = Some svc → EServe nsn (listener svc) ∈ trace w ∧ EClose (listener svc) ∉ trace w.
Proof. intros Hok Hs. apply (so_served _ _ Hok). eauto. Qed.

Lemma sockets_new L hn rc f w :
  trace w = [] → sockets_ok {| hostname := hn; recorder := rc; hcs_listener := L; httpFactory := f; services := ∅; locked := false |} w.
Proof.
  intros Ht. split; rewrite Ht; cbn [services].
  - intros nsn fd. split; [intros [[]%elem_of_nil _]|]. intros (svc & Hs & _). by rewrite lookup_empty in Hs.
  - by intros fd [[]%elem_of_nil|[nsn []%elem_of_nil]].
  - intros nsn nsn' fd []%elem_of_nil.
Qed.

(** Counting endpoints keeps the sockets. *)
Lemma sockets_counted new h w w' m :
  sockets_ok h w → trace w' = trace w → (tick w ≤ tick w')%nat → (∀ nsn, m !! nsn = counted new (services h) nsn) →
  sockets_ok (with_services m h) w'.
Proof.
  intros Hok Ht Htk Hm. split; rewrite Ht; cbn [services with_services hcs_listener].
  - intros nsn fd. rewrite (so_served _ _ Hok), Hm. unfold counted. destruct (services h !! nsn); simpl; naive_solver.
  - intros fd Hi. eapply listened_mono; [by apply (so_listened _ _ Hok)|lia].
  - apply (so_distinct _ _ Hok).
Qed.

(** So does a services sync, when the listener gives fresh sockets. *)
Lemma sockets_synced new h w w' m evs mid :
  fresh_listener (hcs_listener h) → sockets_ok h w → trace w' = trace w ++ evs → (tick w ≤ tick w')%nat →
  (∀ fd, EClose fd ∈ evs ↔ ∃ nsn svc, services h !! nsn = Some svc ∧ new !! nsn ≠ Some (port svc) ∧ fd = listener svc) →
  (∀ nsn, mid !! nsn = needed new (services h) nsn) →
  (∀ nsn svc, mid !! nsn = Some svc → m !! nsn = Some svc) →
  served (hcs_listener h) (tick w) (tick w') mid m evs →
  sockets_ok (with_services m h) w'.
Proof.
  intros HL Hok Ht Htk Hcl Hmid Hkeep (Hs1 & Hs2 & Hs3).
  assert (∀ fd, (EClose fd ∈ trace w ∨ ∃ nsn, EServe nsn fd ∈ trace w) → (∃ nsn, EServe nsn fd ∈ evs) → False) as Hnew.
  { intros fd Hold [nsn Hn]. eapply listened_disjoint; [exact HL|by apply (so_listened _ _ Hok)|by eapply Hs2]. }
  assert (∀ fd, EClose fd ∈ evs → ∃ nsn, EServe nsn fd ∈ trace w) as Hold.
  { intros fd (nsn & svc & Hs & _ & ->)%Hcl. exists nsn. by apply (so_service _ _ _ _ Hok). }
  assert (∀ nsn svc, mid !! nsn = Some svc → services h !! nsn = Some svc ∧ new !! nsn = Some (port svc)) as Hmid'.
  { intros nsn svc. rewrite Hmid. unfold needed. destruct (services h !! nsn); [|done]. case_decide; naive_solver. }
  split; rewrite Ht; cbn [services with_services hcs_listener].
  - intros nsn fd. rewrite !elem_of_app. split.
    + intros [[Hi|Hi] Hno]; [|by apply Hs1 in Hi as [_ ?]].
      destruct (proj1 (so_served _ _ Hok nsn fd)) as (svc & Hs & <-); [by split; [|tauto]|].
      assert (new !! nsn = Some (port svc)) as Hn.
      { destruct (decide (new !! nsn = Some (port svc))); [done|]. destruct Hno. right. apply Hcl. eauto. }
      exists svc. split; [|done]. apply Hkeep. rewrite Hmid. unfold needed. by rewrite Hs, decide_True.
    + intros (svc & Hs & <-). destruct (mid !! nsn) as [svc'|] eqn:E.
      * rewrite (Hkeep _ _ E) in Hs. injection Hs as ->. destruct (Hmid' _ _ E) as [Hs Hn].
        destruct (so_service _ _ _ _ Hok Hs) as [Hi Hc]. split; [by left|]. intros [?|Hcl']; [done|].
        apply Hcl in Hcl' as (nsn' & svc' & Hs' & Hn' & Hl).
        destruct (so_service _ _ _ _ Hok Hs') as [Hi' _]. rewrite <-Hl in Hi'.
        pose proof (so_distinct _ _ Hok _ _ _ Hi Hi') as <-. congruence.
      * assert (EServe nsn (listener svc) ∈ evs) as Hi by (apply Hs1; eauto). split; [by right|].
        intros [Hc|Hc]; eapply Hnew; [by left|by eexists|right; by apply Hold|by eexists].
  - intros fd. setoid_rewrite elem_of_app. intros [[Hi|Hi]|[nsn [Hi|Hi]]].
    + eapply listened_mono; [apply (so_listened _ _ Hok); by left|lia].
    + eapply listened_mono; [apply (so_listened _ _ Hok); right; by apply Hold|lia].
    + eapply listened_mono; [apply (so_listened _ _ Hok); right; by exists nsn|lia].
    + destruct (Hs2 _ _ Hi) as (n & addr & Hn & Hl). exists n, addr. split; [lia|done].
  - intros nsn nsn' fd. rewrite !elem_of_app. intros [Hi|Hi] [Hi'|Hi']; [by eapply (so_distinct _ _ Hok)| | |by eapply Hs3];
      exfalso; eapply Hnew; eauto.
Qed.
(** ** Simulation *)
Context (L : Listener) (HL : fresh_listener L) (Hall : listens_all L).

Definition seen (svc : hcInstance) : Z * Z := (port svc, endpoints svc).

Record Refines (g : world) (s : spec) : Prop := {
  r_view : seen <$> services (hcs g) = view s;
  r_conns : conns g = connected s;
  r_waiting : inflight g = waiting s;
  r_given : answers g = given s;
  r_unlocked : locked (hcs g) = false;
  r_sockets : sockets_ok (hcs g) (io g);
  r_listener : hcs_listener (hcs g) = L;
  r_factory : keeps_handler (httpFactory (hcs g));
}.

Lemma r_lookup g s nsn : Refines g s → view s !! nsn = seen <$> services (hcs g) !! nsn.
Proof using Type. intros HR. by rewrite <-(r_view _ _ HR), lookup_fmap. Qed.

Lemma refines_services new g s :
  Refines g s →
  option_Forall2 Refines (hstep render (SyncedServices new) g) (spec_step render (SyncedServices new) s).
Proof using HL Hall.
  intros HR. pose proof (SyncServices_spec new (hcs g) (io g) (r_unlocked _ _ HR) (r_factory _ _ HR)) as Hwp.
  apply wp_run in Hwp as (r & [h' g'] & Hrun & _ & m & evs & Hh & (H1 & H2 & H3 & H4) & Ht & Hcl & Htk & mid & Hmid & Hsv).
  unfold hstep, spec_step. rewrite Hrun. constructor. simpl in Hh, Ht, Htk, Hsv. subst h'.
  assert (dom m = dom new) as Hdom by (apply H4; rewrite (r_listener _ _ HR); exact Hall).
  split; cbn [put hcs io conns inflight answers view connected waiting given fst snd].
  - apply map_eq. intros nsn. rewrite lookup_fmap, map_lookup_imap. cbn [services with_services].
    destruct (m !! nsn) as [svc|] eqn:Em; simpl.
    + rewrite (H1 _ _ Em). simpl. unfold seen, kept_count. do 2 f_equal. rewrite (r_lookup _ _ nsn HR).
      destruct (decide (services (hcs g) !! nsn = Some svc)) as [Eo|Ene].
      * rewrite Eo. simpl. by rewrite decide_True.
      * rewrite (H3 _ _ Em Ene). destruct (services (hcs g) !! nsn) as [svc'|] eqn:Eo; [|done]. simpl.
        case_decide as Hp; [|done]. exfalso.
        rewrite (H2 _ _ Eo) in Em by (rewrite (H1 _ _ Em); by rewrite Hp). congruence.
    + replace (new !! nsn) with (@None Z); [done|]. symmetry. apply not_elem_of_dom. rewrite <-Hdom.
      by apply not_elem_of_dom.
  - apply (r_conns _ _ HR).
  - apply (r_waiting _ _ HR).
  - apply (r_given _ _ HR).
  - apply (r_unlocked _ _ HR).
  - apply (sockets_synced new (hcs g) (io g) g' m evs mid);
      [by rewrite (r_listener _ _ HR)|apply (r_sockets _ _ HR)|done..| |done].
    intros nsn svc. rewrite Hmid. unfold needed. destruct (services (hcs g) !! nsn) as [svc'|] eqn:Eo; [|done].
    case_decide; [|done]. intros [= <-]. by apply H2.
  - apply (r_listener _ _ HR).
  - apply (r_factory _ _ HR).
Qed.

Lemma refines_endpoints new g s :
  Refines g s →
  option_Forall2 Refines (hstep render (SyncedEndpoints new) g) (spec_step render (SyncedEndpoints new) s).
Proof using Type.
  intros HR. pose proof (SyncEndpoints_spec new (hcs g) (io g) (r_unlocked _ _ HR)) as Hwp.
  apply wp_run in Hwp as (r & [h' g'] & Hrun & _ & Ht & Htk & m & Hh & Hm).
  unfold hstep, spec_step. rewrite Hrun. constructor. simpl in Hh, Ht, Htk. subst h'.
  split; cbn [put hcs io conns inflight answers view connected waiting given fst snd].
  - apply map_eq. intros nsn. rewrite lookup_fmap, map_lookup_imap, (r_lookup _ _ nsn HR).
    cbn [services with_services]. rewrite Hm. unfold counted. by destruct (services (hcs g) !! nsn).
  - apply (r_conns _ _ HR).
  - apply (r_waiting _ _ HR).
  - apply (r_given _ _ HR).
  - apply (r_unlocked _ _ HR).
  - eapply sockets_counted; [apply (r_sockets _ _ HR)|done..].
  - apply (r_listener _ _ HR).
  - apply (r_factory _ _ HR).
Qed.

Lemma refines_connect nsn g s :
  Refines g s → option_Forall2 Refines (hstep render (Connect nsn) g) (spec_step render (Connect nsn) s).
Proof using Type.
  intros HR. unfold hstep, spec_step.
  assert (open_sockets (trace (io g)) nsn = [] ↔ ¬ is_Some (view s !! nsn)) as Hiff.
  { rewrite (r_lookup _ _ nsn HR), fmap_is_Some. split.
    - intros He [svc Hs]. apply (so_service _ _ _ _ (r_sockets _ _ HR)) in Hs. apply elem_of_open_sockets in Hs.
      rewrite He in Hs. by apply elem_of_nil in Hs.
    - intros Hn. destruct (open_sockets (trace (io g)) nsn) as [|fd l] eqn:E; [done|]. destruct Hn.
      assert (fd ∈ open_sockets (trace (io g)) nsn) as Hi by (rewrite E; left).
      apply elem_of_open_sockets, (so_served _ _ (r_sockets _ _ HR)) in Hi as (svc & ? & _). by eexists. }
  case_decide as Hc.
  { rewrite decide_False; [constructor|]. by apply Hiff. }
  destruct (decide (is_Some (view s !! nsn))) as [Hs|Hn]; [|by destruct Hc; apply Hiff]. constructor.
  destruct HR as [? Hc']. split; cbn [put hcs io conns inflight answers view connected waiting given fst snd]; try done.
  by rewrite Hc'.
Qed.
Lemma refines_request nsn g s :
  Refines g s → option_Forall2 Refines (hstep render (Request nsn) g) (spec_step render (Request nsn) s).
Proof using Type.
  intros HR. unfold hstep, spec_step. rewrite (r_conns _ _ HR). case_decide; constructor.
  destruct HR as [? ? Hw]. split; cbn [put hcs io conns inflight answers view connected waiting given fst snd]; try done.
  by rewrite Hw.
Qed.
Lemma refines_disconnect nsn g s :
  Refines g s → option_Forall2 Refines (hstep render (Disconnect nsn) g) (spec_step render (Disconnect nsn) s).
Proof using Type.
  intros HR. unfold hstep, spec_step. rewrite (r_conns _ _ HR).
  destruct (take_one nsn (connected s)) as [cs|]; constructor. by destruct HR; split.
Qed.

Lemma ServeHTTP_served h w nsn svc :
  locked h = false → services h !! nsn = Some svc →
  ServeHTTP render {| name := nsn |} (h, w) = (Ret (answer render nsn (endpoints svc)), (h, w)).
Proof using Type.
  intros Hlk Hs. destruct h as [hn rc ls hf sv lk]. simpl in *. subst lk. serve_step. by rewrite Hs.
Qed.

Lemma refines_handled nsn g s :
  Refines g s → is_Some (view s !! nsn) →
  option_Forall2 Refines (hstep render (Handled nsn) g) (spec_step render (Handled nsn) s).
Proof using Type.
  intros HR [pc Hpc]. unfold hstep, spec_step. rewrite (r_waiting _ _ HR).
  destruct (take_one nsn (waiting s)) as [reqs|] eqn:Er; simpl; [|constructor]. rewrite Hpc. simpl.
  rewrite (r_lookup _ _ nsn HR) in Hpc. destruct (services (hcs g) !! nsn) as [svc|] eqn:Es; [|done].
  injection Hpc as <-. rewrite (ServeHTTP_served _ _ _ _ (r_unlocked _ _ HR) Es). constructor.
  destruct HR as [? ? Hw Hg]. split; cbn [put hcs io conns inflight answers view connected waiting given fst snd]; try done.
  by rewrite Hg.
Qed.

Lemma run_refines es g s :
  Refines g s → calm render es s →
  option_Forall2 Refines (run_all (hstep render) es g) (run_all (spec_step render) es s).
Proof using HL Hall.
  revert g s. induction es as [|e es IH]; intros g s HR Hcalm; [by constructor|]. cbn [calm run_all] in *.
  apply andb_True in Hcalm as [Hc Hcalm].
  assert (option_Forall2 Refines (hstep render e g) (spec_step render e s)) as Hstep.
  { destruct e; [by apply refines_services|by apply refines_endpoints|by apply refines_connect|by apply refines_request| |
      by apply refines_disconnect].
    apply refines_handled; [done|]. by apply bool_decide_unpack in Hc. }
  destruct (spec_step render e s) as [s'|] eqn:Es; inversion Hstep as [g' ? HR' Eg|]; subst; simpl;
    [by apply IH|constructor].
Qed.

(** A new server with nothing in flight. *)
Definition started (h : server) (w : IO) : world := {| hcs := h; io := w; conns := []; inflight := []; answers := [] |}.
End serving.

(** C30: The health check server, with its goroutines. Whatever the order of
    services syncs, endpoint syncs, connections made and closed, requests and
    handler runs, as long as no handler runs for a health check that was removed
    ([calm]: not while its request was in flight, nor before a request on a
    connection that was kept alive), and as long as every port can be listened
    on ([listens_all]) and no listener is given out twice ([fresh_listener]):
    the server makes exactly the steps of its specification, so none of them
    blocks; it gives exactly its answers (503 when the last endpoint sync
    counted none since the health check got its port, else 200 with the count);
    the map has the wanted ports and counts; and a connection is accepted exactly
    on the listeners of the map, each by the goroutine of its own health check. *)
Theorem health_server_refines `{MR : MapRange} `{NO : NetOS} (render : string → string → Z → string)
    (hostname : string) (recorder : bool) (L : Listener) (es : list hevent) (n : nat) :
  fresh_listener L → listens_all L → calm render es spec0 →
  option_Forall2 (λ g s,
      seen <$> services (hcs g) = view s ∧ answers g = given s ∧ conns g = connected s ∧ inflight g = waiting s ∧ locked (hcs g) = false ∧
      ∀ nsn fd, fd ∈ open_sockets (trace (io g)) nsn ↔ ∃ svc, services (hcs g) !! nsn = Some svc ∧ listener svc = fd)
    (run_all (hstep render) es (started (NewServer hostname recorder (Some L) None) {| tick := n; trace := [] |}))
    (run_all (spec_step render) es spec0).
Proof.
  intros HL Hall Hcalm. 
  assert (option_Forall2 (Refines L)
    (run_all (hstep render) es (started (NewServer hostname recorder (Some L) None) {| tick := n; trace := [] |}))
    (run_all (spec_step render) es spec0)) as Hrel.
  { apply run_refines; [done..| |done]. split; try done. by apply sockets_new. }
  destruct Hrel as [g s HR|]; constructor.
   split_and!; [apply HR..|]. intros nsn fd. rewrite elem_of_open_sockets. apply (r_sockets _ _ _ HR).
Qed.

(** Otherwise: the handler of a request, in flight when its health check was
    removed or sent later on a connection that was kept, gives no answer, and
    from then on no sync and no handler makes another step, whatever is synced. *)
Theorem health_race_blocks `{MR : MapRange} (render : string → string → Z → string) (g : world) (nsn : NamespacedName) :
  locked (hcs g) = false → nsn ∈ inflight g → services (hcs g) !! nsn = None →
  ∃ g', hstep render (Handled nsn) g = Some g' ∧ answers g' = answers g ∧
    (∀ new, hstep render (SyncedServices new) g' = None) ∧ (∀ new, hstep render (SyncedEndpoints new) g' = None) ∧
    (∀ n, hstep render (Handled n) g' = None).
Proof.
  intros Hlk Hin Hs.
  destruct (health_request_after_removal_blocks render (hcs g) (io g) nsn Hlk Hs) as (h' & Hrun & H1 & H2 & H3).
  destruct (take_one nsn (inflight g)) as [reqs|] eqn:Er.
  2: { exfalso. clear -Hin Er. induction (inflight g) as [|n l IH]; [by apply elem_of_nil in Hin|].
       simpl in Er. case_decide as Hd; [done|]. apply elem_of_cons in Hin as [->|Hin]; [done|].
       destruct (take_one nsn l); [done|]. by apply IH. }
  exists (put (h', io g) (default (conns g) (take_one nsn (conns g))) reqs (answers g)).
  split_and!; [unfold hstep; rewrite Er; simpl; by rewrite Hrun|done|..].
  - intros new. cbn. by rewrite H1.
  - intros new. cbn. by rewrite H2.
  - intros n. cbn. destruct (take_one n reqs); simpl; [|done]. by rewrite H3.
Qed.

(** ** Witnesses *)
Definition ex_history : list hevent :=
  [SyncedServices {[nsn_a := 9000%Z; nsn_b := 9001%Z]}; SyncedEndpoints {[nsn_a := 2%Z]}; Connect nsn_a; Connect nsn_b;
   Request nsn_b; SyncedServices {[nsn_a := 9000%Z]}; SyncedServices {[nsn_a := 9000%Z; nsn_b := 9002%Z]}; Handled nsn_b;
   Request nsn_a; Handled nsn_a; Request nsn_a; Handled nsn_a; Disconnect nsn_a; SyncedServices {[nsn_b := 9002%Z]}].

Lemma health_server_refines_witness :
  calm (λ _ _ _, "") ex_history spec0 ∧
  option_Forall2 (λ g s,
      seen <$> services (hcs g) = view s ∧ answers g = given s ∧ conns g = connected s ∧ inflight g = waiting s ∧ locked (hcs g) = false ∧
      ∀ nsn fd, fd ∈ open_sockets (trace (io g)) nsn ↔ ∃ svc, services (hcs g) !! nsn = Some svc ∧ listener svc = fd)
    (run_all (@hstep canonical_range (λ _ _ _, "")) ex_history
       (started (@NewServer ex_listen "node1" true (Some (@stdNetListener ex_listen)) None) {| tick := 0; trace := [] |}))
    (run_all (spec_step (λ _ _ _, "")) ex_history spec0) ∧
  (λ s, (λ a, (a.1, status a.2)) <$> given s) <$> run_all (spec_step (λ _ _ _, "")) ex_history spec0 =
    Some [(nsn_b, 503%Z); (nsn_a, 200%Z); (nsn_a, 200%Z)].
Proof.
  assert (calm (λ _ _ _, "") ex_history spec0) as Hc by (vm_compute; exact I).
  split; [exact Hc|]. split; [|vm_compute; reflexivity].
  apply (@health_server_refines canonical_range ex_listen (λ _ _ _, "") "node1" true (@stdNetListener ex_listen) ex_history 0).
  - intros n n' addr addr' fd [= <-] [= <-]. reflexivity.
  - intros n addr. eexists. reflexivity.
  - exact Hc.
Defined.
