(* ===== verification/Startup.v ===== *)
(** * Start-up: options, kernel settings and the construction of the proxier

    [NewProxier] and what it calls (pkg/proxy/ipvs/proxier.go), the defaults of
    the options (app/options) and the construction of the server
    (app/server.go). Files, commands and the API client are parameters. *)

From S2P Require Import Prelude GoNet GoTime ProxyTypes Ipvs EnnIpvs Host Strconv Nodes Proxier.
From Stdlib Require Import Ascii.

Module Startup.
Import GoTime.
Import Nodes(Clientset, GetNode, GetPodCidrFromNodeSpec, InternalGetNodeHostIP, node_Name).

(** ** Options *)
Record KubeEnnProxyConfig := {
  Kubeconfig : string;
  Master : string;
  ConfigSyncPeriod : Duration;
  CleanupConfig : bool;
  IPTablesSyncPeriod : Duration;
  IpvsSyncPeriod : Duration;
  MinSyncPeriod : Duration;
  cfg_MasqueradeAll : bool;
  MasqueradeBit : Z;                    (* int32 *)
  cfg_ClusterCIDR : string;
  HostnameOverride : string;
  IpvsScheduler : string;
  GlogToStderr : bool;
  GlogV : string;
  GlogDir : string;
  BindAddress : string;
}.

Definition NewKubeEnnProxyConfig : KubeEnnProxyConfig := {|
  Kubeconfig := ""; Master := ""; ConfigSyncPeriod := 5 * Minute; CleanupConfig := false;
  IPTablesSyncPeriod := 5 * Minute; IpvsSyncPeriod := 5 * Minute; MinSyncPeriod := 0;
  cfg_MasqueradeAll := false; MasqueradeBit := 0; cfg_ClusterCIDR := ""; HostnameOverride := ""; IpvsScheduler := "rr";
  GlogToStderr := false; GlogV := ""; GlogDir := ""; BindAddress := "" |}.

(** A registered flag stores a parsed value in a field; the flag library parses
    the text by the field's type. The setters are written over the tuple of the
    fields. *)
Inductive flag_var :=
| StringVar (set : string → KubeEnnProxyConfig → KubeEnnProxyConfig)
| BoolVar (set : bool → KubeEnnProxyConfig → KubeEnnProxyConfig)
| DurationVar (set : Duration → KubeEnnProxyConfig → KubeEnnProxyConfig)
| Int32Var (set : Z → KubeEnnProxyConfig → KubeEnnProxyConfig).

Definition remake (c : KubeEnnProxyConfig)
    (kubeconfig master : string) (cleanup masqAll toStderr : bool) (configSync iptSync ipvsSync minSync : Duration)
    (masqBit : Z) (cidr hostname sched v dir bind : string) : KubeEnnProxyConfig := {|
  Kubeconfig := kubeconfig; Master := master; ConfigSyncPeriod := configSync; CleanupConfig := cleanup;
  IPTablesSyncPeriod := iptSync; IpvsSyncPeriod := ipvsSync; MinSyncPeriod := minSync;
  cfg_MasqueradeAll := masqAll; MasqueradeBit := masqBit; cfg_ClusterCIDR := cidr; HostnameOverride := hostname;
  IpvsScheduler := sched; GlogToStderr := toStderr; GlogV := v; GlogDir := dir; BindAddress := bind |}.

Definition set_Kubeconfig x c := remake c x (Master c) (CleanupConfig c) (cfg_MasqueradeAll c) (GlogToStderr c)
  (ConfigSyncPeriod c) (IPTablesSyncPeriod c) (IpvsSyncPeriod c) (MinSyncPeriod c) (MasqueradeBit c) (cfg_ClusterCIDR c)
  (HostnameOverride c) (IpvsScheduler c) (GlogV c) (GlogDir c) (BindAddress c).
Definition set_Master x c := remake c (Kubeconfig c) x (CleanupConfig c) (cfg_MasqueradeAll c) (GlogToStderr c)
  (ConfigSyncPeriod c) (IPTablesSyncPeriod c) (IpvsSyncPeriod c) (MinSyncPeriod c) (MasqueradeBit c) (cfg_ClusterCIDR c)
  (HostnameOverride c) (IpvsScheduler c) (GlogV c) (GlogDir c) (BindAddress c).
Definition set_bools x y z c := remake c (Kubeconfig c) (Master c) x y z
  (ConfigSyncPeriod c) (IPTablesSyncPeriod c) (IpvsSyncPeriod c) (MinSyncPeriod c) (MasqueradeBit c) (cfg_ClusterCIDR c)
  (HostnameOverride c) (IpvsScheduler c) (GlogV c) (GlogDir c) (BindAddress c).
Definition set_durations x y z t c := remake c (Kubeconfig c) (Master c) (CleanupConfig c) (cfg_MasqueradeAll c)
  (GlogToStderr c) x y z t (MasqueradeBit c) (cfg_ClusterCIDR c)
  (HostnameOverride c) (IpvsScheduler c) (GlogV c) (GlogDir c) (BindAddress c).
Definition set_rest b x y z v d a c := remake c (Kubeconfig c) (Master c) (CleanupConfig c) (cfg_MasqueradeAll c)
  (GlogToStderr c) (ConfigSyncPeriod c) (IPTablesSyncPeriod c) (IpvsSyncPeriod c) (MinSyncPeriod c) b x y z v d a.

(** The flags in the order they are registered; the name "cluser-CIDR" is the
    code's. *)
Definition AddFlags : list (string * flag_var) := [
  ("bind-address", StringVar (λ x c, set_rest (MasqueradeBit c) (cfg_ClusterCIDR c) (HostnameOverride c) (IpvsScheduler c) (GlogV c) (GlogDir c) x c));
  ("logtostderr", BoolVar (λ x c, set_bools (CleanupConfig c) (cfg_MasqueradeAll c) x c));
  ("v", StringVar (λ x c, set_rest (MasqueradeBit c) (cfg_ClusterCIDR c) (HostnameOverride c) (IpvsScheduler c) x (GlogDir c) (BindAddress c) c));
  ("log-dir", StringVar (λ x c, set_rest (MasqueradeBit c) (cfg_ClusterCIDR c) (HostnameOverride c) (IpvsScheduler c) (GlogV c) x (BindAddress c) c));
  ("master", StringVar set_Master);
  ("kubeconfig", StringVar set_Kubeconfig);
  ("cleanup-config", BoolVar (λ x c, set_bools x (cfg_MasqueradeAll c) (GlogToStderr c) c));
  ("config-sync-period", DurationVar (λ x c, set_durations x (IPTablesSyncPeriod c) (IpvsSyncPeriod c) (MinSyncPeriod c) c));
  ("iptable-sync-period", DurationVar (λ x c, set_durations (ConfigSyncPeriod c) x (IpvsSyncPeriod c) (MinSyncPeriod c) c));
  ("ipvs-sync-period", DurationVar (λ x c, set_durations (ConfigSyncPeriod c) (IPTablesSyncPeriod c) x (MinSyncPeriod c) c));
  ("min-sync-period", DurationVar (λ x c, set_durations (ConfigSyncPeriod c) (IPTablesSyncPeriod c) (IpvsSyncPeriod c) x c));
  ("masq-all", BoolVar (λ x c, set_bools (CleanupConfig c) x (GlogToStderr c) c));
  ("iptables-masquerade-bit", Int32Var (λ x c, set_rest x (cfg_ClusterCIDR c) (HostnameOverride c) (IpvsScheduler c) (GlogV c) (GlogDir c) (BindAddress c) c));
  ("cluser-CIDR", StringVar (λ x c, set_rest (MasqueradeBit c) x (HostnameOverride c) (IpvsScheduler c) (GlogV c) (GlogDir c) (BindAddress c) c));
  ("hostname-override", StringVar (λ x c, set_rest (MasqueradeBit c) (cfg_ClusterCIDR c) x (IpvsScheduler c) (GlogV c) (GlogDir c) (BindAddress c) c));
  ("IPVS-scheduler", StringVar (λ x c, set_rest (MasqueradeBit c) (cfg_ClusterCIDR c) (HostnameOverride c) x (GlogV c) (GlogDir c) (BindAddress c) c)) ].

(** ** Kernel settings *)
Class FileSystem (F : Type) := {
  ReadFile : string → M F (result string);
  WriteFile : string → string → M F error;       (* mode 0640 *)
}.

Definition sysctlBase : string := "/proc/sys".
Definition sysctlRouteLocalnet : string := "net/ipv4/conf/all/route_localnet".
Definition sysctlBridgeCallIPTables : string := "net/bridge/bridge-nf-call-iptables".
Definition sysctlVSConnTrack : string := "net/ipv4/vs/conntrack".
Definition sysctlForward : string := "net/ipv4/ip_forward".

(** [path.Join(sysctlBase, sysctl)], for the clean relative names above. *)
Definition sysctl_path (sysctl : string) : string := sysctlBase +:+ "/" +:+ sysctl.

(** [strings.Trim(s, <space and newline>)]. *)
Definition blank (c : ascii) : bool := bool_decide (c = " "%char) || bool_decide (c = ascii_of_nat 10).
Fixpoint trim_blank_left (s : string) : string :=
  match s with
  | String c s' => if blank c then trim_blank_left s' else s
  | EmptyString => s
  end.
Fixpoint trim_blank_right (s : string) : string :=
  match s with
  | EmptyString => EmptyString
  | String c s =>
      match trim_blank_right s with
      | EmptyString => if blank c then EmptyString else String c EmptyString
      | s' => String c s'
      end
  end.

(** ** The server *)
Record ObjectReference := { ref_Kind : string; ref_Name : string; ref_UID : string; ref_Namespace : string }.

(** The client and the event recorder are library objects. The handlers may be
    anything; [NewEnnProxyServerDefault] sets both to the proxier. *)
Record EnnProxyServer (SH EH : Type) := {
  Config : KubeEnnProxyConfig;
  Proxier : Proxier.Proxier;
  NodeRef : ObjectReference;
  s_ConfigSyncPeriod : Duration;
  ServiceEventHandler : SH;
  EndpointsEventHandler : EH;
}.
Arguments Config {SH EH}. Arguments Proxier {SH EH}. Arguments NodeRef {SH EH}. Arguments s_ConfigSyncPeriod {SH EH}.
Arguments ServiceEventHandler {SH EH}. Arguments EndpointsEventHandler {SH EH}.

Definition NewEnnProxyServer {SH EH} (config : KubeEnnProxyConfig) (proxier : Proxier.Proxier) (nodeRef : ObjectReference)
    (serviceEventHandler : SH) (endpointsEventHandler : EH) : result (EnnProxyServer SH EH) :=
  OK {| Config := config; Proxier := proxier; NodeRef := nodeRef; s_ConfigSyncPeriod := ConfigSyncPeriod config;
        ServiceEventHandler := serviceEventHandler; EndpointsEventHandler := endpointsEventHandler |}.

(** [flowcontrol.NewTokenBucketRateLimiter]: the rate, the burst; it panics for
    a rate it cannot keep, a negative one for instance. *)
Class Throttling := NewTokenBucketRateLimiter : float32 → Z → outcome unit.

Section startup.
Context {F : Type} `{FS : FileSystem F} `{NO : NetOS} `{CS : Clientset} `{EX : Exec} `{TH : Throttling}.

Definition setSysctl (sysctl : string) (newVal : Z) : M F error := WriteFile (sysctl_path sysctl) (Itoa newVal).

(** The value with an error is -1. *)
Definition getSysctl (sysctl : string) : M F (result Z) :=
  r ← ReadFile (sysctl_path sysctl);
  mret (match r with
        | Err err => Err err
        | OK data => Strconv.Atoi (trim_blank_right (trim_blank_left data))
        end).

Definition cannot_set (sysctl err : string) : string := "can't set sysctl " +:+ sysctl +:+ ": " +:+ err.

Definition setNetFlag : M F error :=
  err ← setSysctl sysctlRouteLocalnet 1;
  match err with
  | Some err => mret (Some (cannot_set sysctlRouteLocalnet err))
  | None =>
      getSysctl sysctlBridgeCallIPTables ;;             (* only logged *)
      err ← setSysctl sysctlVSConnTrack 1;
      match err with
      | Some err => mret (Some (cannot_set sysctlVSConnTrack err))
      | None =>
          err ← setSysctl sysctlForward 1;
          mret (match err with
                | Some err => Some (cannot_set sysctlForward err)
                | None => None
                end)
      end
  end.

(** ** NewProxier *)
Definition onF {A} (c : M F A) : M (F * IO) A := zoom fst (λ f s, (f, s.2)) c.
Definition onHost {A} (c : M IO A) : M (F * IO) A := zoom snd (λ w s, (s.1, w)) c.

(** The throttle is a field nobody reads. *)
Definition new_throttle {S} (minSyncPeriod : Duration) : M S unit :=
  if (minSyncPeriod =? 0)%Z then mret tt
  else
    match NewTokenBucketRateLimiter (qps minSyncPeriod) 2 with
    | Panic msg => panic msg
    | Ret _ => mret tt
    end.

Definition NewProxier (config : KubeEnnProxyConfig) (hostname : string) : M (F * IO) (result Proxier.Proxier) :=
  let syncPeriod := IpvsSyncPeriod config in
  let minSyncPeriod := MinSyncPeriod config in
  if (syncPeriod <? minSyncPeriod)%Z then
    mret (Err ("min-sync (" +:+ Duration_String minSyncPeriod +:+ ") must be < sync(" +:+
      Duration_String syncPeriod +:+ ")"))
  else
    err ← onF setNetFlag;
    match err with
    | Some err => mret (Err ("NewProxier failure: setNetFlag fall: " +:+ err))
    | None =>
        r ← onHost (GetPodCidrFromNodeSpec (HostnameOverride config));
        match r with
        | Err err => mret (Err ("NewProxier failure: GetPodCidr fall: " +:+ err))
        | OK clusterCIDR =>
            new_throttle minSyncPeriod ;;
            mret (OK (Proxier.new_proxier (cfg_MasqueradeAll config) clusterCIDR hostname syncPeriod))
        end
    end.

(** ** CanUseIpvs *)
Definition IpvsModules : list string := ["ip_vs"; "ip_vs_rr"; "nf_conntrack_ipv4"].

(** [IpvsModules] is sorted, so its part that is not loaded is the sorted
    difference. *)
Definition missing_modules (out : string) : list string :=
  filter (λ m, m ∉ Strings.Split out (ascii_of_nat 10)) IpvsModules.

Definition CanUseIpvs : M IO (result bool) :=
  let args := ["-f1"; "-d"; " "; "/proc/modules"] in
  emit (EExec "cut" args) ;;
  r ← ask (λ n, CombinedOutput n "cut" args);
  mret (match r.2 with
        | Some err => Err err
        | None =>
            let modules := missing_modules r.1 in
            if decide (modules = []) then OK true
            else Err ("Failed to load kernel modules: [" +:+ String.concat " " modules +:+ "]")
        end).

(** ** The construction of the server *)
Definition tryIPVSProxy : M IO error :=
  r ← CanUseIpvs;
  mret (match r with
        | Err err => Some err
        | OK false => Some "can not use ipvs proxy"
        | OK true => None
        end).

(** [clientcmd.BuildConfigFromFlags] and [kubernetes.NewForConfig]. *)
Context (BuildConfigFromFlags : nat → string → string → error) (NewForConfig : nat → error).

Definition with_kubeconfig (config : KubeEnnProxyConfig) : KubeEnnProxyConfig :=
  if decide (Kubeconfig config = "" ∧ Master config = "") then
    set_Kubeconfig "/var/lib/kube-enn-proxy/kubeconfig" config
  else config.

Context {K : Type} `{HD : Handle K}.
Definition onDisk {A} (c : M (F * IO) A) : M (F * IO * K) A := zoom fst (λ p s, (p, s.2)) c.
Definition onHandle {A} (c : M K A) : M (F * IO * K) A := zoom snd (λ k s, (s.1, k)) c.

(** [glog.Fatalf] ends the process. *)
Definition NewEnnProxyServerDefault (config0 : KubeEnnProxyConfig)
    : M (F * IO * K) (result (EnnProxyServer Proxier.Proxier Proxier.Proxier)) :=
  let config := with_kubeconfig config0 in
  err ← onDisk (onHost (ask (λ n, BuildConfigFromFlags n (Master config) (Kubeconfig config))));
  match err with
  | Some err => panic err
  | None =>
      err ← onDisk (onHost (ask NewForConfig));
      match err with
      | Some err => panic ("Invalid API configuration: " +:+ err)
      | None =>
          onHandle EnnIpvs.NewEnnIpvs ;;
          r ← onDisk (onHost (GetNode (HostnameOverride config)));
          match r with
          | Err err => mret (Err ("NewProxier failure: GetNode fall: " +:+ err))
          | OK node =>
              let hostname := node_Name node in
              match InternalGetNodeHostIP node with
              | Err err => mret (Err ("NewProxier failure: GetNodeIP fall: " +:+ err))
              | OK nodeIP =>
                  let nodeRef := {| ref_Kind := "Node"; ref_Name := hostname; ref_UID := hostname; ref_Namespace := "" |} in
                  err ← onDisk (onHost tryIPVSProxy);
                  match err with
                  | Some err => mret (Err err)
                  | None =>
                      r ← onDisk (NewProxier config hostname);
                      mret (match r with
                            | Err err => Err err
                            | OK proxier => NewEnnProxyServer config proxier nodeRef proxier proxier
                            end)
                  end
              end
          end
      end
  end.
End startup.
End Startup.
