(* ===== verification/StartupClaims.v ===== *)
(** * Properties of the start-up *)

From S2P Require Import Prelude GoNet GoTime ProxyTypes Ipvs EnnIpvs Host Strconv Nodes Proxier Startup.
From Stdlib Require Import Ascii.
Import GoTime Startup.
Import Nodes(Clientset, GetPodCidrFromNodeSpec, InternalGetNodeHostIP).

(** ** Kernel modules *)

(** The first fields of /proc/modules, a line each. *)
Definition module_lines (mods : list string) : string :=
  String.concat "" ((λ m, m +:+ String (ascii_of_nat 10) "") <$> mods).

Lemma Split_lines mods :
  Forall (λ m, Strings.byteIndex m (ascii_of_nat 10) = None) mods →
  Strings.Split (module_lines mods) (ascii_of_nat 10) = mods ++ [""].
Proof.
  assert (∀ s sep r, Strings.byteIndex s sep = None → Strings.Split (s +:+ String sep r) sep = s :: Strings.Split r sep) as Happ.
  { clear. intros s sep r. induction s as [|c s IH]; intros Hs; rewrite ?StringFacts.sapp_nil, ?StringFacts.sapp_cons; cbn [Strings.Split].
    - by rewrite decide_True.
    - cbn [Strings.byteIndex] in Hs. case_decide; [done|]. rewrite IH; [done|]. by destruct (Strings.byteIndex s sep). }
  assert (∀ m mods, module_lines (m :: mods) = m +:+ String (ascii_of_nat 10) (module_lines mods)) as Hcons.
  { intros m l. unfold module_lines. rewrite fmap_cons. destruct l as [|m' l]; [done|]. cbn [String.concat fmap list_fmap].
    by rewrite StringFacts.sapp_nil, <-StringFacts.sapp_assoc, StringFacts.sapp_cons, StringFacts.sapp_nil. }
  induction 1 as [|m mods Hm Hmods IH]; [done|]. by rewrite Hcons, Happ, IH.
Qed.

(** C35: [CanUseIpvs] answers yes exactly when every required kernel module is
    among the loaded ones; otherwise it returns an error that names the
    missing modules. *)
Theorem CanUseIpvs_exact `{Exec} (w : IO) (mods : list string) :
  Forall (λ m, Strings.byteIndex m (ascii_of_nat 10) = None) mods →
  CombinedOutput (tick w) "cut" ["-f1"; "-d"; " "; "/proc/modules"] = (module_lines mods, None) →
  ∃ r w', CanUseIpvs w = (Ret r, w') ∧
    (r = OK true ↔ ∀ m, m ∈ IpvsModules → m ∈ mods) ∧
    (r ≠ OK true → ∃ missing, missing ≠ [] ∧ (∀ m, m ∈ missing ↔ m ∈ IpvsModules ∧ ¬ m ∈ mods) ∧
       r = Err ("Failed to load kernel modules: [" +:+ String.concat " " missing +:+ "]")).
Proof.
  intros Hm Hout. unfold CanUseIpvs, mbind, M_bind, emit, modify, ask. cbn [tick]. rewrite Hout. cbn [fst snd].
  assert (∀ m, m ∈ missing_modules (module_lines mods) ↔ m ∈ IpvsModules ∧ ¬ m ∈ mods) as Hmiss.
  { intros m. unfold missing_modules. rewrite list_elem_of_filter, Split_lines, elem_of_app by done.
    rewrite list_elem_of_singleton. split; [naive_solver|]. intros [Hi Hn]. split; [|done]. intros [?| ->]; [done|].
    revert Hi. by_eval. }
  eexists _, _. split; [reflexivity|]. case_decide as Hd.
  - split; [|done]. split; [|done]. intros _ m Hi. apply dec_stable. intros Hn.
    assert (m ∈ missing_modules (module_lines mods)) as Hin by (by apply Hmiss). rewrite Hd in Hin. by apply elem_of_nil in Hin.
  - split.
    + split; [done|]. intros Hall. destruct Hd. apply elem_of_nil_inv. intros m [Hi Hn]%Hmiss. by apply Hn, Hall.
    + intros _. by exists (missing_modules (module_lines mods)).
Qed.

Definition ex_modules : Exec := {|
  LookPath _ _ := OK "/usr/bin/cut"; CombinedOutput _ _ _ := (module_lines ["ip_vs_rr"; "ip_vs"; "ext4"], None) |}.

Lemma CanUseIpvs_exact_witness :
  ∃ r w', @CanUseIpvs ex_modules {| tick := 0; trace := [] |} = (Ret r, w') ∧ r ≠ OK true.
Proof.
  destruct (@CanUseIpvs_exact ex_modules {| tick := 0; trace := [] |} ["ip_vs_rr"; "ip_vs"; "ext4"])
    as (r & w' & Hrun & Hiff & _).
  - repeat constructor; vm_compute; reflexivity.
  - vm_compute. reflexivity.
  - exists r, w'. split; [exact Hrun|]. intros Hr. apply (proj1 Hiff) with (m := "nf_conntrack_ipv4") in Hr; [|by_eval].
    revert Hr. by_eval.
Defined.

(** ** The proxier *)

(** Writing a file either succeeds with the contents written or fails and
    changes nothing; reading changes nothing. *)
Class FileSystemSpec (F : Type) `{FileSystem F} := {
  files : F → gmap string string;
  ReadFile_spec f p : wp (ReadFile p) (λ _ f', files f' = files f) f;
  WriteFile_spec f p d : wp (WriteFile p d) (λ err f', files f' = match err with None => <[p := d]> (files f) | Some _ => files f end) f;
}.

Definition net_flags : list string := [sysctlRouteLocalnet; sysctlVSConnTrack; sysctlForward].

Section claims.
Context {F : Type} `{FS : FileSystem F} `{FSS : !FileSystemSpec F} `{NO : NetOS} `{CS : Clientset} `{TH : Throttling}.

(** Every write succeeds. *)
Definition writes_all : Prop := ∀ f p d, wp (WriteFile p d) (λ err _, err = None) f.

Lemma setNetFlag_spec f :
  wp setNetFlag (λ err f', (err = None → ∀ s, s ∈ net_flags → files f' !! sysctl_path s = Some "1") ∧
    (writes_all → err = None)) f.
Proof.
  assert (∀ f p d, wp (WriteFile p d) (λ err f', files f' = match err with None => <[p := d]> (files f) | Some _ => files f end
    ∧ (writes_all → err = None)) f) as Hw.
  { intros f' p d. pose proof (WriteFile_spec f' p d) as Hs. revert Hs. unfold wp.
    destruct (WriteFile p d f') as [[err|] f''] eqn:E; [|done]. intros Hs. split; [done|].
    intros Hall. specialize (Hall f' p d). unfold wp in Hall. by rewrite E in Hall. }
  unfold setNetFlag, setSysctl. apply wp_bind. eapply wp_mono; [apply Hw|].
  intros [err|] f1 [H1 Ha1]; [apply wp_ret; split; [done|by intros ?%Ha1]|]. apply wp_bind. unfold getSysctl. apply wp_bind.
  eapply wp_mono; [apply ReadFile_spec|]. intros r f2 H2. apply wp_ret, wp_bind.
  eapply wp_mono; [apply Hw|]. intros [err|] f3 [H3 Ha3]; [apply wp_ret; split; [done|by intros ?%Ha3]|].
  apply wp_bind. eapply wp_mono; [apply Hw|]. intros [err|] f4 [H4 Ha4]; apply wp_ret; [split; [done|by intros ?%Ha4]|].
  split; [|done]. intros _ s Hs. rewrite H4, H3, H2, H1.
  repeat (apply elem_of_cons in Hs as [->|Hs]; [by repeat (rewrite lookup_insert_eq || rewrite lookup_insert_ne by done)|]).
  by apply elem_of_nil in Hs.
Qed.


(** What a [NewProxier] that returned leaves. *)
Lemma NewProxier_returned (config : KubeEnnProxyConfig) (hostname : string) s :
  wlp (NewProxier config hostname) (λ r s', match r with
    | OK p => (∀ n, n ∈ net_flags → files s'.1 !! sysctl_path n = Some "1") ∧
        ∃ cidr, p = Proxier.new_proxier (cfg_MasqueradeAll config) cidr hostname (IpvsSyncPeriod config)
    | Err _ => True end) s.
Proof using FSS.
  unfold NewProxier. case_match; [by apply wlp_ret|]. apply wlp_bind, wlp_zoom.
  eapply wlp_mono; [apply wp_wlp, setNetFlag_spec|]. intros [err|] f1 [Hf _]; [by apply wlp_ret|].
  apply wlp_bind, wlp_zoom. eapply wlp_mono; [apply wlp_any|]. intros [cidr|err] w1 _; [|by apply wlp_ret].
  apply wlp_bind. unfold new_throttle. destruct (_ =? 0)%Z; [|destruct (NewTokenBucketRateLimiter _ 2); [|done]];
    apply wlp_ret, wlp_ret; (split; [|by eexists]); by apply Hf.
Qed.

(** ** The construction of the server *)

(** A server that was constructed has the proxier NewProxier made, with its
    node's name, and the kernel settings written; its IPVS handle is open. *)
Lemma NewEnnProxyServerDefault_returned `{EX : Exec} {K : Type} `{IF : Interface K} `{IS : !IpvsSpec K}
    `{HD : Handle K} `{HS : !HandleSpec K} (build : nat → string → string → error) (newc : nat → error)
    (config : KubeEnnProxyConfig) (s : F * IO * K) :
  rep s.2 →
  wlp (NewEnnProxyServerDefault build newc config) (λ r s', rep s'.2 ∧ match r with
    | OK server => (∀ n, n ∈ net_flags → files s'.1.1 !! sysctl_path n = Some "1") ∧
        ∃ cidr, Startup.Proxier server = Proxier.new_proxier (cfg_MasqueradeAll config) cidr (ref_Name (NodeRef server))
          (IpvsSyncPeriod config)
    | Err _ => True end) s.
Proof using FSS.
  intros Hrep.
  assert (cfg_MasqueradeAll (with_kubeconfig config) = cfg_MasqueradeAll config ∧
    IpvsSyncPeriod (with_kubeconfig config) = IpvsSyncPeriod config) as [Hall Hper].
  { unfold with_kubeconfig. by case_decide. }
  unfold NewEnnProxyServerDefault.
  assert (∀ A (c : M IO A) (Q : A → F * IO * K → Prop) s, rep s.2 → (∀ a s', rep s'.2 → Q a s') →
    wlp (onDisk (onHost c)) Q s) as Hany.
  { intros A c Q s' Hr HQ. do 2 apply wlp_zoom. eapply wlp_mono; [apply wlp_any|]. intros a s'' _. by apply HQ. }
  apply wlp_bind, Hany; [done|]. intros [err|] s1 H1; [done|]. apply wlp_bind, Hany; [done|]. intros [err|] s2 H2; [done|].
  apply wlp_bind, wlp_zoom. unfold EnnIpvs.NewEnnIpvs. apply wlp_bind.
  eapply wlp_mono; [by apply wp_wlp, libipvs_New_spec|]. intros [err|] k [Hk _]; [done|]. apply wlp_ret.
  apply wlp_bind, Hany; [done|]. intros [node|err] s3 H3; [|by apply wlp_ret].
  destruct (InternalGetNodeHostIP node) as [ip|err]; [|by apply wlp_ret].
  apply wlp_bind, Hany; [done|]. intros [err|] s4 H4; [by apply wlp_ret|]. apply wlp_bind, wlp_zoom.
  eapply wlp_mono; [apply NewProxier_returned|]. intros [p|err] s5; [|intros _; by apply wlp_ret].
  intros [Hf [cidr ->]]. apply wlp_ret. cbn. rewrite Hall, Hper. split; [done|]. split; [done|]. by exists cidr.
Qed.
End claims.

(** A file system in memory. *)
Definition mem_fs : FileSystem (gmap string string) := {|
  ReadFile p := m ← get; mret (match m !! p with Some d => OK d | None => Err "no such file or directory" end);
  WriteFile p d := modify (<[p := d]>) ;; mret None |}.
Definition mem_fs_spec : @FileSystemSpec _ mem_fs.
Proof.
  refine {| files f := f |}.
  - intros f p. by apply wp_bind, wp_get, wp_ret.
  - intros f p d. by apply wp_bind, wp_modify, wp_ret.
Defined.

Definition ex_client : Clientset := {|
  Nodes.Nodes_Get _ name := OK {| Nodes.node_Name := name; Nodes.PodCIDR := "10.244.1.0/24"; Nodes.node_Addresses := [] |} |}.
Definition ex_host : NetOS := {|
  InterfaceAddrs _ := OK []; Interfaces _ := OK []; Listen n _ _ := OK n;
  ResolveUDPAddr _ _ a := OK a; ListenUDP n _ _ := OK n; Hostname _ := OK "Node1" |}.

(** A limiter that refuses negative rates, as the vendored one does. *)
Definition ex_throttling : Throttling := λ rate _,
  match rate with
  | SpecFloat.S754_finite false _ _ => Ret tt
  | _ => Panic "cannot find suitable quantum"
  end.

(** With a minimum period of 2 seconds the proxier is made; with one of minus 2
    seconds the construction panics. *)
Definition ex_config (minSync : Duration) : KubeEnnProxyConfig :=
  set_durations (ConfigSyncPeriod NewKubeEnnProxyConfig) (IPTablesSyncPeriod NewKubeEnnProxyConfig)
    (IpvsSyncPeriod NewKubeEnnProxyConfig) minSync NewKubeEnnProxyConfig.

