(* ===== verification/Dbus.v ===== *)
(** * D-Bus (pkg/util/dbus)

    The interface through which the iptables runner hears of firewall reloads
    ([Interface]), its implementation over the godbus library (a parameter,
    [Godbus]) and the in-memory one the tests use. *)

From S2P Require Import Prelude.

Module Dbus.

(** A channel, and what a method call takes and a signal carries: strings, and
    values of other types. *)
Abbreviation chan := nat (only parsing).
Inductive value := VString (s : string) | VOther (repr : string).

Record Signal := { Sender : string; Path : string; Name : string; Body : list value }.

(** [dbus.Interface] with the connections, objects and calls it gives out;
    [Store] gets the destinations' types. *)
Class Interface (N : Type) := {
  Connection : Type;
  Object : Type;
  Call : Type;
  SystemBus : M N (result Connection);
  SessionBus : M N (result Connection);
  BusObject : Connection → M N Object;
  ObjectAt : Connection → string → string → M N Object;
  SignalTo : Connection → chan → M N unit;
  CallMethod : Object → string → list value → M N Call;
  Store : Call → list string → M N (result (list value));
}.
Arguments Connection N {_}.
Arguments Object N {_}.
Arguments Call N {_}.

(** ** The implementation over godbus *)
Class Godbus (L : Type) := {
  gd_Conn : Type; gd_BusObj : Type; gd_CallT : Type;
  gd_SystemBus : M L (result gd_Conn);
  gd_SessionBus : M L (result gd_Conn);
  gd_BusObject : gd_Conn → M L gd_BusObj;
  gd_Object : gd_Conn → string → string → M L gd_BusObj;
  gd_Signal : gd_Conn → chan → M L unit;
  gd_Call : gd_BusObj → string → list value → M L gd_CallT;
  gd_Store : gd_CallT → list string → M L (result (list value));
}.
Arguments gd_Conn L {_}.
Arguments gd_BusObj L {_}.
Arguments gd_CallT L {_}.

Section impl.
Context {L : Type} `{GD : Godbus L}.

(** [dbusImpl], with the library's state beside it. *)
Record dbusImpl := { systemBus : option (gd_Conn L); sessionBus : option (gd_Conn L); lib : L }.

Definition New (l : L) : dbusImpl := {| systemBus := None; sessionBus := None; lib := l |}.

Definition godbus {A} (c : M L A) : M dbusImpl A :=
  zoom lib (λ l db, {| systemBus := systemBus db; sessionBus := sessionBus db; lib := l |}) c.

Definition impl_SystemBus : M dbusImpl (result (gd_Conn L)) :=
  db ← get;
  match systemBus db with
  | Some bus => mret (OK bus)
  | None =>
      r ← godbus gd_SystemBus;
      match r with
      | Err err => mret (Err err)
      | OK bus =>
          modify (λ db, {| systemBus := Some bus; sessionBus := sessionBus db; lib := lib db |}) ;; mret (OK bus)
      end
  end.

Definition impl_SessionBus : M dbusImpl (result (gd_Conn L)) :=
  db ← get;
  match sessionBus db with
  | Some bus => mret (OK bus)
  | None =>
      r ← godbus gd_SessionBus;
      match r with
      | Err err => mret (Err err)
      | OK bus =>
          modify (λ db, {| systemBus := systemBus db; sessionBus := Some bus; lib := lib db |}) ;; mret (OK bus)
      end
  end.

#[export] Instance impl_Interface : Interface dbusImpl := {|
  Connection := gd_Conn L; Object := gd_BusObj L; Call := gd_CallT L;
  SystemBus := impl_SystemBus;
  SessionBus := impl_SessionBus;
  BusObject conn := godbus (gd_BusObject conn);
  ObjectAt conn name path := godbus (gd_Object conn name path);
  SignalTo conn ch := godbus (gd_Signal conn ch);
  CallMethod obj method args := godbus (gd_Call obj method args);
  Store call retvalues := godbus (gd_Store call retvalues);
|}.
End impl.
Arguments dbusImpl L {_}.

(** ** The fake

    Connections are shared by pointer, so they live in a store; a handler is a
    closure of the test, named by a number, with the test's variables in [E].
    Sending on a channel that is full blocks: with nobody to receive, the run
    time ends the program. *)
Record FakeConnection := {
  busObject : option nat;                 (* a handler *)
  objects : gmap string nat;
  signalHandlers : list chan;
}.

Section fake.
Context {E : Type}.

Record Fake := {
  conns : gmap nat FakeConnection;
  chans : gmap nat (nat * list Signal);   (* capacity and content *)
  env : E;
}.

(** [DBusFake]: two pointers that may be nil. *)
Variables fakeSystem fakeSession : option nat.
Variable handlers : nat → string → list value → M Fake (list value * error).
(** [godbus.Store]. *)
Variable godbus_Store : list value → list string → result (list value).

Definition NewFakeConnection : FakeConnection := {| busObject := None; objects := ∅; signalHandlers := [] |}.

Definition set_conn (i : nat) (f : FakeConnection → FakeConnection) : M Fake unit :=
  modify (λ w, {| conns := alter f i (conns w); chans := chans w; env := env w |}).
Definition conn_at (i : nat) : M Fake FakeConnection :=
  w ← get;
  match conns w !! i with
  | Some c => mret c
  | None => panic "invalid memory address or nil pointer dereference"
  end.

Definition bus_or_error (b : option nat) : result nat :=
  match b with Some i => OK i | None => Err "DBus is not running" end.

(** The index of [ch] in [l]: the loop of [Signal]. *)
Fixpoint signal_index (ch : chan) (l : list chan) : option nat :=
  match l with
  | [] => None
  | h :: l => if decide (h = ch) then Some 0 else S <$> signal_index ch l
  end.
Definition toggle_handler (ch : chan) (l : list chan) : list chan :=
  match signal_index ch l with
  | Some i => firstn i l ++ skipn (S i) l
  | None => l ++ [ch]
  end.
Definition fake_Signal (i : nat) (ch : chan) : M Fake unit :=
  conn_at i ;;
  set_conn i (λ c, {| busObject := busObject c; objects := objects c;
                      signalHandlers := toggle_handler ch (signalHandlers c) |}).

Definition SetBusObject (i handler : nat) : M Fake unit :=
  conn_at i ;;
  set_conn i (λ c, {| busObject := Some handler; objects := objects c; signalHandlers := signalHandlers c |}).
Definition AddObject (i : nat) (name path : string) (handler : nat) : M Fake unit :=
  conn_at i ;;
  set_conn i (λ c, {| busObject := busObject c; objects := <[name +:+ path := handler]> (objects c);
                      signalHandlers := signalHandlers c |}).

Definition send (ch : chan) (sig : Signal) : M Fake unit :=
  w ← get;
  match chans w !! ch with
  | Some (cap, q) =>
      if (length q <? cap)%nat then
        modify (λ w, {| conns := conns w; chans := <[ch := (cap, q ++ [sig])]> (chans w); env := env w |})
      else panic "all goroutines are asleep - deadlock!"
  | None => panic "all goroutines are asleep - deadlock!"     (* a nil channel *)
  end.

Definition EmitSignal (i : nat) (name path iface signal : string) (args : list value) : M Fake unit :=
  c ← conn_at i;
  let sig := {| Sender := name; Path := path; Name := iface +:+ "." +:+ signal; Body := args |} in
  for_each (signalHandlers c) (λ ch, send ch sig).

(** A nil object has no handler to read. *)
Definition fake_Call (obj : option nat) (method : string) (args : list value) : M Fake (list value * error) :=
  match obj with
  | None => panic "invalid memory address or nil pointer dereference"
  | Some h => handlers h method args
  end.
Definition fake_Store (call : list value * error) (retvalues : list string) : result (list value) :=
  match call.2 with
  | Some err => Err err
  | None => godbus_Store call.1 retvalues
  end.

Definition fake_BusObject (i : nat) : M Fake (option nat) := c ← conn_at i; mret (busObject c).
Definition fake_Object (i : nat) (name path : string) : M Fake (option nat) :=
  c ← conn_at i; mret (objects c !! (name +:+ path)).

Definition NewFake : Interface Fake := {|
  Connection := nat; Object := option nat; Call := list value * error;
  SystemBus := mret (bus_or_error fakeSystem);
  SessionBus := mret (bus_or_error fakeSession);
  BusObject := fake_BusObject;
  ObjectAt := fake_Object;
  SignalTo := fake_Signal;
  CallMethod := fake_Call;
  Store call retvalues := mret (fake_Store call retvalues);
|}.
End fake.
Arguments Fake E : clear implicits.
End Dbus.
