(* ===== verification/Iptables.v ===== *)
(** * The iptables runner (pkg/util/iptables)

    Chains, rules and restores through the iptables commands: [runner] is the
    handle, its methods are computations on the host. Running a command and the
    system calls on the two lock files are parameters ([Host]); the D-Bus is
    the interface of [Dbus]. *)

From S2P Require Import Prelude GoNet Host Strconv GoIptables Version Dbus.
From Stdlib Require Import Ascii.

Module Iptables.
Import Strings.

(** ** The host *)

(** [utilexec.ExitError], or another error of running a command. *)
Inductive exec_error :=
| ExitError (Exited : bool) (ExitStatus : Z) (msg : string)
| OtherError (msg : string).
Definition Error (e : exec_error) : string :=
  match e with ExitError _ _ msg => msg | OtherError msg => msg end.

(** The first attempt of [wait.PollImmediate] happens at once; then the poller
    delivers [poll_ticks] ticks before the timeout, at which it is closed. *)
Class Host (N : Type) := {
  Command : string → list string → string → M N (string * option exec_error);  (* name, args, stdin; output *)
  OpenFile : string → M N (result Z);                     (* os.OpenFile(path, O_CREATE, 0600) *)
  Flock : Z → M N error;                                  (* LOCK_EX|LOCK_NB *)
  ListenUnix : string → M N (result Z);
  CloseFile : Z → M N error;
  poll_ticks : Z → Z → M N nat;                           (* interval and timeout, in ns *)
}.

Inductive Protocol := ProtocolIpv4 | ProtocolIpv6.

Abbreviation Table := string (only parsing).
Abbreviation Chain := string (only parsing).
Definition TableNAT : Table := "nat".
Definition TableFilter : Table := "filter".
Definition ChainPostrouting : Chain := "POSTROUTING".
Definition ChainPrerouting : Chain := "PREROUTING".
Definition ChainOutput : Chain := "OUTPUT".
Definition ChainInput : Chain := "INPUT".

Definition cmdIPTablesSave := "iptables-save".
Definition cmdIPTablesRestore := "iptables-restore".
Definition cmdIPTables := "iptables".
Definition cmdIp6tables := "ip6tables".

Definition MinCheckVersion := "1.4.11".
Definition MinWaitVersion := "1.4.20".
Definition MinWait2Version := "1.4.22".
Definition LockfilePath16x := "/run/xtables.lock".

(** [operation], and [RulePosition] which is converted to it. *)
Definition opCreateChain := "-N".
Definition opFlushChain := "-F".
Definition opDeleteChain := "-X".
Definition opAppendRule := "-A".
Definition opCheckRule := "-C".
Definition opDeleteRule := "-D".
Inductive RulePosition := Prepend | Append.
Definition operation (p : RulePosition) : string := match p with Prepend => "-I" | Append => "-A" end.

(** The handle; [signal] is the channel of D-Bus signals, once connected. The
    flag lists have no spare capacity, so appending to them copies. *)
Record runner (N : Type) := {
  protocol : Protocol;
  hasCheck : bool;
  waitFlag : list string;
  restoreWaitFlag : list string;
  lockfilePath : string;
  reloadFuncs : list (M N unit);
  signal : option nat;
}.
Arguments protocol {N} _.
Arguments hasCheck {N} _.
Arguments waitFlag {N} _.
Arguments restoreWaitFlag {N} _.
Arguments lockfilePath {N} _.
Arguments reloadFuncs {N} _.
Arguments signal {N} _.

(** ** Versions *)

(** The pattern v<n>(.<n>)+ : the dotted numbers at the start of [s], with at
    least one dot. *)
Definition match_version (s : string) : option string :=
  s ← GoIptables.after "v" s;
  '(m, _) ← Version.scan_dotted StringFacts.is_digit s;
  match byteIndex m "." with Some _ => Some m | None => None end.
Fixpoint find_version (s : string) : option string :=
  match match_version s with
  | Some m => Some m
  | None => match s with String _ s' => find_version s' | EmptyString => None end
  end.

Definition getIPTablesHasCheckCommand (vstring : string) : bool :=
  match Version.ParseGeneric MinCheckVersion with
  | Err _ => true
  | OK minVersion =>
      match Version.ParseGeneric vstring with
      | Err _ => true
      | OK version => Version.AtLeast version minVersion
      end
  end.

Definition getIPTablesWaitFlag (vstring : string) : list string :=
  match Version.ParseGeneric vstring with
  | Err _ => []
  | OK version =>
      match Version.ParseGeneric MinWaitVersion with
      | Err _ => []
      | OK minVersion =>
          if Version.LessThan version minVersion then []
          else
            match Version.ParseGeneric MinWait2Version with
            | Err _ => []
            | OK minVersion => if Version.LessThan version minVersion then ["-w"] else ["-w2"]
            end
      end
  end.

(** ** The text of rules *)

Definition newline : ascii := ascii_of_nat 10.

(** [strings.Trim(s, quote)]. *)
Fixpoint trim_quote_left (s : string) : string :=
  match s with
  | String c s' => if decide (c = dquote) then trim_quote_left s' else s
  | EmptyString => EmptyString
  end.
Fixpoint trim_quote_right (s : string) : string :=
  match s with
  | EmptyString => EmptyString
  | String c s =>
      match trim_quote_right s with
      | EmptyString => if decide (c = dquote) then EmptyString else String c EmptyString
      | s' => String c s'
      end
  end.
Definition TrimQuotes (s : string) : string := trim_quote_right (trim_quote_left s).

(** [hexnumRE.ReplaceAllString(s, 0x$1)] for the pattern 0x0+([0-9]), as one
    pass. The state is what was read and not yet copied: nothing, "0", "0x",
    "0x0", or "0x" with more zeros, of which the last may be the digit of the
    pattern. *)
Inductive hex_state := HNone | HZero | HPrefix | HOne | HMany.
Fixpoint trimhex_from (st : hex_state) (s : string) : string :=
  match s with
  | EmptyString =>
      match st with HNone => "" | HZero => "0" | HPrefix => "0x" | HOne => "0x0" | HMany => "0x0" end
  | String c s =>
      if decide (c = "0"%char) then
        match st with
        | HNone => trimhex_from HZero s
        | HZero => String "0" (trimhex_from HZero s)
        | HPrefix => trimhex_from HOne s
        | HOne => trimhex_from HMany s
        | HMany => trimhex_from HMany s
        end
      else
        match st with
        | HNone => String c (trimhex_from HNone s)
        | HZero => if decide (c = "x"%char) then trimhex_from HPrefix s
                   else "0" +:+ String c (trimhex_from HNone s)
        | HPrefix => "0x" +:+ String c (trimhex_from HNone s)
        | HOne => if StringFacts.is_digit c then "0x" +:+ String c (trimhex_from HNone s)
                  else if decide (c = "x"%char) then "0x" +:+ trimhex_from HPrefix s
                  else "0x0" +:+ String c (trimhex_from HNone s)
        | HMany => if StringFacts.is_digit c then "0x" +:+ String c (trimhex_from HNone s)
                   else "0x0" +:+ String c (trimhex_from HNone s)
        end
  end.
Definition trimhex (s : string) : string := trimhex_from HNone s.

Definition normal_args (args : list string) : list string :=
  args ≫= (λ a, GoIptables.Fields (trimhex (TrimQuotes a))).

(** The test on one line of the output of iptables-save. *)
Definition line_is_rule (chain : Chain) (argsCopy : list string) (line : string) : bool :=
  let fields := GoIptables.Fields line in
  if negb (HasPrefix line ("-A " +:+ chain)) || negb (length fields =? length argsCopy + 2)%nat then false
  else
    let fields := (λ f, trimhex (TrimQuotes f)) <$> fields in
    bool_decide (argsCopy ⊆ fields).

Definition makeFullArgs (table : Table) (chain : Chain) (args : list string) : list string :=
  [chain; "-t"; table] ++ args.

Definition IsNotFoundError (es : string) : bool :=
  if Contains es "No such file or directory" then true
  else if Contains es "No chain/target/match by that name" then true
  else false.

Section methods.
Context {N : Type} `{HN : Host N}.
Implicit Types r : runner N.

(** [FindStringSubmatch] on the output of a command. *)
Definition version_of (out : string * option exec_error) : result string :=
  match out.2 with
  | Some err => Err (Error err)
  | None => match find_version out.1 with
            | None => Err ("no iptables version found in string: " +:+ out.1)
            | Some v => OK v
            end
  end.

Definition getIPTablesVersionString : M N (result string) :=
  out ← Command cmdIPTables ["--version"] ""; mret (version_of out).

(** Standard input is set to nothing, so that the command ends. *)
Definition getIPTablesRestoreVersionString : M N (result string) :=
  out ← Command cmdIPTablesRestore ["--version"] ""; mret (version_of out).

Definition getIPTablesRestoreWaitFlag : M N (list string) :=
  vstring ← getIPTablesRestoreVersionString;
  mret (match vstring with
        | Err _ => []
        | OK vstring =>
            if decide (vstring = "") then []
            else match Version.ParseGeneric vstring with Err _ => [] | OK _ => ["--wait=2"] end
        end).

Definition IsIpv6 r : bool := match protocol r with ProtocolIpv6 => true | ProtocolIpv4 => false end.
Definition GetVersion r : M N (result string) := getIPTablesVersionString.

(** ** Running commands *)
Definition iptablesCommand r : string := if IsIpv6 r then cmdIp6tables else cmdIPTables.

Definition run r (op : string) (args : list string) : M N (string * option exec_error) :=
  Command (iptablesCommand r) ((waitFlag r ++ [op]) ++ args) "".

(** The operation was refused, as opposed to a malformed command. *)
Definition refused (e : exec_error) : bool :=
  match e with ExitError exited status _ => exited && (status =? 1)%Z | OtherError _ => false end.

Definition EnsureChain r (table : Table) (chain : Chain) : M N (result bool) :=
  let fullArgs := makeFullArgs table chain [] in
  '(out, err) ← run r opCreateChain fullArgs;
  mret (match err with
        | Some e =>
            if refused e then OK true
            else Err ("error creating chain " +:+ Quote chain +:+ ": " +:+ Error e +:+ ": " +:+ out)
        | None => OK false
        end).

Definition FlushChain r (table : Table) (chain : Chain) : M N error :=
  '(out, err) ← run r opFlushChain (makeFullArgs table chain []);
  mret (match err with
        | Some e => Some ("error flushing chain " +:+ Quote chain +:+ ": " +:+ Error e +:+ ": " +:+ out)
        | None => None
        end).

Definition DeleteChain r (table : Table) (chain : Chain) : M N error :=
  '(out, err) ← run r opDeleteChain (makeFullArgs table chain []);
  mret (match err with
        | Some e => Some ("error deleting chain " +:+ Quote chain +:+ ": " +:+ Error e +:+ ": " +:+ out)
        | None => None
        end).

(** ** Checking a rule *)
Definition checkRuleWithoutCheck r (table : Table) (chain : Chain) (args : list string) : M N (result bool) :=
  '(out, err) ← Command cmdIPTablesSave ["-t"; table] "";
  mret (match err with
        | Some e => Err ("error checking rule: " +:+ Error e)
        | None => OK (existsb (line_is_rule chain (normal_args args)) (Split out newline))
        end).

Definition checkRuleUsingCheck r (args : list string) : M N (result bool) :=
  '(out, err) ← run r opCheckRule args;
  mret (match err with
        | None => OK true
        | Some e => if refused e then OK false
                    else Err ("error checking rule: " +:+ Error e +:+ ": " +:+ out)
        end).

Definition checkRule r (table : Table) (chain : Chain) (args : list string) : M N (result bool) :=
  if hasCheck r then checkRuleUsingCheck r (makeFullArgs table chain args)
  else checkRuleWithoutCheck r table chain args.

Definition EnsureRule r (position : RulePosition) (table : Table) (chain : Chain) (args : list string)
    : M N (result bool) :=
  let fullArgs := makeFullArgs table chain args in
  exist ← checkRule r table chain args;
  match exist with
  | Err err => mret (Err err)
  | OK true => mret (OK true)
  | OK false =>
      '(out, err) ← run r (operation position) fullArgs;
      mret (match err with
            | Some e => Err ("error appending rule: " +:+ Error e +:+ ": " +:+ out)
            | None => OK false
            end)
  end.

Definition DeleteRule r (table : Table) (chain : Chain) (args : list string) : M N error :=
  let fullArgs := makeFullArgs table chain args in
  exist ← checkRule r table chain args;
  match exist with
  | Err err => mret (Some err)
  | OK false => mret None
  | OK true =>
      '(out, err) ← run r opDeleteRule fullArgs;
      mret (match err with
            | Some e => Some ("error deleting rule: " +:+ Error e +:+ ": " +:+ out)
            | None => None
            end)
  end.

(** ** Save and restore *)

(** The output goes to the caller's buffer. *)
Definition SaveInto r (table : Table) (buffer : string) : M N (string * error) :=
  '(out, err) ← Command cmdIPTablesSave ["-t"; table] "";
  mret (buffer +:+ out, Error <$> err).

(** [wait.PollImmediate]: the condition at once, after every tick and when the
    poller is closed. *)
Definition ErrWaitTimeout := "timed out waiting for the condition".
Fixpoint WaitFor (ticks : nat) (condition : M N bool) : M N error :=
  ok ← condition;
  if ok : bool then mret None
  else match ticks with O => mret (Some ErrWaitTimeout) | S ticks => WaitFor ticks condition end.
Definition PollImmediate (interval timeout : Z) (condition : M N bool) : M N error :=
  ok ← condition;
  if ok : bool then mret None else (ticks ← poll_ticks interval timeout; WaitFor ticks condition).

Record locker := { lock16 : option Z; lock14 : option Z }.

Definition close_lock (l : option Z) : M N (list string) :=
  match l with
  | None => mret []
  | Some f => err ← CloseFile f; mret (match err with Some e => [e] | None => [] end)
  end.
(** The errors are aggregated. *)
Definition Close (l : locker) : M N (list string) :=
  e16 ← close_lock (lock16 l); e14 ← close_lock (lock14 l); mret (e16 ++ e14).

Definition grabIptablesFileLock (f : Z) : M N error := Flock f.

(** 200 ms and 2 s. *)
Definition poll_interval : Z := 200000000.
Definition poll_timeout : Z := 2000000000.

Definition grab16 (f : Z) : M N bool :=
  err ← grabIptablesFileLock f; mret (match err with Some _ => false | None => true end).

(** The polled function assigns [l.lock14], so the last attempt's socket comes
    out of the loop. *)
Fixpoint WaitFor14 (ticks : nat) : M N (option Z) :=
  r ← ListenUnix "@xtables";
  match r with
  | OK s => mret (Some s)
  | Err _ => match ticks with O => mret None | S ticks => WaitFor14 ticks end
  end.
Definition Poll14 : M N (option Z) :=
  r ← ListenUnix "@xtables";
  match r with
  | OK s => mret (Some s)
  | Err _ => ticks ← poll_ticks poll_interval poll_timeout; WaitFor14 ticks
  end.

(** The deferred function closes what is open on failure. *)
Definition grabIptablesLocks (path : string) : M N (result locker) :=
  f ← OpenFile path;
  match f with
  | Err err =>
      Close {| lock16 := None; lock14 := None |} ;;
      mret (Err ("failed to open iptables lock " +:+ path +:+ ": " +:+ err))
  | OK f =>
      err ← PollImmediate poll_interval poll_timeout (grab16 f);
      match err with
      | Some err =>
          Close {| lock16 := Some f; lock14 := None |} ;;
          mret (Err ("failed to acquire new iptables lock: " +:+ err))
      | None =>
          s ← Poll14;
          match s with
          | None =>
              Close {| lock16 := Some f; lock14 := None |} ;;
              mret (Err ("failed to acquire old iptables lock: " +:+ ErrWaitTimeout))
          | Some s => mret (OK {| lock16 := Some f; lock14 := Some s |})
          end
      end
  end.

Definition run_restore r (args : list string) (data : string) : M N error :=
  '(b, err) ← Command cmdIPTablesRestore (restoreWaitFlag r ++ args) data;
  mret (match err with Some e => Some (Error e +:+ " (" +:+ b +:+ ")") | None => None end).

Definition restoreInternal r (args : list string) (data : string) (flush counters : bool) : M N error :=
  let args := if negb flush then args ++ ["--noflush"] else args in
  let args := if counters then args ++ ["--counters"] else args in
  if (length (restoreWaitFlag r) =? 0)%nat then
    l ← grabIptablesLocks (lockfilePath r);
    match l with
    | Err err => mret (Some err)
    | OK l => err ← run_restore r args data; Close l ;; mret err
    end
  else run_restore r args data.

Definition RestoreTable r (table : Table) (data : string) (flush counters : bool) : M N error :=
  restoreInternal r ["-T"; table] data flush counters.
Definition RestoreAll r (data : string) (flush counters : bool) : M N error :=
  restoreInternal r [] data flush counters.

(** ** Reloads *)
Definition AddReloadFunc r (reloadFunc : M N unit) : runner N :=
  {| protocol := protocol r; hasCheck := hasCheck r; waitFlag := waitFlag r;
     restoreWaitFlag := restoreWaitFlag r; lockfilePath := lockfilePath r;
     reloadFuncs := reloadFuncs r ++ [reloadFunc]; signal := signal r |}.

Definition reload r : M N unit := for_each (reloadFuncs r) id.
End methods.

(** ** FirewallD *)
Section dbus.
Context {N : Type} `{HN : Host N} `{DB : Dbus.Interface N}.
Implicit Types r : runner N.

Definition firewalldName := "org.fedoraproject.FirewallD1".
Definition firewalldPath := "/org/fedoraproject/FirewallD1".
Definition firewalldInterface := "org.fedoraproject.FirewallD1".

Definition match_reloaded : string :=
  "type='signal',sender='" +:+ firewalldName +:+ "',path='" +:+ firewalldPath +:+ "',interface='" +:+
  firewalldInterface +:+ "',member='Reloaded'".
Definition match_owner : string :=
  "type='signal',interface='org.freedesktop.DBus',member='NameOwnerChanged'," +:+
  "path='/org/freedesktop/DBus',sender='org.freedesktop.DBus',arg0='" +:+ firewalldName +:+ "'".

(** [ch] is the channel made for the signals; the handler's goroutine gets the
    connection. *)
Definition connectToFirewallD r (ch : nat) : M N (runner N * option (Dbus.Connection N)) :=
  bus ← Dbus.SystemBus;
  match bus with
  | Err _ => mret (r, None)
  | OK bus =>
      o ← Dbus.BusObject bus; Dbus.CallMethod o "org.freedesktop.DBus.AddMatch" [Dbus.VString match_reloaded] ;;
      o ← Dbus.BusObject bus; Dbus.CallMethod o "org.freedesktop.DBus.AddMatch" [Dbus.VString match_owner] ;;
      Dbus.SignalTo bus ch ;;
      mret ({| protocol := protocol r; hasCheck := hasCheck r; waitFlag := waitFlag r;
               restoreWaitFlag := restoreWaitFlag r; lockfilePath := lockfilePath r;
               reloadFuncs := reloadFuncs r; signal := Some ch |}, Some bus)
  end.

Definition newInternal (protocol : Protocol) (lockfilePath : string) (ch : nat)
    : M N (runner N * option (Dbus.Connection N)) :=
  v ← getIPTablesVersionString;
  let vstring := match v with Err _ => MinCheckVersion | OK v => v end in
  let lockfilePath := if decide (lockfilePath = "") then LockfilePath16x else lockfilePath in
  restoreWait ← getIPTablesRestoreWaitFlag;
  connectToFirewallD
    {| protocol := protocol; hasCheck := getIPTablesHasCheckCommand vstring;
       waitFlag := getIPTablesWaitFlag vstring; restoreWaitFlag := restoreWait;
       lockfilePath := lockfilePath; reloadFuncs := []; signal := None |} ch.

Definition New (protocol : Protocol) (ch : nat) : M N (runner N * option (Dbus.Connection N)) :=
  newInternal protocol "" ch.

(** [s.Body[i].(string)]. *)
Definition body_string (s : Dbus.Signal) (i : nat) : M N string :=
  match Dbus.Body s !! i with
  | None => panic "index out of range"
  | Some (Dbus.VOther _) => panic "interface conversion: interface {} is not string"
  | Some (Dbus.VString v) => mret v
  end.

(** One signal of the handler's loop. *)
Definition handle_signal r (firewalld : Dbus.Object N) (s : Dbus.Signal) : M N unit :=
  if decide (Dbus.Name s = "org.freedesktop.DBus.NameOwnerChanged") then
    name ← body_string s 0;
    new_owner ← body_string s 2;
    if negb (bool_decide (name = firewalldName)) || bool_decide (new_owner = "") then mret tt
    else Dbus.CallMethod firewalld (firewalldInterface +:+ ".getDefaultZone") [] ;; reload r
  else if decide (Dbus.Name s = firewalldInterface +:+ ".Reloaded") then reload r
  else mret tt.

(** The loop over the channel: nil unregisters and ends it; at the end of the
    list the handler waits for more. *)
Fixpoint signal_loop r (bus : Dbus.Connection N) (firewalld : Dbus.Object N)
    (ch : nat) (signals : list (option Dbus.Signal)) : M N unit :=
  match signals with
  | [] => mret tt
  | None :: _ => Dbus.SignalTo bus ch
  | Some s :: signals => handle_signal r firewalld s ;; signal_loop r bus firewalld ch signals
  end.
Definition dbusSignalHandler r (bus : Dbus.Connection N) (ch : nat) (signals : list (option Dbus.Signal))
    : M N unit :=
  firewalld ← Dbus.ObjectAt bus firewalldName firewalldPath;
  signal_loop r bus firewalld ch signals.

(** What [Destroy] sends on the signal channel. *)
Definition Destroy r : list (option Dbus.Signal) :=
  match signal r with Some _ => [None] | None => [] end.
End dbus.

(** ** The interface

    [iptables.Interface]: what the runner and its test double both provide, on
    a state [S]. [Reload] is the type of the functions to call on a reload. *)
Class Interface (S : Type) := {
  Reload : Type;
  i_GetVersion : M S (result string);
  i_EnsureChain : Table → Chain → M S (result bool);
  i_FlushChain : Table → Chain → M S error;
  i_DeleteChain : Table → Chain → M S error;
  i_EnsureRule : RulePosition → Table → Chain → list string → M S (result bool);
  i_DeleteRule : Table → Chain → list string → M S error;
  i_IsIpv6 : M S bool;
  i_SaveInto : Table → string → M S (string * error);
  i_Restore : Table → string → bool → bool → M S error;
  i_RestoreAll : string → bool → bool → M S error;
  i_AddReloadFunc : Reload → M S unit;
  i_Destroy : M S unit;
}.

(** The runner with the host, and what it has sent on its signal channel. *)
Section instance.
Context {N : Type} `{HN : Host N}.

Record Running := { handle : runner N; host : N; signalled : list (option Dbus.Signal) }.

Definition on_host {A} (c : runner N → M N A) : M Running A := λ s,
  let '(o, n) := c (handle s) (host s) in (o, {| handle := handle s; host := n; signalled := signalled s |}).

#[export] Instance runner_Interface : Interface Running := {|
  Reload := M N unit;
  i_GetVersion := on_host GetVersion;
  i_EnsureChain table chain := on_host (λ r, EnsureChain r table chain);
  i_FlushChain table chain := on_host (λ r, FlushChain r table chain);
  i_DeleteChain table chain := on_host (λ r, DeleteChain r table chain);
  i_EnsureRule position table chain args := on_host (λ r, EnsureRule r position table chain args);
  i_DeleteRule table chain args := on_host (λ r, DeleteRule r table chain args);
  i_IsIpv6 := gets (λ s, IsIpv6 (handle s));
  i_SaveInto table buffer := on_host (λ r, SaveInto r table buffer);
  i_Restore table data flush counters := on_host (λ r, RestoreTable r table data flush counters);
  i_RestoreAll data flush counters := on_host (λ r, RestoreAll r data flush counters);
  i_AddReloadFunc f := modify (λ s, {| handle := AddReloadFunc (handle s) f; host := host s; signalled := signalled s |});
  i_Destroy := modify (λ s, {| handle := handle s; host := host s; signalled := signalled s ++ Destroy (handle s) |});
|}.
End instance.
Arguments Running N : clear implicits.
End Iptables.
