(* ===== verification/IptablesSpec.v ===== *)
(** * What the iptables runner relies on

    The documented behaviour of the iptables commands as a contract over the
    rules of each chain ([IptablesContract]), and the operations of [Iptables]
    under it. The options the runner gives are the ones the installed version
    has: the contract says nothing of the others. *)

From S2P Require Import Prelude GoNet Host Strconv GoIptables IptablesFacts Version VersionClaims Dbus Iptables.
From Stdlib Require Import Ascii.
Import Iptables.

(** ** Versions *)

(** Lexicographic order on three numbers. *)
Definition at_least (v m : Z * Z * Z) : bool :=
  let '(v1, v2, v3) := v in
  let '(m1, m2, m3) := m in
  (m1 <? v1)%Z || (m1 =? v1)%Z && ((m2 <? v2)%Z || (m2 =? v2)%Z && (m3 <=? v3)%Z).

Definition version_list (v : Z * Z * Z) : list Z := [v.1.1; v.1.2; v.2].
Definition version_string (v : Z * Z * Z) : string := Version.join_components (version_list v).
Definition generic (l : list Z) : Version.Version :=
  {| Version.components := l; Version.semver := false; Version.preRelease := ""; Version.buildMetadata := "" |}.

Lemma ParseGeneric_join l :
  (2 ≤ length l)%nat → uints l → Version.ParseGeneric (Version.join_components l) = OK (generic l).
Proof.
  intros Hlen Hu. assert (l ≠ []) as Hne by (by intros ->; simpl in Hlen; lia).
  unfold Version.ParseGeneric, Version.parse.
  pose proof (versionMatchRE_print (generic l) Hne Hu) as Hm. unfold Version.String in Hm. simpl in Hm.
  change (Version.extra_String (generic l)) with "" in Hm. rewrite StringFacts.string_app_nil_r in Hm.
  rewrite Hm by (by left). rewrite Split_join, length_fmap by done. cbn [andb negb orb].
  destruct (Nat.ltb_spec (length l) 2); [lia|]. by rewrite parse_components_Itoa.
Qed.

Lemma compare_three v m :
  Version.compareInternal (generic (version_list v)) (generic (version_list m)) = (-1)%Z ↔ at_least v m = false.
Proof.
  destruct v as [[v1 v2] v3], m as [[m1 m2] m3]. unfold Version.compareInternal. simpl.
  repeat match goal with
  | |- context [(?a <? ?b)%Z] => destruct (Z.ltb_spec a b)
  | |- context [(?a =? ?b)%Z] => destruct (Z.eqb_spec a b)
  | |- context [(?a <=? ?b)%Z] => destruct (Z.leb_spec a b)
  end; simpl; split; intros; first [done | lia].
Qed.

Lemma AtLeast_three v m : Version.AtLeast (generic (version_list v)) (generic (version_list m)) = at_least v m.
Proof.
  unfold Version.AtLeast. pose proof (compare_three v m) as H. destruct (at_least v m).
  - rewrite bool_decide_false; [done|]. by rewrite H.
  - rewrite bool_decide_true; [done|]. by rewrite H.
Qed.
Lemma LessThan_three v m :
  Version.LessThan (generic (version_list v)) (generic (version_list m)) = negb (at_least v m).
Proof. rewrite <-AtLeast_three. unfold Version.AtLeast. by rewrite negb_involutive. Qed.

Definition version_range (v : Z * Z * Z) : Prop := uints (version_list v).

Lemma hasCheck_version v :
  version_range v → getIPTablesHasCheckCommand (version_string v) = at_least v (1, 4, 11)%Z.
Proof.
  intros Hv. unfold getIPTablesHasCheckCommand, version_string. rewrite ParseGeneric_join by (done || simpl; lia).
  change (Version.ParseGeneric MinCheckVersion) with (OK (generic (version_list (1, 4, 11)%Z))).
  apply AtLeast_three.
Qed.

Lemma waitFlag_version v :
  version_range v → getIPTablesWaitFlag (version_string v) =
    if at_least v (1, 4, 22)%Z then ["-w2"] else if at_least v (1, 4, 20)%Z then ["-w"] else [].
Proof.
  intros Hv. unfold getIPTablesWaitFlag, version_string. rewrite ParseGeneric_join by (done || simpl; lia).
  change (Version.ParseGeneric MinWaitVersion) with (OK (generic (version_list (1, 4, 20)%Z))).
  change (Version.ParseGeneric MinWait2Version) with (OK (generic (version_list (1, 4, 22)%Z))).
  cbn beta iota. rewrite !LessThan_three.
  assert (at_least v (1, 4, 22)%Z = true → at_least v (1, 4, 20)%Z = true) as Himp.
  { destruct v as [[v1 v2] v3]. unfold at_least. lia. }
  destruct (at_least v (1, 4, 22)%Z), (at_least v (1, 4, 20)%Z); done || by discriminate Himp.
Qed.

(** The text iptables prints for its version. *)
Definition banner (pre : string) (v : Z * Z * Z) (post : string) : string :=
  pre +:+ String "v" (version_string v +:+ post).

Lemma find_version_skip_to pre s : Strings.byteIndex pre "v" = None → find_version (pre +:+ s) = find_version s.
Proof.
  induction pre as [|c pre IH]; intros Hp; [by rewrite StringFacts.sapp_nil|]. rewrite StringFacts.sapp_cons.
  cbn [Strings.byteIndex] in Hp. destruct (decide (c = "v"%char)) as [|Hc]; [done|].
  cbn [find_version]. unfold match_version. cbn [GoIptables.after]. rewrite decide_False by done.
  cbn [mbind option_bind]. apply IH. by destruct (Strings.byteIndex pre "v").
Qed.

Lemma find_version_banner pre v post :
  Strings.byteIndex pre "v" = None → version_range v → stops StringFacts.is_digit post →
  find_version (banner pre v post) = Some (version_string v).
Proof.
  intros Hpre Hv Hpost. unfold banner. rewrite find_version_skip_to by done. cbn [find_version].
  assert (match_version (String "v" (version_string v +:+ post)) = Some (version_string v)) as ->; [|done].
  unfold match_version. cbn [GoIptables.after]. rewrite decide_True by done. cbn [mbind option_bind].
  unfold version_string. rewrite scan_join by done. cbn [mbind option_bind].
  assert (∃ i, Strings.byteIndex (Version.join_components (version_list v)) "." = Some i) as [i ->]; [|done].
  unfold version_list. rewrite join_cons. apply Forall_cons in Hv as [Hv1 _].
  rewrite StringFacts.byteIndex_app_char; [by eexists|]. apply StringFacts.Itoa_no_char; [lia|reflexivity].
Qed.

(** ** The contract *)

(** A rule specification starts with an option or a negation. *)
Definition ipt_rule (r : rule) : bool :=
  match r with
  | a :: _ => Strings.HasPrefix a "-" || Strings.HasPrefix a "!"
  | [] => false
  end.

Fixpoint remove_first (r : rule) (l : list rule) : list rule :=
  match l with
  | [] => []
  | r' :: l => if decide (r' = r) then l else r' :: remove_first r l
  end.
Definition place (p : RulePosition) (r : rule) (l : list rule) : list rule :=
  match p with Prepend => r :: l | Append => l ++ [r] end.

Lemma remove_first_place p r l : r ∉ l → remove_first r (place p r l) = l.
Proof.
  destruct p; simpl; [by rewrite decide_True|]. induction l as [|r' l IH]; simpl; [by rewrite decide_True|].
  intros [Hne Hl]%not_elem_of_cons. rewrite decide_False by done. by rewrite IH.
Qed.
Lemma elem_of_place p r l : r ∈ place p r l.
Proof. destruct p; simpl; [by left|]. apply elem_of_app. right. by left. Qed.

Definition supported_wait (v : Z * Z * Z) (w : list string) : Prop :=
  w = [] ∨ w = ["-w"] ∧ at_least v (1, 4, 20)%Z = true ∨ w = ["-w2"] ∧ at_least v (1, 4, 22)%Z = true.

(** The answers of the commands. *)
Definition succeeds (o : string * option exec_error) : Prop := o.2 = None.
Definition refuses (o : string * option exec_error) : Prop := ∃ msg, o.2 = Some (ExitError true 1 msg).

Definition ipt_command (p : Protocol) : string := match p with ProtocolIpv4 => cmdIPTables | ProtocolIpv6 => cmdIp6tables end.
Abbreviation chains := (gmap (string * string * string) (list rule)) (only parsing).

Class IptablesContract (N : Type) `{Iptables.Host N} := {
  ih_rep : N → Prop;
  ih_rules : N → chains;                             (* command, table and chain *)
  ih_version : Z * Z * Z;
  ih_banner : string;
  ih_banner_ok : version_range ih_version ∧ find_version ih_banner = Some (version_string ih_version);
  ih_Version n : ih_rep n → wp (Command cmdIPTables ["--version"] "") (λ o n', n' = n ∧ o = (ih_banner, None)) n;
  ih_RestoreVersion n : ih_rep n → wp (Command cmdIPTablesRestore ["--version"] "") (λ _ n', n' = n) n;
  ih_Check n p table chain r l w :
    ih_rep n → at_least ih_version (1, 4, 11)%Z = true → supported_wait ih_version w → ipt_rule r = true →
    ih_rules n !! (ipt_command p, table, chain) = Some l →
    wp (Command (ipt_command p) ((w ++ ["-C"]) ++ makeFullArgs table chain r) "")
      (λ o n', n' = n ∧ if decide (r ∈ l) then succeeds o else refuses o) n;
  ih_Add n p pos table chain r l w :
    ih_rep n → supported_wait ih_version w → ipt_rule r = true →
    ih_rules n !! (ipt_command p, table, chain) = Some l →
    wp (Command (ipt_command p) ((w ++ [operation pos]) ++ makeFullArgs table chain r) "")
      (λ o n', succeeds o ∧ ih_rep n' ∧ ih_rules n' = <[(ipt_command p, table, chain) := place pos r l]> (ih_rules n)) n;
  ih_Delete n p table chain r l w :
    ih_rep n → supported_wait ih_version w → ipt_rule r = true → r ∈ l →
    ih_rules n !! (ipt_command p, table, chain) = Some l →
    wp (Command (ipt_command p) ((w ++ ["-D"]) ++ makeFullArgs table chain r) "")
      (λ o n', succeeds o ∧ ih_rep n' ∧ ih_rules n' = <[(ipt_command p, table, chain) := remove_first r l]> (ih_rules n)) n;
  ih_NewChain n p table chain w :
    ih_rep n → supported_wait ih_version w →
    wp (Command (ipt_command p) ((w ++ ["-N"]) ++ makeFullArgs table chain []) "")
      (λ o n', ih_rep n' ∧
         match ih_rules n !! (ipt_command p, table, chain) with
         | Some _ => refuses o ∧ ih_rules n' = ih_rules n
         | None => succeeds o ∧ ih_rules n' = <[(ipt_command p, table, chain) := []]> (ih_rules n)
         end) n;
  ih_Flush n p table chain l w :
    ih_rep n → supported_wait ih_version w → ih_rules n !! (ipt_command p, table, chain) = Some l →
    wp (Command (ipt_command p) ((w ++ ["-F"]) ++ makeFullArgs table chain []) "")
      (λ o n', succeeds o ∧ ih_rep n' ∧ ih_rules n' = <[(ipt_command p, table, chain) := []]> (ih_rules n)) n;
  ih_DeleteChain n p table chain w :
    ih_rep n → supported_wait ih_version w → ih_rules n !! (ipt_command p, table, chain) = Some [] →
    wp (Command (ipt_command p) ((w ++ ["-X"]) ++ makeFullArgs table chain []) "")
      (λ o n', succeeds o ∧ ih_rep n' ∧ ih_rules n' = delete (ipt_command p, table, chain) (ih_rules n)) n;
}.

(** ** The operations under the contract *)
Section facts.
Context {N : Type} `{HN : Iptables.Host N} `{IC : !IptablesContract N}.

(** A handle made for the installed version. *)
Record handle_for (p : Protocol) (h : runner N) : Prop := {
  hf_protocol : protocol h = p;
  hf_check : hasCheck h = at_least ih_version (1, 4, 11)%Z;
  hf_wait : supported_wait ih_version (waitFlag h);
}.

Lemma handle_command p h : handle_for p h → iptablesCommand h = ipt_command p.
Proof. intros [Hp _ _]. unfold iptablesCommand, IsIpv6. rewrite Hp. by destruct p. Qed.

Lemma waitFlag_supported : supported_wait ih_version (getIPTablesWaitFlag (version_string ih_version)).
Proof.
  rewrite waitFlag_version by apply ih_banner_ok. unfold supported_wait. destruct (at_least ih_version (1, 4, 22)%Z) eqn:E2.
  - by right; right.
  - destruct (at_least ih_version (1, 4, 20)%Z) eqn:E1; [by right; left|by left].
Qed.

Lemma newInternal_handle `{DB : Dbus.Interface N} p lock ch n :
  ih_rep n → (∀ n, ih_rep n → wp Dbus.SystemBus (λ b n', (∃ err, b = Err err) ∧ n' = n) n) →
  wp (newInternal p lock ch) (λ h n', handle_for p h.1 ∧ n' = n) n.
Proof.
  intros Hrep Hbus. unfold newInternal. apply wp_bind. unfold getIPTablesVersionString. apply wp_bind.
  eapply wp_mono; [by apply ih_Version|]. intros o n' [-> ->]. apply wp_ret. unfold version_of. cbn [fst snd].
  destruct ih_banner_ok as [Hrange ->]. apply wp_bind. unfold getIPTablesRestoreWaitFlag. apply wp_bind.
  unfold getIPTablesRestoreVersionString. apply wp_bind. eapply wp_mono; [by apply ih_RestoreVersion|].
  intros o n' ->. apply wp_ret, wp_ret. unfold connectToFirewallD. apply wp_bind.
  eapply wp_mono; [by apply Hbus|]. intros b n' [[err ->] ->]. apply wp_ret. split; [|done].
  constructor; [done|by apply hasCheck_version|apply waitFlag_supported].
Qed.

(** One step of a method: the command, then a pure continuation. *)
Lemma run_step p h op args (P : string * option exec_error → N → Prop) {A} (f : string * option exec_error → M N A) Q n :
  handle_for p h →
  wp (Command (ipt_command p) ((waitFlag h ++ [op]) ++ args) "") P n →
  (∀ o n', P o n' → wp (f o) Q n') → wp (run h op args ≫= f) Q n.
Proof.
  intros Hh HP Hf. apply wp_bind. unfold run. rewrite (handle_command p) by done. by eapply wp_mono.
Qed.

Lemma refuses_None o : refuses o → ∃ e, o.2 = Some e ∧ refused e = true.
Proof. intros [msg ->]. by eexists. Qed.

Lemma checkRule_spec p h table chain r l n :
  handle_for p h → at_least ih_version (1, 4, 11)%Z = true → ih_rep n → ipt_rule r = true →
  ih_rules n !! (ipt_command p, table, chain) = Some l →
  wp (checkRule h table chain r) (λ res n', res = OK (bool_decide (r ∈ l)) ∧ n' = n) n.
Proof.
  intros Hh Hv Hrep Hr Hl. unfold checkRule. rewrite (hf_check p) by done. rewrite Hv.
  unfold checkRuleUsingCheck. eapply run_step; [done|by apply ih_Check with (l := l); eauto using hf_wait|].
  intros [out err] n' [-> H]. apply wp_ret. case_decide.
  - rewrite bool_decide_true by done. unfold succeeds in H. simpl in H. by rewrite H.
  - rewrite bool_decide_false by done. apply refuses_None in H as (e & He & Hre). simpl in He.
    rewrite He. by rewrite Hre.
Qed.

Lemma EnsureRule_spec p h pos table chain r l n :
  handle_for p h → at_least ih_version (1, 4, 11)%Z = true → ih_rep n → ipt_rule r = true →
  ih_rules n !! (ipt_command p, table, chain) = Some l →
  wp (EnsureRule h pos table chain r) (λ res n', res = OK (bool_decide (r ∈ l)) ∧ ih_rep n' ∧
    ih_rules n' = <[(ipt_command p, table, chain) := if decide (r ∈ l) then l else place pos r l]> (ih_rules n)) n.
Proof.
  intros Hh Hv Hrep Hr Hl. unfold EnsureRule. apply wp_bind. eapply wp_mono; [by eapply checkRule_spec|].
  intros res n' [-> ->]. case_bool_decide as Hin.
  - apply wp_ret. rewrite decide_True by done. by rewrite insert_id.
  - rewrite decide_False by done. eapply run_step; [done|by apply ih_Add; eauto using hf_wait|].
    intros [out err] n' (Hs & Hrep' & Hrules). apply wp_ret. unfold succeeds in Hs. simpl in Hs. by rewrite Hs.
Qed.

Lemma DeleteRule_spec p h table chain r l n :
  handle_for p h → at_least ih_version (1, 4, 11)%Z = true → ih_rep n → ipt_rule r = true →
  ih_rules n !! (ipt_command p, table, chain) = Some l →
  wp (DeleteRule h table chain r) (λ err n', err = None ∧ ih_rep n' ∧
    ih_rules n' = <[(ipt_command p, table, chain) := remove_first r l]> (ih_rules n)) n.
Proof.
  intros Hh Hv Hrep Hr Hl. unfold DeleteRule. apply wp_bind. eapply wp_mono; [by eapply checkRule_spec|].
  intros res n' [-> ->]. case_bool_decide as Hin.
  - eapply run_step; [done|by apply ih_Delete with (l := l); eauto using hf_wait|].
    intros [out err] n' (Hs & Hrep' & Hrules). apply wp_ret. unfold succeeds in Hs. simpl in Hs. by rewrite Hs.
  - apply wp_ret. split_and!; [done..|]. rewrite insert_id; [done|]. rewrite Hl. f_equal.
    clear -Hin. induction l as [|r' l IH]; [done|]. simpl. apply not_elem_of_cons in Hin as [Hne Hin].
    rewrite decide_False by done. by rewrite <-IH.
Qed.

Lemma EnsureChain_spec p h table chain n :
  handle_for p h → ih_rep n →
  wp (EnsureChain h table chain) (λ res n', ih_rep n' ∧
    match ih_rules n !! (ipt_command p, table, chain) with
    | Some _ => res = OK true ∧ ih_rules n' = ih_rules n
    | None => res = OK false ∧ ih_rules n' = <[(ipt_command p, table, chain) := []]> (ih_rules n)
    end) n.
Proof.
  intros Hh Hrep. unfold EnsureChain. eapply run_step; [done|by apply ih_NewChain; eauto using hf_wait|].
  intros [out err] n' [Hrep' H]. apply wp_ret. split; [done|].
  destruct (ih_rules n !! _); destruct H as [H Hrules].
  - apply refuses_None in H as (e & He & Hre). simpl in He. rewrite He. by rewrite Hre.
  - unfold succeeds in H. simpl in H. by rewrite H.
Qed.

Lemma FlushChain_spec p h table chain l n :
  handle_for p h → ih_rep n → ih_rules n !! (ipt_command p, table, chain) = Some l →
  wp (FlushChain h table chain) (λ err n', err = None ∧ ih_rep n' ∧
    ih_rules n' = <[(ipt_command p, table, chain) := []]> (ih_rules n)) n.
Proof.
  intros Hh Hrep Hl. unfold FlushChain. eapply run_step; [done|by eapply ih_Flush; eauto using hf_wait|].
  intros [out err] n' (Hs & Hrep' & Hrules). apply wp_ret. unfold succeeds in Hs. simpl in Hs. by rewrite Hs.
Qed.

Lemma DeleteChain_spec p h table chain n :
  handle_for p h → ih_rep n → ih_rules n !! (ipt_command p, table, chain) = Some [] →
  wp (DeleteChain h table chain) (λ err n', err = None ∧ ih_rep n' ∧
    ih_rules n' = delete (ipt_command p, table, chain) (ih_rules n)) n.
Proof.
  intros Hh Hrep Hl. unfold DeleteChain. eapply run_step; [done|by apply ih_DeleteChain; eauto using hf_wait|].
  intros [out err] n' (Hs & Hrep' & Hrules). apply wp_ret. unfold succeeds in Hs. simpl in Hs. by rewrite Hs.
Qed.
End facts.
