(* ===== verification/IptablesClaims.v ===== *)
(** * Properties of the iptables runner: rules, chains and reloads

    A reference host ([RefHost]) on which the contract holds, with the fake
    D-Bus beside the rules, and the properties over every host that meets the
    contract. *)

From S2P Require Import Prelude GoNet Host Strconv GoIptables IptablesFacts Version VersionClaims Dbus Iptables IptablesSpec.
From Stdlib Require Import Ascii.
Import Iptables.

(** ** A reference host *)
Module RefHost.
Record RefIpt := { ri_rules : chains; ri_reloads : nat }.
Abbreviation N := (Dbus.Fake RefIpt).

Section ref.
Variable v : Z * Z * Z.                 (* the version installed *)

Definition set_rules (f : chains → chains) : M N unit :=
  modify (λ w, {| Dbus.conns := Dbus.conns w; Dbus.chans := Dbus.chans w;
                  Dbus.env := {| ri_rules := f (ri_rules (Dbus.env w)); ri_reloads := ri_reloads (Dbus.env w) |} |}).

(** iptables-save, of the IPv4 rules. *)
Definition nl : string := String newline "".
Definition save_rule (chain : string) (r : rule) : string := String.concat " " (["-A"; chain] ++ r) +:+ nl.
Definition save_text (m : chains) (table : string) : string :=
  let mine := filter (λ e, e.1.1.1 = cmdIPTables ∧ e.1.1.2 = table) (map_to_list m) in
  "*" +:+ table +:+ nl +:+
  String.concat "" ((λ e, ":" +:+ e.1.2 +:+ " - [0:0]" +:+ nl) <$> mine) +:+
  String.concat "" (mine ≫= λ e, save_rule e.1.2 <$> e.2) +:+ "COMMIT" +:+ nl.

Definition ok : M N (string * option exec_error) := mret ("", None).
Definition refuse (msg : string) : M N (string * option exec_error) := mret (msg, Some (ExitError true 1 "exit status 1")).
Definition usage : M N (string * option exec_error) :=
  mret ("Try `iptables -h' for more information.", Some (ExitError true 2 "exit status 2")).

Definition operate (cmd op table chain : string) (r : rule) : M N (string * option exec_error) :=
  w ← get;
  let k := (cmd, table, chain) in
  if decide (op = "-N") then
    match ri_rules (Dbus.env w) !! k with
    | Some _ => refuse "iptables: Chain already exists."
    | None => set_rules (insert k []) ;; ok
    end
  else
    match ri_rules (Dbus.env w) !! k with
    | None => refuse "iptables: No chain/target/match by that name."
    | Some l =>
        if decide (op = "-C") then
          if at_least v (1, 4, 11)%Z then (if decide (r ∈ l) then ok else refuse "iptables: Bad rule") else usage
        else if decide (op = "-A") then set_rules (insert k (place Append r l)) ;; ok
        else if decide (op = "-I") then set_rules (insert k (place Prepend r l)) ;; ok
        else if decide (op = "-D") then
          if decide (r ∈ l) then set_rules (insert k (remove_first r l)) ;; ok else refuse "iptables: Bad rule"
        else if decide (op = "-F") then set_rules (insert k []) ;; ok
        else if decide (op = "-X") then
          if decide (l = []) then set_rules (delete k) ;; ok else refuse "iptables: Directory not empty"
        else usage
    end.

Definition without_wait (args : list string) : option (list string) :=
  match args with
  | a :: rest =>
      if decide (a = "-w") then if at_least v (1, 4, 20)%Z then Some rest else None
      else if decide (a = "-w2") then if at_least v (1, 4, 22)%Z then Some rest else None
      else Some args
  | [] => Some args
  end.

Definition ref_command (name : string) (args : list string) (stdin : string) : M N (string * option exec_error) :=
  if decide (name = cmdIPTablesRestore) then usage
  else if decide (name = cmdIPTablesSave) then
    w ← get; mret (save_text (ri_rules (Dbus.env w)) (default "" (args !! 1%nat)), None)
  else if decide (args = ["--version"]) then mret (banner "iptables " v "", None)
  else
    match without_wait args with
    | Some (op :: chain :: "-t" :: table :: r) => operate name op table chain r
    | _ => usage
    end.

Definition ref_Host : Iptables.Host N := {|
  Command := ref_command;
  OpenFile _ := mret (OK 3%Z);
  Flock _ := mret None;
  ListenUnix _ := mret (OK 4%Z);
  CloseFile _ := mret None;
  poll_ticks _ _ := mret 9%nat;
|}.
#[local] Existing Instance ref_Host.

Lemma ref_command_op p w op table chain r (Q : string * option exec_error → N → Prop) n :
  supported_wait v w → op ∉ ["--version"; "-w"; "-w2"] →
  wp (operate (ipt_command p) op table chain r) Q n →
  wp (ref_command (ipt_command p) ((w ++ [op]) ++ makeFullArgs table chain r) "") Q n.
Proof.
  intros Hw Hop Hq. unfold ref_command. do 2 (rewrite decide_False by (by destruct p)).
  assert ((w ++ [op]) ++ makeFullArgs table chain r ≠ ["--version"]) as Hne.
  { intros E. apply (f_equal length) in E. rewrite !length_app in E. simpl in E. lia. }
  rewrite decide_False by done.
  assert (without_wait ((w ++ [op]) ++ makeFullArgs table chain r) = Some (op :: chain :: "-t" :: table :: r)) as ->; [|done].
  rewrite !not_elem_of_cons in Hop. destruct Hop as (_ & H1 & H2 & _).
  unfold without_wait. destruct Hw as [->|[[-> Hv]|[-> Hv]]]; cbn [app].
  - by rewrite !decide_False.
  - by rewrite decide_True, Hv.
  - by rewrite decide_False, decide_True, Hv.
Qed.

(** The branch of a known operation on an existing chain. *)
Ltac pick_op Hl :=
  repeat match goal with
  | |- wp (if decide (?a = ?a) then _ else _) _ _ => rewrite (decide_True (P := a = a)) by done
  | |- wp (if decide (?a = ?b) then _ else _) _ _ => rewrite (decide_False (P := a = b)) by done
  | |- wp (match _ !! _ with _ => _ end) _ _ => rewrite Hl
  end.

Definition ref_Contract : version_range v → IptablesContract N.
Proof.
  intros Hv.
  refine {| ih_rep _ := True; ih_rules n := ri_rules (Dbus.env n); ih_version := v; ih_banner := banner "iptables " v "" |}.
  - split; [done|]. by apply find_version_banner.
  - done.
  - done.
  - intros n p table chain r l w _ Hc Hw Hr Hl. apply ref_command_op; [done|set_solver|].
    unfold operate. apply wp_bind, wp_get. pick_op Hl. rewrite Hc. case_decide; apply wp_ret; (split; [done|]); by eexists.
  - intros n p pos table chain r l w _ Hw Hr Hl. apply ref_command_op; [done|by destruct pos; set_solver|].
    unfold operate. apply wp_bind, wp_get. destruct pos; pick_op Hl; by apply wp_bind, wp_modify, wp_ret.
  - intros n p table chain r l w _ Hw Hr Hin Hl. apply ref_command_op; [done|set_solver|].
    unfold operate. apply wp_bind, wp_get. pick_op Hl. rewrite decide_True by done. by apply wp_bind, wp_modify, wp_ret.
  - intros n p table chain w _ Hw. apply ref_command_op; [done|set_solver|].
    unfold operate. apply wp_bind, wp_get. rewrite (decide_True (P := "-N" = "-N")) by done.
    destruct (ri_rules _ !! _) as [l|].
    + apply wp_ret. split_and!; [done|by eexists|done].
    + by apply wp_bind, wp_modify, wp_ret.
  - intros n p table chain l w _ Hw Hl. apply ref_command_op; [done|set_solver|].
    unfold operate. apply wp_bind, wp_get. pick_op Hl. by apply wp_bind, wp_modify, wp_ret.
  - intros n p table chain w _ Hw Hl. apply ref_command_op; [done|set_solver|].
    unfold operate. apply wp_bind, wp_get. pick_op Hl. by apply wp_bind, wp_modify, wp_ret.
Defined.

(** Without and with a bus; what the handlers of its objects answer. *)
Definition no_store (ret : list Dbus.value) (kinds : list string) : result (list Dbus.value) := OK ret.
Definition ref_bus (bus : option nat) (handlers : nat → string → list Dbus.value → M N (list Dbus.value * error))
    : Dbus.Interface N := Dbus.NewFake bus None handlers no_store.
End ref.
End RefHost.

(** ** Rules and chains *)
Section claims.
Context {N : Type} `{HN : Iptables.Host N} `{IC : !IptablesContract N} `{DB : Dbus.Interface N}.

(** C19: On a host whose iptables has the check command and where no D-Bus
    answers, the handle that [New] makes gives only options that version has,
    and installs a rule once: [EnsureRule] says whether the rule was there and
    puts it, if it was not, at the asked end of the chain; called again it
    says yes and changes nothing; [DeleteRule] then removes one occurrence,
    which undoes the insertion. *)
Theorem rule_ensured_once (p : Protocol) (pos : RulePosition) (table chain : string) (r l : list _) (ch : nat) (n : N) :
  (∀ n, ih_rep n → wp Dbus.SystemBus (λ b n', (∃ err, b = Err err) ∧ n' = n) n) →
  at_least ih_version (1, 4, 11)%Z = true → ih_rep n → ipt_rule r = true →
  ih_rules n !! (ipt_command p, table, chain) = Some l →
  ∃ h n1 n2 n3, New p ch n = (Ret h, n) ∧
    EnsureRule h.1 pos table chain r n = (Ret (OK (bool_decide (r ∈ l))), n1) ∧
    ih_rules n1 = <[(ipt_command p, table, chain) := if decide (r ∈ l) then l else place pos r l]> (ih_rules n) ∧
    EnsureRule h.1 pos table chain r n1 = (Ret (OK true), n2) ∧ ih_rules n2 = ih_rules n1 ∧
    DeleteRule h.1 table chain r n2 = (Ret None, n3) ∧
    ih_rules n3 = <[(ipt_command p, table, chain) := if decide (r ∈ l) then remove_first r l else l]> (ih_rules n).
Proof.
  intros Hbus Hv Hrep Hr Hl. set (k := (ipt_command p, table, chain)) in *.
  pose proof (newInternal_handle p "" ch n Hrep Hbus) as H0. apply wp_run in H0 as (h & n0 & Hnew & Hh & ->).
  pose proof (EnsureRule_spec p h.1 pos table chain r l n Hh Hv Hrep Hr Hl) as H1.
  apply wp_run in H1 as (? & n1 & Hrun1 & -> & Hrep1 & Hr1).
  set (l1 := if decide (r ∈ l) then l else place pos r l) in *.
  assert (ih_rules n1 !! k = Some l1) as Hl1 by (rewrite Hr1; apply lookup_insert_eq).
  assert (r ∈ l1) as Hin1 by (unfold l1; case_decide; [done|apply elem_of_place]).
  pose proof (EnsureRule_spec p h.1 pos table chain r l1 n1 Hh Hv Hrep1 Hr Hl1) as H2.
  apply wp_run in H2 as (? & n2 & Hrun2 & -> & Hrep2 & Hr2).
  rewrite decide_True in Hr2 by done. rewrite bool_decide_true in Hrun2 by done. rewrite insert_id in Hr2 by done.
  assert (ih_rules n2 !! k = Some l1) as Hl2 by (by rewrite Hr2).
  pose proof (DeleteRule_spec p h.1 table chain r l1 n2 Hh Hv Hrep2 Hr Hl2) as H3.
  apply wp_run in H3 as (? & n3 & Hrun3 & -> & Hrep3 & Hr3).
  exists h, n1, n2, n3. split_and!; [done..|]. rewrite Hr3, Hr2, Hr1. fold k. rewrite insert_insert_eq. f_equal.
  unfold l1. case_decide; [done|]. by apply remove_first_place.
Qed.

(** C38: A chain of one's own comes and goes without a trace: where the chain
    does not exist, [EnsureChain] makes it (and reports it as existing the
    second time), any rules put in it by [EnsureRule] are there once, and
    [FlushChain] and [DeleteChain] leave every table as it was before. *)
Theorem chain_roundtrip (p : Protocol) (table chain : string) (rs : list (RulePosition * rule)) (h : runner N) (n : N) :
  handle_for p h → at_least ih_version (1, 4, 11)%Z = true → ih_rep n → Forall (λ r, ipt_rule r.2 = true) rs →
  ih_rules n !! (ipt_command p, table, chain) = None →
  wp (e1 ← EnsureChain h table chain; e2 ← EnsureChain h table chain;
      for_each rs (λ r, EnsureRule h r.1 table chain r.2 ;; mret tt);;
      w ← get;
      e3 ← FlushChain h table chain; e4 ← DeleteChain h table chain; mret (e1, e2, e3, e4, w))
     (λ o n', let '(e1, e2, e3, e4, w) := o in
        e1 = OK false ∧ e2 = OK true ∧ e3 = None ∧ e4 = None ∧
        (∃ l, ih_rules w !! (ipt_command p, table, chain) = Some l ∧ NoDup l ∧ ∀ r, r ∈ l ↔ r ∈ rs.*2) ∧
        ih_rules n' = ih_rules n) n.
Proof.
  intros Hh Hv Hrep Hrs Hnone. set (k := (ipt_command p, table, chain)) in *.
  apply wp_bind. eapply wp_mono; [by eapply EnsureChain_spec|]. fold k. rewrite Hnone. intros e1 n1 (Hrep1 & -> & Hr1).
  apply wp_bind. eapply wp_mono; [by eapply EnsureChain_spec|]. fold k. rewrite Hr1, lookup_insert_eq.
  intros e2 n2 (Hrep2 & -> & Hr2). apply wp_bind.
  eapply wp_mono with (Q := λ _ n', ih_rep n' ∧ ∃ l, ih_rules n' = <[k := l]> (ih_rules n) ∧ NoDup l ∧ ∀ r, r ∈ l ↔ r ∈ rs.*2).
  { apply (wp_for_each (λ done n', ih_rep n' ∧ ∃ l, ih_rules n' = <[k := l]> (ih_rules n) ∧ NoDup l ∧ ∀ r, r ∈ l ↔ r ∈ done.*2)).
    - split; [done|]. exists []. by split_and!; [|constructor|].
    - intros dn r rest n3 -> (Hrep3 & l & Hr3 & Hnd & Hl). apply wp_bind.
      apply Forall_app in Hrs as [_ Hrs]. apply Forall_cons in Hrs as [Hr _].
      assert (ih_rules n3 !! k = Some l) as Hl3 by (rewrite Hr3; apply lookup_insert_eq).
      eapply wp_mono; [by apply EnsureRule_spec with (l := l)|]. intros o n4 (-> & Hrep4 & Hr4). apply wp_ret. split; [done|].
      eexists. fold k in Hr4. rewrite Hr4, Hr3, insert_insert_eq. split; [done|]. rewrite fmap_app. simpl.
      destruct (decide (r.2 ∈ l)) as [Hin|Hin].
      + split; [done|]. intros r'. rewrite elem_of_app, list_elem_of_singleton, <-Hl. naive_solver.
      + split.
        * destruct r.1; simpl; [by constructor|]. apply NoDup_app. split_and!; [done| |apply NoDup_singleton].
          intros x Hx ->%list_elem_of_singleton. done.
        * intros r'. rewrite elem_of_app, list_elem_of_singleton, <-Hl.
          destruct r.1; simpl; rewrite ?elem_of_cons, ?elem_of_app, ?list_elem_of_singleton; naive_solver.
    - done. }
  intros [] n3 (Hrep3 & l & Hr3 & Hnd & Hl). apply wp_bind, wp_get. apply wp_bind.
  eapply wp_mono; [eapply FlushChain_spec with (l := l); [done..|]; fold k; rewrite Hr3; apply lookup_insert_eq|].
  intros e3 n4 (-> & Hrep4 & Hr4). fold k in Hr4. rewrite Hr3, insert_insert_eq in Hr4. apply wp_bind.
  eapply wp_mono; [eapply DeleteChain_spec; [done..|]; fold k; rewrite Hr4; apply lookup_insert_eq|].
  intros e4 n5 (-> & Hrep5 & Hr5). apply wp_ret. fold k in Hr5. rewrite Hr4, delete_insert_eq, delete_id in Hr5 by done.
  split_and!; [done..| |done]. exists l. rewrite Hr3, lookup_insert_eq. done.
Qed.
End claims.

(** ** Reloads, on the fake D-Bus *)

(** What the bus tells: that FirewallD reloaded its rules, that a name has a new
    owner, or something else. *)
Inductive emission :=
| Reloaded
| NameOwnerChanged (name old_owner new_owner : string)
| OtherSignal (iface member : string) (args : list Dbus.value).

Definition other_name (e : emission) : Prop :=
  match e with
  | OtherSignal iface member _ =>
      iface +:+ "." +:+ member ≠ "org.freedesktop.DBus.NameOwnerChanged" ∧
      iface +:+ "." +:+ member ≠ firewalldInterface +:+ ".Reloaded"
  | _ => True
  end.

(** Whether the rules have to be made again. *)
Definition rules_lost (e : emission) : bool :=
  match e with
  | Reloaded => true
  | NameOwnerChanged name _ new_owner => bool_decide (name = firewalldName ∧ new_owner ≠ "")
  | OtherSignal _ _ _ => false
  end.
Definition times_lost (es : list emission) : nat := length (filter (λ e, rules_lost e = true) es).

Section reloads.
Context {E : Type}.
Variable handlers : nat → string → list Dbus.value → M (Dbus.Fake E) (list Dbus.value * error).
Variable store : list Dbus.value → list string → result (list Dbus.value).
#[local] Instance fake_bus : Dbus.Interface (Dbus.Fake E) := Dbus.NewFake (Some 0%nat) None handlers store.

(** Calls answer, and leave the fake and the variables alone. *)
Definition quiet : Prop := ∀ i m args w, wp (handlers i m args) (λ _ w', w' = w) w.

Definition emit_on (e : emission) : M (Dbus.Fake E) unit :=
  match e with
  | Reloaded => Dbus.EmitSignal 0 firewalldName firewalldPath firewalldInterface "Reloaded" []
  | NameOwnerChanged name old new =>
      Dbus.EmitSignal 0 "org.freedesktop.DBus" "/org/freedesktop/DBus" "org.freedesktop.DBus" "NameOwnerChanged"
        [Dbus.VString name; Dbus.VString old; Dbus.VString new]
  | OtherSignal iface member args => Dbus.EmitSignal 0 "" "/" iface member args
  end.
Definition signal_of (e : emission) : Dbus.Signal :=
  match e with
  | Reloaded => {| Dbus.Sender := firewalldName; Dbus.Path := firewalldPath;
                   Dbus.Name := firewalldInterface +:+ "." +:+ "Reloaded"; Dbus.Body := [] |}
  | NameOwnerChanged name old new =>
      {| Dbus.Sender := "org.freedesktop.DBus"; Dbus.Path := "/org/freedesktop/DBus";
         Dbus.Name := "org.freedesktop.DBus" +:+ "." +:+ "NameOwnerChanged";
         Dbus.Body := [Dbus.VString name; Dbus.VString old; Dbus.VString new] |}
  | OtherSignal iface member args =>
      {| Dbus.Sender := ""; Dbus.Path := "/"; Dbus.Name := iface +:+ "." +:+ member; Dbus.Body := args |}
  end.

(** The handler's goroutine takes everything there is on its channel. *)
Definition receive_all (ch : nat) : M (Dbus.Fake E) (list Dbus.Signal) :=
  w ← get;
  let q := match Dbus.chans w !! ch with Some (_, q) => q | None => [] end in
  modify (λ w, {| Dbus.conns := Dbus.conns w; Dbus.chans := alter (λ c, (c.1, [])) ch (Dbus.chans w);
                  Dbus.env := Dbus.env w |}) ;;
  mret q.

(** A reload function that works on the variables. *)
Definition on_env (g : E → E) : M (Dbus.Fake E) unit :=
  modify (λ w, {| Dbus.conns := Dbus.conns w; Dbus.chans := Dbus.chans w; Dbus.env := g (Dbus.env w) |}).
Definition reload_all (gs : list (E → E)) (e : E) : E := fold_left (λ e g, g e) gs e.

Lemma reload_spec (h : runner (Dbus.Fake E)) gs w :
  reloadFuncs h = on_env <$> gs →
  wp (reload h) (λ _ w', w' = {| Dbus.conns := Dbus.conns w; Dbus.chans := Dbus.chans w;
                                 Dbus.env := reload_all gs (Dbus.env w) |}) w.
Proof.
  intros Hg. unfold reload. rewrite Hg. clear Hg. revert w. induction gs as [|g gs IH]; intros w; simpl.
  - apply wp_ret. by destruct w.
  - apply wp_bind, wp_modify. eapply wp_mono; [apply IH|]. by intros [] w' ->.
Qed.

Lemma handle_signal_spec (h : runner (Dbus.Fake E)) gs (f : nat) (e : emission) w :
  quiet → reloadFuncs h = on_env <$> gs → other_name e →
  wp (handle_signal h (Some f : Dbus.Object (Dbus.Fake E)) (signal_of e))
     (λ _ w', w' = {| Dbus.conns := Dbus.conns w; Dbus.chans := Dbus.chans w;
                      Dbus.env := if rules_lost e then reload_all gs (Dbus.env w) else Dbus.env w |}) w.
Proof.
  intros Hq Hg Hother. unfold handle_signal. destruct e as [|name old new|iface member args]; cbn [signal_of Dbus.Name rules_lost].
  - rewrite decide_False, decide_True by done. by apply reload_spec.
  - rewrite decide_True by done. apply wp_bind. unfold body_string. cbn [Dbus.Body lookup list_lookup]. apply wp_ret.
    apply wp_bind, wp_ret. destruct (decide (name = firewalldName)) as [->|Hname].
    + destruct (decide (new = "")) as [->|Hnew].
      * rewrite bool_decide_true, bool_decide_true by done. rewrite bool_decide_false by (by intros []).
        apply wp_ret. by destruct w.
      * rewrite bool_decide_true, bool_decide_false, bool_decide_true by done. cbn [negb orb].
        apply wp_bind. eapply wp_mono; [apply Hq|]. intros _ w' ->. by apply reload_spec.
    + rewrite bool_decide_false by done. rewrite (bool_decide_false (name = firewalldName ∧ new ≠ "")) by (by intros []).
      apply wp_ret. by destruct w.
  - destruct Hother as [H1 H2]. rewrite !decide_False by done. apply wp_ret. by destruct w.
Qed.

Lemma signal_loop_spec (h : runner (Dbus.Fake E)) gs (f ch : nat) (es : list emission) rest Q w :
  quiet → reloadFuncs h = on_env <$> gs → Forall other_name es →
  (∀ w', w' = {| Dbus.conns := Dbus.conns w; Dbus.chans := Dbus.chans w;
                 Dbus.env := Nat.iter (times_lost es) (reload_all gs) (Dbus.env w) |} →
     wp (signal_loop h (0%nat : Dbus.Connection (Dbus.Fake E)) (Some f : Dbus.Object (Dbus.Fake E)) ch rest) Q w') →
  wp (signal_loop h (0%nat : Dbus.Connection (Dbus.Fake E)) (Some f : Dbus.Object (Dbus.Fake E)) ch
       ((Some ∘ signal_of <$> es) ++ rest)) Q w.
Proof.
  intros Hq Hg. revert w. induction es as [|e es IH]; intros w Hes HQ; [apply HQ; by destruct w|].
  apply Forall_cons in Hes as [He Hes]. cbn [fmap list_fmap app signal_loop compose]. apply wp_bind.
  eapply wp_mono; [by apply handle_signal_spec|]. intros [] w1 ->. apply IH; [done|]. intros w' ->. apply HQ.
  cbn [Dbus.conns Dbus.chans Dbus.env]. f_equal. unfold times_lost. rewrite filter_cons. destruct (rules_lost e).
  - rewrite decide_True by done. cbn [length]. by rewrite Nat.iter_succ_r.
  - by rewrite decide_False.
Qed.

(** The registered channel gets every signal while there is room. *)
Definition fake_with (c : Dbus.FakeConnection) (ch : nat) (q : list Dbus.Signal) (w : Dbus.Fake E) : Dbus.Fake E :=
  {| Dbus.conns := <[0%nat := c]> (Dbus.conns w); Dbus.chans := <[ch := (10%nat, q)]> (Dbus.chans w); Dbus.env := Dbus.env w |}.

Lemma emit_spec c ch q e w :
  Dbus.signalHandlers c = [ch] → (length q < 10)%nat →
  wp (emit_on e) (λ _ w', w' = fake_with c ch (q ++ [signal_of e]) w) (fake_with c ch q w).
Proof.
  intros Hc Hq.
  assert (∀ name path iface member args,
    wp (Dbus.EmitSignal 0 name path iface member args)
       (λ _ w', w' = fake_with c ch (q ++ [{| Dbus.Sender := name; Dbus.Path := path; Dbus.Name := iface +:+ "." +:+ member;
                                              Dbus.Body := args |}]) w) (fake_with c ch q w)) as H.
  { intros name path iface member args. unfold Dbus.EmitSignal, Dbus.conn_at. apply wp_bind, wp_bind, wp_get.
    unfold fake_with at 1. cbn [Dbus.conns]. rewrite lookup_insert_eq. apply wp_ret. rewrite Hc. cbn [for_each].
    apply wp_bind. unfold Dbus.send. apply wp_bind, wp_get. unfold fake_with at 1. cbn [Dbus.chans].
    rewrite lookup_insert_eq. destruct (Nat.ltb_spec (length q) 10); [|lia]. apply wp_modify, wp_ret.
    unfold fake_with. cbn [Dbus.conns Dbus.chans Dbus.env]. by rewrite insert_insert_eq. }
  destruct e; apply H.
Qed.

Lemma emit_all_spec c ch es w :
  Dbus.signalHandlers c = [ch] → (length es ≤ 10)%nat →
  wp (for_each es emit_on) (λ _ w', w' = fake_with c ch (signal_of <$> es) w) (fake_with c ch [] w).
Proof.
  intros Hc Hlen. apply (wp_for_each (λ dn w', w' = fake_with c ch (signal_of <$> dn) w)); [done| |done].
  intros dn e rest w' -> ->. rewrite length_app in Hlen. simpl in Hlen.
  eapply wp_mono; [apply emit_spec; [done|rewrite length_fmap; lia]|]. intros [] w' ->. by rewrite fmap_app.
Qed.

(** The connection before and after registering the channel. *)
Definition conn_with (bo : nat) (objs : gmap string nat) (hs : list nat) : Dbus.FakeConnection :=
  {| Dbus.busObject := Some bo; Dbus.objects := objs; Dbus.signalHandlers := hs |}.

Lemma conn_at_spec c w :
  Dbus.conns w !! 0%nat = Some c → wp (Dbus.conn_at 0 : M (Dbus.Fake E) _) (λ c' w', c' = c ∧ w' = w) w.
Proof. intros Hc. unfold Dbus.conn_at. apply wp_bind, wp_get. rewrite Hc. by apply wp_ret. Qed.

Lemma signal_to_spec c ch w :
  Dbus.conns w !! 0%nat = Some c →
  wp (Dbus.SignalTo (0%nat : Dbus.Connection (Dbus.Fake E)) ch) (λ _ w', w' = {| Dbus.conns := <[0%nat :=
    {| Dbus.busObject := Dbus.busObject c; Dbus.objects := Dbus.objects c;
       Dbus.signalHandlers := Dbus.toggle_handler ch (Dbus.signalHandlers c) |}]> (Dbus.conns w);
    Dbus.chans := Dbus.chans w; Dbus.env := Dbus.env w |}) w.
Proof.
  intros Hc. cbn [Dbus.SignalTo fake_bus Dbus.NewFake]. unfold Dbus.fake_Signal. apply wp_bind.
  eapply wp_mono; [by apply conn_at_spec|]. intros ? ? [-> ->]. apply wp_modify. by erewrite alter_lookup_Some.
Qed.

Lemma add_match_spec c bo (A : Type) rule (k : M (Dbus.Fake E) A) Q w :
  quiet → Dbus.conns w !! 0%nat = Some c → Dbus.busObject c = Some bo → wp k Q w →
  wp (o ← Dbus.BusObject (0%nat : Dbus.Connection (Dbus.Fake E));
      Dbus.CallMethod o "org.freedesktop.DBus.AddMatch" [Dbus.VString rule] ;; k) Q w.
Proof.
  intros Hq Hc Hbo Hk. apply wp_bind. cbn [Dbus.BusObject fake_bus Dbus.NewFake]. apply wp_bind.
  eapply wp_mono; [by apply conn_at_spec|]. intros ? ? [-> ->]. apply wp_ret, wp_bind. rewrite Hbo.
  cbn [Dbus.CallMethod Dbus.fake_Call fake_bus Dbus.NewFake]. eapply wp_mono; [apply Hq|]. by intros ? ? ->.
Qed.

Lemma connect_spec (h : runner (Dbus.Fake E)) ch bo objs w :
  quiet → Dbus.conns w !! 0%nat = Some (conn_with bo objs []) → Dbus.chans w !! ch = Some (10%nat, []) →
  wp (connectToFirewallD h ch) (λ o w', o.2 = Some 0%nat ∧ signal o.1 = Some ch ∧ reloadFuncs o.1 = reloadFuncs h ∧
    w' = fake_with (conn_with bo objs [ch]) ch [] w) w.
Proof.
  intros Hq Hc Hch. unfold connectToFirewallD. apply wp_bind, wp_ret. cbn [Dbus.bus_or_error].
  do 2 (eapply add_match_spec; [done..|]). apply wp_bind. eapply wp_mono; [by eapply signal_to_spec|].
  intros [] w' ->. apply wp_ret. split_and!; [done..|]. unfold fake_with. f_equal. by rewrite insert_id.
Qed.

Lemma add_reloads (fs : list (M (Dbus.Fake E) unit)) (h : runner (Dbus.Fake E)) :
  reloadFuncs (fold_left AddReloadFunc fs h) = reloadFuncs h ++ fs ∧ signal (fold_left AddReloadFunc fs h) = signal h.
Proof.
  revert h. induction fs as [|f fs IH]; intros h; cbn [fold_left]; [by rewrite app_nil_r|].
  destruct (IH (AddReloadFunc h f)) as [-> ->]. cbn [reloadFuncs signal AddReloadFunc]. by rewrite <-app_assoc.
Qed.

(** C20: Rules lost to FirewallD are made again: with the runner connected to a
    bus on which FirewallD is known, after any signals that fit the channel,
    the handler calls every reload function, in the order they were added,
    once for each signal that FirewallD reloaded or came up under a new
    owner, and for no other; the nil that [Destroy] sends ends it and takes
    its channel off the bus. *)
Theorem firewalld_reloads (h : runner (Dbus.Fake E)) (ch fw bo : nat) (gs : list (E → E)) (es : list emission)
    (objs : gmap string nat) (w : Dbus.Fake E) :
  quiet → Forall other_name es → (length es ≤ 10)%nat → reloadFuncs h = [] →
  objs !! (firewalldName +:+ firewalldPath) = Some fw →
  Dbus.conns w !! 0%nat = Some (conn_with bo objs []) → Dbus.chans w !! ch = Some (10%nat, []) →
  wp (o ← connectToFirewallD h ch;
      let h := fold_left AddReloadFunc (on_env <$> gs) o.1 in
      for_each es emit_on ;;
      sigs ← receive_all ch;
      match o.2 with
      | Some bus => dbusSignalHandler h bus ch ((Some <$> sigs) ++ Destroy h)
      | None => mret tt
      end)
     (λ _ w', w' = {| Dbus.conns := Dbus.conns w; Dbus.chans := Dbus.chans w;
                      Dbus.env := Nat.iter (times_lost es) (reload_all gs) (Dbus.env w) |}) w.
Proof.
  intros Hq Hes Hlen Hnil Hfw Hc Hch. apply wp_bind. eapply wp_mono; [by apply connect_spec|].
  intros o w1 (-> & Hsig & Hfs & ->). cbv zeta. destruct (add_reloads (on_env <$> gs) o.1) as [Hrf Hs].
  revert Hrf Hs. generalize (fold_left AddReloadFunc (on_env <$> gs) o.1). intros h' Hrf Hs.
  rewrite Hfs, Hnil, app_nil_l in Hrf. rewrite Hsig in Hs. apply wp_bind. eapply wp_mono; [by apply emit_all_spec|].
  intros [] w2 ->. apply wp_bind. unfold receive_all. apply wp_bind, wp_get. unfold fake_with at 1. cbn [Dbus.chans].
  rewrite lookup_insert_eq. apply wp_bind, wp_modify, wp_ret. unfold fake_with. cbn [Dbus.conns Dbus.chans Dbus.env].
  rewrite alter_insert_eq. cbn [fst]. unfold dbusSignalHandler. apply wp_bind. apply wp_bind.
  eapply wp_mono; [apply conn_at_spec, lookup_insert_eq|]. intros ? ? [-> ->]. apply wp_ret. cbn [conn_with Dbus.objects].
  rewrite Hfw, <-list_fmap_compose. eapply signal_loop_spec; [done..|]. intros w' ->. unfold Destroy. rewrite Hs.
  cbn [signal_loop Dbus.conns Dbus.chans Dbus.env]. eapply wp_mono; [apply signal_to_spec, lookup_insert_eq|].
  intros [] w' ->. cbn [Dbus.conns Dbus.chans Dbus.env]. f_equal.
  - rewrite insert_insert_eq. apply insert_id. rewrite Hc. f_equal. unfold conn_with. f_equal.
    cbn [Dbus.signalHandlers conn_with]. unfold Dbus.toggle_handler. cbn [Dbus.signal_index]. by rewrite decide_True.
  - by apply insert_id.
Qed.
End reloads.

(** ** Examples *)
Import RefHost.

Definition foreign_rule : rule := ["-s"; "172.17.0.0/16"; "-j"; "MASQUERADE"].
Definition dnat_rule : rule := ["-d"; "10.0.0.1/32"; "-j"; "KUBE-SVC"].
Definition host0 (p : Protocol) : N :=
  {| Dbus.conns := ∅; Dbus.chans := ∅;
     Dbus.env := {| ri_rules := {[(ipt_command p, TableNAT, ChainPrerouting) := [foreign_rule]]}; ri_reloads := 0 |} |}.
Definition no_handlers (i : nat) (m : string) (args : list Dbus.value) : M N (list Dbus.value * error) := mret ([], None).

Lemma range_1_6_1 : version_range (1, 6, 1)%Z.
Proof. by_eval. Defined.

Lemma rule_ensured_once_witness :
  let HN := ref_Host (1, 6, 1)%Z in let DB := ref_bus None no_handlers in
  ∃ h n1 n2 n3, New ProtocolIpv6 7 (host0 ProtocolIpv6) = (Ret h, host0 ProtocolIpv6) ∧
    EnsureRule h.1 Prepend TableNAT ChainPrerouting dnat_rule (host0 ProtocolIpv6) = (Ret (OK false), n1) ∧
    ri_rules (Dbus.env n1) = <[("ip6tables", "nat", "PREROUTING") := [dnat_rule; foreign_rule]]> (ri_rules (Dbus.env (host0 ProtocolIpv6))) ∧
    EnsureRule h.1 Prepend TableNAT ChainPrerouting dnat_rule n1 = (Ret (OK true), n2) ∧
    DeleteRule h.1 TableNAT ChainPrerouting dnat_rule n2 = (Ret None, n3) ∧
    ri_rules (Dbus.env n3) = <[("ip6tables", "nat", "PREROUTING") := [foreign_rule]]> (ri_rules (Dbus.env (host0 ProtocolIpv6))).
Proof.
  intros HN DB.
  destruct (rule_ensured_once (N := N) (HN := HN) (IC := ref_Contract (1, 6, 1)%Z range_1_6_1) (DB := DB)
    ProtocolIpv6 Prepend TableNAT ChainPrerouting dnat_rule [foreign_rule] 7 (host0 ProtocolIpv6))
    as (h & n1 & n2 & n3 & H0 & H1 & H2 & H3 & _ & H4 & H5).
  - intros n _. split; [by eexists|done].
  - reflexivity.
  - exact I.
  - reflexivity.
  - vm_compute. reflexivity.
  - exists h, n1, n2, n3. split; [exact H0|]. split; [exact H1|]. split; [exact H2|]. split; [exact H3|].
    split; [exact H4|exact H5].
Defined.

Definition handle0 : runner N :=
  {| protocol := ProtocolIpv4; hasCheck := true; waitFlag := ["-w"]; restoreWaitFlag := [];
     lockfilePath := LockfilePath16x; reloadFuncs := []; signal := None |}.

Lemma chain_roundtrip_witness :
  let HN := ref_Host (1, 4, 21)%Z in
  wp (e1 ← EnsureChain handle0 TableNAT "KUBE-SVC"; e2 ← EnsureChain handle0 TableNAT "KUBE-SVC";
      for_each [(Append, dnat_rule); (Append, dnat_rule); (Prepend, foreign_rule)]
        (λ r, EnsureRule handle0 r.1 TableNAT "KUBE-SVC" r.2 ;; mret tt);;
      w ← get;
      e3 ← FlushChain handle0 TableNAT "KUBE-SVC"; e4 ← DeleteChain handle0 TableNAT "KUBE-SVC"; mret (e1, e2, e3, e4, w))
     (λ o n', ri_rules (Dbus.env n') = ri_rules (Dbus.env (host0 ProtocolIpv4))) (host0 ProtocolIpv4).
Proof.
  intros HN.
  assert (version_range (1, 4, 21)%Z) as Hv by by_eval.
  eapply wp_mono; [apply (chain_roundtrip (IC := ref_Contract (1, 4, 21)%Z Hv) ProtocolIpv4 TableNAT "KUBE-SVC"
    [(Append, dnat_rule); (Append, dnat_rule); (Prepend, foreign_rule)] handle0 (host0 ProtocolIpv4))|].
  - constructor; [reflexivity|reflexivity|right; left; split; reflexivity].
  - reflexivity.
  - exact I.
  - repeat constructor.
  - vm_compute. reflexivity.
  - intros [[[[e1 e2] e3] e4] w] n' (_ & _ & _ & _ & _ & H). exact H.
Defined.

(** Two reload functions, and what a bus may say. *)
Definition ex_gs : list (nat → nat) := [Nat.add 1; Nat.mul 2].
Definition ex_es : list emission :=
  [Reloaded; NameOwnerChanged firewalldName ":1.7" ""; NameOwnerChanged "org.other" "" ":1.9";
   OtherSignal firewalldInterface "PanicModeEnabled" []; NameOwnerChanged firewalldName "" ":1.8"].
Definition ex_fake : Dbus.Fake nat :=
  {| Dbus.conns := {[0%nat := conn_with 1 {[firewalldName +:+ firewalldPath := 2%nat]} []]};
     Dbus.chans := {[7%nat := (10%nat, [])]}; Dbus.env := 0%nat |}.
Definition ex_runner : runner (Dbus.Fake nat) :=
  {| protocol := ProtocolIpv4; hasCheck := true; waitFlag := []; restoreWaitFlag := [];
     lockfilePath := LockfilePath16x; reloadFuncs := []; signal := None |}.
Definition ex_handlers (i : nat) (m : string) (args : list Dbus.value) : M (Dbus.Fake nat) (list Dbus.value * error) :=
  mret ([], None).

Lemma firewalld_reloads_witness :
  let DB := fake_bus ex_handlers no_store in
  wp (o ← connectToFirewallD ex_runner 7;
      let h := fold_left AddReloadFunc (on_env <$> ex_gs) o.1 in
      for_each ex_es emit_on ;;
      sigs ← receive_all 7;
      match o.2 with
      | Some bus => dbusSignalHandler h bus 7 ((Some <$> sigs) ++ Destroy h)
      | None => mret tt
      end) (λ _ w', Dbus.env w' = 6%nat ∧ Dbus.conns w' = Dbus.conns ex_fake) ex_fake.
Proof.
  intros DB. eapply wp_mono; [apply (firewalld_reloads ex_handlers no_store ex_runner 7 2 1 ex_gs ex_es
    {[firewalldName +:+ firewalldPath := 2%nat]} ex_fake)|].
  - intros i m args w. exact eq_refl.
  - repeat constructor; discriminate.
  - vm_compute. repeat constructor.
  - reflexivity.
  - vm_compute. reflexivity.
  - vm_compute. reflexivity.
  - vm_compute. reflexivity.
  - intros [] w' ->. split; vm_compute; reflexivity.
Defined.
