(* ===== verification/IptablesText.v ===== *)
(** * Checking a rule in the output of iptables-save

    What [checkRuleWithoutCheck] finds, for every text that lists rules one per
    line. *)

From S2P Require Import Prelude GoNet Host Strconv GoIptables IptablesFacts Version VersionClaims Dbus Iptables IptablesSpec IptablesClaims.
From Stdlib Require Import Ascii.
Import Iptables.

(** ** Words and lines *)

(** A word of a line. *)
Definition no_space (w : string) : bool := StringFacts.all (λ c, negb (Strings.is_space c)) w.
Definition word (w : string) : bool := no_space w && negb (bool_decide (w = "")).
Definition words (ws : list string) : bool := forallb word ws.

(** A line of the text: a rule in a chain, or something else. *)
Inductive save_line :=
| RuleLine (chain : string) (r : rule)
| OtherLine (s : string).
Definition show_line (l : save_line) : string :=
  match l with
  | RuleLine chain r => String.concat " " (["-A"; chain] ++ r)
  | OtherLine s => s
  end.
Definition show_lines (ls : list save_line) : string :=
  String.concat "" ((λ l, show_line l +:+ String newline "") <$> ls).
Definition readable (l : save_line) : bool :=
  match l with
  | RuleLine chain r => word chain && words r
  | OtherLine s => negb (Strings.HasPrefix s "-A ") &&
                   bool_decide (Strings.byteIndex s newline = None)
  end.

(** *** Spellings of a word

    What iptables-save may print for a word of a rule. *)
Definition char_free (d : ascii) (w : string) : bool := StringFacts.all (λ c, negb (bool_decide (c = d))) w.
Definition bare (w : string) : bool := word w && char_free dquote w.

(** Hexadecimal numbers with more or fewer zeros in front, anywhere in it. *)
Fixpoint zeros (k : nat) : string := match k with O => "" | S k => String "0" (zeros k) end.
Definition hex (k : nat) (d : ascii) (rest : string) : string := "0x" +:+ zeros k +:+ String d rest.
Inductive respelled : string → string → Prop :=
| respelled_same u : respelled u u
| respelled_number pre k k' d rest rest' :
    char_free "x" pre = true → StringFacts.is_digit d = true → d ≠ "0"%char → respelled rest rest' →
    respelled (pre +:+ hex k d rest) (pre +:+ hex k' d rest').

(** A quote before it, after it, or both. *)
Definition quotes (u w : string) : Prop :=
  ∃ l r, l ∈ [""; String dquote ""] ∧ r ∈ [""; String dquote ""] ∧ w = l +:+ u +:+ r.

(** The text [ws] for an argument: the words of it, each in some spelling. *)
Definition printed (a : string) (ws : list string) : Prop :=
  ∃ us, forallb bare us = true ∧ quotes (String.concat " " us) a ∧
    Forall2 (λ u w, ∃ u', respelled u u' ∧ bare u' = true ∧ quotes u' w) us ws.
Definition written_as (args : list string) (r : rule) : Prop :=
  ∃ wss, Forall2 printed args wss ∧ r = mjoin wss.

(** No quote and no hexadecimal number. *)
Definition unmarked (w : string) : bool := bare w && char_free "x" w.

Abbreviation normal := (λ f, trimhex (TrimQuotes f)).

Lemma word_inv w : word w = true ↔ no_space w = true ∧ w ≠ "".
Proof. unfold word. by rewrite andb_true_iff, negb_true_iff, bool_decide_eq_false. Qed.
Lemma bare_inv w : bare w = true ↔ word w = true ∧ char_free dquote w = true.
Proof. apply andb_true_iff. Qed.

Lemma fields_go_word w s acc :
  no_space w = true → GoIptables.fields_go (w +:+ s) acc = GoIptables.fields_go s (acc +:+ w).
Proof.
  revert acc. induction w as [|c w IH]; intros acc Hw.
  - by rewrite StringFacts.sapp_nil, StringFacts.string_app_nil_r.
  - apply andb_true_iff in Hw as [Hc%negb_true_iff Hw]. rewrite StringFacts.sapp_cons. cbn [GoIptables.fields_go].
    rewrite Hc, IH by done. f_equal. rewrite <-StringFacts.sapp_assoc. by rewrite StringFacts.sapp_cons, StringFacts.sapp_nil.
Qed.

Lemma concat_cons w ws :
  String.concat " " (w :: ws) = w +:+ match ws with [] => "" | _ => String " " (String.concat " " ws) end.
Proof. destruct ws; simpl; [by rewrite StringFacts.string_app_nil_r|done]. Qed.

Lemma Fields_concat ws :
  Forall (λ w, no_space w = true ∧ w ≠ "") ws → GoIptables.Fields (String.concat " " ws) = ws.
Proof.
  unfold GoIptables.Fields. induction ws as [|w ws IH]; [done|]. intros [[Hw Hne] Hws]%Forall_cons.
  rewrite concat_cons, fields_go_word, StringFacts.sapp_nil by done. destruct ws as [|w' ws].
  - cbn [GoIptables.fields_go]. by rewrite decide_False.
  - cbn [GoIptables.fields_go]. change (Strings.is_space " ") with true. cbn iota. rewrite decide_False by done.
    by rewrite IH.
Qed.

Lemma words_fields ws : words ws = true → GoIptables.Fields (String.concat " " ws) = ws.
Proof.
  intros H. apply Fields_concat, Forall_forall. intros w Hw. unfold words in H. rewrite forallb_forall in H.
  apply list_elem_of_In in Hw. by apply word_inv, H.
Qed.

(** *** Trimming quotes *)
Lemma trim_right_snoc u : trim_quote_right (u +:+ String dquote "") = trim_quote_right u.
Proof. induction u as [|c u IH]; [done|]. rewrite StringFacts.sapp_cons. cbn [trim_quote_right]. by rewrite IH. Qed.
Lemma trim_left_snoc u : trim_quote_right (trim_quote_left (u +:+ String dquote "")) = trim_quote_right (trim_quote_left u).
Proof.
  induction u as [|c u IH]; [done|]. rewrite StringFacts.sapp_cons. cbn [trim_quote_left]. case_decide; [done|].
  rewrite <-StringFacts.sapp_cons. apply trim_right_snoc.
Qed.
Lemma TrimQuotes_quotes u w : quotes u w → TrimQuotes w = TrimQuotes u.
Proof.
  intros (l & r & Hl & Hr & ->). unfold TrimQuotes.
  assert (∀ x, trim_quote_left (l +:+ x) = trim_quote_left x) as ->.
  { intros x. repeat (apply elem_of_cons in Hl as [->|Hl]; [done|]). by apply elem_of_nil in Hl. }
  repeat (apply elem_of_cons in Hr as [->|Hr]; [|]); [by rewrite StringFacts.string_app_nil_r|apply trim_left_snoc|].
  by apply elem_of_nil in Hr.
Qed.
Lemma TrimQuotes_free w : char_free dquote w = true → TrimQuotes w = w.
Proof.
  intros Hw. unfold TrimQuotes. assert (trim_quote_left w = w) as ->.
  { destruct w as [|c w]; [done|]. apply andb_true_iff in Hw as [Hc%negb_true_iff%bool_decide_eq_false _].
    cbn [trim_quote_left]. by rewrite decide_False. }
  induction w as [|c w IH]; [done|]. apply andb_true_iff in Hw as [Hc%negb_true_iff%bool_decide_eq_false Hw].
  cbn [trim_quote_right]. rewrite IH by done. destruct w; [|done]. by rewrite decide_False.
Qed.

(** *** Trimming zeros *)
Lemma trimhex_zeros st k d rest : StringFacts.is_digit d = true → d ≠ "0"%char →
  st = HPrefix ∨ st = HOne ∨ st = HMany →
  trimhex_from st (zeros k +:+ String d rest) = "0x" +:+ String d (trimhex_from HNone rest).
Proof.
  intros Hd Hne. revert st. induction k as [|k IH]; intros st Hst.
  - cbn [zeros]. rewrite StringFacts.sapp_nil. cbn [trimhex_from]. rewrite decide_False, Hd by done.
    by destruct Hst as [->|[->| ->]].
  - cbn [zeros]. rewrite StringFacts.sapp_cons. cbn [trimhex_from]. rewrite decide_True by done.
    destruct Hst as [->|[->| ->]]; apply IH; auto.
Qed.
Lemma trimhex_free pre t : char_free "x" pre = true →
  trimhex_from HNone (pre +:+ String "0" t) = pre +:+ trimhex_from HZero t ∧
  trimhex_from HZero (pre +:+ String "0" t) = "0" +:+ pre +:+ trimhex_from HZero t.
Proof.
  induction pre as [|c pre IH]; intros Hp; [done|]. apply andb_true_iff in Hp as [Hc%negb_true_iff%bool_decide_eq_false Hp].
  destruct (IH Hp) as [IH1 IH2]. rewrite !StringFacts.sapp_cons. cbn [trimhex_from]. case_decide as E.
  - subst c. rewrite IH2. done.
  - rewrite IH1. rewrite decide_False by done. done.
Qed.
Lemma trimhex_hex pre k d rest : char_free "x" pre = true → StringFacts.is_digit d = true → d ≠ "0"%char →
  trimhex (pre +:+ hex k d rest) = pre +:+ "0x" +:+ String d (trimhex rest).
Proof.
  intros Hp Hd Hne. unfold hex. change ("0x" +:+ zeros k +:+ String d rest) with (String "0" (String "x" (zeros k +:+ String d rest))).
  unfold trimhex. rewrite (proj1 (trimhex_free _ _ Hp)). f_equal.
  exact (trimhex_zeros HPrefix k d rest Hd Hne (or_introl eq_refl)).
Qed.
Lemma respelled_trimhex u w : respelled u w → trimhex u = trimhex w.
Proof. induction 1 as [|pre k k' d rest rest' Hp Hd Hne _ IH]; [done|]. by rewrite !trimhex_hex, IH. Qed.

Lemma trimhex_no_x w : char_free "x" w = true → trimhex w = w.
Proof.
  intros Hw. unfold trimhex. assert (trimhex_from HNone w = w ∧ trimhex_from HZero w = "0" +:+ w) as [? _]; [|done].
  induction w as [|c w IH]; [done|]. apply andb_true_iff in Hw as [Hc%negb_true_iff%bool_decide_eq_false Hw].
  destruct (IH Hw) as [IH1 IH2]. cbn [trimhex_from]. case_decide as E.
  - subst c. by rewrite IH2.
  - rewrite IH1, decide_False by done. done.
Qed.

(** A space ends what was read of a number. *)
Lemma trimhex_space st s t :
  trimhex_from st (s +:+ String " " t) = trimhex_from st s +:+ String " " (trimhex_from HNone t).
Proof.
  revert st. induction s as [|c s IH]; intros st.
  - rewrite StringFacts.sapp_nil. by destruct st.
  - rewrite StringFacts.sapp_cons. cbn [trimhex_from].
    destruct st; repeat case_match; rewrite ?IH; cbn [trimhex_from]; rewrite <-?StringFacts.sapp_assoc, ?StringFacts.sapp_cons; done.
Qed.
Lemma trimhex_all P s : (∀ c, c ∈ ["0"; "x"]%char → P c = true) → StringFacts.all P s = true →
  ∀ st, StringFacts.all P (trimhex_from st s) = true.
Proof.
  intros HP. assert (P "0"%char = true ∧ P "x"%char = true) as [H0 Hx] by (split; apply HP; by_eval).
  induction s as [|c s IH]; intros Hs st.
  - destruct st; cbn; by rewrite ?H0, ?Hx.
  - apply andb_true_iff in Hs as [Hc Hs]. cbn [trimhex_from].
    destruct st; repeat case_match; rewrite ?StringFacts.all_app; cbn; rewrite ?H0, ?Hx, ?Hc, ?IH by done; done.
Qed.
Lemma trimhex_nonempty st s : s ≠ "" ∨ st ≠ HNone → trimhex_from st s ≠ "".
Proof.
  revert st. induction s as [|c s IH]; intros st H; [destruct H; [done|by destruct st]|]. cbn [trimhex_from].
  destruct st; repeat case_match; try done; apply IH; by right.
Qed.
Lemma trimhex_word w : word w = true → word (trimhex w) = true.
Proof.
  rewrite !word_inv. intros [H1 H2]. split; [|apply trimhex_nonempty; by left].
  apply trimhex_all; [|done]. intros c Hc. repeat (apply elem_of_cons in Hc as [->|Hc]; [done|]). by apply elem_of_nil in Hc.
Qed.
Lemma trimhex_concat us : trimhex (String.concat " " us) = String.concat " " (trimhex <$> us).
Proof.
  unfold trimhex. induction us as [|u us IH]; [done|]. rewrite fmap_cons, !concat_cons. destruct us as [|u' us].
  - by rewrite !StringFacts.string_app_nil_r.
  - rewrite trimhex_space, IH. done.
Qed.

(** *** What is compared *)
Lemma concat_free us : forallb bare us = true → char_free dquote (String.concat " " us) = true.
Proof.
  induction us as [|u us IH]; [done|]. intros [[_ Hu]%bare_inv Hus]%andb_true_iff. rewrite concat_cons.
  unfold char_free. rewrite StringFacts.all_app. apply andb_true_iff. split; [exact Hu|]. destruct us; [done|]. by apply IH.
Qed.
Lemma normal_printed a ws : printed a ws → normal_args [a] = normal <$> ws.
Proof.
  intros (us & Hus & Ha & Hws). unfold normal_args. cbn [mbind list_bind]. rewrite app_nil_r.
  rewrite (TrimQuotes_quotes _ _ Ha), TrimQuotes_free, trimhex_concat by (by apply concat_free).
  rewrite words_fields.
  - clear Ha. induction Hws as [|u w us ws (u' & Hr & Hb & Hq) _ IH]; [done|].
    apply andb_true_iff in Hus as [_ Hus]. rewrite !fmap_cons, IH by done. f_equal.
    rewrite (TrimQuotes_quotes _ _ Hq), TrimQuotes_free by (by apply bare_inv). by apply respelled_trimhex.
  - clear -Hus. induction us as [|u us IH]; [done|]. apply andb_true_iff in Hus as [[Hu _]%bare_inv Hus].
    cbn [fmap list_fmap words forallb]. rewrite trimhex_word by done. by apply IH.
Qed.
Lemma normal_written args r : written_as args r → normal_args args = normal <$> r.
Proof.
  intros (wss & Hall & ->). induction Hall as [|a ws args wss Ha _ IH]; [done|].
  change (normal_args (a :: args)) with (GoIptables.Fields (trimhex (TrimQuotes a)) ++ normal_args args).
  apply normal_printed in Ha. unfold normal_args in Ha at 1. cbn [mbind list_bind] in Ha. rewrite app_nil_r in Ha.
  cbn [mjoin list_join]. rewrite fmap_app. f_equal; [exact Ha|exact IH].
Qed.

Lemma normal_unmarked w : unmarked w = true → normal w = w.
Proof.
  intros [[_ Hq]%bare_inv Hx]%andb_true_iff. rewrite TrimQuotes_free by done. by apply trimhex_no_x.
Qed.
Lemma normal_list ws : forallb unmarked ws = true → normal <$> ws = ws.
Proof.
  induction ws as [|w ws IH]; [done|]. intros [Hw Hws]%andb_true_iff. rewrite fmap_cons, IH by done.
  f_equal. by apply normal_unmarked.
Qed.
Lemma normal_args_unmarked ws : forallb unmarked ws = true → normal_args ws = ws.
Proof.
  unfold normal_args. induction ws as [|w ws IH]; [done|]. intros [Hw Hws]%andb_true_iff.
  cbn [mbind list_bind]. rewrite IH by done. pose proof (words_fields [w]) as Hf.
  pose proof (normal_unmarked w Hw) as Hn. cbn beta in Hn. rewrite Hn.
  change w with (String.concat " " [w]) at 1. rewrite Hf; [done|]. unfold words. cbn [forallb].
  apply andb_true_iff in Hw as [[Hw _]%bare_inv _]. by rewrite Hw.
Qed.

(** The chain's name is only compared as a prefix. *)
Lemma prefix_app_l (a b1 b2 : string) : String.prefix (a +:+ b1) (a +:+ b2) = String.prefix b1 b2.
Proof.
  induction a as [|c a IH]; [done|]. rewrite !StringFacts.sapp_cons. cbn [String.prefix].
  by destruct (ascii_dec c c).
Qed.

Lemma prefix_word chain c rest :
  no_space chain = true → Strings.HasPrefix (c +:+ rest) chain = true →
  (rest = "" ∨ ∃ r, rest = String " " r) → Strings.HasPrefix c chain = true.
Proof.
  unfold Strings.HasPrefix. revert c. induction chain as [|a chain IH]; intros c Hs Hp Hr; [by destruct c|].
  apply andb_true_iff in Hs as [Ha Hs]. destruct c as [|b c].
  - rewrite StringFacts.sapp_nil in Hp. destruct Hr as [->|[r ->]]; [done|]. cbn [String.prefix] in Hp.
    destruct (ascii_dec a " "); [by subst|done].
  - rewrite StringFacts.sapp_cons in Hp. cbn [String.prefix] in *. destruct (ascii_dec a b); [|done]. by apply IH.
Qed.

Lemma prefix_extend chain c rest :
  Strings.HasPrefix c chain = true → Strings.HasPrefix (c +:+ rest) chain = true.
Proof.
  unfold Strings.HasPrefix. revert c. induction chain as [|a chain IH]; intros c Hp; [by destruct (c +:+ rest)|].
  destruct c as [|b c]; [done|]. rewrite StringFacts.sapp_cons. cbn [String.prefix] in *.
  destruct (ascii_dec a b); [|done]. by apply IH.
Qed.

Lemma HasPrefix_line chain c r :
  no_space chain = true →
  Strings.HasPrefix (show_line (RuleLine c r)) ("-A " +:+ chain) = Strings.HasPrefix c chain.
Proof.
  intros Hs. assert (show_line (RuleLine c r) = "-A " +:+ (c +:+ match r with [] => "" | _ => String " " (String.concat " " r) end)) as ->.
  { cbn [show_line app]. rewrite concat_cons. cbn iota. by rewrite concat_cons. }
  unfold Strings.HasPrefix at 1. rewrite prefix_app_l. fold (Strings.HasPrefix (c +:+ match r with [] => "" | _ => String " " (String.concat " " r) end) chain).
  destruct (Strings.HasPrefix c chain) eqn:E; [by apply prefix_extend|].
  destruct (Strings.HasPrefix (c +:+ _) chain) eqn:E'; [|done]. apply prefix_word in E'; [congruence|done|].
  destruct r; [by left|right; by eexists].
Qed.

(** The test as the code makes it, on words. *)
Definition same_rule (chain : string) (args : list string) (l : save_line) : bool :=
  match l with
  | RuleLine c r =>
      Strings.HasPrefix c chain && (length r =? length args)%nat && bool_decide (args ⊆ normal <$> "-A" :: c :: r)
  | OtherLine _ => false
  end.

Lemma line_is_rule_spec chain args l :
  no_space chain = true → readable l = true → line_is_rule chain args (show_line l) = same_rule chain args l.
Proof.
  intros Hs Hl. unfold line_is_rule. destruct l as [c r|s]; cbn [same_rule].
  - rewrite HasPrefix_line by done. cbn [readable] in Hl. apply andb_true_iff in Hl as [Hc Hr].
    assert (words ("-A" :: c :: r) = true) as Hp by (unfold words in *; cbn [forallb]; rewrite Hc, Hr; reflexivity).
    cbn [show_line app]. rewrite words_fields by done. cbn [length].
    destruct (Strings.HasPrefix c chain); [|done]. cbn [negb orb andb].
    assert ((S (S (length r)) =? length args + 2)%nat = (length r =? length args)%nat) as ->; [|by destruct (_ =? _)%nat].
    destruct (Nat.eqb_spec (length r) (length args)); destruct (Nat.eqb_spec (S (S (length r))) (length args + 2)); lia.
  - cbn [readable] in Hl. apply andb_true_iff in Hl as [Hp%negb_true_iff _].
    assert (Strings.HasPrefix s ("-A " +:+ chain) = false) as H; [|cbn [show_line]; cbv zeta; by rewrite H].
    destruct (Strings.HasPrefix s ("-A " +:+ chain)) eqn:E; [|done].
    assert (Strings.HasPrefix s "-A " = true); [|congruence].
    unfold Strings.HasPrefix in *. clear -E.
    do 3 (destruct s as [|? s]; [done|]; rewrite StringFacts.sapp_cons in E || idtac; cbn [String.prefix] in *;
          destruct (ascii_dec _ _) in *; [|done]).
    by destruct s.
Qed.

(** ** The whole text *)
Lemma no_space_newline w : no_space w = true → Strings.byteIndex w newline = None.
Proof.
  intros H. apply StringFacts.byteIndex_None_all. eapply StringFacts.all_impl; [|exact H].
  intros c Hc. case_bool_decide as E; [|done]. by subst c.
Qed.

Lemma byteIndex_app_none s1 s2 c :
  Strings.byteIndex s1 c = None → Strings.byteIndex s2 c = None → Strings.byteIndex (s1 +:+ s2) c = None.
Proof.
  intros H1 H2. induction s1 as [|d s1 IH]; [by rewrite StringFacts.sapp_nil|]. rewrite StringFacts.sapp_cons.
  cbn [Strings.byteIndex] in *. case_decide; [done|]. destruct (Strings.byteIndex s1 c); [done|]. by rewrite IH.
Qed.

Lemma concat_no_newline ws :
  words ws = true → Strings.byteIndex (String.concat " " ws) newline = None.
Proof.
  induction ws as [|w ws IH]; [done|]. intros [Hw Hws]%andb_true_iff. rewrite concat_cons.
  apply word_inv in Hw as [Hw _]. apply byteIndex_app_none; [by apply no_space_newline|].
  destruct ws; [done|]. cbn [Strings.byteIndex]. rewrite decide_False by done. by rewrite IH.
Qed.

Lemma show_line_newline l : readable l = true → Strings.byteIndex (show_line l) newline = None.
Proof.
  destruct l as [c r|s]; cbn [readable show_line].
  - intros [Hc Hr]%andb_true_iff. apply concat_no_newline. unfold words in *. cbn [app forallb]. by rewrite Hc, Hr.
  - by intros [_ H%bool_decide_eq_true_1]%andb_true_iff.
Qed.

Lemma concat_empty_cons (s : string) ss : String.concat "" (s :: ss) = s +:+ String.concat "" ss.
Proof. destruct ss; simpl; [by rewrite StringFacts.string_app_nil_r|done]. Qed.

Lemma Split_show_lines ls :
  Forall (λ l, readable l = true) ls → Strings.Split (show_lines ls) newline = (show_line <$> ls) ++ [""].
Proof.
  unfold show_lines. induction ls as [|l ls IH]; [done|]. intros [Hl Hls]%Forall_cons. rewrite fmap_cons, concat_empty_cons.
  rewrite <-StringFacts.sapp_assoc, StringFacts.sapp_cons, StringFacts.sapp_nil, Split_app by (by apply show_line_newline).
  by rewrite IH.
Qed.

Lemma existsb_show_lines chain args ls :
  no_space chain = true → Forall (λ l, readable l = true) ls →
  existsb (line_is_rule chain args) (Strings.Split (show_lines ls) newline) = existsb (same_rule chain args) ls.
Proof.
  intros Hs Hls. rewrite Split_show_lines, existsb_app by done.
  assert (existsb (line_is_rule chain args) [""] = false) as -> by done. rewrite orb_false_r.
  induction Hls as [|l ls Hl Hls IH]; [done|]. cbn [fmap list_fmap existsb].
  by rewrite IH, line_is_rule_spec.
Qed.

(** C39: Where iptables has no check command, a rule is looked for in the output
    of iptables-save. Both the rule's arguments and the words of the text are
    brought to a normal form first: quotes around them and zeros after 0x are
    dropped, an argument of several words is taken apart. [checkRule] says yes
    exactly when the text has a rule line of a chain whose name begins with the
    chain's, with as many words as the rule and with all of the rule's words
    among its own; so the order of the words does not count, nor does the rest
    of the chain's name. A rule that is there is found, wherever it stands and
    however iptables-save prints it: with quotes around words or around several,
    as of a comment, with more or fewer zeros in a mark before a digit from 1 to 9
    ([written_as]). And what
    has neither quotes nor the letter x is compared as it is. The lines of the
    text are made of words; nothing else in it begins as a rule. *)
Theorem old_check_exact {N : Type} `{HN : Iptables.Host N} (h : runner N) (table chain : string) (args : list string)
    (ls : list save_line) (n : N) :
  hasCheck h = false → no_space chain = true → Forall (λ l, readable l = true) ls →
  wp (Command cmdIPTablesSave ["-t"; table] "") (λ o n', o = (show_lines ls, None) ∧ n' = n) n →
  wp (checkRule h table chain args) (λ res n', n' = n ∧ ∃ b, res = OK b ∧
    (b = true ↔ ∃ c r, RuleLine c r ∈ ls ∧ Strings.HasPrefix c chain = true ∧
       length r = length (normal_args args) ∧ normal_args args ⊆ normal <$> "-A" :: c :: r) ∧
    (∀ r, RuleLine chain r ∈ ls → written_as args r → b = true) ∧
    (forallb unmarked args = true → (∀ c r, RuleLine c r ∈ ls → forallb unmarked (c :: r) = true) →
       (b = true ↔ ∃ c r, RuleLine c r ∈ ls ∧ Strings.HasPrefix c chain = true ∧
          length r = length args ∧ args ⊆ "-A" :: c :: r))) n.
Proof.
  intros Hcheck Hs Hls Hcmd. unfold checkRule. rewrite Hcheck.
  unfold checkRuleWithoutCheck. apply wp_bind. eapply wp_mono; [exact Hcmd|]. intros o n' [-> ->]. apply wp_ret.
  split; [done|]. eexists. split; [done|]. rewrite existsb_show_lines by done.
  assert (existsb (same_rule chain (normal_args args)) ls = true ↔ ∃ c r, RuleLine c r ∈ ls ∧
    Strings.HasPrefix c chain = true ∧ length r = length (normal_args args) ∧
    normal_args args ⊆ normal <$> "-A" :: c :: r) as H.
  { rewrite existsb_exists. split.
    - intros ([c r|s] & Hin%list_elem_of_In & H); [|done]. cbn [same_rule] in H.
      apply andb_true_iff in H as [[Hp Hl%Nat.eqb_eq]%andb_true_iff Hsub%bool_decide_eq_true_1]. by exists c, r.
    - intros (c & r & Hin & Hp & Hl & Hsub). exists (RuleLine c r). split; [by apply list_elem_of_In|].
      cbn [same_rule]. rewrite Hp, Hl, Nat.eqb_refl. by rewrite bool_decide_true. }
  split; [done|]. split.
  - intros r Hin Hw. apply H. exists chain, r. rewrite (normal_written _ _ Hw), length_fmap. split_and!; [done| |done|].
    + apply StringFacts.HasPrefix_refl.
    + intros w Hw'. by do 2 right.
  - intros Ha Hl. rewrite H, normal_args_unmarked by done. assert (∀ c r, RuleLine c r ∈ ls →
      normal <$> "-A" :: c :: r = "-A" :: c :: r) as Hn by (intros c r Hin; apply normal_list; cbn; by apply Hl).
    split; intros (c & r & Hin & Hp & Hlen & Hsub); exists c, r; (split_and!; [done..|]); by rewrite Hn in * by done.
Qed.

(** A rule as it was asked for, and as an old iptables-save prints it. *)
Definition quoted (s : string) : string := String dquote (s +:+ String dquote "").
Definition ex_args : list string :=
  ["-m"; "comment"; "--comment"; quoted "node ports"; "-m"; "mark"; "--mark"; "0x4000/0x4000"; "-j"; "MASQUERADE"].
Definition ex_lines : list save_line :=
  [OtherLine "*nat"; OtherLine ":POSTROUTING ACCEPT [0:0]";
   RuleLine "POSTROUTING" ["-m"; "comment"; "--comment"; String dquote "node"; "ports" +:+ String dquote ""; "-m"; "mark";
     "--mark"; "0x00004000/0x00004000"; "-j"; "MASQUERADE"];
   RuleLine "KUBE-SVC" ["-d"; "10.0.0.1/32"; "-j"; "DNAT"]; OtherLine "COMMIT"].
Definition old_handle {N} (p : Protocol) : runner N :=
  {| protocol := p; hasCheck := false; waitFlag := []; restoreWaitFlag := [];
     lockfilePath := LockfilePath16x; reloadFuncs := []; signal := None |}.

(** A host that answers every command with the lines above. *)
Definition ex_Host : Iptables.Host nat := {|
  Command name args stdin := mret (show_lines ex_lines, None);
  OpenFile _ := mret (Err "no"); Flock _ := mret None; ListenUnix _ := mret (Err "no"); CloseFile _ := mret None;
  poll_ticks _ _ := mret 0%nat;
|}.

Lemma respelled_mark : respelled "0x4000/0x4000" "0x00004000/0x00004000".
Proof.
  apply (respelled_number "" 0 4 "4" "000/0x4000" "000/0x00004000"); [done..|].
  apply (respelled_number "000/" 0 4 "4" "000" "000"); [done..|]. apply respelled_same.
Qed.
Lemma printed_word w : bare w = true → printed w [w].
Proof.
  intros Hw. assert (quotes w w) as Hq.
  { exists "", "". split_and!; [apply list_elem_of_here..|]. by rewrite StringFacts.string_app_nil_r. }
  exists [w]. split_and!; [cbn; by rewrite Hw|exact Hq|]. constructor; [|done]. exists w. split_and!; [apply respelled_same|done..].
Qed.
Lemma ex_written : written_as ex_args
  ["-m"; "comment"; "--comment"; String dquote "node"; "ports" +:+ String dquote ""; "-m"; "mark";
   "--mark"; "0x00004000/0x00004000"; "-j"; "MASQUERADE"].
Proof.
  exists [["-m"]; ["comment"]; ["--comment"]; [String dquote "node"; "ports" +:+ String dquote ""]; ["-m"]; ["mark"];
    ["--mark"]; ["0x00004000/0x00004000"]; ["-j"]; ["MASQUERADE"]]. split; [|reflexivity].
  do 3 (constructor; [by apply printed_word|]). constructor; [|do 3 (constructor; [by apply printed_word|]);
    constructor; [|do 2 (constructor; [by apply printed_word|]); done]].
  - exists ["node"; "ports"]. split_and!; [reflexivity| |].
    + exists (String dquote ""), (String dquote ""). split_and!; [by_eval..|reflexivity].
    + constructor; [|constructor; [|done]]; eexists; (split_and!; [apply respelled_same|reflexivity|]).
      * exists (String dquote ""), "". split_and!; [by_eval..|reflexivity].
      * exists "", (String dquote ""). split_and!; [by_eval..|reflexivity].
  - exists ["0x4000/0x4000"]. split_and!; [reflexivity| |].
    + exists "", "". split_and!; [by_eval..|reflexivity].
    + constructor; [|done]. eexists. split_and!; [apply respelled_mark|reflexivity|].
      exists "", "". split_and!; [by_eval..|reflexivity].
Qed.

Lemma old_check_exact_witness :
  let HN := ex_Host in
  wp (checkRule (old_handle ProtocolIpv4) TableNAT "POSTROUTING" ex_args) (λ res n', res = OK true) 0%nat.
Proof.
  intros HN. eapply wp_mono; [apply (old_check_exact (old_handle ProtocolIpv4) TableNAT "POSTROUTING" ex_args ex_lines 0%nat)|].
  - reflexivity.
  - reflexivity.
  - by_eval.
  - exact (conj eq_refl eq_refl).
  - intros res n' (_ & b & -> & _ & H & _). f_equal. eapply H; [|exact ex_written].
    do 2 apply list_elem_of_further. apply list_elem_of_here.
Defined.

(** ** What follows *)
Import RefHost.
Definition host_with (m : chains) : N :=
  {| Dbus.conns := ∅; Dbus.chans := ∅; Dbus.env := {| ri_rules := m; ri_reloads := 0 |} |}.

(** A rule of KUBE-SVC passes for one of KUBE: it is not installed there. *)
Theorem old_check_confuses_chains :
  let HN := ref_Host (1, 4, 10)%Z in
  let m : chains := {[("iptables", "nat", "KUBE-SVC") := [dnat_rule]; ("iptables", "nat", "KUBE") := []]} in
  EnsureRule (old_handle ProtocolIpv4) Append TableNAT "KUBE" dnat_rule (host_with m) = (Ret (OK true), host_with m).
Proof. vm_compute. reflexivity. Qed.

(** The IPv6 runner looks for its rules among those of IPv4: a rule that only
    IPv4 has is not installed for IPv6, and one that IPv6 has is never
    deleted. *)
Theorem old_check_ignores_ipv6 :
  let HN := ref_Host (1, 4, 10)%Z in
  let m4 : chains := {[("iptables", "nat", "KUBE") := [dnat_rule]; ("ip6tables", "nat", "KUBE") := []]} in
  let m6 : chains := {[("iptables", "nat", "KUBE") := []; ("ip6tables", "nat", "KUBE") := [dnat_rule]]} in
  EnsureRule (old_handle ProtocolIpv6) Append TableNAT "KUBE" dnat_rule (host_with m4) = (Ret (OK true), host_with m4) ∧
  DeleteRule (old_handle ProtocolIpv6) TableNAT "KUBE" dnat_rule (host_with m6) = (Ret None, host_with m6).
Proof. split; vm_compute; reflexivity. Qed.
