(* ===== verification/IptablesLocks.v ===== *)
(** * The locks around iptables-restore

    [restoreInternal] over every host: whatever the system calls answer, what
    it does to the lock files and when it runs the command. *)

From S2P Require Import Prelude GoNet Host Strconv GoIptables Version Dbus Iptables.
Import Iptables.

(** ** A host that answers at will and remembers what was asked *)
Inductive lock_event :=
| EvOpen (path : string) (f : result Z)
| EvFlock (f : Z) (locked : bool)
| EvListen (s : option Z)
| EvClose (f : Z)
| EvCommand (name : string) (args : list string) (stdin : string).

Record World := { asked : nat; events : list lock_event }.

Class Answers := {
  an_open : nat → result Z;
  an_flock : nat → error;
  an_listen : nat → result Z;
  an_close : nat → error;
  an_ticks : nat → nat;
  an_command : nat → string * option exec_error;
}.

Definition of_result {A} (r : result A) : option A := match r with OK a => Some a | Err _ => None end.
Definition is_nil (e : error) : bool := match e with None => true | Some _ => false end.

(** Answer the question and note it. *)
Definition answer {A} (q : nat → A) (e : A → list lock_event) : M World A := λ w,
  let a := q (asked w) in (Ret a, {| asked := S (asked w); events := events w ++ e a |}).

#[export] Instance answers_Host `{Answers} : Iptables.Host World := {|
  Command name args stdin := answer an_command (λ _, [EvCommand name args stdin]);
  OpenFile path := answer an_open (λ r, [EvOpen path r]);
  Flock f := answer an_flock (λ e, [EvFlock f (is_nil e)]);
  ListenUnix _ := answer an_listen (λ r, [EvListen (of_result r)]);
  CloseFile f := answer an_close (λ _, [EvClose f]);
  poll_ticks _ _ := answer an_ticks (λ _, []);
|}.

(** A command's failure comes with its output. *)
Definition restore_error (o : string * option exec_error) : error :=
  match o.2 with Some e => Some (Error e +:+ " (" +:+ o.1 +:+ ")") | None => None end.

(** What a restore answers and does on a host without the option to wait, when
    the poller delivers at most [m] ticks: the command runs between taking and
    releasing both locks, or not at all. *)
Inductive restore_trace (m : nat) (path : string) (args : list string) (data : string) :
    error → list lock_event → Prop :=
| trace_no_file e :
    restore_trace m path args data (Some ("failed to open iptables lock " +:+ path +:+ ": " +:+ e)) [EvOpen path (Err e)]
| trace_no_flock f k : (k ≤ m + 2)%nat →
    restore_trace m path args data
      (Some "failed to acquire new iptables lock: timed out waiting for the condition")
      (EvOpen path (OK f) :: replicate k (EvFlock f false) ++ [EvClose f])
| trace_no_listen f k j : (k ≤ m + 1)%nat → (j ≤ m + 2)%nat →
    restore_trace m path args data
      (Some "failed to acquire old iptables lock: timed out waiting for the condition")
      (EvOpen path (OK f) :: replicate k (EvFlock f false) ++ EvFlock f true :: replicate j (EvListen None) ++ [EvClose f])
| trace_command f s k j o : (k ≤ m + 1)%nat → (j ≤ m + 1)%nat →
    restore_trace m path args data (restore_error o)
      (EvOpen path (OK f) :: replicate k (EvFlock f false) ++ EvFlock f true ::
       replicate j (EvListen None) ++ [EvListen (Some s); EvCommand cmdIPTablesRestore args data; EvClose f; EvClose s]).

Definition restore_args (h : runner World) (args : list string) (flush counters : bool) : list string :=
  restoreWaitFlag h ++ args ++ (if flush then [] else ["--noflush"]) ++ (if counters then ["--counters"] else []).

Section locks.
Context `{AN : Answers}.
Variable m : nat.
Hypothesis ticks_bound : ∀ n, (an_ticks n ≤ m)%nat.

(** [ext t w w']: the events [t] were added. *)
Definition ext (t : list lock_event) (w w' : World) : Prop := events w' = events w ++ t.

Lemma ext_trans t1 t2 w1 w2 w3 : ext t1 w1 w2 → ext t2 w2 w3 → ext (t1 ++ t2) w1 w3.
Proof. unfold ext. intros H1 H2. by rewrite H2, H1, app_assoc. Qed.

Lemma wp_answer {A} (q : nat → A) e (Q : A → World → Prop) w :
  (∀ a w', a = q (asked w) → ext (e a) w w' → Q a w') → wp (answer q e) Q w.
Proof. intros H. apply H; [done|]. done. Qed.

Lemma WaitFor_flock f n w :
  wp (WaitFor n (grab16 f)) (λ err w', match err with
    | None => ∃ k, (k ≤ n)%nat ∧ ext (replicate k (EvFlock f false) ++ [EvFlock f true]) w w'
    | Some err => err = ErrWaitTimeout ∧ ext (replicate (S n) (EvFlock f false)) w w'
    end) w.
Proof.
  revert w. induction n as [|n IH]; intros w; cbn [WaitFor]; apply wp_bind; unfold grab16, grabIptablesFileLock;
    apply wp_bind, wp_answer; intros e w1 _ H1; apply wp_ret; destruct e as [e|]; cbn [is_nil] in H1.
  - by apply wp_ret.
  - apply wp_ret. by exists 0%nat.
  - eapply wp_mono; [apply IH|]. intros [err|] w2; [intros [-> H2]; split; [done|]; exact (ext_trans _ _ _ _ _ H1 H2)|]. intros (k & Hk & H2). exists (S k).
    split; [lia|]. by apply (ext_trans _ _ _ _ _ H1).
  - apply wp_ret. exists 0%nat. split; [lia|done].
Qed.

Lemma grab16_spec f w :
  wp (PollImmediate poll_interval poll_timeout (grab16 f)) (λ err w', match err with
    | None => ∃ k, (k ≤ m + 1)%nat ∧ ext (replicate k (EvFlock f false) ++ [EvFlock f true]) w w'
    | Some err => err = ErrWaitTimeout ∧ ∃ k, (k ≤ m + 2)%nat ∧ ext (replicate k (EvFlock f false)) w w'
    end) w.
Proof using ticks_bound.
  unfold PollImmediate. apply wp_bind. unfold grab16 at 1, grabIptablesFileLock. apply wp_bind, wp_answer.
  intros e w1 _ H1. apply wp_ret. destruct e as [e|]; cbn [is_nil] in H1.
  - apply wp_bind, wp_answer. intros n w2 -> H2. pose proof (ticks_bound (asked w1)) as Hb.
    unfold ext in H2. rewrite app_nil_r in H2.
    eapply wp_mono; [apply WaitFor_flock|]. intros [err|] w3.
    + intros [-> H3]. split; [done|]. exists (S (S (an_ticks (asked w1)))). split; [lia|].
      apply (ext_trans [_] _ _ _ _ H1). unfold ext in *. by rewrite H3, H2.
    + intros (k & Hk & H3). exists (S k). split; [lia|]. apply (ext_trans [_] _ _ _ _ H1). unfold ext in *. by rewrite H3, H2.
  - apply wp_ret. exists 0%nat. split; [lia|done].
Qed.

Lemma WaitFor14_spec n w :
  wp (WaitFor14 n) (λ s w', match s with
    | Some s => ∃ j, (j ≤ n)%nat ∧ ext (replicate j (EvListen None) ++ [EvListen (Some s)]) w w'
    | None => ext (replicate (S n) (EvListen None)) w w'
    end) w.
Proof.
  revert w. induction n as [|n IH]; intros w; cbn [WaitFor14]; apply wp_bind, wp_answer; intros r w1 _ H1;
    destruct r as [s|e]; cbn [of_result] in H1.
  - apply wp_ret. by exists 0%nat.
  - by apply wp_ret.
  - apply wp_ret. exists 0%nat. split; [lia|done].
  - eapply wp_mono; [apply IH|]. intros [s|] w2; [|intros H2; exact (ext_trans _ _ _ _ _ H1 H2)]. intros (j & Hj & H2). exists (S j).
    split; [lia|]. by apply (ext_trans _ _ _ _ _ H1).
Qed.

Lemma Poll14_spec w :
  wp Poll14 (λ s w', match s with
    | Some s => ∃ j, (j ≤ m + 1)%nat ∧ ext (replicate j (EvListen None) ++ [EvListen (Some s)]) w w'
    | None => ∃ j, (j ≤ m + 2)%nat ∧ ext (replicate j (EvListen None)) w w'
    end) w.
Proof using ticks_bound.
  unfold Poll14. apply wp_bind, wp_answer. intros r w1 _ H1. destruct r as [s|e]; cbn [of_result] in H1.
  - apply wp_ret. exists 0%nat. split; [lia|done].
  - apply wp_bind, wp_answer. intros n w2 -> H2. pose proof (ticks_bound (asked w1)) as Hb.
    unfold ext in H2. rewrite app_nil_r in H2. eapply wp_mono; [apply WaitFor14_spec|]. intros [s|] w3.
    + intros (j & Hj & H3). exists (S j). split; [lia|]. apply (ext_trans [_] _ _ _ _ H1). unfold ext in *. by rewrite H3, H2.
    + intros H3. exists (S (S (an_ticks (asked w1)))). split; [lia|]. apply (ext_trans [_] _ _ _ _ H1). unfold ext in *.
      by rewrite H3, H2.
Qed.

(** Closing what is open. *)
Definition close_events (l : locker) : list lock_event :=
  (match lock16 l with Some f => [EvClose f] | None => [] end) ++
  (match lock14 l with Some f => [EvClose f] | None => [] end).

Lemma close_lock_spec l w :
  wp (close_lock l) (λ _ w', ext (match l with Some f => [EvClose f] | None => [] end) w w') w.
Proof.
  destruct l as [f|]; cbn [close_lock].
  - apply wp_bind, wp_answer. intros e w' _ H. by apply wp_ret.
  - apply wp_ret. unfold ext. by rewrite app_nil_r.
Qed.

Lemma Close_spec l w : wp (Close l) (λ _ w', ext (close_events l) w w') w.
Proof.
  unfold Close. apply wp_bind. eapply wp_mono; [apply close_lock_spec|]. intros e16 w1 H1.
  apply wp_bind. eapply wp_mono; [apply close_lock_spec|]. intros e14 w2 H2. apply wp_ret. by apply (ext_trans _ _ _ _ _ H1).
Qed.

Lemma run_restore_spec h args data w :
  wp (run_restore h args data) (λ err w', ∃ o, err = restore_error o ∧
    ext [EvCommand cmdIPTablesRestore (restoreWaitFlag h ++ args) data] w w') w.
Proof.
  unfold run_restore. apply wp_bind, wp_answer. intros [b err] w' _ H. apply wp_ret. by exists (b, err).
Qed.

(** C23: Restoring iptables data. With a tool that cannot wait for the lock, for
    every answer of the operating system, [restoreInternal] returns, having
    run iptables-restore once, with the right options and input, while it held
    both the lock file and the old abstract socket, or not at all; each lock
    is asked for at most 2 more times than the poller ticks, and every lock
    taken is released. The error is the command's with its output, or names
    the lock that failed: the file that cannot be opened, with the system's
    error, the new lock, or the old one, not had in time ([restore_trace]).
    With a tool that can wait no lock is touched. *)
Theorem restore_locks_bounded (h : runner World) (args : list string) (data : string) (flush counters : bool) (w : World) :
  wp (restoreInternal h args data flush counters) (λ err w', ∃ t, ext t w w' ∧
    if decide (restoreWaitFlag h = []) then
      restore_trace m (lockfilePath h) (restore_args h args flush counters) data err t
    else t = [EvCommand cmdIPTablesRestore (restore_args h args flush counters) data] ∧ ∃ o, err = restore_error o) w.
Proof using ticks_bound.
  unfold restoreInternal.
  assert ((if counters then (if negb flush then args ++ ["--noflush"] else args) ++ ["--counters"]
           else if negb flush then args ++ ["--noflush"] else args) =
          args ++ (if flush then [] else ["--noflush"]) ++ (if counters then ["--counters"] else [])) as ->.
  { destruct flush, counters; cbn [negb]; rewrite ?app_nil_r, ?app_nil_l, <-?app_assoc; done. }
  set (args' := args ++ _). case_decide as Hw.
  - rewrite Hw. cbn [length Nat.eqb]. unfold grabIptablesLocks. apply wp_bind, wp_bind, wp_answer.
    intros [f|e] w1 _ H1; cbn [of_result] in H1.
    + apply wp_bind. eapply wp_mono; [apply grab16_spec|]. intros [err|] w2.
      * intros (-> & k & Hk & H2). apply wp_bind. eapply wp_mono; [apply Close_spec|]. intros ? w3 H3. apply wp_ret, wp_ret.
        eexists. split; [exact (ext_trans _ _ _ _ _ H1 (ext_trans _ _ _ _ _ H2 H3))|]. by constructor.
      * intros (k & Hk & H2). apply wp_bind. eapply wp_mono; [apply Poll14_spec|]. intros [s|] w3.
        -- intros (j & Hj & H3). apply wp_ret, wp_bind. eapply wp_mono; [apply run_restore_spec|].
           intros err w4 (o & -> & H4). apply wp_bind. eapply wp_mono; [apply Close_spec|]. intros ? w5 H5. apply wp_ret.
           eexists. split; [exact (ext_trans _ _ _ _ _ H1 (ext_trans _ _ _ _ _ H2 (ext_trans _ _ _ _ _ H3 (ext_trans _ _ _ _ _ H4 H5))))|].
           rewrite <-!app_assoc. unfold restore_args. by constructor.
        -- intros (j & Hj & H3). apply wp_bind. eapply wp_mono; [apply Close_spec|]. intros ? w4 H4. apply wp_ret, wp_ret.
           eexists. split; [exact (ext_trans _ _ _ _ _ H1 (ext_trans _ _ _ _ _ H2 (ext_trans _ _ _ _ _ H3 H4)))|].
           rewrite <-!app_assoc. by constructor.
    + apply wp_bind. eapply wp_mono; [apply Close_spec|]. intros ? w2 H2. apply wp_ret, wp_ret.
      eexists. split; [exact (ext_trans _ _ _ _ _ H1 H2)|]. constructor.
  - assert ((length (restoreWaitFlag h) =? 0)%nat = false) as -> by (by destruct (restoreWaitFlag h)).
    eapply wp_mono; [apply run_restore_spec|]. intros err w' (o & -> & H). eexists. split; [exact H|]. split; [done|eauto].
Qed.
End locks.

(** The lock file is busy twice, the socket once. *)
Definition ex_answers : Answers := {|
  an_open _ := OK 3%Z;
  an_flock n := if (n <? 3)%nat then Some "resource temporarily unavailable" else None;
  an_listen n := if (n <? 5)%nat then Err "address already in use" else OK 4%Z;
  an_close _ := None; an_ticks _ := 9%nat;
  an_command _ := ("", None);
|}.
Definition ex_restorer : runner World :=
  {| protocol := ProtocolIpv4; hasCheck := true; waitFlag := ["-w2"]; restoreWaitFlag := [];
     lockfilePath := LockfilePath16x; reloadFuncs := []; signal := None |}.

Lemma restore_locks_bounded_witness :
  let AN := ex_answers in
  wp (RestoreAll ex_restorer "COMMIT" false true) (λ err w', ∃ t, events w' = t ∧
    restore_trace 10 LockfilePath16x ["--noflush"; "--counters"] "COMMIT" err t) {| asked := 0; events := [] |}.
Proof.
  intros AN. unfold RestoreAll. eapply wp_mono; [apply (restore_locks_bounded (AN := ex_answers) 10)|].
  - intros n. simpl. lia.
  - intros err w' (t & Ht & H). exists t. split; [exact Ht|exact H].
Defined.
