(* ===== verification/FakeIptables.v ===== *)
(** * The fake iptables (pkg/util/iptables/testing)

    The test double of the runner's interface: it keeps the last text restored
    and answers every other operation with success. [GetRules] reads the rules
    of a chain back from the text. *)

From S2P Require Import Prelude Strconv GoNet Iptables.
From Stdlib Require Import Ascii.

Module FakeIptables.
Import Strings.

Definition Destination := "-d ".
Definition Source := "-s ".
Definition DPort := "--dport ".
Definition Protocol := "-p ".
Definition Jump := "-j ".
Definition Reject := "REJECT".
Definition ToDest := "--to-destination ".

Abbreviation Rule := (gmap string string).

Record FakeIPTables := { Lines : string }.
Definition NewFake : FakeIPTables := {| Lines := "" |}.

Definition GetVersion : M FakeIPTables (result string) := mret (OK "0.0.0").
Definition EnsureChain (table chain : string) : M FakeIPTables (result bool) := mret (OK true).
Definition FlushChain (table chain : string) : M FakeIPTables error := mret None.
Definition DeleteChain (table chain : string) : M FakeIPTables error := mret None.
Definition EnsureRule (position : Iptables.RulePosition) (table chain : string) (args : list string)
  : M FakeIPTables (result bool) := mret (OK true).
Definition DeleteRule (table chain : string) (args : list string) : M FakeIPTables error := mret None.
Definition IsIpv6 : M FakeIPTables bool := mret false.
Definition Save (table : string) : M FakeIPTables (result string) := l ← gets Lines; mret (OK l).
Definition SaveInto (table buffer : string) : M FakeIPTables (string * error) :=
  l ← gets Lines; mret (buffer +:+ l, None).
Definition RestoreTable (table data : string) (flush counters : bool) : M FakeIPTables error := mret None.
Definition RestoreAll (data : string) (flush counters : bool) : M FakeIPTables error :=
  modify (λ _, {| Lines := data |}) ;; mret None.
Definition AddReloadFunc : M FakeIPTables unit := mret tt.
Definition Destroy : M FakeIPTables unit := mret tt.

(** [strings.Split] for a separator that is not empty: [skip] bytes of one are
    still to be passed over, [acc] is the token so far. *)
Fixpoint split_from (sep : string) (skip : nat) (acc s : string) : list string :=
  match s with
  | EmptyString => [acc]
  | String c s' =>
      match skip with
      | S k => split_from sep k acc s'
      | O => if HasPrefix s sep then acc :: split_from sep (String.length sep - 1) "" s'
             else split_from sep 0 (acc +:+ String c "") s'
      end
  end.

Definition getToken (line separator : string) : string :=
  match split_from separator 0 "" line with
  | [_; t] => hd "" (split_from " " 0 "" t)
  | _ => ""
  end.

Definition add_token (l : string) (newRule : Rule) (arg : string) : Rule :=
  let tok := getToken l arg in
  if decide (tok = "") then newRule else <[arg := tok]> newRule.

Definition GetRules (chainName : string) : M FakeIPTables (list Rule) :=
  lines ← gets Lines;
  mret (omap (λ l,
    if Contains l ("-A " +:+ chainName) then
      Some (foldl (add_token l) ∅ [Destination; Source; DPort; Protocol; Jump; ToDest])
    else None) (Split lines Iptables.newline)).

(** [var _ = iptables.Interface(&FakeIPTables{})]. *)
#[export] Instance fake_iptables_Interface : Iptables.Interface FakeIPTables := {|
  Iptables.Reload := unit;
  Iptables.i_GetVersion := GetVersion;
  Iptables.i_EnsureChain := EnsureChain;
  Iptables.i_FlushChain := FlushChain;
  Iptables.i_DeleteChain := DeleteChain;
  Iptables.i_EnsureRule := EnsureRule;
  Iptables.i_DeleteRule := DeleteRule;
  Iptables.i_IsIpv6 := IsIpv6;
  Iptables.i_SaveInto := SaveInto;
  Iptables.i_Restore := RestoreTable;
  Iptables.i_RestoreAll := RestoreAll;
  Iptables.i_AddReloadFunc _ := AddReloadFunc;
  Iptables.i_Destroy := Destroy;
|}.

(** ** What is restored is what is read *)
Lemma restored_saved data flush counters table buffer f :
  wp (RestoreAll data flush counters ;; SaveInto table buffer) (λ o _, o = (buffer +:+ data, None)) f.
Proof. apply wp_bind, wp_bind, wp_modify, wp_ret, wp_bind, wp_gets, wp_ret. done. Qed.

Lemma split_skip sep t s acc : split_from sep (String.length t) acc (t +:+ s) = split_from sep 0 acc s.
Proof. induction t as [|c t IH]; [done|]. rewrite StringFacts.sapp_cons. apply IH. Qed.

Lemma split_from_cons sep k acc s : ∃ x l, split_from sep k acc s = x :: l.
Proof.
  revert k acc. induction s as [|c s IH]; intros k acc; cbn [split_from]; [eauto|]. destruct k; [|apply IH].
  destruct (HasPrefix _ _); [eauto|apply IH].
Qed.

(** The pieces put together again are the text. *)
Lemma split_from_concat sep s : sep ≠ "" → ∀ acc, String.concat sep (split_from sep 0 acc s) = acc +:+ s.
Proof.
  intros Hsep. remember (String.length s) as n eqn:Hn. revert s Hn.
  induction (lt_wf n) as [n _ IH]. intros s -> acc. destruct s as [|c s]; [by rewrite StringFacts.string_app_nil_r|].
  cbn [split_from]. destruct (HasPrefix (String c s) sep) eqn:E.
  - destruct (StringFacts.HasPrefix_inv _ _ E) as [r Hr]. destruct sep as [|c' sep']; [done|]. rewrite StringFacts.sapp_cons in Hr.
    injection Hr as <- ->. cbn [String.length]. rewrite Nat.sub_succ, Nat.sub_0_r, split_skip.
    assert (String.concat (String c sep') (split_from (String c sep') 0 "" r) = "" +:+ r) as Hrest.
    { apply (IH (String.length r)); [|done]. cbn [String.length]. clear. induction sep' as [|d sep' IH]; rewrite ?StringFacts.sapp_nil, ?StringFacts.sapp_cons;
        cbn [String.length]; lia. }
    destruct (split_from_cons (String c sep') 0 "" r) as (x & l & Ex). rewrite Ex in Hrest |- *.
    cbn [String.concat]. cbn [String.concat] in Hrest. rewrite Hrest. by rewrite StringFacts.sapp_nil.
  - rewrite (IH (String.length s)); [|cbn; lia|done]. by rewrite <-StringFacts.sapp_assoc.
Qed.

(** A rule read back. *)
Example ex_rules :
  fst (GetRules "KUBE-FW" {| Lines := "-A KUBE-FW -s 10.0.0.0/8 -j KUBE-MARK" |}) =
  Ret [{["-s " := "10.0.0.0/8"; "-j " := "KUBE-MARK"]} : Rule].
Proof. by vm_compute. Qed.
End FakeIptables.
