(* ===== verification/Async.v ===== *)
(** * Runners (pkg/util/async)

    [BoundedFrequencyRunner] as operations on one state that holds the runner,
    its timer and the clock; the rate limiter of client-go is a parameter. The
    other goroutines act through [env_event]s, which may come at any moment
    between the runner's steps and while its function runs. [Runner] starts and
    stops a group of goroutines. *)

From S2P Require Import Prelude GoNet GoTime.

Module Async.
Import GoTime.

(** ** Timers

    A [time.Timer]: when it fires, and whether its channel holds a tick. A timer
    that was stopped or reset keeps a tick already sent. *)
Record Timer := { deadline : option Time; tick : bool }.
Definition timer_Reset (now : Time) (d : Duration) (t : Timer) : Timer :=
  {| deadline := Some (if (d <=? 0)%Z then now else now + d)%Z; tick := tick t |}.
Definition timer_Stop (t : Timer) : Timer := {| deadline := None; tick := tick t |}.

(** ** The rate limiter

    [flowcontrol.NewTokenBucketRateLimiterWithClock], which panics for a rate it
    cannot have, and the methods of what it makes. *)
Class RateLimiter (L : Type) := {
  NewTokenBucket : float32 → Z → Time → outcome L;       (* qps, burst, the clock's time *)
  bucket_TryAccept : Time → L → bool * L;
  bucket_Stop : L → L;
}.

(** [rateLimiter]: the bucket, or [nullLimiter]. *)
Inductive limiter_t (L : Type) := nullLimiter | bucket (l : L).
Arguments nullLimiter {L}.
Arguments bucket {L} l.

Section runner.
Context {L : Type} `{RL : RateLimiter L}.

Definition TryAccept (now : Time) (l : limiter_t L) : bool * limiter_t L :=
  match l with
  | nullLimiter => (true, nullLimiter)
  | bucket l => let '(ok, l) := bucket_TryAccept now l in (ok, bucket l)
  end.
Definition limiter_Stop (l : limiter_t L) : limiter_t L :=
  match l with nullLimiter => nullLimiter | bucket l => bucket (bucket_Stop l) end.

(** ** The runner, and the clock. [starts] remembers when the function started
    and ended, last first. *)
Record BoundedFrequencyRunner := {
  name : string;
  minInterval : Duration;
  maxInterval : Duration;
  run : bool;                       (* the channel, of capacity 1 *)
  lastRun : Time;
  timer : Timer;
  limiter : limiter_t L;
  now : Time;
  looping : bool;                   (* Loop is running *)
  starts : list (Time * Time);
}.
Abbreviation bfr := BoundedFrequencyRunner.

Definition with_run (r : bool) (b : bfr) : bfr :=
  {| name := name b; minInterval := minInterval b; maxInterval := maxInterval b; run := r; lastRun := lastRun b;
     timer := timer b; limiter := limiter b; now := now b; looping := looping b; starts := starts b |}.
Definition with_timer (f : Timer → Timer) (b : bfr) : bfr :=
  {| name := name b; minInterval := minInterval b; maxInterval := maxInterval b; run := run b; lastRun := lastRun b;
     timer := f (timer b); limiter := limiter b; now := now b; looping := looping b; starts := starts b |}.
Definition with_limiter (l : limiter_t L) (b : bfr) : bfr :=
  {| name := name b; minInterval := minInterval b; maxInterval := maxInterval b; run := run b; lastRun := lastRun b;
     timer := timer b; limiter := l; now := now b; looping := looping b; starts := starts b |}.
Definition with_now (t : Time) (b : bfr) : bfr :=
  {| name := name b; minInterval := minInterval b; maxInterval := maxInterval b; run := run b; lastRun := lastRun b;
     timer := timer b; limiter := limiter b; now := t; looping := looping b; starts := starts b |}.
Definition with_looping (l : bool) (b : bfr) : bfr :=
  {| name := name b; minInterval := minInterval b; maxInterval := maxInterval b; run := run b; lastRun := lastRun b;
     timer := timer b; limiter := limiter b; now := now b; looping := l; starts := starts b |}.
(** The function, started at [t], returned. *)
Definition with_lastRun (t : Time) (b : bfr) : bfr :=
  {| name := name b; minInterval := minInterval b; maxInterval := maxInterval b; run := run b; lastRun := now b;
     timer := timer b; limiter := limiter b; now := now b; looping := looping b; starts := (t, now b) :: starts b |}.

(** [timer = nil] is [None]; [t0] is the time. *)
Definition construct (name : string) (minInterval maxInterval : Duration) (burstRuns : Z)
    (timer : option Timer) (t0 : Time) : outcome bfr :=
  if (maxInterval <? minInterval)%Z then
    Panic (name +:+ ": maxInterval (" +:+ Duration_String minInterval +:+ ") must be >= minInterval (" +:+
           Duration_String maxInterval +:+ ")")
  else
    match timer with
    | None => Panic (name +:+ ": timer must be non-nil")
    | Some timer =>
        let bfr limiter := {|
          name := name; minInterval := minInterval; maxInterval := maxInterval; run := false; lastRun := 0;
          timer := timer; limiter := limiter; now := t0; looping := false; starts := [] |} in
        if (minInterval =? 0)%Z then Ret (bfr nullLimiter)
        else
          match NewTokenBucket (qps minInterval) burstRuns t0 with
          | Panic msg => Panic msg
          | Ret l => Ret (bfr (bucket l))
          end
    end.

(** The timer's first tick is consumed. *)
Definition NewBoundedFrequencyRunner (name : string) (minInterval maxInterval : Duration) (burstRuns : Z)
    (t0 : Time) : outcome bfr :=
  construct name minInterval maxInterval burstRuns (Some {| deadline := None; tick := false |}) t0.

(** [Run]: a request is dropped when one is queued already. *)
Definition Run : M bfr unit := modify (with_run true).

(** What the other goroutines and the run time do: time passes, a timer that is
    due fires, [Run] is called. *)
Inductive env_event := Elapse (d : nat) | Fire | Request.
Definition fire (b : bfr) : bfr :=
  match deadline (timer b) with
  | Some t => if (t <=? now b)%Z then with_timer (λ _, {| deadline := None; tick := true |}) b else b
  | None => b
  end.
Definition env_step (e : env_event) : M bfr unit :=
  match e with
  | Elapse d => modify (λ b, with_now (now b + Z.of_nat d)%Z b)
  | Fire => modify fire
  | Request => Run
  end.

(** [fn] with what happens while it runs. *)
Definition fn (during : list env_event) : M bfr unit := for_each during env_step.

Definition timer_reset (d : Duration) : M bfr unit :=
  modify (λ b, with_timer (timer_Reset (now b) d) b).

(** The clock stands still in [tryRun] except while the function runs. *)
Definition tryRun (during : list env_event) : M bfr unit :=
  b ← get;
  let '(accepted, l) := TryAccept (now b) (limiter b) in
  modify (with_limiter l) ;;
  if accepted : bool then
    fn during ;;
    modify (with_lastRun (now b)) ;;
    modify (with_timer timer_Stop) ;;
    timer_reset (maxInterval b)
  else
    let elapsed := Sub (now b) (lastRun b) in
    let nextPossible := int64 (minInterval b - elapsed)%Z in
    let nextScheduled := int64 (maxInterval b - elapsed)%Z in
    if (nextPossible <? nextScheduled)%Z then
      modify (with_timer timer_Stop) ;;
      timer_reset nextPossible
    else mret tt.

Definition stop : M bfr unit :=
  modify (λ b, with_limiter (limiter_Stop (limiter b)) b) ;;
  modify (with_timer timer_Stop).

(** ** Loop: its start, and one round of the select, which takes any case that
    is ready. *)
Inductive select_case := Stopped | Tick (during : list env_event) | Requested (during : list env_event).

Definition Loop_start : M bfr unit :=
  b ← get; timer_reset (maxInterval b) ;; modify (with_looping true).

Definition ready (c : select_case) (b : bfr) : bool :=
  looping b && match c with Stopped => true | Tick _ => tick (timer b) | Requested _ => run b end.
Definition Loop_select (c : select_case) : M bfr unit :=
  match c with
  | Stopped => stop ;; modify (with_looping false)
  | Tick during =>
      modify (with_timer (λ t, {| deadline := deadline t; tick := false |})) ;; tryRun during
  | Requested during => modify (with_run false) ;; tryRun during
  end.

(** ** The states that occur *)
Definition runs_to {A} (c : M bfr A) (b b' : bfr) : Prop := ∃ a, c b = (Ret a, b').

Inductive reach (b0 : bfr) : bfr → Prop :=
| reach_start b : runs_to Loop_start b0 b → reach b0 b
| reach_env b e b' : reach b0 b → runs_to (env_step e) b b' → reach b0 b'
| reach_loop b c b' : reach b0 b → ready c b = true → runs_to (Loop_select c) b b' → reach b0 b'.
End runner.
Arguments BoundedFrequencyRunner L : clear implicits.

(** ** Runner: goroutines started and stopped together *)
Record Group := {
  loopFuncs : list nat;             (* the functions *)
  stop_ch : option nat;
  next_ch : nat;                    (* channels made so far *)
  closed : gset nat;
  started : list (nat * nat);       (* goroutines: the function and its channel *)
}.

Definition NewRunner (fs : list nat) : Group :=
  {| loopFuncs := fs; stop_ch := None; next_ch := 0; closed := ∅; started := [] |}.

Definition Start : M Group unit :=
  r ← get;
  match stop_ch r with
  | Some _ => mret tt
  | None =>
      let c := next_ch r in
      modify (λ r, {| loopFuncs := loopFuncs r; stop_ch := Some c; next_ch := S c; closed := closed r; started := started r |}) ;;
      for_each (loopFuncs r) (λ f, modify (λ r,
        {| loopFuncs := loopFuncs r; stop_ch := stop_ch r; next_ch := next_ch r; closed := closed r;
           started := started r ++ [(f, c)] |}))
  end.

Definition close_ch (c : nat) : M Group unit :=
  r ← get;
  if decide (c ∈ closed r) then panic "close of closed channel"
  else modify (λ r, {| loopFuncs := loopFuncs r; stop_ch := stop_ch r; next_ch := next_ch r;
                       closed := {[c]} ∪ closed r; started := started r |}).
Definition Stop : M Group unit :=
  r ← get;
  match stop_ch r with
  | None => mret tt
  | Some c =>
      close_ch c ;;
      modify (λ r, {| loopFuncs := loopFuncs r; stop_ch := None; next_ch := next_ch r; closed := closed r;
                      started := started r |})
  end.

(** The goroutines that were not told to stop. *)
Definition running (r : Group) : list nat := (filter (λ e, e.2 ∉ closed r) (started r)).*1.
End Async.
