(* ===== verification/AsyncClaims.v ===== *)
(** * Properties of the runners

    The bounded frequency runner under the documented behaviour of its rate
    limiter ([LimiterSpec]), and the group runner. *)

From S2P Require Import Prelude GoNet GoTime Async.
From Stdlib Require Import SpecFloat.
Import GoTime Async.

(** ** The rate limiter

    Its documentation: a call is accepted once the bucket's fill interval has
    passed since the last accepted call, [lim_wait]. The bucket makes that
    interval from the rate, a float32, and may be up to 1% off: it is not
    assumed to be minInterval, and it can be longer. *)
Class LimiterSpec (L : Type) `{RateLimiter L} := {
  last_accept : L → option Z;
  lim_wait : L → Z;
  lim_wait_duration (l : L) : (lim_wait l ≤ max_duration)%Z;
  lim_new (rate : float32) (burst t : Z) (l : L) :
    (1 ≤ burst)%Z → NewTokenBucket rate burst t = Ret l → last_accept l = None;
  lim_due (t : Z) (l : L) :
    (match last_accept l with None => True | Some t0 => t0 + lim_wait l ≤ t end)%Z → (bucket_TryAccept t l).1 = true;
  lim_last (t : Z) (l : L) :
    last_accept (bucket_TryAccept t l).2 = if (bucket_TryAccept t l).1 then Some t else last_accept l;
  lim_keeps (t : Z) (l : L) : lim_wait (bucket_TryAccept t l).2 = lim_wait l;
  lim_stops (l : L) : lim_wait (bucket_Stop l) = lim_wait l;
}.

Section bounded.
Context {L : Type} `{RL : RateLimiter L} `{LS : !LimiterSpec L}.
Abbreviation bfr := (BoundedFrequencyRunner L).
Implicit Types b : bfr.
Local Open Scope Z_scope.

(** ** What stays true *)

(** How long after an accepted call the limiter may refuse. *)
Definition limiter_wait b : Z := match limiter b with nullLimiter => 0 | bucket l => lim_wait l end.

(** The limiter does not hold back a run that is due. *)
Definition limiter_ok b : Prop :=
  match limiter b with
  | nullLimiter => True
  | bucket l => match last_accept l with None => True | Some t => t ≤ lastRun b end
  end.

Definition intervals_ok b : Prop := 0 ≤ minInterval b ∧ minInterval b ≤ maxInterval b ∧ maxInterval b ≤ max_duration.

(** A refused tick is followed by another: [tryRun] arms the timer only when
    minInterval is below maxInterval; otherwise the timer must not fire while
    the limiter still refuses. *)
Definition rearms b : Prop := minInterval b < maxInterval b ∨ limiter_wait b ≤ minInterval b.

Definition basic b : Prop := intervals_ok b ∧ rearms b ∧ limiter_ok b ∧ 0 ≤ lastRun b ≤ now b.

(** Constants of the runner. *)
Definition same_config b b' : Prop :=
  minInterval b' = minInterval b ∧ maxInterval b' = maxInterval b ∧ limiter_wait b' = limiter_wait b.

(** The timer while Loop runs: never lost, never later than [lim], and never
    before minInterval has passed. *)
Definition timer_by (lim : Z) b : Prop :=
  match deadline (timer b) with
  | Some t => lastRun b + minInterval b ≤ t ≤ lim
  | None => tick (timer b) = true ∧ lastRun b + minInterval b ≤ now b
  end.

(** The next periodic run, for Loop started at [t0]. *)
Definition due (t0 : Z) b : Z := Z.max (now b) (Z.max (lastRun b) t0 + maxInterval b).
Definition timer_ok (t0 : Z) b : Prop := timer_by (due t0 b) b.

(** ** What happens while the function runs *)
Definition frame b b' : Prop :=
  minInterval b' = minInterval b ∧ maxInterval b' = maxInterval b ∧ lastRun b' = lastRun b ∧
  limiter b' = limiter b ∧ looping b' = looping b ∧ starts b' = starts b ∧ now b ≤ now b'.

Lemma frame_refl b : frame b b.
Proof. unfold frame. split_and!; done || lia. Qed.
Lemma frame_trans b1 b2 b3 : frame b1 b2 → frame b2 b3 → frame b1 b3.
Proof. unfold frame. intros (?&?&?&?&?&?&?) (?&?&?&?&?&?&?). split_and!; congruence || lia. Qed.

Lemma env_step_frame e b : wp (env_step e) (λ _ b', frame b b') b.
Proof.
  destruct e as [d| |]; apply wp_modify; unfold frame.
  - cbn. split_and!; done || lia.
  - unfold fire. destruct (deadline (timer b)); [case_match|]; cbn; split_and!; done || lia.
  - cbn. split_and!; done || lia.
Qed.

Lemma fn_frame during b : wp (fn during) (λ _ b', frame b b') b.
Proof.
  apply (wp_for_each_inv (frame b)); [apply frame_refl|]. intros e b1 _ H1.
  eapply wp_mono; [apply env_step_frame|]. intros [] b2 H2. by eapply frame_trans.
Qed.

Lemma frame_basic b b' : frame b b' → basic b → basic b'.
Proof.
  intros (Hmin & Hmax & Hl & Hlim & _ & _ & Hn) ((?&?&?) & Hr & H2 & ?).
  unfold basic, intervals_ok, rearms, limiter_wait, limiter_ok in *. rewrite Hmin, Hmax, Hl, Hlim. split_and!; done || lia.
Qed.

Lemma env_step_timer t0 e b :
  basic b → timer_ok t0 b → wp (env_step e) (λ _ b', timer_ok t0 b') b.
Proof.
  intros (_ & _ & _ & Hn) Ht. unfold timer_ok, timer_by in *. destruct e as [d| |]; apply wp_modify.
  - cbn. destruct (deadline (timer b)) as [t|]; unfold due in *; cbn in *; lia || (destruct Ht; split; done || lia).
  - unfold fire. destruct (deadline (timer b)) as [t|] eqn:E; [destruct (Z.leb_spec t (now b))|]; cbn; rewrite ?E; [|done..].
    split; [done|lia].
  - cbn. destruct (deadline (timer b)); [exact Ht|done].
Qed.

(** ** A try *)
Lemma limiter_accepts b :
  limiter_ok b → lastRun b + limiter_wait b ≤ now b → (TryAccept (now b) (limiter b)).1 = true.
Proof.
  unfold limiter_ok, limiter_wait, TryAccept. destruct (limiter b) as [|l]; [done|]. intros Hl Hn.
  pose proof (lim_due (now b) l) as H. destruct (bucket_TryAccept (now b) l). apply H.
  destruct (last_accept l); [lia|done].
Qed.

Lemma limiter_after b b' ok l :
  limiter_ok b → TryAccept (now b) (limiter b) = (ok, l) → limiter b' = l →
  (if ok then now b ≤ lastRun b' else lastRun b' = lastRun b) → limiter_ok b' ∧ limiter_wait b' = limiter_wait b.
Proof.
  unfold limiter_ok, limiter_wait, TryAccept. intros Hok Hacc -> Hl.
  destruct (limiter b) as [|l0]; [by injection Hacc as _ <-|].
  pose proof (lim_last (now b) l0) as H1. pose proof (lim_keeps (now b) l0) as H2.
  destruct (bucket_TryAccept (now b) l0) as [ok' l1]. injection Hacc as -> <-. cbn [fst snd] in *.
  split; [|done]. rewrite H1. destruct ok; [done|]. destruct (last_accept l0); [lia|done].
Qed.
Lemma limiter_wait_small b : limiter_wait b ≤ max_duration.
Proof. unfold limiter_wait. destruct (limiter b); [by unfold max_duration|apply lim_wait_duration]. Qed.

(** The two outcomes of [tryRun]. *)
Definition ran b b' : Prop :=
  starts b' = (now b, now b') :: starts b ∧ lastRun b' = now b' ∧ now b ≤ now b' ∧
  deadline (timer b') = Some (now b' + maxInterval b).
Definition throttled b b' : Prop :=
  now b < lastRun b + limiter_wait b ∧ starts b' = starts b ∧ lastRun b' = lastRun b ∧ now b' = now b ∧
  tick (timer b') = tick (timer b) ∧
  deadline (timer b') =
    if minInterval b <? maxInterval b then Some (Z.max (now b) (lastRun b + minInterval b)) else deadline (timer b).

Lemma tryRun_spec during b :
  basic b → wp (tryRun during) (λ _ b', basic b' ∧ same_config b b' ∧ looping b' = looping b ∧
    (ran b b' ∨ throttled b b')) b.
Proof.
  intros Hb. assert (Hb' := Hb). destruct Hb' as ((Hmin & Hle & Hmax) & Hre & Hlim & Hnow).
  unfold tryRun. apply wp_bind, wp_get. destruct (TryAccept (now b) (limiter b)) as [ok l] eqn:Hacc.
  apply wp_bind, wp_modify. destruct ok.
  - apply wp_bind. eapply wp_mono; [apply fn_frame|]. intros [] b1 (H1&H2&H3&H4&H5&H6&H7). cbn in H1,H2,H3,H4,H5,H6,H7.
    apply wp_bind, wp_modify, wp_bind, wp_modify, wp_modify.
    assert (limiter_ok (with_lastRun (now b) b1) ∧ limiter_wait (with_lastRun (now b) b1) = limiter_wait b)
      as [Hlim' Hw] by (eapply limiter_after; [exact Hlim|exact Hacc|done|done]).
    unfold limiter_ok, limiter_wait in Hlim', Hw. cbn in Hlim', Hw.
    split_and!.
    + unfold basic, intervals_ok, rearms, limiter_wait, limiter_ok. cbn. rewrite H1, H2, Hw. split_and!; done || lia.
    + by split.
    + done.
    + left. unfold ran. cbn. rewrite H6. split_and!; [done|done|done|]. f_equal.
      destruct (Z.leb_spec (maxInterval b) 0); [lia|done].
  - assert (now b < lastRun b + limiter_wait b) as Hearly.
    { destruct (Z.lt_ge_cases (now b) (lastRun b + limiter_wait b)) as [|Hge]; [done|].
      pose proof (limiter_accepts b Hlim Hge) as H. by rewrite Hacc in H. }
    pose proof (limiter_wait_small b) as Hsmall.
    assert (limiter_ok (with_limiter l b) ∧ limiter_wait (with_limiter l b) = limiter_wait b) as [Hlim' Hw]
      by (eapply limiter_after; [exact Hlim|exact Hacc|done..]).
    cbv zeta. unfold max_duration in Hmax, Hsmall. rewrite Sub_small by (unfold max_duration; lia).
    rewrite !int64_small by (unfold min_duration, max_duration; lia).
    assert ((minInterval b - (now b - lastRun b) <? maxInterval b - (now b - lastRun b)) =
      (minInterval b <? maxInterval b)) as -> by lia.
    unfold limiter_ok, limiter_wait in Hlim', Hw. cbn in Hlim', Hw. unfold throttled.
    destruct (minInterval b <? maxInterval b) eqn:E.
    + apply wp_bind, wp_modify, wp_modify. split_and!; [|done|done|right; split_and!; try done].
      * unfold basic, intervals_ok, rearms, limiter_wait, limiter_ok. cbn. rewrite Hw. unfold max_duration. split_and!; done || lia.
      * cbn. f_equal. destruct (Z.leb_spec (minInterval b - (now b - lastRun b)) 0); lia.
    + apply wp_ret. split_and!; [|done|done|right; by split_and!].
      unfold basic, intervals_ok, rearms, limiter_wait, limiter_ok. cbn. rewrite Hw. unfold max_duration. split_and!; done || lia.
Qed.

(** After a try the timer is armed again. *)
Lemma tried_timer t0 b b' :
  basic b → same_config b b' → ran b b' ∨ throttled b b' →
  match deadline (timer b) with
  | Some t => lastRun b + minInterval b ≤ t ≤ due t0 b
  | None => lastRun b + minInterval b ≤ now b
  end → timer_ok t0 b'.
Proof.
  intros ((Hmin & Hle & Hmax) & Hre & _ & Hnow) (Hmi & Hma & _) Hor Ht. unfold timer_ok, timer_by, due in *. rewrite Hmi, Hma.
  destruct Hor as [(_ & Hl & Hn & Hd)|(Hearly & _ & Hl & Hn & Htk & Hd)]; rewrite Hd, Hl.
  - lia.
  - rewrite Hn. unfold rearms in Hre. destruct (Z.ltb_spec (minInterval b) (maxInterval b)) as [Hlt|Hge]; [lia|].
    destruct (deadline (timer b)) as [t|]; [done|lia].
Qed.

(** ** The reachable states *)
Definition inv (t0 : Z) b : Prop :=
  intervals_ok b ∧ rearms b ∧ 0 ≤ lastRun b ≤ now b ∧ (looping b = true → limiter_ok b ∧ timer_ok t0 b).

Lemma inv_basic t0 b : inv t0 b → looping b = true → basic b ∧ timer_ok t0 b.
Proof. intros (H1 & H2 & H3 & H4) Hl. destruct (H4 Hl). by split_and!. Qed.
Lemma inv_intro t0 b : basic b → timer_ok t0 b → inv t0 b.
Proof. intros (H1 & H2 & H3 & H4) Ht. do 3 (split; [done|]). by intros _. Qed.

Lemma env_step_inv t0 e b : inv t0 b → wp (env_step e) (λ _ b', inv t0 b') b.
Proof.
  intros Hinv. pose proof (env_step_frame e b) as Hf.
  destruct (looping b) eqn:Hl.
  - destruct (inv_basic t0 b Hinv Hl) as [Hb Ht]. pose proof (env_step_timer t0 e b Hb Ht) as Ht'.
    unfold wp in *. destruct (env_step e b) as [[[]|] b']; [|done].
    apply inv_intro; [by apply (frame_basic b)|done].
  - eapply wp_mono; [exact Hf|]. intros [] b' (H1&H2&H3&H4&H5&H6&H7). destruct Hinv as (Hi & Hr & Hn & _).
    unfold inv, intervals_ok, rearms, limiter_wait in *. rewrite H1, H2, H3, H4, H5, Hl. split_and!; done || lia.
Qed.

(** One round of Loop: the function ran, or the request or tick was
    throttled. *)
Definition tick_gone b : bfr := with_timer (λ t, {| deadline := deadline t; tick := false |}) b.

Lemma tick_spec t0 during b :
  basic b → timer_ok t0 b → looping b = true → tick (timer b) = true →
  wp (Loop_select (Tick during)) (λ _ b', inv t0 b' ∧ looping b' = true ∧ same_config b b' ∧
    (ran b b' ∨ throttled (tick_gone b) b')) b.
Proof.
  intros Hb Ht Hl Htick. unfold Loop_select. apply wp_bind, wp_modify. fold (tick_gone b).
  assert (basic (tick_gone b)) as Hb' by exact Hb.
  eapply wp_mono; [by apply tryRun_spec|]. intros [] b' (Hb1 & Hc & Hl1 & Hor).
  assert (timer_ok t0 b') as Ht1.
  { apply (tried_timer t0 _ _ Hb' Hc Hor). unfold timer_ok, timer_by in Ht. cbn.
    destruct (deadline (timer b)) as [t|]; [exact Ht|]. by destruct Ht. }
  cbn in Hl1. rewrite Hl in Hl1. split; [by apply inv_intro|]. by split.
Qed.

Lemma request_spec t0 during b :
  basic b → timer_ok t0 b → looping b = true →
  wp (Loop_select (Requested during)) (λ _ b', inv t0 b' ∧ looping b' = true ∧ same_config b b' ∧
    (ran b b' ∨ throttled b b')) b.
Proof.
  intros Hb Ht Hl. unfold Loop_select. apply wp_bind, wp_modify.
  assert (basic (with_run false b)) as Hb' by exact Hb.
  eapply wp_mono; [by apply tryRun_spec|]. intros [] b' (Hb1 & Hc & Hl1 & Hor).
  assert (timer_ok t0 b') as Ht1.
  { apply (tried_timer t0 _ _ Hb' Hc Hor). unfold timer_ok, timer_by in Ht. cbn.
    destruct (deadline (timer b)) as [t|]; [exact Ht|]. by destruct Ht. }
  cbn in Hl1. rewrite Hl in Hl1. split; [by apply inv_intro|]. by split.
Qed.

Lemma select_inv t0 c b :
  inv t0 b → ready c b = true → wp (Loop_select c) (λ _ b', inv t0 b') b.
Proof.
  intros Hinv Hr. unfold ready in Hr. apply andb_true_iff in Hr as [Hl Hr].
  destruct (inv_basic t0 b Hinv Hl) as [Hb Ht]. destruct c as [|during|during].
  - unfold Loop_select, stop. apply wp_bind, wp_bind, wp_modify, wp_modify, wp_modify.
    destruct Hinv as (H1 & H2 & H3 & _). split; [done|]. split; [|by split].
    unfold rearms, limiter_wait, limiter_Stop in *. cbn. destruct (limiter b); [done|]. by rewrite lim_stops.
  - eapply wp_mono; [by apply tick_spec|]. by intros [] b' (H & _).
  - eapply wp_mono; [by apply request_spec|]. by intros [] b' (H & _).
Qed.

Lemma runs_to_wp {A} (c : M bfr A) b b' (Q : bfr → Prop) : runs_to c b b' → wp c (λ _, Q) b → Q b'.
Proof. intros [a Ha] Hwp. unfold wp in Hwp. by rewrite Ha in Hwp. Qed.

(** A runner as [NewBoundedFrequencyRunner] makes it, after events [pre]. *)
Definition fresh (name : string) (min max burst t : Z) (pre : list env_event) b0 : Prop :=
  0 ≤ min ∧ max ≤ max_duration ∧ 1 ≤ burst ∧ 0 ≤ t ∧
  ∃ bc, NewBoundedFrequencyRunner name min max burst t = Ret bc ∧ runs_to (fn pre) bc b0.

Lemma new_basic name min max burst t bc :
  0 ≤ min → max ≤ max_duration → 1 ≤ burst → 0 ≤ t → NewBoundedFrequencyRunner name min max burst t = Ret bc →
  rearms bc → basic bc ∧ lastRun bc = 0 ∧ now bc = t.
Proof.
  intros Hmin Hmax Hburst Ht. unfold NewBoundedFrequencyRunner, construct. destruct (Z.ltb_spec max min); [done|].
  cbv zeta. destruct (Z.eqb_spec min 0).
  - intros [= <-] Hr. split; [|done]. split; [done|]. split; [exact Hr|]. split; [done|]. cbn. lia.
  - destruct (NewTokenBucket _ _ _) as [l|] eqn:E; [|done]. intros [= <-] Hr. split; [|done]. split; [done|].
    split; [exact Hr|]. split; [|cbn; lia]. unfold limiter_ok. cbn. by rewrite (lim_new _ _ _ _ Hburst E).
Qed.

Lemma reach_inv name min max burst t pre b0 b :
  fresh name min max burst t pre b0 → rearms b0 → reach b0 b → inv (now b0) b.
Proof.
  intros (Hmin & Hmax & Hburst & Ht & bc & Hnew & Hpre) Hr.
  assert (0 ≤ now b0 ∧ basic b0 ∧ lastRun b0 = 0) as (Hn & Hb & Hl).
  { apply (runs_to_wp _ _ _ (λ b0, rearms b0 → 0 ≤ now b0 ∧ basic b0 ∧ lastRun b0 = 0) Hpre); [|exact Hr].
    eapply wp_mono; [apply fn_frame|]. intros [] b1 Hf Hr1. assert (Hf' := Hf). destruct Hf' as (H1&H2&H3&H4&_&_&H7).
    assert (rearms bc) as Hrc by (unfold rearms, limiter_wait in *; by rewrite <-H1, <-H2, <-H4).
    destruct (new_basic _ _ _ _ _ _ Hmin Hmax Hburst Ht Hnew Hrc) as (Hbc & Hl0 & Hn0).
    split; [lia|]. split; [by apply (frame_basic _ _ Hf)|congruence]. }
  induction 1 as [b Hs|b e b' _ IH Hs|b c b' _ IH Hrd Hs]; (apply (runs_to_wp _ _ _ _ Hs)).
  - unfold Loop_start, timer_reset. apply wp_bind, wp_get, wp_bind, wp_modify, wp_modify.
    destruct Hb as ((H1 & H2 & H3) & H4 & H5 & H6). unfold inv, intervals_ok, timer_ok, timer_by, due. cbn.
    split; [done|]. split; [done|]. split; [done|]. intros _. split; [done|]. destruct (Z.leb_spec (maxInterval b0) 0); lia.
  - by apply env_step_inv.
  - by apply select_inv.
Qed.

Lemma reach_config b0 b : reach b0 b → minInterval b = minInterval b0 ∧ maxInterval b = maxInterval b0.
Proof.
  set (Q b' := minInterval b' = minInterval b0 ∧ maxInterval b' = maxInterval b0).
  induction 1 as [b Hs|b e b' _ IH Hs|b c b' _ IH Hrd Hs]; (apply (runs_to_wp _ _ _ Q Hs)).
  - by apply wp_bind, wp_get, wp_bind, wp_modify, wp_modify.
  - eapply wp_mono; [apply env_step_frame|]. intros [] b1 (H1 & H2 & _). unfold Q. by rewrite H1, H2.
  - assert (∀ during b1, Q b1 → wp (tryRun during) (λ _, Q) b1) as Htry.
    { intros during b1 H1. unfold tryRun. apply wp_bind, wp_get. destruct (TryAccept _ _) as [[] l]; apply wp_bind, wp_modify.
      - apply wp_bind. eapply wp_mono; [apply fn_frame|]. intros [] b2 (H2 & H3 & _).
        apply wp_bind, wp_modify, wp_bind, wp_modify, wp_modify. unfold Q in *. cbn in *. by rewrite H2, H3.
      - cbv zeta. case_match; [by apply wp_bind, wp_modify, wp_modify|by apply wp_ret]. }
    destruct c as [|during|during]; unfold Loop_select; apply wp_bind.
    + by apply wp_bind, wp_modify, wp_modify, wp_modify.
    + by apply wp_modify, Htry.
    + by apply wp_modify, Htry.
Qed.

(** ** Loop serves the timer *)

(** Wait for the tick. With no tick and a timer that is not armed nothing
    would ever come. *)
Definition wait_tick : M bfr unit :=
  b ← get;
  if tick (timer b) then mret tt
  else match deadline (timer b) with
       | None => panic "all goroutines are asleep - deadlock!"
       | Some t => env_step (Elapse (Z.to_nat (t - now b))) ;; env_step Fire
       end.
(** One round: Loop takes the tick [r.1] after it came; [r.2] happens while the
    function runs. *)
Definition serve (r : nat * list env_event) : M bfr unit :=
  wait_tick ;; env_step (Elapse r.1) ;; Loop_select (Tick r.2).

(** The function was called again, first at a time from now to [lim]. *)
Definition began (lim : Z) b b' : Prop := ∃ t e later, starts b' = later ++ (t, e) :: starts b ∧ now b ≤ t ≤ lim.

Lemma wait_tick_spec t0 lim b :
  inv t0 b → looping b = true → timer_by lim b → now b ≤ lim →
  wp wait_tick (λ _ b', inv t0 b' ∧ frame b b' ∧ tick (timer b') = true ∧ now b' ≤ lim ∧ timer_by lim b' ∧
    (tick (timer b) = false → lastRun b + minInterval b ≤ now b')) b.
Proof.
  intros Hinv Hl Ht Hlim. unfold wait_tick. apply wp_bind, wp_get. destruct (tick (timer b)) eqn:E.
  { apply wp_ret. split; [done|]. split; [apply frame_refl|]. by split_and!. }
  unfold timer_by in Ht. destruct (deadline (timer b)) as [t|] eqn:Ed; [|destruct Ht; congruence].
  set (n := Z.to_nat (t - now b)). set (b1 := with_now (now b + Z.of_nat n) b).
  set (b2 := with_timer (λ _, {| deadline := None; tick := true |}) b1).
  assert (inv t0 b1) as Hi1 by exact (env_step_inv t0 (Elapse n) b Hinv).
  assert (fire b1 = b2) as Hfire.
  { unfold fire. cbn [b1 with_now timer now]. rewrite Ed. subst n.
    destruct (Z.leb_spec t (now b + Z.of_nat (Z.to_nat (t - now b)))); [done|lia]. }
  assert (inv t0 (fire b1)) as Hi2 by exact (env_step_inv t0 Fire b1 Hi1).
  apply wp_bind, wp_modify, wp_modify. fold n b1. rewrite Hfire in *. split; [done|].
  unfold frame, timer_by. subst b2 b1 n. cbn. split_and!; done || lia.
Qed.

(** A refused round: later, within the limiter's wait, the tick used up and
    another to come. *)
Definition refused (lim : Z) (late : nat) b b1 : Prop :=
  starts b1 = starts b ∧ lastRun b1 = lastRun b ∧ minInterval b1 = minInterval b ∧ limiter_wait b1 = limiter_wait b ∧
  now b + Z.of_nat late ≤ now b1 < lastRun b + limiter_wait b ∧ tick (timer b1) = false ∧ timer_by lim b1 ∧
  (tick (timer b) = false → lastRun b + minInterval b + Z.of_nat late ≤ now b1).

Lemma serve_spec t0 lim late during b :
  inv t0 b → looping b = true → timer_by lim b → now b ≤ lim → lastRun b + limiter_wait b ≤ lim →
  wp (serve (late, during)) (λ _ b1, inv t0 b1 ∧ looping b1 = true ∧
    ((∃ t e, starts b1 = (t, e) :: starts b ∧ now b ≤ t ≤ lim + Z.of_nat late) ∨ refused lim late b b1)) b.
Proof.
  intros Hinv Hl Ht Hlim Hwait. unfold serve. apply wp_bind. eapply wp_mono; [by apply wait_tick_spec|].
  intros [] b' (Hinv' & (Hf1&Hf2&Hf3&Hf4&Hf5&Hf6&Hf7) & Htick & Hn & Hby & Hdue). rewrite Hl in Hf5. cbn [fst snd].
  apply wp_bind. pose proof (env_step_inv t0 (Elapse late) b' Hinv') as Hi. apply wp_modify.
  change (inv t0 (with_now (now b' + Z.of_nat late) b')) in Hi. set (b2 := with_now (now b' + Z.of_nat late) b') in *.
  destruct (inv_basic t0 b2 Hi Hf5) as [Hb Hok].
  eapply wp_mono; [by apply (tick_spec t0)|]. intros [] b1 (Hinv1 & Hl1 & (Hc1 & Hc2 & Hc3) & Hor). split_and!; [done..|].
  assert (limiter_wait b2 = limiter_wait b) as Hw by (unfold limiter_wait; cbn; by rewrite Hf4).
  destruct Hor as [(Hs & _ & Hn1 & _)|(Hearly & Hs & Hlr & Hnow & Htk & Hd)].
  - left. exists (now b2), (now b1). rewrite Hs. cbn. rewrite Hf6. split; [done|lia].
  - right. change (limiter_wait (tick_gone b2)) with (limiter_wait b2) in Hearly. rewrite Hw in Hearly.
    cbn in Hs, Hlr, Hnow, Htk, Hd, Hc1, Hearly. unfold refused. rewrite Hs, Hf6, Hlr, Hf3, Hc1, Hf1, Hc3, Hw, Hnow.
    split_and!; try done || lia.
    + unfold timer_by in *. rewrite Hd, Hlr, Hc1.
      destruct Hb as ((? & Hle & ?) & Hre & _). unfold rearms in Hre. rewrite Hw in Hre. cbn in Hle, Hre.
      destruct (Z.ltb_spec (minInterval b') (maxInterval b')) as [Hlt|Hge];
        destruct (deadline (timer b')) as [t|]; try lia.
    + intros H%Hdue. lia.
Qed.

Lemma serve_again t0 r b :
  inv t0 b → looping b = true →
  wp (serve r) (λ _ b1, inv t0 b1 ∧ looping b1 = true ∧ ∃ later, starts b1 = later ++ starts b) b.
Proof.
  intros Hinv Hl. destruct (inv_basic t0 b Hinv Hl) as [_ Ht]. destruct r as [late during].
  set (lim := Z.max (due t0 b) (lastRun b + limiter_wait b)).
  eapply wp_mono; [apply (serve_spec t0 lim); [done..| |subst lim; unfold due; lia|subst lim; lia]|].
  - unfold timer_ok, timer_by in *. destruct (deadline (timer b)); [lia|done].
  - intros [] b1 (? & ? & [(t & e & Hs & _)|(Hs & _)]); (split_and!; [done..|]); [by exists [(t, e)]|by exists []].
Qed.
Lemma began_later t0 lim rs b b1 :
  began lim b b1 → inv t0 b1 → looping b1 = true → wp (for_each rs serve) (λ _ b', began lim b b') b1.
Proof.
  intros Hbg Hinv Hl. eapply wp_mono with (Q := λ _ b', inv t0 b' ∧ looping b' = true ∧ began lim b b').
  - apply (wp_for_each_inv (λ b', inv t0 b' ∧ looping b' = true ∧ began lim b b')); [done|].
    intros r b2 _ (Hi2 & Hl2 & t & e & later & Hs2 & Ht). eapply wp_mono; [by apply (serve_again t0)|].
    intros [] b3 (Hi3 & Hl3 & later' & Hs3). split_and!; [done..|]. exists t, e, (later' ++ later).
    by rewrite Hs3, Hs2, app_assoc.
  - by intros [] b' (_ & _ & H).
Qed.

(** The rounds of a Loop that is never more than [m] late, and always some. *)
Definition rounds_ok (m : nat) (rs : list (nat * list env_event)) : Prop := Forall (λ r, 1 ≤ r.1 ≤ m)%nat rs.

Lemma serve_until t0 m lim rs b :
  rounds_ok m rs → inv t0 b → looping b = true → timer_by lim b → now b ≤ lim → lastRun b + limiter_wait b ≤ lim →
  (1 ≤ length rs)%nat →
  (if tick (timer b) then 1 + Z.max 1 (limiter_wait b - minInterval b) ≤ Z.of_nat (length rs)
   else lastRun b + limiter_wait b ≤ Z.max (now b) (lastRun b + minInterval b) + Z.of_nat (length rs)) →
  wp (for_each rs serve) (λ _ b', began (lim + Z.of_nat m) b b') b.
Proof.
  intros Hrs. revert b. induction Hrs as [|[late during] rs Hlate _ IH]; intros b Hinv Hl Ht Hlim Hwait Hlen Hk; [cbn in Hlen; lia|].
  cbn [fst] in Hlate. cbn [length] in Hk. cbn [for_each]. apply wp_bind. eapply wp_mono; [by apply (serve_spec t0 lim)|].
  intros [] b1 (Hinv1 & Hl1 & [(t & e & Hs & Hle)|(Hs & Hlr & Hmi & Hw & Hnow & Htick & Hby & Hn)]).
  - apply (began_later t0); [|done..]. exists t, e, []. split; [done|lia].
  - eapply wp_mono; [apply IH; rewrite ?Htick, ?Hlr, ?Hw, ?Hmi; try done || lia|].
    + destruct (tick (timer b)); lia.
    + destruct (tick (timer b)); lia.
    + intros [] b' (t & e & later & Hs' & Hle). exists t, e, later. rewrite Hs', Hs. split; [done|lia].
Qed.

(** C21: The function runs at least once per maxInterval. Take a runner made with
    sane intervals, with minInterval below maxInterval or a limiter that never
    waits longer than minInterval (otherwise a refused tick is not followed by
    another), in any state that Loop reaches, whatever the other goroutines do
    before, between and during the rounds. If Loop then serves the timer round
    after round, each time some nanoseconds late, but at most [m], the function
    is started again, no later than [m] after the periodic run is due:
    maxInterval after the end of the last run or after the start of Loop, or at
    once when that has passed, or when the limiter lets it if that is later. A
    stale tick is refused at most once; besides, one round is refused per
    nanosecond that the limiter waits longer than minInterval. The wait is the
    limiter's own: for 30s it is 30.000001788s, as its rate is a float32. *)
Theorem runs_periodically (name : string) (min max burst t : Z) (pre : list env_event) (m : nat)
    (rs : list (nat * list env_event)) (b0 b : bfr) :
  fresh name min max burst t pre b0 → rearms b0 → reach b0 b → looping b = true →
  rounds_ok m rs → 1 + Z.max 1 (limiter_wait b - minInterval b) ≤ Z.of_nat (length rs) →
  let lim := Z.max (Z.max (now b) (Z.max (lastRun b) (now b0) + maxInterval b)) (lastRun b + limiter_wait b) in
  wp (for_each rs serve) (λ _ b', began (lim + Z.of_nat m) b b') b.
Proof using LS.
  intros Hf Hre Hr Hl Hrs Hlen lim. pose proof (reach_inv _ _ _ _ _ _ _ _ Hf Hre Hr) as Hinv.
  destruct (inv_basic _ _ Hinv Hl) as [_ Ht]. apply (serve_until (now b0)); try done; [|subst lim; lia..|].
  - unfold timer_ok, due, timer_by in *. destruct (deadline (timer b)); [lia|done].
  - destruct (tick (timer b)); lia.
Qed.

(** C22: A request to run is honoured as soon as the limiter allows. When Loop
    takes a request that was queued by [Run], in any state it reaches, with
    minInterval below maxInterval, either the function is started at once, or
    the limiter refuses it, which it does only within its wait after the last
    run; then serving the timer starts the function, no later than [m], the
    lateness of the rounds, after minInterval and the limiter's wait have both
    passed since the end of the last run. *)
Theorem request_served (name : string) (min max burst t : Z) (pre during : list env_event) (m : nat)
    (rs : list (nat * list env_event)) (b0 b : bfr) :
  fresh name min max burst t pre b0 → reach b0 b → ready (Requested during) b = true → minInterval b0 < maxInterval b0 →
  rounds_ok m rs → 1 + Z.max 1 (limiter_wait b - minInterval b) ≤ Z.of_nat (length rs) →
  wp (Loop_select (Requested during)) (λ _ b1,
    began (now b) b b1 ∨
    starts b1 = starts b ∧ now b1 = now b ∧ now b < lastRun b + limiter_wait b ∧
    let lim := lastRun b + Z.max (minInterval b) (limiter_wait b) in
    wp (for_each rs serve) (λ _ b2, began (lim + Z.of_nat m) b b2) b1) b.
Proof using LS.
  intros Hf Hr Hready Hlt Hrs Hlen. pose proof (reach_inv _ _ _ _ _ _ _ _ Hf (or_introl Hlt) Hr) as Hinv.
  unfold ready in Hready. apply andb_true_iff in Hready as [Hl Hrun].
  destruct (inv_basic _ _ Hinv Hl) as [Hb Ht]. destruct (reach_config _ _ Hr) as [Emin Emax].
  eapply wp_mono; [by apply (request_spec (now b0))|].
  intros [] b1 (Hinv1 & Hl1 & (Hc & _ & Hw) & [(Hs & _ & Hn & _)|(Hearly & Hs & Hlr & Hn & Htk & Hd)]).
  - left. exists (now b), (now b1), []. split; [done|lia].
  - right. split; [done|]. split; [done|]. split; [done|]. cbv zeta.
    eapply wp_mono; [apply (serve_until (now b0) m (lastRun b + Z.max (minInterval b) (limiter_wait b)) rs b1); try done|].
    + unfold timer_by. rewrite Hd, Hlr, Hc. destruct (Z.ltb_spec (minInterval b) (maxInterval b)); lia.
    + lia.
    + lia.
    + lia.
    + rewrite Htk, Hlr, Hn, Hc, Hw. cbn. destruct (tick (timer b)); lia.
    + unfold began. rewrite Hs, Hn. by intros [] b2 H.
Qed.
End bounded.

(** ** A limiter with one token

    Its fill interval is a second over the rate, in nanoseconds, as the
    vendored bucket computes it; a rate that is not positive has none. *)
Definition OneToken : Type := Z * option Z.
Definition fill_interval (rate : float32) : option Z :=
  match rate with
  | S754_finite false m e =>
      Some (Z.min max_duration (if (e <? 0)%Z then Second * 2 ^ (- e) / Zpos m else Second / (Zpos m * 2 ^ e)))%Z
  | _ => None
  end.
#[export] Instance one_token : RateLimiter OneToken := {|
  NewTokenBucket rate _ _ :=
    match fill_interval rate with Some d => Ret (d, None) | None => Panic "cannot find suitable quantum" end;
  bucket_TryAccept t l :=
    match l.2 with
    | Some t0 => if (t0 + Z.min max_duration l.1 <=? t)%Z then (true, (l.1, Some t)) else (false, l)
    | None => (true, (l.1, Some t))
    end;
  bucket_Stop l := l;
|}.
#[export] Instance one_token_spec : LimiterSpec OneToken.
Proof.
  refine {| last_accept l := l.2; lim_wait l := Z.min max_duration l.1 |}; try done.
  - intros l. lia.
  - intros rate burst t l _. cbn. by destruct (fill_interval rate); intros [= <-].
  - intros t [i [t0|]]; [|done]. cbn. intros H. by destruct (Z.leb_spec (t0 + Z.min max_duration i) t); [|lia].
  - intros t [i [t0|]]; [|done]. cbn. by case_match.
  - intros t [i [t0|]]; [|done]. cbn. by case_match.
Defined.

(** 30 seconds as a rate, and back. *)
Example fill_30s : fill_interval (qps (30 * Second)) = Some 30000001788%Z.
Proof. vm_compute. reflexivity. Qed.
Example fill_negative : fill_interval (qps (- Second)) = None.
Proof. reflexivity. Qed.

(** Between half a minute and a minute, requested twice, with a run of 4ns. *)
Definition ex_of (max : Z) : BoundedFrequencyRunner OneToken :=
  {| name := "sync"; minInterval := 30000000000; maxInterval := max; run := false; lastRun := 0;
     timer := {| deadline := None; tick := false |}; limiter := bucket (30000001788, None)%Z; now := 100; looping := false;
     starts := [] |}.
Definition ex_new : BoundedFrequencyRunner OneToken := ex_of 60000000000.
Definition final {A} (c : M (BoundedFrequencyRunner OneToken) A) (b : BoundedFrequencyRunner OneToken) := (c b).2.
Definition ex_started := final Loop_start ex_new.
Definition ex_requested := final (env_step Request) ex_started.
Definition ex_ran := final (Loop_select (Requested [Elapse 4])) ex_requested.
Definition ex_again := final (env_step Request) (final (env_step (Elapse 1)) ex_ran).

Lemma ex_fresh : fresh "sync" 30000000000 60000000000 1 100 [] ex_new.
Proof. unfold fresh, max_duration. split_and!; try lia. exists ex_new. split; [vm_compute; reflexivity|by exists tt]. Qed.
Lemma ex_reach : reach ex_new ex_ran.
Proof.
  apply (reach_loop _ ex_requested (Requested [Elapse 4])); [|reflexivity|by exists tt].
  apply (reach_env _ ex_started Request); [|by exists tt]. apply reach_start. by exists tt.
Qed.
(** Every round is 5ns late. *)
Definition ex_rounds : list (nat * list env_event) := replicate 1789 (5%nat, [Request]).
Lemma ex_rounds_ok : rounds_ok 5 ex_rounds.
Proof. apply Forall_replicate. cbn. lia. Qed.

Lemma ex_rounds_enough : (1 + Z.max 1 (30000001788 - 30000000000) ≤ Z.of_nat (length ex_rounds))%Z.
Proof. unfold ex_rounds. rewrite length_replicate. vm_compute. discriminate. Qed.

Lemma runs_periodically_witness :
  wp (for_each ex_rounds serve) (λ _ b', began 60000000109 ex_ran b') ex_ran.
Proof.
  pose proof (runs_periodically "sync" 30000000000 60000000000 1 100 [] 5 ex_rounds ex_new ex_ran ex_fresh
    (or_introl eq_refl) ex_reach eq_refl ex_rounds_ok ex_rounds_enough) as H. cbv zeta in H.
  match type of H with context [began ?l] => change l with 60000000109%Z in H end. exact H.
Defined.

Lemma ex_reach_again : reach ex_new ex_again.
Proof.
  apply (reach_env _ (final (env_step (Elapse 1)) ex_ran) Request); [|by exists tt].
  apply (reach_env _ ex_ran (Elapse 1)); [exact ex_reach|by exists tt].
Qed.

Lemma request_served_witness :
  wp (Loop_select (Requested [])) (λ _ b1, began 105 ex_again b1 ∨
    starts b1 = starts ex_again ∧ now b1 = 105%Z ∧
    wp (for_each ex_rounds serve) (λ _ b2, began 30000001897 ex_again b2) b1) ex_again.
Proof.
  pose proof (request_served "sync" 30000000000 60000000000 1 100 [] [] 5 ex_rounds ex_new ex_again ex_fresh ex_reach_again
    eq_refl eq_refl ex_rounds_ok ex_rounds_enough) as H. cbv zeta in H.
  match type of H with context [began (?l + ?m)%Z] => change (l + m)%Z with 30000001897%Z in H end.
  eapply wp_mono; [exact H|]. intros [] b1 [Hb|(H1 & H2 & _ & H3)]; [left; exact Hb|right].
  split; [exact H1|]. split; [exact H2|exact H3].
Defined.

(** With equal intervals and a limiter that waits a little longer, the periodic
    tick is refused and no other follows: Loop waits for nothing, until a
    request comes. *)
Theorem equal_intervals_stall : ∃ b,
  NewBoundedFrequencyRunner "sync" 30000000000 30000000000 1 100 = Ret (ex_of 30000000000) ∧
  reach (ex_of 30000000000) b ∧ looping b = true ∧ run b = false ∧
  tick (timer b) = false ∧ deadline (timer b) = None ∧ length (starts b) = 1%nat.
Proof.
  assert (∃ d, Z.of_nat d = 30000000000%Z) as [d Hd] by (exists (Z.to_nat 30000000000); by apply Z2Nat.id).
  set (b0 := ex_of 30000000000). set (b1 := final Loop_start b0). set (b2 := final (env_step Request) b1).
  set (b3 := final (Loop_select (Requested [])) b2). set (b4 := with_now 30000000100 b3).
  set (b5 := final (env_step Fire) b4). set (b6 := final (Loop_select (Tick [])) b5).
  exists b6. split; [vm_compute; reflexivity|]. split; [|by split_and!].
  apply (reach_loop _ b5 (Tick [])); [|reflexivity|by exists tt]. apply (reach_env _ b4 Fire); [|by exists tt].
  apply (reach_env _ b3 (Elapse d)).
  - apply (reach_loop _ b2 (Requested [])); [|reflexivity|by exists tt]. apply (reach_env _ b1 Request); [|by exists tt].
    apply reach_start. by exists tt.
  - exists tt. unfold env_step, modify. by rewrite Hd.
Qed.

(** The interval is not measured from the end of a run, as the documentation
    says, but from its start: a run longer than minInterval can be followed by
    the next one at once. *)
Theorem no_pause_after_long_run : ∃ b0,
  NewBoundedFrequencyRunner (L := OneToken) "sync" 3 10 1 100 = Ret b0 ∧
  let b1 := final (Loop_select (Requested [Elapse 4])) (final (env_step Request) (final Loop_start b0)) in
  let b2 := final (Loop_select (Requested [])) (final (env_step Request) b1) in
  starts b2 = [(104, 104); (100, 104)]%Z ∧ minInterval b2 = 3%Z.
Proof. eexists. split; [vm_compute; reflexivity|]. by split. Qed.

(** The message of [construct] names the intervals in the wrong order. *)
Theorem construct_message :
  NewBoundedFrequencyRunner (L := OneToken) "sync" 5000000000 1000000000 1 0 =
  Panic "sync: maxInterval (5s) must be >= minInterval (1s)".
Proof. vm_compute. reflexivity. Qed.

(** ** Runner *)
Section group.
Variable fs : list nat.

Definition group_ok (r : Group) : Prop :=
  loopFuncs r = fs ∧ (∀ c, c ∈ closed r → (c < next_ch r)%nat) ∧
  (∀ c, stop_ch r = Some c → (c < next_ch r)%nat ∧ c ∉ closed r) ∧
  (∀ e, e ∈ started r → e.2 ∉ closed r → stop_ch r = Some e.2) ∧
  running r = match stop_ch r with Some _ => fs | None => [] end.

Lemma Start_ok r : group_ok r → wp Start (λ _ r', group_ok r' ∧ is_Some (stop_ch r')) r.
Proof.
  intros (Hf & Hcl & Hst & Hgo & Hrun). unfold Start. apply wp_bind, wp_get.
  destruct (stop_ch r) as [c|] eqn:Es.
  { apply wp_ret. split; [|by rewrite Es]. unfold group_ok. rewrite Es. by split_and!. }
  apply wp_bind, wp_modify. rewrite Hf. set (c := next_ch r).
  assert (c ∉ closed r) as Hc by (intros H%Hcl; unfold c in H; lia).
  apply (wp_for_each (λ dn r', loopFuncs r' = fs ∧ closed r' = closed r ∧ stop_ch r' = Some c ∧
    next_ch r' = S c ∧ started r' = started r ++ ((λ f, (f, c)) <$> dn))).
  - cbn. rewrite app_nil_r. by split_and!.
  - intros dn f rest r' _ (H1 & H2 & H3 & H4 & H5). apply wp_modify. cbn. rewrite H5, fmap_app, app_assoc.
    by split_and!.
  - intros r' (H1 & H2 & H3 & H4 & H5). split; [|by rewrite H3]. unfold group_ok, running. rewrite H2, H3, H4, H5.
    split_and!; [done|..].
    + intros c' Hc'%Hcl. unfold c. lia.
    + intros c' [= <-]. split; [lia|done].
    + intros e [He|(f & -> & _)%list_elem_of_fmap]%elem_of_app Hne; [by specialize (Hgo e He Hne)|done].
    + rewrite filter_app, fmap_app. fold (running r). rewrite Hrun. cbn [app].
      clear -Hc. generalize fs. intros l. induction l as [|f l IH]; [done|]. rewrite fmap_cons, filter_cons_True by done. cbn. by rewrite IH.
Qed.

Lemma Stop_ok r : group_ok r → wp Stop (λ _ r', group_ok r' ∧ stop_ch r' = None) r.
Proof.
  intros (Hf & Hcl & Hst & Hgo & Hrun). unfold Stop. apply wp_bind, wp_get. destruct (stop_ch r) as [c|] eqn:Es.
  - destruct (Hst c eq_refl) as [Hlt Hnc]. apply wp_bind. unfold close_ch. apply wp_bind, wp_get.
    rewrite decide_False by done. apply wp_modify, wp_modify. cbn. split; [|done]. unfold group_ok, running. cbn.
    split_and!; [done| |done| |].
    + intros c' [->%elem_of_singleton|Hc']%elem_of_union; [done|by apply Hcl].
    + intros e He Hne. destruct Hne. rewrite elem_of_union, elem_of_singleton.
      destruct (decide (e.2 ∈ closed r)) as [|Hn]; [by right|left]. specialize (Hgo e He Hn). congruence.
    + assert (filter (λ e : nat * nat, e.2 ∉ {[c]} ∪ closed r) (started r) = []) as ->; [|done].
      apply elem_of_nil_inv. intros e [Hne He]%list_elem_of_filter. apply Hne. rewrite elem_of_union, elem_of_singleton.
      destruct (decide (e.2 ∈ closed r)) as [|Hn]; [by right|left]. specialize (Hgo e He Hn). congruence.
  - apply wp_ret. split; [|done]. unfold group_ok. rewrite Es. by split_and!.
Qed.
End group.

(** C40: After any sequence of calls of Start and Stop, which never panics, the
    goroutines running are one per function when the last call was Start, and
    none when it was Stop or there was none: starting twice does not start
    them twice, and every goroutine once started and not running any more was
    told to stop. *)
Theorem group_runs_once (fs : list nat) (calls : list bool) :
  wp (for_each calls (λ is_start : bool, if is_start then Start else Stop))
     (λ _ r, running r = match last calls with Some true => fs | _ => [] end) (NewRunner fs).
Proof.
  apply (wp_for_each (λ dn r, group_ok fs r ∧ (match last dn with Some true => is_Some (stop_ch r) | _ => stop_ch r = None end))).
  - split; [|done]. unfold group_ok. cbn. split_and!; done || set_solver.
  - intros dn x rest r _ [Hok _]. rewrite last_snoc. destruct x; [by apply Start_ok|by apply Stop_ok].
  - intros r [(_ & _ & _ & _ & ->) Hs]. destruct (last calls) as [[]|]; [by destruct Hs as [? ->]|by rewrite Hs..].
Qed.
