(* ===== verification/Watchers.v ===== *)
(** * Watchers (pkg/watchers)

    [EndpointsWatcher] and [ServicesWatcher] turn informer callbacks into
    updates, which a [Broadcaster] hands to every registered handler in a
    goroutine of its own. The goroutines not yet run are part of the state, and
    any of them may be the next to run. *)

From S2P Require Import Prelude GoNet ProxyTypes Host Config.

Module Watchers.
Import Config.

(** ** The broadcaster (watchers/config) *)
Inductive Operation := ADD | UPDATE | REMOVE.

Section broadcaster.
Context {U : Type}.                     (* the updates *)

(** Listeners are numbered; [delivered] are the calls of OnUpdate made, in
    their order, and [goroutines] the ones to come. *)
Record Broadcaster := {
  listeners : list nat;
  goroutines : list (nat * U);
  delivered : list (nat * U);
}.

Definition NewBroadcaster : Broadcaster := {| listeners := []; goroutines := []; delivered := [] |}.

Definition Add (listener : nat) : M Broadcaster unit :=
  modify (λ b, {| listeners := listeners b ++ [listener]; goroutines := goroutines b; delivered := delivered b |}).

(** The listeners are read under the lock, and each gets a goroutine. *)
Definition spawn (listener : nat) (instance : U) : M Broadcaster unit :=
  modify (λ b, {| listeners := listeners b; goroutines := goroutines b ++ [(listener, instance)]; delivered := delivered b |}).
Definition Notify (instance : U) : M Broadcaster unit :=
  ls ← gets listeners;
  for_each ls (λ listener, spawn listener instance).

(** The [k]-th goroutine runs. *)
Definition OnUpdate (k : nat) : M Broadcaster unit :=
  modify (λ b, match goroutines b !! k with
               | Some g => {| listeners := listeners b; goroutines := delete k (goroutines b); delivered := delivered b ++ [g] |}
               | None => b
               end).
End broadcaster.
Arguments Broadcaster U : clear implicits.

(** ** The watchers. [DeepEqual] compares all fields of two objects, also those
    the model leaves out. *)
Section watchers.
Variable DeepEqual : object → object → bool.

(** What the informer calls. *)
Inductive callback :=
| CAdd (obj : object)
| CUpdate (old obj : object)
| CDelete (obj : object).

Record EndpointsUpdate := { Endpoints : Api.Endpoints; e_Op : Operation }.
Record ServicesUpdate := { Service : Api.Service; s_Op : Operation }.

Definition endpointsAdd (obj : object) : M (Broadcaster EndpointsUpdate) unit :=
  match as_endpoints obj with
  | None => mret tt
  | Some endpoints => Notify {| e_Op := ADD; Endpoints := endpoints |}
  end.
Definition endpointsDelete (obj : object) : M (Broadcaster EndpointsUpdate) unit :=
  match as_endpoints obj with
  | None => mret tt
  | Some endpoints => Notify {| e_Op := REMOVE; Endpoints := endpoints |}
  end.
(** The second type check looks at the new object again. *)
Definition endpointsUpdate (old obj : object) : M (Broadcaster EndpointsUpdate) unit :=
  match as_endpoints obj with
  | None => mret tt
  | Some endpoints_new =>
      match as_endpoints obj with
      | None => mret tt
      | Some _ => if DeepEqual old obj then mret tt else Notify {| e_Op := UPDATE; Endpoints := endpoints_new |}
      end
  end.
Definition endpoints_RegisterHandler (handler : nat) : M (Broadcaster EndpointsUpdate) unit := Add handler.
Definition endpoints_callback (c : callback) : M (Broadcaster EndpointsUpdate) unit :=
  match c with
  | CAdd obj => endpointsAdd obj
  | CUpdate old obj => endpointsUpdate old obj
  | CDelete obj => endpointsDelete obj
  end.

Definition servicesAdd (obj : object) : M (Broadcaster ServicesUpdate) unit :=
  match as_service obj with
  | None => mret tt
  | Some services => Notify {| s_Op := ADD; Service := services |}
  end.
Definition servicesDelete (obj : object) : M (Broadcaster ServicesUpdate) unit :=
  match as_service obj with
  | None => mret tt
  | Some services => Notify {| s_Op := REMOVE; Service := services |}
  end.
Definition servicesUpdate (old obj : object) : M (Broadcaster ServicesUpdate) unit :=
  match as_service obj with
  | None => mret tt
  | Some services_new =>
      match as_service obj with
      | None => mret tt
      | Some _ => if DeepEqual old obj then mret tt else Notify {| s_Op := UPDATE; Service := services_new |}
      end
  end.
Definition services_RegisterHandler (handler : nat) : M (Broadcaster ServicesUpdate) unit := Add handler.
Definition services_callback (c : callback) : M (Broadcaster ServicesUpdate) unit :=
  match c with
  | CAdd obj => servicesAdd obj
  | CUpdate old obj => servicesUpdate old obj
  | CDelete obj => servicesDelete obj
  end.
End watchers.

(** ** Construction, listing and stopping

    The informer of client-go holds the objects ([store]) and answers whether it
    has synced; stopping sends on a channel from which its goroutines, started
    with the watcher, receive. *)
Section informer.
Record Informer (U : Type) := {
  store : list object;
  synced : bool;
  receivers : nat;                      (* goroutines waiting on StopCh *)
  broadcaster : Broadcaster U;
}.
Arguments store {U}. Arguments synced {U}. Arguments receivers {U}. Arguments broadcaster {U}.

(** How many goroutines the controller's Run leaves waiting on the channel. *)
Variable controller_receivers : nat.

(** A global variable and the watcher it points to. *)
Definition new_watcher {U} (objs : list object) : Informer U :=
  {| store := objs; synced := false; receivers := controller_receivers; broadcaster := NewBroadcaster |}.
Definition NewEndpointWatcher (objs : list object) : M (option (Informer EndpointsUpdate)) unit :=
  modify (λ _, Some (new_watcher objs)).
Definition NewServiceWatcher (objs : list object) : M (option (Informer ServicesUpdate)) unit :=
  modify (λ _, Some (new_watcher objs)).

Definition endpoints_HasSynced (w : Informer EndpointsUpdate) : bool := synced w.
Definition services_HasSynced (w : Informer ServicesUpdate) : bool := synced w.

(** The type assertion of every element. *)
Fixpoint list_as {S A} (as_type : object → option A) (l : list object) : M S (list A) :=
  match l with
  | [] => mret []
  | obj :: l =>
      match as_type obj with
      | None => panic "interface conversion"
      | Some a => rest ← list_as as_type l; mret (a :: rest)
      end
  end.
Definition endpoints_List {S} (w : Informer EndpointsUpdate) : M S (list Api.Endpoints) := list_as as_endpoints (store w).
Definition services_List {S} (w : Informer ServicesUpdate) : M S (list Api.Service) := list_as as_service (store w).

(** A nil watcher has no channel to read; sending without a receiver blocks. *)
Definition stop_watcher {U} : M (option (Informer U)) unit :=
  w ← get;
  match w with
  | None => panic "invalid memory address or nil pointer dereference"
  | Some w =>
      match receivers w with
      | O => panic "all goroutines are asleep - deadlock!"
      | S n => modify (λ _, Some {| store := store w; synced := synced w; receivers := n; broadcaster := broadcaster w |})
      end
  end.
Definition StopEndpointsWatcher : M (option (Informer EndpointsUpdate)) unit := stop_watcher.
Definition StopServiceWatcher : M (option (Informer ServicesUpdate)) unit := stop_watcher.
End informer.
End Watchers.
