(* ===== verification/WatchersClaims.v ===== *)
(** * Properties of the watchers *)

From S2P Require Import Prelude GoNet ProxyTypes Host Config Watchers.
Import Config Watchers.

(** ** Histories: handlers register, the informer calls back, goroutines run *)
Section history.
Context {U : Type}.
Variable on_callback : callback → M (Broadcaster U) unit.

Inductive watch_step :=
| Register (handler : nat)
| Callback (c : callback)
| Schedule (k : nat).              (* some goroutine runs *)

Definition watch (s : watch_step) : M (Broadcaster U) unit :=
  match s with
  | Register handler => Add handler
  | Callback c => on_callback c
  | Schedule k => OnUpdate k
  end.

(** Every handler registered before an update, with the update. *)
Fixpoint owed (update_of : callback → option U) (ls : list nat) (h : list watch_step) : list (nat * U) :=
  match h with
  | [] => []
  | Register handler :: h => owed update_of (ls ++ [handler]) h
  | Callback c :: h => (match update_of c with Some u => (λ l, (l, u)) <$> ls | None => [] end) ++ owed update_of ls h
  | Schedule _ :: h => owed update_of ls h
  end.

(** What is owed splits like the updates. *)
Lemma owed_split (f g k : callback → option U) ls h :
  (∀ c, f c = g c ∧ k c = None ∨ f c = k c ∧ g c = None) → owed f ls h ≡ₚ owed g ls h ++ owed k ls h.
Proof using Type.
  intros Hfg. revert ls. induction h as [|[handler|c|n] h IH]; intros ls; cbn [owed]; [done|apply IH| |apply IH].
  rewrite (IH ls). destruct (Hfg c) as [[-> ->]|[-> ->]]; cbn [app].
  - by rewrite app_assoc.
  - apply Permutation_app_swap_app.
Qed.

Lemma Notify_spec (u : U) (b : Broadcaster U) :
  wp (Notify u) (λ _ b', b' = {| listeners := listeners b; goroutines := goroutines b ++ ((λ l, (l, u)) <$> listeners b);
                                 delivered := delivered b |}) b.
Proof.
  unfold Notify. apply wp_bind, wp_gets.
  apply (wp_for_each (λ dn b', b' = {| listeners := listeners b; goroutines := goroutines b ++ ((λ l, (l, u)) <$> dn);
                                       delivered := delivered b |})).
  - cbn. rewrite app_nil_r. by destruct b.
  - intros dn l rest b' _ ->. apply wp_modify. cbn. by rewrite fmap_app, app_assoc.
  - done.
Qed.

Lemma OnUpdate_spec k (b : Broadcaster U) :
  wp (OnUpdate k) (λ _ b', listeners b' = listeners b ∧ delivered b' ++ goroutines b' ≡ₚ delivered b ++ goroutines b) b.
Proof.
  apply wp_modify. destruct (goroutines b !! k) as [g|] eqn:E; [|done]. cbn. split; [done|].
  rewrite <-app_assoc. by rewrite <-(delete_Permutation _ _ _ E).
Qed.

Variable update_of : callback → option U.
Hypothesis callback_notifies : ∀ c, on_callback c = match update_of c with Some u => Notify u | None => mret tt end.

Lemma history_spec (h : list watch_step) (b : Broadcaster U) :
  wp (for_each h watch) (λ _ b', delivered b' ++ goroutines b' ≡ₚ (delivered b ++ goroutines b) ++ owed update_of (listeners b) h) b.
Proof using callback_notifies.
  revert b. induction h as [|s h IH]; intros b; [apply wp_ret; by rewrite app_nil_r|].
  cbn [for_each]. apply wp_bind. destruct s as [handler|c|k]; cbn [watch owed].
  - unfold Add. apply wp_modify. eapply wp_mono; [apply IH|]. by intros [] b' H.
  - rewrite callback_notifies. destruct (update_of c) as [u|]; [|apply wp_ret; apply IH].
    eapply wp_mono; [apply Notify_spec|]. intros [] b1 ->. eapply wp_mono; [apply IH|]. intros [] b' H. cbn in H.
    rewrite H. by rewrite <-!app_assoc.
  - eapply wp_mono; [apply OnUpdate_spec|]. intros [] b1 [Hl Hp]. eapply wp_mono; [apply IH|].
    intros [] b' H. by rewrite H, Hl, Hp.
Qed.
End history.

(** ** What the informer announces

    By the documentation of client-go: the object added; the old and the new
    object of a change, also of a resync, where they are equal; the object
    removed, or, when the informer missed the removal, a tombstone with its last
    known state. *)
Section claims.
Variable DeepEqual : object → object → bool.

Definition endpoints_news (c : callback) : option EndpointsUpdate :=
  match c with
  | CAdd (OEndpoints e) => Some {| e_Op := ADD; Endpoints := e |}
  | CUpdate old (OEndpoints e) => if DeepEqual old (OEndpoints e) then None else Some {| e_Op := UPDATE; Endpoints := e |}
  | CDelete (OEndpoints e) => Some {| e_Op := REMOVE; Endpoints := e |}
  | CDelete (OTombstone (OEndpoints e)) => Some {| e_Op := REMOVE; Endpoints := e |}
  | _ => None
  end.
Definition services_news (c : callback) : option ServicesUpdate :=
  match c with
  | CAdd (OService s) => Some {| s_Op := ADD; Service := s |}
  | CUpdate old (OService s) => if DeepEqual old (OService s) then None else Some {| s_Op := UPDATE; Service := s |}
  | CDelete (OService s) => Some {| s_Op := REMOVE; Service := s |}
  | CDelete (OTombstone (OService s)) => Some {| s_Op := REMOVE; Service := s |}
  | _ => None
  end.

(** The part of it that comes in tombstones, and the rest. *)
Definition in_tombstone {U} (news : callback → option U) (c : callback) : option U :=
  match c with CDelete (OTombstone _) => news c | _ => None end.
Definition plainly {U} (news : callback → option U) (c : callback) : option U :=
  match c with CDelete (OTombstone _) => None | _ => news c end.

Lemma endpoints_callback_notifies c :
  endpoints_callback DeepEqual c = match plainly endpoints_news c with Some u => Notify u | None => mret tt end.
Proof. destruct c as [[]|old []|[]]; try reflexivity; cbn; unfold endpointsUpdate; cbn; by destruct (DeepEqual _ _). Qed.
Lemma services_callback_notifies c :
  services_callback DeepEqual c = match plainly services_news c with Some u => Notify u | None => mret tt end.
Proof. destruct c as [[]|old []|[]]; try reflexivity; cbn; unfold servicesUpdate; cbn; by destruct (DeepEqual _ _). Qed.

Lemma owed_tombstones {U} (news : callback → option U) ls h :
  owed news ls h ≡ₚ owed (plainly news) ls h ++ owed (in_tombstone news) ls h.
Proof using Type. clear DeepEqual. apply owed_split. intros [obj|old obj|[]]; cbn; tauto. Qed.

(** C24: Every update announced is delivered once, and nothing else, except the
    removals that come in tombstones, which the handlers drop. After any
    history of registrations, informer callbacks and scheduling choices of
    either watcher, the updates delivered so far, those whose goroutine has not
    run yet and those of tombstoned removals are together exactly one per
    update the informer announced (an addition, a removal seen or missed, or a
    change that is no mere resync, of an object of the watched type) and handler
    registered before it. *)
Theorem updates_delivered_once (h : list watch_step) :
  wp (for_each h (watch (endpoints_callback DeepEqual)))
     (λ _ b, (delivered b ++ goroutines b) ++ owed (in_tombstone endpoints_news) [] h ≡ₚ owed endpoints_news [] h)
     NewBroadcaster ∧
  wp (for_each h (watch (services_callback DeepEqual)))
     (λ _ b, (delivered b ++ goroutines b) ++ owed (in_tombstone services_news) [] h ≡ₚ owed services_news [] h)
     NewBroadcaster.
Proof.
  split.
  - eapply wp_mono; [apply history_spec with (update_of := plainly endpoints_news), endpoints_callback_notifies|].
    intros [] b H. rewrite H. symmetry. apply owed_tombstones.
  - eapply wp_mono; [apply history_spec with (update_of := plainly services_news), services_callback_notifies|].
    intros [] b H. rewrite H. symmetry. apply owed_tombstones.
Qed.
End claims.

(** ** What the code does not do *)

Definition ex_endpoints (n : string) : Api.Endpoints :=
  {| Api.eps_Namespace := "default"; Api.eps_Name := n; Api.Subsets := [] |}.
Definition never_equal (_ _ : object) : bool := false.

(** A handler may see a removal before the addition it undoes: the goroutines
    of the two updates are not ordered. *)
Theorem updates_may_be_reordered :
  let e := ex_endpoints "web" in
  (for_each [Register 0; Callback (CAdd (OEndpoints e)); Callback (CDelete (OEndpoints e)); Schedule 1; Schedule 0]%nat
     (watch (endpoints_callback never_equal)) NewBroadcaster).2 =
  {| listeners := [0%nat]; goroutines := [];
     delivered := [(0%nat, {| e_Op := REMOVE; Endpoints := e |}); (0%nat, {| e_Op := ADD; Endpoints := e |})] |}.
Proof. reflexivity. Qed.

(** A deletion the informer missed comes in a tombstone and is dropped. *)
Theorem tombstones_are_dropped (obj : object) (b : Broadcaster EndpointsUpdate) :
  endpointsDelete (OTombstone obj) b = (Ret tt, b).
Proof. reflexivity. Qed.
