(* ===== verification/IpvsTool.v ===== *)
(** * The command-line tool (tools/ipvs-tool)

    Lists, adds and deletes virtual services and real servers through the same
    libipvs operations as the proxy ([Kernel]). The state is the kernel and
    what was printed. *)

From S2P Require Import Prelude GoNet ProxyTypes Ipvs EnnIpvs Host Strconv.
From Stdlib Require Import Ascii.

Module IpvsTool.

Definition tool_ToProtocolString (service : LibService) : string :=
  if (lProtocol service =? IPPROTO_TCP)%Z then "tcp"
  else if (lProtocol service =? IPPROTO_UDP)%Z then "udp"
  else "unknow".
Definition tool_ToProtocolNumber (pprotocal : string) : Z :=
  if decide (pprotocal = "tcp") then IPPROTO_TCP else IPPROTO_UDP.

Section tool.
Context {N : Type} `{KN : Kernel N} `{HD : Handle N}.
Abbreviation W := (N * string)%type.

Definition kernel {A} (c : M N A) : M W A := zoom fst (λ n w, (n, w.2)) c.
Definition Print (s : string) : M W unit := modify (λ w, (w.1, w.2 +:+ s)).
Definition newline : string := String (ascii_of_nat 10) "".

Definition index (l : list string) (i : nat) : M W string :=
  match l !! i with Some s => mret s | None => panic "index out of range" end.

Definition open_handle : M W unit :=
  err ← kernel libipvs_New;
  match err with
  | Some err => Print ("InitIpvsInterface failed Error: " +:+ err +:+ newline) ;; panic err
  | None => mret tt
  end.

(** ** Listing *)

(** [%-34s]. *)
Definition pad34 (s : string) : string := s +:+ String.concat "" (repeat " " (34 - String.length s)).

Definition show_dst (dst : LibDestination) : string :=
  let dst_address := "  -> " +:+ Net.IP_String (dAddress dst) +:+ ":" +:+ Itoa (dPort dst) in
  pad34 dst_address +:+ "Masq" +:+ "    " +:+ Itoa (dWeight dst) +:+ "      0          0" +:+ newline.
Definition show_svc (svc : LibService) : string :=
  tool_ToProtocolString svc +:+ "  " +:+ Net.IP_String (Address svc) +:+ ":" +:+ Itoa (lPort svc) +:+ " " +:+
  SchedName svc +:+
  (if (Z.land (Flags svc) 1 =? 0)%Z then "" else " persistent " +:+ Itoa (Timeout svc)) +:+ newline.

Definition nil_pointer {A} : M W A := panic "invalid memory address or nil pointer dereference".

Definition list_service (svc : option LibService) : M W unit :=
  match svc with
  | None => nil_pointer
  | Some s =>
      Print (show_svc s) ;;
      dsts ← kernel (GetDestinations svc);
      match dsts with
      | Err err => Print ("GetDestinations failed Error: " +:+ err +:+ newline) ;; panic err
      | OK dsts => for_each dsts (λ dst, match dst with None => nil_pointer | Some dst => Print (show_dst dst) end)
      end
  end.

Definition toolList : M W unit :=
  open_handle ;;
  svcs ← kernel GetServices;
  match svcs with
  | Err err => Print ("GetServices failed Error: " +:+ err +:+ newline) ;; panic err
  | OK svcs =>
      Print ("IP Virtual Server" +:+ newline) ;;
      Print ("Prot LocalAddress:Port Scheduler Flags" +:+ newline) ;;
      Print ("  -> RemoteAddress:Port           Forward Weight ActiveConn InActConn" +:+ newline) ;;
      for_each svcs list_service
  end.

(** ** Changes. An error of the kernel becomes a value nobody reads. *)
Definition tool_svc (address : string) (svcPort : Z) (protocol scheduler : string) : LibService := {|
  Address := Net.ParseIP address; AddressFamily := AF_INET; lProtocol := tool_ToProtocolNumber protocol;
  lPort := uint16 svcPort; SchedName := scheduler; Flags := 0; Netmask := 0; Timeout := 0 |}.
Definition tool_dst (address : string) (dstPort : Z) : LibDestination := {|
  dAddress := Net.ParseIP address; dAddressFamily := AF_INET; dPort := uint16 dstPort; dWeight := 1 |}.

Definition colon : ascii := ":"%char.

Definition toolAddService (protocol service scheduler : string) : M W unit :=
  let address := Strings.Split service colon in
  a0 ← index address 0; a1 ← index address 1;
  Print ("service: " +:+ a0 +:+ ":" +:+ a1 +:+ ":" +:+ protocol +:+ " scheduler: " +:+ scheduler) ;;
  open_handle ;;
  match Strconv.Atoi a1 with
  | Err err => Print ("invalid port: " +:+ err)
  | OK svcPort => kernel (NewService (tool_svc a0 svcPort protocol scheduler)) ;; mret tt
  end.

Definition toolDelService (protocol service : string) : M W unit :=
  let address := Strings.Split service colon in
  a0 ← index address 0; a1 ← index address 1;
  Print ("service: " +:+ a0 +:+ ":" +:+ a1 +:+ ":" +:+ protocol) ;;
  open_handle ;;
  match Strconv.Atoi a1 with
  | Err err => Print ("invalid port: " +:+ err)
  | OK svcPort => kernel (DelService (tool_svc a0 svcPort protocol "")) ;; mret tt
  end.

Definition announce_server (a0 a1 d0 d1 protocol : string) : string :=
  "service: " +:+ a0 +:+ ":" +:+ a1 +:+ ", server: " +:+ d0 +:+ ":" +:+ d1 +:+ ", protocol: " +:+ protocol.

(** The destination's port is read from [address], not from [destination]. *)
Definition toolAddServer (protocol service server : string) : M W unit :=
  let address := Strings.Split service colon in
  let destination := Strings.Split server colon in
  a0 ← index address 0; a1 ← index address 1; d0 ← index destination 0; d1 ← index destination 1;
  Print (announce_server a0 a1 d0 d1 protocol) ;;
  open_handle ;;
  match Strconv.Atoi a1 with
  | Err err => Print ("invalid svc port: " +:+ err)
  | OK svcPort =>
      match Strconv.Atoi a1 with
      | Err err => Print ("invalid dst port: " +:+ err)
      | OK dstPort => kernel (NewDestination (tool_svc a0 svcPort protocol "") (tool_dst d0 dstPort)) ;; mret tt
      end
  end.

Definition toolDelServer (protocol service server : string) : M W unit :=
  let address := Strings.Split service colon in
  let destination := Strings.Split server colon in
  a0 ← index address 0; a1 ← index address 1; d0 ← index destination 0; d1 ← index destination 1;
  Print (announce_server a0 a1 d0 d1 protocol) ;;
  open_handle ;;
  match Strconv.Atoi a1 with
  | Err err => Print ("invalid svc port: " +:+ err)
  | OK svcPort =>
      match Strconv.Atoi a1 with
      | Err err => Print ("invalid dst port: " +:+ err)
      | OK dstPort => kernel (DelDestination (tool_svc a0 svcPort protocol "") (tool_dst d0 dstPort)) ;; mret tt
      end
  end.

(** ** main: the parsed flags *)
Record Flags_ := {
  f_list : bool; add_service : bool; del_service : bool; add_server : bool; del_server : bool;
  tcp_service : string; udp_service : string; scheduler : string; real_server : string;
}.
Definition default_flags : Flags_ := {|
  f_list := false; add_service := false; del_service := false; add_server := false; del_server := false;
  tcp_service := "nil"; udp_service := "nil"; scheduler := "wlc"; real_server := "nil" |}.

(** The service given, TCP first. *)
Definition by_protocol (f : Flags_) (run : string → string → M W unit) : M W unit :=
  if negb (bool_decide (tcp_service f = "nil")) then run "tcp" (tcp_service f)
  else if negb (bool_decide (udp_service f = "nil")) then run "udp" (udp_service f)
  else mret tt.

Definition main (f : Flags_) : M W unit :=
  if f_list f then toolList
  else if add_service f then by_protocol f (λ p s, toolAddService p s (scheduler f))
  else if del_service f then by_protocol f toolDelService
  else if add_server f then by_protocol f (λ p s, toolAddServer p s (real_server f))
  else if del_server f then by_protocol f (λ p s, toolDelServer p s (real_server f))
  else mret tt.
End tool.
End IpvsTool.
