(* ===== verification/IpvsToolClaims.v ===== *)
(** * Properties of the command-line tool *)

From S2P Require Import Prelude GoNet ProxyTypes Ipvs EnnIpvs RefKernel Host Strconv VersionClaims IpvsTool.
From Stdlib Require Import Ascii.
Import EnnIpvs Ref IpvsTool.

(** An address as the user types it. *)
Definition hostport (ip : IP) (port : Z) : string := Net.IP_String ip +:+ String colon (Itoa port).

Lemma Split_hostport ip port :
  Net.wf_ip4 ip → (0 ≤ port)%Z → Strings.Split (hostport ip port) colon = [Net.IP_String ip; Itoa port].
Proof.
  intros Hip Hp. unfold hostport. rewrite Split_app by (by apply NetFacts.IP_String_no_char).
  f_equal. apply Split_none. by apply StringFacts.Itoa_no_char.
Qed.

Lemma hostport_not_nil ip port : hostport ip port ≠ "nil".
Proof.
  intros E. assert (Strings.byteIndex (hostport ip port) colon = None) as H by (by rewrite E).
  unfold hostport in H. apply StringFacts.byteIndex_None_all in H. rewrite StringFacts.all_app in H.
  apply andb_true_iff in H as [_ H]. by apply andb_true_iff in H as [H _].
Qed.

Definition tool_protocol (tcp : bool) : string := if tcp then "tcp" else "udp".

Lemma tool_svc_ok ip port tcp sched :
  Net.wf_ip4 ip → port_ok port →
  let svc := tool_svc (Net.IP_String ip) port (tool_protocol tcp) sched in
  wf_lib svc ∧ lib_key svc = {| key_ip := Net.IP_String ip; key_port := port; key_protocol := tool_protocol tcp |}.
Proof.
  intros Hip Hp svc. unfold wf_lib, wf_service, lib_key, service_key. cbn.
  rewrite NetFacts.ParseIP_IP_String, uint16_id by done.
  assert (ToProtocolString svc = tool_protocol tcp) as Hproto by (by destruct tcp).
  fold svc. rewrite Hproto. split_and!; [by apply NetFacts.wf_ip4_addr|apply Hp..|destruct tcp; auto|done].
Qed.

Lemma tool_dst_ok ip port :
  Net.wf_ip4 ip → port_ok port →
  let dst := tool_dst (Net.IP_String ip) port in
  wf_dest dst ∧ dest_key dst = {| ep_ip := Net.IP_String ip; ep_port := port |}.
Proof.
  intros Hip Hp dst. unfold wf_dest, dest_key. cbn. rewrite NetFacts.ParseIP_IP_String, uint16_id by done.
  split; [|done]. split; [by apply NetFacts.wf_ip4_addr|done].
Qed.

(** The flags of a command on one service. *)
Definition on_service (f : Flags_) (tcp : bool) (service : string) : Flags_ :=
  {| f_list := f_list f; add_service := add_service f; del_service := del_service f; add_server := add_server f;
     del_server := del_server f; tcp_service := if tcp then service else "nil"; udp_service := if tcp then "nil" else service;
     scheduler := scheduler f; real_server := real_server f |}.
Definition cmd (A D a d : bool) (s r : string) : Flags_ :=
  {| f_list := false; add_service := A; del_service := D; add_server := a; del_server := d;
     tcp_service := "nil"; udp_service := "nil"; scheduler := s; real_server := r |}.

Section claims.
Context {N : Type} `{KN : Kernel N} `{KS : !KernelSpec N} `{HD : Handle N}.
Abbreviation W := (N * string)%type.

Lemma by_protocol_spec tcp f ip port (run : string → string → M W unit) Q w :
  (0 ≤ port)%Z → wp (run (tool_protocol tcp) (hostport ip port)) Q w →
  wp (by_protocol (on_service f tcp (hostport ip port)) run) Q w.
Proof.
  intros Hp Hrun.
  pose proof (hostport_not_nil ip port) as Hne.
  unfold by_protocol. destruct tcp; cbn.
  - by rewrite bool_decide_false.
  - rewrite bool_decide_true by done. cbn. by rewrite bool_decide_false.
Qed.

(** Opening the handle and printing change nothing in the kernel. *)
Definition opens : Prop := ∀ n, krep n → wp libipvs_New (λ e n', e = None ∧ n' = n) n.

Lemma kernel_step {A} (c : M N A) (Q : A → W → Prop) w :
  wp c (λ a n', ∀ out, Q a (n', out)) w.1 → wp (IpvsTool.kernel c) Q w.
Proof. intros H. apply wp_zoom. eapply wp_mono; [exact H|]. intros a n' HQ. apply HQ. Qed.

Lemma open_handle_spec (Q : unit → W → Prop) w :
  opens → krep w.1 → (∀ out, Q tt (w.1, out)) → wp open_handle Q w.
Proof.
  intros Ho Hk HQ. unfold open_handle. apply wp_bind, kernel_step. eapply wp_mono; [by apply Ho|].
  intros e n' [-> ->] out. apply wp_ret, HQ.
Qed.

(** A command that changes a service: the two parts of its address, the
    handle, and one call. *)
Lemma service_command ip port text {A} (c : string → string → Z → M N A) (Q : unit → W → Prop) w :
  opens → krep w.1 → Net.wf_ip4 ip → port_ok port →
  wp (c (Net.IP_String ip) (Itoa port) port) (λ _ n', ∀ out, Q tt (n', out)) w.1 →
  wp (a0 ← index (Strings.Split (hostport ip port) colon) 0; a1 ← index (Strings.Split (hostport ip port) colon) 1;
      Print (text a0 a1) ;; open_handle ;;
      match Strconv.Atoi a1 with
      | Err err => Print ("invalid port: " +:+ err)
      | OK p => IpvsTool.kernel (c a0 a1 p) ;; mret tt
      end) Q w.
Proof.
  intros Ho Hk Hip Hp Hc. unfold port_ok in Hp. rewrite Split_hostport by (done || lia). unfold index. cbn [lookup list_lookup].
  apply wp_bind, wp_ret, wp_bind, wp_ret, wp_bind, wp_modify, wp_bind. apply open_handle_spec; [done..|]. intros out.
  rewrite Strconv.Atoi_Itoa by lia. apply wp_bind, kernel_step. eapply wp_mono; [exact Hc|].
  intros a n' HQ out'. apply wp_ret, HQ.
Qed.

Lemma server_command ip port ip2 port2 text err1 err2 {A} (c : string → string → Z → Z → M N A) (Q : unit → W → Prop) w :
  opens → krep w.1 → Net.wf_ip4 ip → port_ok port → Net.wf_ip4 ip2 → (0 ≤ port2)%Z →
  wp (c (Net.IP_String ip) (Net.IP_String ip2) port port) (λ _ n', ∀ out, Q tt (n', out)) w.1 →
  wp (a0 ← index (Strings.Split (hostport ip port) colon) 0; a1 ← index (Strings.Split (hostport ip port) colon) 1;
      d0 ← index (Strings.Split (hostport ip2 port2) colon) 0; d1 ← index (Strings.Split (hostport ip2 port2) colon) 1;
      Print (text a0 a1 d0 d1) ;; open_handle ;;
      match Strconv.Atoi a1 with
      | Err err => Print (err1 err)
      | OK p => match Strconv.Atoi a1 with
                | Err err => Print (err2 err)
                | OK p' => IpvsTool.kernel (c a0 d0 p p') ;; mret tt
                end
      end) Q w.
Proof.
  intros Ho Hk Hip Hp Hip2 Hp2 Hc. unfold port_ok in Hp. rewrite !Split_hostport by (done || lia). unfold index.
  cbn [lookup list_lookup].
  do 4 apply wp_bind, wp_ret. apply wp_bind, wp_modify, wp_bind. apply open_handle_spec; [done..|]. intros out.
  rewrite Strconv.Atoi_Itoa by lia. apply wp_bind, kernel_step. eapply wp_mono; [exact Hc|].
  intros a n' HQ out'. apply wp_ret, HQ.
Qed.

Lemma toolAddService_spec ip port tcp sched n out :
  opens → krep n → Net.wf_ip4 ip → port_ok port →
  let key := {| key_ip := Net.IP_String ip; key_port := port; key_protocol := tool_protocol tcp |} in
  vs (kabs n) !! key = None →
  wp (toolAddService (tool_protocol tcp) (hostport ip port) sched)
     (λ _ w, krep w.1 ∧ kabs w.1 = with_vs (insert key ∅) (kabs n)) (n, out).
Proof.
  intros Ho Hk Hip Hp key Hnone. destruct (tool_svc_ok ip port tcp sched Hip Hp) as [Hwf Hkey].
  apply (service_command ip port (λ a0 a1, "service: " +:+ a0 +:+ ":" +:+ a1 +:+ ":" +:+ tool_protocol tcp +:+ " scheduler: " +:+ sched)
    (λ a0 _ p, NewService (tool_svc a0 p (tool_protocol tcp) sched))); [done..|].
  eapply wp_mono; [apply NewService_spec; [done..|by rewrite Hkey]|].
  intros e n' (_ & Hk' & Ha) out'. rewrite Hkey in Ha. done.
Qed.

Lemma toolDelService_spec ip port tcp n out :
  opens → krep n → Net.wf_ip4 ip → port_ok port →
  let key := {| key_ip := Net.IP_String ip; key_port := port; key_protocol := tool_protocol tcp |} in
  wp (toolDelService (tool_protocol tcp) (hostport ip port))
     (λ _ w, krep w.1 ∧ kabs w.1 = spec_del_service key (kabs n)) (n, out).
Proof.
  intros Ho Hk Hip Hp key. destruct (tool_svc_ok ip port tcp "" Hip Hp) as [Hwf Hkey].
  apply (service_command ip port (λ a0 a1, "service: " +:+ a0 +:+ ":" +:+ a1 +:+ ":" +:+ tool_protocol tcp)
    (λ a0 _ p, DelService (tool_svc a0 p (tool_protocol tcp) ""))); [done..|].
  eapply wp_mono; [by apply DelService_spec|]. intros e n' (_ & Hk' & Ha) out'. rewrite Hkey in Ha. done.
Qed.

Lemma toolAddServer_spec ip port tcp ip2 port2 eps n out :
  opens → krep n → Net.wf_ip4 ip → port_ok port → Net.wf_ip4 ip2 → (0 ≤ port2)%Z →
  let key := {| key_ip := Net.IP_String ip; key_port := port; key_protocol := tool_protocol tcp |} in
  let ep := {| ep_ip := Net.IP_String ip2; ep_port := port |} in
  vs (kabs n) !! key = Some eps →
  wp (toolAddServer (tool_protocol tcp) (hostport ip port) (hostport ip2 port2))
     (λ _ w, krep w.1 ∧ kabs w.1 = with_vs (insert key ({[ep]} ∪ eps)) (kabs n)) (n, out).
Proof.
  intros Ho Hk Hip Hp Hip2 Hp2 key ep Heps. destruct (tool_svc_ok ip port tcp "" Hip Hp) as [Hwf Hkey].
  destruct (tool_dst_ok ip2 port Hip2 Hp) as [Hwd Hdk].
  apply (server_command ip port ip2 port2 (λ a0 a1 d0 d1, announce_server a0 a1 d0 d1 (tool_protocol tcp)) _ _
    (λ a0 d0 p p', NewDestination (tool_svc a0 p (tool_protocol tcp) "") (tool_dst d0 p'))); [done..|].
  eapply wp_mono; [by apply NewDestination_spec|]. intros e n' [Hk' Ha] out'. cbn [fst] in Ha. rewrite Hkey, Hdk in Ha. fold key ep in Ha.
  rewrite Heps in Ha. cbn [fst]. split; [done|]. destruct (decide (ep ∈ eps)) as [Hin|]; [|by destruct Ha].
  destruct Ha as [_ ->]. apply vstate_eq; [|done..]. cbn. rewrite insert_id; [done|]. rewrite Heps. f_equal. set_solver.
Qed.

Lemma toolDelServer_spec ip port tcp ip2 port2 eps n out :
  opens → krep n → Net.wf_ip4 ip → port_ok port → Net.wf_ip4 ip2 → (0 ≤ port2)%Z →
  let key := {| key_ip := Net.IP_String ip; key_port := port; key_protocol := tool_protocol tcp |} in
  let ep := {| ep_ip := Net.IP_String ip2; ep_port := port |} in
  vs (kabs n) !! key = Some eps →
  wp (toolDelServer (tool_protocol tcp) (hostport ip port) (hostport ip2 port2))
     (λ _ w, krep w.1 ∧ kabs w.1 = with_vs (insert key (eps ∖ {[ep]})) (kabs n)) (n, out).
Proof.
  intros Ho Hk Hip Hp Hip2 Hp2 key ep Heps. destruct (tool_svc_ok ip port tcp "" Hip Hp) as [Hwf Hkey].
  destruct (tool_dst_ok ip2 port Hip2 Hp) as [Hwd Hdk].
  apply (server_command ip port ip2 port2 (λ a0 a1 d0 d1, announce_server a0 a1 d0 d1 (tool_protocol tcp)) _ _
    (λ a0 d0 p p', DelDestination (tool_svc a0 p (tool_protocol tcp) "") (tool_dst d0 p'))); [done..|].
  eapply wp_mono; [by apply DelDestination_spec|]. intros e n' [Hk' Ha] out'. cbn [fst] in Ha. rewrite Hkey, Hdk in Ha. fold key ep in Ha.
  rewrite Heps in Ha. cbn [fst]. split; [done|]. destruct (decide (ep ∈ eps)) as [Hin|]; [by destruct Ha|].
  destruct Ha as [_ ->]. apply vstate_eq; [|done..]. cbn. rewrite insert_id; [done|]. rewrite Heps. f_equal. set_solver.
Qed.

(** An argument without a port. *)
Definition no_port (s : string) : Prop := Strings.byteIndex s colon = None.

Lemma Split_no_port s : no_port s → Strings.Split s colon = [s].
Proof. apply Split_none. Qed.

Lemma by_protocol_run tcp f service (run : string → string → M W unit) w :
  service ≠ "nil" → by_protocol (on_service f tcp service) run w = run (tool_protocol tcp) service w.
Proof using Type.
  intros Hn. unfold by_protocol. destruct tcp; cbn.
  - by rewrite bool_decide_false.
  - rewrite bool_decide_true by done. cbn. by rewrite bool_decide_false.
Qed.

Lemma no_port_panics tcp host r sched f w :
  no_port host → host ≠ "nil" →
  f ∈ [cmd true false false false sched r; cmd false true false false sched r;
       cmd false false true false sched r; cmd false false false true sched r] →
  main (on_service f tcp host) w = (Panic "index out of range", w).
Proof.
  intros Hh Hn Hf. repeat (apply elem_of_cons in Hf as [->|Hf]; [|]); [..|by apply elem_of_nil in Hf]; unfold main; cbn [on_service
    cmd f_list add_service del_service add_server del_server];
    (etrans; [exact (by_protocol_run tcp (cmd _ _ _ _ sched r) host _ w Hn)|]);
    unfold toolAddService, toolDelService, toolAddServer, toolDelServer; cbv zeta; by rewrite (Split_no_port _ Hh).
Qed.

Lemma no_server_panics tcp ip port r sched f w :
  Net.wf_ip4 ip → (0 ≤ port)%Z → no_port r →
  f ∈ [cmd false false true false sched r; cmd false false false true sched r] →
  main (on_service f tcp (hostport ip port)) w = (Panic "index out of range", w).
Proof.
  intros Hip Hp Hr Hf. pose proof (hostport_not_nil ip port) as Hn.
  repeat (apply elem_of_cons in Hf as [->|Hf]; [|]); [..|by apply elem_of_nil in Hf]; unfold main; cbn [on_service
    cmd f_list add_service del_service add_server del_server];
    (etrans; [exact (by_protocol_run tcp (cmd _ _ _ _ sched r) _ _ w Hn)|]);
    unfold toolAddServer, toolDelServer; cbv zeta; rewrite Split_hostport by done; cbn [on_service cmd real_server];
    by rewrite (Split_no_port _ Hr).
Qed.

(** C37: The four commands of the tool, on a kernel that behaves as documented,
    with an IPVS handle that can be opened ([opens]). With the addresses typed
    as an IPv4 host, a colon and a port, and where the virtual service is not
    there yet: -A adds it without real servers; -a adds the real server's
    address, but at the port of the virtual service, whatever port was typed
    for it; -d with the same arguments takes that entry out again; -D removes
    the virtual service, and leaves the kernel as it was before; none of these
    panics. But every command panics with an index out of range, before it
    does anything, when the service is typed without a port, though the usage
    says host[:port]; and so do -a and -d when the real server is typed
    without one, or not at all (the value is then nil). *)
Theorem tool_commands (tcp : bool) (ip ip2 : IP) (port port2 : Z) (sched : string) (n : N) (out : string) :
  opens → krep n → Net.wf_ip4 ip → port_ok port → Net.wf_ip4 ip2 → (0 ≤ port2)%Z →
  let key := {| key_ip := Net.IP_String ip; key_port := port; key_protocol := tool_protocol tcp |} in
  let ep := {| ep_ip := Net.IP_String ip2; ep_port := port |} in
  let at_service := λ f, on_service f tcp (hostport ip port) in
  vs (kabs n) !! key = None →
  wp (main (at_service (cmd true false false false sched "nil")) ;; w1 ← get;
      main (at_service (cmd false false true false "wlc" (hostport ip2 port2))) ;; w2 ← get;
      main (at_service (cmd false false false true "wlc" (hostport ip2 port2))) ;; w3 ← get;
      main (at_service (cmd false true false false "wlc" "nil")) ;; mret (w1, w2, w3))
     (λ o w, let '(w1, w2, w3) := o in
        kabs w1.1 = with_vs (insert key ∅) (kabs n) ∧
        kabs w2.1 = with_vs (insert key {[ep]}) (kabs n) ∧
        kabs w3.1 = kabs w1.1 ∧ kabs w.1 = kabs n) (n, out) ∧
  (∀ host r f, no_port host → host ≠ "nil" →
     f ∈ [cmd true false false false sched r; cmd false true false false sched r;
          cmd false false true false sched r; cmd false false false true sched r] →
     main (on_service f tcp host) (n, out) = (Panic "index out of range", (n, out))) ∧
  (∀ r f, no_port r → f ∈ [cmd false false true false sched r; cmd false false false true sched r] →
     main (at_service f) (n, out) = (Panic "index out of range", (n, out))).
Proof.
  intros Ho Hk Hip Hp Hip2 Hp2 key ep at_service Hnone. assert (0 ≤ port)%Z as Hp0 by apply Hp.
  split; [|split; [intros host r f Hh Hne Hf; by apply (no_port_panics tcp host r sched)|
    intros r f Hr Hf; by apply (no_server_panics tcp ip port r sched)]].
  apply wp_bind. eapply wp_mono; [apply by_protocol_spec; [done|]; by apply toolAddService_spec|].
  intros [] [n1 o1] [Hk1 Ha1]. apply wp_bind, wp_get, wp_bind. cbn [fst] in *. fold key in Ha1.
  assert (vs (kabs n1) !! key = Some ∅) as Hl1 by (rewrite Ha1; apply lookup_insert_eq).
  eapply wp_mono; [apply by_protocol_spec; [done|]; by apply (toolAddServer_spec ip port tcp ip2 port2 ∅)|].
  intros [] [n2 o2] [Hk2 Ha2]. apply wp_bind, wp_get, wp_bind. cbn [fst] in *. fold key ep in Ha2.
  rewrite union_empty_r_L in Ha2.
  assert (vs (kabs n2) !! key = Some {[ep]}) as Hl2 by (rewrite Ha2; apply lookup_insert_eq).
  eapply wp_mono; [apply by_protocol_spec; [done|]; by apply (toolDelServer_spec ip port tcp ip2 port2 {[ep]})|].
  intros [] [n3 o3] [Hk3 Ha3]. apply wp_bind, wp_get, wp_bind. cbn [fst] in *. fold key ep in Ha3.
  rewrite difference_diag_L in Ha3.
  eapply wp_mono; [apply by_protocol_spec; [done|]; by apply toolDelService_spec|].
  intros [] [n4 o4] [Hk4 Ha4]. apply wp_ret. cbn [fst] in *. fold key in Ha4.
  split_and!; [done|..]; rewrite ?Ha4, ?Ha3, ?Ha2, ?Ha1; (apply vstate_eq; [|done..]); cbn.
  - by rewrite insert_insert_eq.
  - by rewrite !insert_insert_eq.
  - rewrite !insert_insert_eq. by apply delete_insert_id.
Qed.
End claims.

(** ** On the reference kernel *)
#[export] Instance ref_Handle : Handle Ref.RefKernel := mret None.

Lemma tool_commands_witness :
  let vip := Net.IPv4 [10; 0; 0; 1]%Z in
  let rip := Net.IPv4 [172; 17; 0; 2]%Z in
  wp (main (on_service (cmd true false false false "rr" "nil") true (hostport vip 80)) ;; w1 ← get;
      main (on_service (cmd false false true false "wlc" (hostport rip 8080)) true (hostport vip 80)) ;; w2 ← get;
      main (on_service (cmd false false false true "wlc" (hostport rip 8080)) true (hostport vip 80)) ;; w3 ← get;
      main (on_service (cmd false true false false "wlc" "nil") true (hostport vip 80)) ;; mret (w1, w2, w3))
     (λ o w, kabs o.1.2.1 = with_vs (insert {| key_ip := "10.0.0.1"; key_port := 80; key_protocol := "tcp" |}
                                       {[ {| ep_ip := "172.17.0.2"; ep_port := 80 |} ]}) (kabs (Ref.boot [] [])) ∧
             kabs w.1 = kabs (Ref.boot [] [])) (Ref.boot [] [], "") ∧
  main (on_service (cmd true false false false "rr" "nil") true "10.0.0.1") (Ref.boot [] [], "") =
    (Panic "index out of range", (Ref.boot [] [], "")).
Proof.
  intros vip rip.
  destruct (tool_commands true vip rip 80 8080 "rr" (Ref.boot [] []) "") as (Hwp & Hhost & _).
  - intros n _. exact (conj eq_refl eq_refl).
  - split; intros k x H; discriminate H.
  - exists 10%Z, 0%Z, 0%Z, 1%Z. split; [reflexivity|]. unfold Net.is_byte. repeat constructor; lia.
  - unfold port_ok. lia.
  - exists 172%Z, 17%Z, 0%Z, 2%Z. split; [reflexivity|]. unfold Net.is_byte. repeat constructor; lia.
  - lia.
  - reflexivity.
  - split.
    + eapply wp_mono; [exact Hwp|]. intros [[w1 w2] w3] w (_ & H2 & _ & H4). split; [exact H2|exact H4].
    + apply (Hhost "10.0.0.1" "nil"); [reflexivity|discriminate|apply list_elem_of_here].
Defined.
