(* ===== verification/Server.v ===== *)
(** * The server (app/server.go, kube-enn-proxy.go)

    [Run] starts the informers and the sync loop in goroutines and waits for a
    signal. What the goroutines do until then, and while the main goroutine is
    blocked, is a list of [activity]; everything else is the code in order. *)

From S2P Require Import Prelude GoNet GoTime ProxyTypes ChangeTracking Services EndpointsMap Ipvs Host Strconv Ports Nodes GoIptables Proxier EnnIpvs Masquerade Events EventsClaims Interleave Config ConfigClaims Startup Watchers.

Module Server.
Import GoIptables Proxier Config Masquerade Startup.
Import Nodes(NodeIPInterface, Clientset).

(** How the process, or [Run], ends: [Blocked] is a send or a wait that nothing
    ends. *)
Inductive ending := Returned (err : error) | Blocked.
Inductive process_end := Exit (code : Z) (stderr : string) | Running.

(** The goroutine of SyncLoop: not scheduled yet, in its loop, returned. *)
Inductive loop_state := NotStarted | Looping | Ended.

Section server.
Context {F : Type} `{FS : FileSystem F}.
Context {N : Type} `{NF : Netfilter N}.
Context {K : Type} `{IF : Interface K} `{MR : MapRange}.
Context `{NI : NodeIPInterface K} `{PO : PortOpener} `{EX : Exec} `{NO : NetOS} `{CS : Clientset}.
Context `{TH : Throttling} `{HD : Handle K}.
Context (BuildConfigFromFlags : nat → string → string → error) (NewForConfig : nat → error).
(** Goroutines of a client-go controller that receive from its stop channel. *)
Context (controller_receivers : nat).

(** The files, iptables, the proxier with the kernel, the two global variables
    of the watchers and the state of the sync loop. *)
Record World := {
  files : F;
  proxy : N * Sys K;
  EndpointsWatchConfig : option (Watchers.Informer Watchers.EndpointsUpdate);
  ServiceWatchConfig : option (Watchers.Informer Watchers.ServicesUpdate);
  loop : loop_state;
}.

Definition onProxy {A} (c : M (N * Sys K) A) : M World A :=
  zoom proxy (λ p w, {| files := files w; proxy := p; EndpointsWatchConfig := EndpointsWatchConfig w;
                        ServiceWatchConfig := ServiceWatchConfig w; loop := loop w |}) c.
Definition onEndpointsWatch {A} (c : M (option (Watchers.Informer Watchers.EndpointsUpdate)) A) : M World A :=
  zoom EndpointsWatchConfig (λ e w, {| files := files w; proxy := proxy w; EndpointsWatchConfig := e;
                                       ServiceWatchConfig := ServiceWatchConfig w; loop := loop w |}) c.
Definition onServiceWatch {A} (c : M (option (Watchers.Informer Watchers.ServicesUpdate)) A) : M World A :=
  zoom ServiceWatchConfig (λ s w, {| files := files w; proxy := proxy w; EndpointsWatchConfig := EndpointsWatchConfig w;
                                     ServiceWatchConfig := s; loop := loop w |}) c.
Definition set_loop (l : loop_state) : M World unit :=
  modify (λ w, {| files := files w; proxy := proxy w; EndpointsWatchConfig := EndpointsWatchConfig w;
                  ServiceWatchConfig := ServiceWatchConfig w; loop := l |}).
(** The files, the trace of the host and the IPVS handle, for the
    construction. *)
Definition onFiles {A} (c : M (F * IO * K) A) : M World A :=
  zoom (λ w, (files w, io (proxy w).2, kern (proxy w).2))
       (λ p w, {| files := p.1.1; proxy := ((proxy w).1, {| px := px (proxy w).2; kern := p.2; io := p.1.2 |});
                  EndpointsWatchConfig := EndpointsWatchConfig w; ServiceWatchConfig := ServiceWatchConfig w;
                  loop := loop w |}) c.

(** ** The watchers *)
Definition createWatcher (endpoints services : list object) : M World error :=
  onEndpointsWatch (Watchers.NewEndpointWatcher controller_receivers endpoints) ;;
  onServiceWatch (Watchers.NewServiceWatcher controller_receivers services) ;;
  mret None.
Definition StopWatcher : M World error :=
  onEndpointsWatch Watchers.StopEndpointsWatcher ;;
  onServiceWatch Watchers.StopServiceWatcher ;;
  mret None.

(** ** The goroutines

    SyncLoop returns at once when its first EnsureIPtablesMASQ fails; its ticker
    panics for a period that is not positive. A handler is called as a whole
    ([Notified]) or in its two halves: it records its change, or sets its flag
    ([Noted]), and gets the proxier's mutex later ([Syncing false]), when other
    handlers and syncs have come in between. While a sync of a handler or of a
    tick ([Syncing true]) has the mutex, other handlers record theirs in its
    gaps. Handlers may sync here although their change was nothing new: the
    condition for the second half is [wants_sync], which is not needed. *)
Inductive activity :=
| LoopScheduled
| Notified (n : notification)
| Noted (n : notification)
| Syncing (tick : bool) (g : gaps).

Definition start_loop : M World unit :=
  err ← onProxy SyncLoop_start;
  set_loop (match err with Some _ => Ended | None => Looping end).

(** [Sync] of a tick, with what is recorded while it programs. *)
Definition Sync_gaps (g : gaps) : M (N * Sys K) unit := ensure_masq ;; onSys (sync_with g) ;; mret tt.

Definition act (a : activity) : M World unit :=
  l ← gets loop;
  match a with
  | LoopScheduled => match l with NotStarted => start_loop | _ => mret tt end
  | Notified NTick => match l with Looping => onProxy Sync | _ => mret tt end
  | Notified n => onProxy (onSys (notify n))
  | Noted n => match event_of n with Some e => onProxy (onSys (assign (noted e))) | None => mret tt end
  | Syncing false g => onProxy (onSys (sync_with g)) ;; mret tt
  | Syncing true g =>
      match l with
      | Looping => onProxy (Sync_gaps g)
      | _ => onProxy (onSys (assign (noted_all (recorded_in g))))      (* no tick, only the handlers *)
      end
  end.

(** ** Run *)
Definition birthCry {SH EH} (s : EnnProxyServer SH EH) : M World unit :=
  onProxy (onSys (onIO (emit (ERecord (ref_Name (NodeRef s)) "Starting" "Starting kube-proxy.")))).

(** Sending on the unbuffered channel: SyncLoop takes it in its loop; when its
    goroutine has not run yet it still will; when it has returned nobody
    takes it. *)
Definition send_stop : M World bool :=
  l ← gets loop;
  match l with
  | Looping => set_loop Ended ;; mret true
  | NotStarted =>
      start_loop ;;
      l ← gets loop;
      match l with Looping => set_loop Ended ;; mret true | _ => mret false end
  | Ended => mret false
  end.

(** [before]: until the signal arrives. The handlers are registered in
    [notify], which calls the proxier; the wait group is done when SyncLoop has
    returned. *)
Definition Run {SH EH} (s : EnnProxyServer SH EH) (before : list activity) : M World ending :=
  birthCry s ;;
  for_each before act ;;
  sent ← send_stop;
  if sent : bool then
    StopWatcher ;;
    mret (Returned None)
  else mret Blocked.

(** ** main *)
Definition set_proxier (p : Proxier.Proxier) : M World unit :=
  onProxy (modify (λ s : N * Sys K, (s.1, {| px := p; kern := kern s.2; io := io s.2 |}))).

(** The maps of this proxier are nil, its settings zero. *)
Definition zero_proxier : Proxier.Proxier := Proxier.new_proxier false "" "" 0.
Definition FakeProxier : M K Proxier.Proxier := EnnIpvs.NewEnnIpvs ;; mret zero_proxier.

Definition CleanUpAndExit : M World unit :=
  p ← onProxy (onSys (onK FakeProxier));
  set_proxier p ;;
  onProxy CleanupLeftovers.

(** The parsed flags; the glog flags only change the logging. *)
Definition apply_flags (sets : list (KubeEnnProxyConfig → KubeEnnProxyConfig)) : KubeEnnProxyConfig :=
  foldl (λ c f, f c) NewKubeEnnProxyConfig sets.

Definition main (sets : list (KubeEnnProxyConfig → KubeEnnProxyConfig)) (before : list activity) : M World process_end :=
  let config := apply_flags sets in
  if CleanupConfig config then CleanUpAndExit ;; mret (Exit 0 "")
  else
    s ← onFiles (NewEnnProxyServerDefault BuildConfigFromFlags NewForConfig config);
    match s with
    | Err err => mret (Exit 1 ("Ennproxy config error: " +:+ err +:+ String (Ascii.ascii_of_nat 10) ""))
    | OK server =>
        set_proxier (Proxier server) ;;
        e ← Run server before;
        mret (match e with
              | Returned (Some err) => Exit 1 ("Ennproxy run error: " +:+ err +:+ String (Ascii.ascii_of_nat 10) "")
              | Returned None => Exit 0 ""
              | Blocked => Running
              end)
    end.
End server.
End Server.
