(* ===== verification/ServerClaims.v ===== *)
(** * Properties of the server's life *)

From S2P Require Import Prelude GoNet GoTime ProxyTypes ChangeTracking Services EndpointsMap Ipvs Host Strconv Ports Nodes GoIptables IptablesFacts Proxier EnnIpvs Masquerade MasqClaims Events EventsClaims Interleave Config ConfigClaims Startup Watchers FakeIpvs WfCheck TestBed Server.
Import GoIptables RefNf Fake Ports Proxier Config Masquerade Startup Server TestBed.
Import Nodes(NodeIPInterface, Clientset).

Section claims.
Context {F : Type} `{FS : FileSystem F}.
Context {N : Type} `{NF : Netfilter N}.
Context {K : Type} `{IF : Interface K} `{MR : MapRange}.
Context `{NI : NodeIPInterface K} `{PO : PortOpener} `{EX : Exec} `{NO : NetOS} `{CS : Clientset} `{TH : Throttling} `{HD : Handle K}.
Context (BuildConfigFromFlags : nat → string → string → error) (NewForConfig : nat → error).
Abbreviation World := (@World F N K).
Implicit Types w : World.

(** The watchers are only made by [createWatcher]. *)
Definition no_watchers w : Prop := EndpointsWatchConfig w = None.

Lemma onProxy_watchers {A} (c : M (N * Sys K) A) w : no_watchers w → wlp (onProxy c) (λ _ w', no_watchers w' ∧ loop w' = loop w) w.
Proof. intros H. unfold wlp, onProxy, zoom. by destruct (c (proxy w)) as [[]]. Qed.

Lemma onProxy_no_watchers {A} (c : M (N * Sys K) A) w : no_watchers w → wlp (onProxy c) (λ _ w', no_watchers w') w.
Proof. intros H. eapply wlp_mono; [by apply onProxy_watchers|]. by intros a' w' [? _]. Qed.

Lemma start_loop_watchers w : no_watchers w → wlp start_loop (λ _ w', no_watchers w') w.
Proof.
  intros H. unfold start_loop. apply wlp_bind. eapply wlp_mono; [by apply onProxy_watchers|].
  intros err w1 [H1 _]. done.
Qed.

Lemma act_watchers a w : no_watchers w → wlp (act a) (λ _ w', no_watchers w') w.
Proof.
  intros H. unfold act. apply wlp_bind, wlp_ret. destruct a as [|n|n|[] g].
  - destruct (loop w); [by apply start_loop_watchers|done..].
  - destruct n; try by apply onProxy_no_watchers. destruct (loop w); [done|by apply onProxy_no_watchers|done].
  - destruct (event_of n); [by apply onProxy_no_watchers|done].
  - destruct (loop w); by apply onProxy_no_watchers.
  - apply wlp_bind. eapply wlp_mono; [by apply onProxy_no_watchers|]. intros e w1 H1. by apply wlp_ret.
Qed.

Lemma send_stop_watchers w :
  no_watchers w → wlp send_stop (λ sent w', no_watchers w' ∧ (sent = false → loop w' = Ended)) w.
Proof.
  intros H. unfold send_stop. apply wlp_bind. change (wlp (match loop w with
    | NotStarted => start_loop ;; l ← gets loop; match l with Looping => set_loop Ended ;; mret true | _ => mret false end
    | Looping => set_loop Ended ;; mret true | Ended => mret false end)
    (λ sent w', no_watchers w' ∧ (sent = false → loop w' = Ended)) w).
  destruct (loop w) eqn:El; [|done|by apply wlp_ret].
  apply wlp_bind. unfold start_loop. apply wlp_bind. eapply wlp_mono; [by apply onProxy_watchers|].
  intros err w1 [H1 _]. destruct err; by split.
Qed.

(** What happens up to the stop value: the goroutines until the signal, and the
    send; [true] when SyncLoop took it. *)
Definition until_stop {SH EH} (s : EnnProxyServer SH EH) (before : list activity) : M World bool := birthCry s ;; for_each before act ;; send_stop.

Lemma until_stop_watchers {SH EH} (s : EnnProxyServer SH EH) before w :
  no_watchers w → wlp (until_stop s before) (λ sent w', no_watchers w' ∧ (sent = false → loop w' = Ended)) w.
Proof.
  intros H. unfold until_stop, birthCry. apply wlp_bind.
  eapply wlp_mono; [by apply onProxy_watchers|]. intros [] w2 [H2 _]. apply wlp_bind.
  eapply wlp_mono; [apply (wlp_for_each no_watchers); [done|intros; by apply act_watchers]|]. intros [] w3 H3.
  by apply send_stop_watchers.
Qed.

Lemma Run_until_stop {SH EH} (s : EnnProxyServer SH EH) before w :
  Run s before w = (sent ← until_stop s before; if sent : bool then StopWatcher ;; mret (Returned None) else mret Blocked) w.
Proof.
  unfold Run, until_stop, mbind, M_bind. destruct (birthCry s w) as [[[]|] w1]; [|done].
  by destruct (for_each before act w1) as [[[]|] w2].
Qed.

Lemma StopWatcher_nil w :
  no_watchers w → (StopWatcher ;; mret (Returned None)) w = (Panic "invalid memory address or nil pointer dereference", w).
Proof. intros H. destruct w. unfold no_watchers in H. cbn in H. by subst. Qed.

(** C36: The server never shuts down in order. The program makes no watchers: if
    the goroutines get as far as the signal, [Run] panics, stopping watchers
    that are nil, when SyncLoop takes the stop value, and blocks for ever on
    sending it when SyncLoop had given up because its first
    EnsureIPtablesMASQ failed. So the process exits with code 0 only when it
    was asked to clean up. *)
Theorem server_stops_badly {SH EH} (s : EnnProxyServer SH EH)
    (sets : list (KubeEnnProxyConfig → KubeEnnProxyConfig)) (before : list activity) w w' (sent : bool) :
  no_watchers w → until_stop s before w = (Ret sent, w') →
  Run s before w = (if sent then Panic "invalid memory address or nil pointer dereference" else Ret Blocked, w') ∧
  (sent = false → loop w' = Ended) ∧
  (∀ err w1, main BuildConfigFromFlags NewForConfig sets before w = (Ret (Exit 0 err), w1) →
     CleanupConfig (apply_flags sets) = true).
Proof.
  assert (∀ SH EH (s : EnnProxyServer SH EH) w e w1, no_watchers w → Run s before w = (Ret e, w1) → e = Blocked) as Hrun.
  { clear. intros SH EH s w e w1 H. rewrite Run_until_stop. pose proof (until_stop_watchers s before w H) as Hu.
    unfold wlp in Hu. unfold mbind at 1, M_bind at 1. destruct (until_stop s before w) as [[sent|] w2]; [|done].
    destruct sent; [|by intros [= <- _]]. destruct Hu as [Hu _]. by rewrite StopWatcher_nil. }
  intros H Hsent. pose proof (until_stop_watchers s before w H) as Hu. unfold wlp in Hu. rewrite Hsent in Hu.
  destruct Hu as [Hn Hl]. split; [|split; [done|]].
  - rewrite Run_until_stop. unfold mbind at 1, M_bind at 1. rewrite Hsent.
    destruct sent; [by apply StopWatcher_nil|done].
  - intros err w1 Hmain. destruct (CleanupConfig (apply_flags sets)) eqn:E; [done|]. exfalso. revert Hmain.
    unfold main. rewrite E. unfold mbind, M_bind. unfold onFiles at 1, zoom at 1.
    destruct (NewEnnProxyServerDefault _ _ _ _) as [[[srv|e]|] fi]; [|done|done].
    unfold set_proxier. cbn. match goal with |- context [Run _ before ?w0] => set (w2 := w0) end.
    assert (no_watchers w2) as H2 by exact H. specialize (Hrun _ _ srv w2). destruct (Run srv before w2) as [[e|] w3]; [|done].
    rewrite (Hrun e w3 H2 eq_refl). done.
Qed.

(** With watchers in place the same code returns nil. *)
Lemma with_watchers_returns {SH EH} (s : EnnProxyServer SH EH) before w w' eps svcs :
  until_stop s before w = (Ret true, w') →
  EndpointsWatchConfig w' = Some (Watchers.new_watcher 1 eps) → ServiceWatchConfig w' = Some (Watchers.new_watcher 1 svcs) →
  ∃ w'', Run s before w = (Ret (Returned None), w'').
Proof.
  intros Hs He Hv. rewrite Run_until_stop. unfold mbind at 1, M_bind at 1. rewrite Hs.
  destruct w'. cbn in *. subst. by eexists.
Qed.
End claims.

(** ** A node on which the loop runs, and is told to stop *)
Definition bed_client : Clientset := {|
  Nodes.Nodes_Get _ name := OK {| Nodes.node_Name := name; Nodes.PodCIDR := "10.244.1.0/24"; Nodes.node_Addresses := [] |} |}.
Definition bed_files : FileSystem unit := {| ReadFile _ := mret (OK "1"); WriteFile _ _ := mret None |}.

Definition bed_world : World (F := unit) (N := RefNf.RefNf) (K := Fake.Faker) := {|
  files := tt; proxy := (fresh_nf, TestBed.start); EndpointsWatchConfig := None; ServiceWatchConfig := None;
  loop := NotStarted |}.
Definition bed_server : EnnProxyServer unit unit := {|
  Startup.Config := NewKubeEnnProxyConfig; Startup.Proxier := px TestBed.start;
  NodeRef := {| ref_Kind := "Node"; ref_Name := "node1"; ref_UID := "node1"; ref_Namespace := "" |};
  s_ConfigSyncPeriod := 0; ServiceEventHandler := tt; EndpointsEventHandler := tt |}.
Definition bed_before : list activity :=
  [LoopScheduled; Notified NServicesListed; Notified (NAddService (OService TestBed.web)); Notified NEndpointsListed; Notified NTick].

Lemma until_stop_bed : let r := until_stop bed_server bed_before bed_world in (Ret true, r.2) = r.
Proof.
  cbv zeta. destruct (until_stop bed_server bed_before bed_world) as [o w] eqn:E.
  assert (o = (until_stop bed_server bed_before bed_world).1) as -> by (by rewrite E). cbn [snd].
  assert ((until_stop bed_server bed_before bed_world).1 = Ret true) as -> by (by vm_compute). done.
Qed.

Lemma server_stops_badly_witness :
  let w' := (until_stop bed_server bed_before bed_world).2 in
  Run bed_server bed_before bed_world = (Panic "invalid memory address or nil pointer dereference", w').
Proof.
  intros w'.
  destruct (@server_stops_badly unit bed_files _ _ _ _ _ _ _ _ _ bed_client (λ _ _, Ret tt) (mret None : M Fake.Faker error) (λ _ _ _, None) (λ _, None)
    _ _ bed_server [] bed_before bed_world w' true) as [H _].
  - reflexivity.
  - subst w'. symmetry. apply until_stop_bed.
  - exact H.
Defined.
