(* ===== verification/ServerRun.v ===== *)
(** * The running server

    What the goroutines of [Run] achieve together: the informers' handlers, the
    ticks of SyncLoop, the IPVS kernel and the masquerade rules. The world of
    [Server] is shown to simulate the event histories of [Events], with the
    netfilter state beside them. *)

From S2P Require Import Prelude GoNet GoTime ProxyTypes ChangeTracking Services EndpointsMap Ipvs Host Strconv Ports Nodes GoIptables IptablesFacts Proxier ProxierFacts FullSync SyncSpec IncrSync Events EventsClaims Interleave Masquerade MasqClaims Config ConfigClaims Startup StartupClaims Watchers FakeIpvs EnnIpvs RefKernel WfCheck TestBed Server ServerClaims.
Import GoIptables RefNf Ports EnnIpvs Ref Proxier Config Masquerade Startup Server.
Import Nodes(NodeIPInterface).

Section running.
Context {F : Type} `{FS : FileSystem F}.
Context {N : Type} `{NF : Netfilter N} `{NFS : !NetfilterSpec N}.
Context {K : Type} `{IF : Interface K} `{IS : !IpvsSpec K} `{IR : !IpvsRobust K} `{MR : MapRange}.
Context `{NI : NodeIPInterface K} `{PO : PortOpener} `{PS : !PortOpenerSpec} `{EX : Exec} `{NO : NetOS}.
Context (ips : list IP) `{NS : !NodeIPSpec ips} (host : string).
Abbreviation World := (@World F N K).
Implicit Types w : World.

(** ** The masquerade rules of one state *)

(** The nat table has its POSTROUTING chain. *)
Definition nat_ready (n : N) : Prop := nf_rep n ∧ is_Some (nf_rules n !! ("nat", "POSTROUTING")).
Definition masqueraded (all : bool) (cidr : string) (n : N) : Prop :=
  ∃ l, nf_rules n !! ("nat", "POSTROUTING") = Some l ∧ ∀ r, r ∈ wanted_rules all cidr → r ∈ l.

(** The host's iptables has the check command. *)
Context (v : Z * Z * Z) (Hv : extractIptablesVersion nf_version = OK v)
  (Hcheck : iptablesHasCheckCommand v.1.1 v.1.2 v.2 = true).

Lemma ensure_masq_spec (s : N * Sys K) :
  nat_ready s.1 → clusterCIDR (px s.2) ≠ "--wait" →
  wp ensure_masq (λ err s', err = None ∧ nat_ready s'.1 ∧ s'.2 = s.2 ∧
    masqueraded (masqueradeAll (px s.2)) (clusterCIDR (px s.2)) s'.1) s.
Proof using Hv Hcheck NFS.
  intros [Hrep [l Hl]] Hcidr. unfold ensure_masq. do 2 (apply wp_bind, wp_zoom, wp_field). apply wp_zoom.
  eapply wp_mono; [by apply (EnsureIPtablesMASQ_spec _ _ _ v l)|]. intros err n' (-> & Hrep' & Hr).
  destruct s as [n s]. cbn [fst snd] in *. split; [done|]. split; [|split; [by destruct s|]].
  - split; [done|]. rewrite Hr, lookup_insert_eq. eauto.
  - eexists. split; [by rewrite Hr, lookup_insert_eq|]. intros r Hw. apply elem_of_app.
    destruct (decide (r ∈ l)); [by right|left]. by apply list_elem_of_filter.
Qed.

(** ** The activities as events *)
Definition loop_after (l : loop_state) (a : activity) : loop_state :=
  match a, l with LoopScheduled, NotStarted => Looping | _, _ => l end.

Definition to_list (o : option happening) : list happening := match o with Some e => [e] | None => [] end.

(** A tick that finds the loop not running does nothing. *)
Definition heard (l : loop_state) (a : activity) : list happening :=
  match a with
  | LoopScheduled => []
  | Notified NTick => match l with Looping => [EvPeriodic] | _ => [] end
  | Notified n | Noted n => to_list (event_of n)
  | Syncing false g => told (Interleave.Synced g)
  | Syncing true g => match l with Looping => told (Interleave.Synced g) | _ => recorded_in g end
  end.
Fixpoint happenings (l : loop_state) (acts : list activity) : list happening :=
  match acts with
  | [] => []
  | a :: acts => heard l a ++ happenings (loop_after l a) acts
  end.

(** What is recorded in the middle of a sync is recorded where nothing is
    lost. *)
Definition undisturbed (a : activity) : bool := match a with Syncing _ g => outside_windows g | _ => true end.

Lemma happenings_app l acts acts' :
  happenings l (acts ++ acts') = happenings l acts ++ happenings (foldl loop_after l acts) acts'.
Proof. revert l. induction acts as [|a acts IH]; intros l; [done|]. cbn. by rewrite IH, app_assoc. Qed.

(** ** The simulation invariant *)
Record serving (all : bool) (cidr : string) (sv : api_services) (ep : api_endpoints) w : Prop := {
  sv_nat : nat_ready (proxy w).1;
  sv_masq : loop w = Looping → masqueraded all cidr (proxy w).1;
  sv_sys : Winv ips host {| sys := (proxy w).2; svcs := sv; epss := ep |};
  sv_all : masqueradeAll (px (proxy w).2) = all;
  sv_cidr : clusterCIDR (px (proxy w).2) = cidr;
  sv_period : (0 < syncPeriod (px (proxy w).2))%Z;
  sv_open : loop w ≠ Ended;
}.

Definition sv_flags w : bool * bool * Z := flags (proxy w).2.

Lemma masq_world all cidr sv ep w :
  cidr ≠ "--wait" → serving all cidr sv ep w →
  wp (onProxy ensure_masq) (λ err w', err = None ∧ serving all cidr sv ep w' ∧ masqueraded all cidr (proxy w').1 ∧
    loop w' = loop w ∧ (proxy w').2 = (proxy w).2) w.
Proof using Hv Hcheck NFS.
  intros Hc Hs. destruct Hs as [Hn Hm Hw <- <- Hp Hl]. apply wp_zoom. eapply wp_mono; [by apply ensure_masq_spec|].
  intros err s' (-> & Hn' & Hs' & Hm'). split; [done|]. split; [|done]. split; cbn; rewrite ?Hs'; done.
Qed.

(** SyncLoop up to its loop: the ticker can be made. *)
Lemma start_world all cidr sv ep w :
  cidr ≠ "--wait" → serving all cidr sv ep w →
  wp (onProxy SyncLoop_start) (λ err w', err = None ∧ serving all cidr sv ep w' ∧ masqueraded all cidr (proxy w').1 ∧
    loop w' = loop w ∧ (proxy w').2 = (proxy w).2) w.
Proof using Hv Hcheck NFS.
  intros Hc Hs. pose proof (sv_period _ _ _ _ _ Hs) as Hp.
  assert (onProxy SyncLoop_start w = onProxy ensure_masq w) as E.
  { unfold onProxy, zoom, SyncLoop_start, mbind, M_bind, onSys, zoom, field, gets, GoTime.NewTicker. cbn.
    destruct (Z.leb_spec (syncPeriod (px (proxy w).2)) 0); [lia|]. by destruct (proxy w) as [n [p k i]]. }
  unfold wp. rewrite E. by apply (masq_world all cidr sv ep).
Qed.

(** A handler of the proxier run in the server's world. *)
Lemma sys_world {A} all cidr sv ep sv' ep' w (c : M (Sys K) A) (Q : Sys K → Prop) :
  serving all cidr sv ep w →
  wp c (λ _ s', Winv ips host {| sys := s'; svcs := sv'; epss := ep' |} ∧
    settings (px s') = settings (px (proxy w).2) ∧ Q s') (proxy w).2 →
  wp (onProxy (onSys c)) (λ _ w', serving all cidr sv' ep' w' ∧ loop w' = loop w ∧ Q (proxy w').2 ∧
    (proxy w').1 = (proxy w).1) w.
Proof using Type.
  intros [Hn Hm Hw Ha Hc Hp Hl] Hwp. do 2 apply wp_zoom. eapply wp_mono; [exact Hwp|].
  intros a s' (Hw' & Hset & HQ). injection Hset as _ Hall Hcidr Hper. split; [|done].
  split; cbn; [done|done|done|by rewrite Hall|by rewrite Hcidr|by rewrite Hper|done].
Qed.
(** A notification is the history of its event. *)
Lemma notify_wp n (Q : unit → Sys K → Prop) s :
  wp (run_events (to_list (event_of n))) Q s → wp (notify n) Q s.
Proof using Type.
  unfold wp. rewrite notify_event. destruct (event_of n) as [e|]; [|done].
  unfold run_events. cbn [to_list for_each]. by rewrite then_ret.
Qed.

(** Events of one activity, from the invariant. *)
Lemma events_world all cidr sv ep w es (c : M (Sys K) unit) :
  serving all cidr sv ep w → deliverable ips host es sv ep →
  (∀ Q s, wp (run_events es) Q s → wp c Q s) →
  wp (onProxy (onSys c)) (λ _ w',
    serving all cidr (foldl (flip services_after) sv es) (foldl (flip endpoints_after) ep es) w' ∧ loop w' = loop w ∧
    sv_flags w' = foldl (flip flags_after) (sv_flags w) es ∧ (proxy w').1 = (proxy w).1) w.
Proof using IR PS NS.
  intros Hs Hd Hc. apply (sys_world all cidr sv ep _ _ w _ (λ s', flags s' = foldl (flip flags_after) (sv_flags w) es) Hs).
  apply Hc. eapply wp_mono; [by apply (run_events_Winv ips host es _ (sv_sys _ _ _ _ _ Hs))|].
  intros [] s' (Hw & Hf & Hset). done.
Qed.

(** A sync after the masquerade rules were ensured: [c] is the sync, with what is
    recorded in its gaps. *)
Lemma masq_then_world all cidr sv ep sv' ep' w (c : M (Sys K) unit) (Q : Sys K → Prop) :
  cidr ≠ "--wait" → serving all cidr sv ep w →
  wp c (λ _ s', Winv ips host {| sys := s'; svcs := sv'; epss := ep' |} ∧
    settings (px s') = settings (px (proxy w).2) ∧ Q s') (proxy w).2 →
  wp (onProxy (ensure_masq ;; onSys c)) (λ _ w', serving all cidr sv' ep' w' ∧ loop w' = loop w ∧
    masqueraded all cidr (proxy w').1 ∧ Q (proxy w').2) w.
Proof using Hv Hcheck NFS.
  intros Hc Hs HQ. assert (onProxy (ensure_masq ;; onSys c) w = (onProxy ensure_masq ;; onProxy (onSys c)) w) as E.
  { unfold onProxy, mbind, M_bind, zoom. destruct (ensure_masq (proxy w)) as [[]]; [|done]. cbn.
    by destruct (onSys _ _). }
  unfold wp. rewrite E. apply wp_bind. eapply wp_mono; [by apply (masq_world all cidr)|].
  intros err w1 (_ & Hs1 & Hm1 & Hl1 & Hp1).
  eapply wp_mono; [apply (sys_world all cidr sv ep sv' ep' w1 _ Q Hs1); rewrite Hp1; exact HQ|].
  intros [] w2 (Hs2 & Hl2 & HQ2 & Hn2). rewrite Hn2. split; [done|]. split; [congruence|]. done.
Qed.

Lemma Sync_world all cidr sv ep w (Q : Sys K → Prop) :
  cidr ≠ "--wait" → serving all cidr sv ep w → wp syncProxyRules (λ _, Q) (proxy w).2 →
  wp (onProxy Sync) (λ _ w', serving all cidr sv ep w' ∧ loop w' = loop w ∧ sv_flags w' = sv_flags w ∧
    masqueraded all cidr (proxy w').1 ∧ Q (proxy w').2) w.
Proof using Hv Hcheck NFS IR PS NS.
  intros Hc Hs HQ. pose proof (sync_Winv ips host _ (sv_sys _ _ _ _ _ Hs)) as Hw. cbn [sys svcs epss] in Hw.
  eapply wp_mono; [apply (masq_then_world all cidr sv ep sv ep w syncProxyRules (λ s', flags s' = sv_flags w ∧ Q s') Hc Hs)|].
  - eapply wp_mono; [exact (wp_and _ _ _ _ Hw HQ)|]. intros [] s' [[Hw' (Hf & Hset & _)] HQ']. done.
  - intros [] w2 (Hs2 & Hl2 & Hm2 & Hf2 & HQ2). done.
Qed.

(** What a sync with recordings in its gaps, or the recordings alone, lead
    to. *)
Lemma sync_with_world all cidr sv ep w g :
  serving all cidr sv ep w → outside_windows g = true → let es := told (Interleave.Synced g) in
  deliverable ips host es sv ep →
  wp (sync_with g) (λ _ s', Winv ips host {| sys := s'; svcs := foldl (flip services_after) sv es;
      epss := foldl (flip endpoints_after) ep es |} ∧
    settings (px s') = settings (px (proxy w).2) ∧ flags s' = foldl (flip flags_after) (sv_flags w) es) (proxy w).2.
Proof using IR PS NS.
  intros Hs Hg es Hd. eapply wp_mono; [exact (sync_with_Winv ips host g _ (sv_sys _ _ _ _ _ Hs) Hg Hd)|].
  intros e s' (? & ? & ?). done.
Qed.
Lemma noted_world all cidr sv ep w es :
  serving all cidr sv ep w → deliverable ips host es sv ep →
  wp (assign (noted_all es)) (λ _ s', Winv ips host {| sys := s'; svcs := foldl (flip services_after) sv es;
      epss := foldl (flip endpoints_after) ep es |} ∧
    settings (px s') = settings (px (proxy w).2) ∧ flags s' = foldl (flip flags_after) (sv_flags w) es) (proxy w).2.
Proof using Type.
  intros Hs Hd. apply wp_assign. by destruct (notes_Winv ips host es _ (sv_sys _ _ _ _ _ Hs) Hd) as (? & ? & ?).
Qed.

(** Every activity keeps the invariant. *)
Lemma act_serving all cidr sv ep w a :
  cidr ≠ "--wait" → serving all cidr sv ep w → undisturbed a = true → let es := heard (loop w) a in
  deliverable ips host es sv ep →
  wp (act a) (λ _ w',
    serving all cidr (foldl (flip services_after) sv es) (foldl (flip endpoints_after) ep es) w' ∧
    loop w' = loop_after (loop w) a ∧ sv_flags w' = foldl (flip flags_after) (sv_flags w) es) w.
Proof using Hv Hcheck NFS IR PS NS.
  intros Hc Hs Hu es Hd. assert (∀ (c : M (Sys K) unit) es, (∀ l, loop_after l a = l) →
    wp c (λ _ s', Winv ips host {| sys := s'; svcs := foldl (flip services_after) sv es; epss := foldl (flip endpoints_after) ep es |} ∧
      settings (px s') = settings (px (proxy w).2) ∧ flags s' = foldl (flip flags_after) (sv_flags w) es) (proxy w).2 →
    wp (onProxy (onSys c)) (λ _ w', serving all cidr (foldl (flip services_after) sv es) (foldl (flip endpoints_after) ep es) w' ∧
      loop w' = loop_after (loop w) a ∧ sv_flags w' = foldl (flip flags_after) (sv_flags w) es) w) as Hone.
  { intros c es' Hl Hwp. eapply wp_mono; [exact (sys_world all cidr sv ep _ _ w c _ Hs Hwp)|].
    intros [] w1 (? & ? & ? & _). by rewrite Hl. }
  unfold act. apply wp_bind, wp_gets. destruct a as [|n|n|[] g]; cbn [undisturbed] in Hu.
  - cbn. destruct (loop w) eqn:El; [|by apply wp_ret..]. unfold start_loop. apply wp_bind.
    eapply wp_mono; [by apply (start_world all cidr)|]. intros err w1 (-> & [? _ ? ? ? ? _] & Hm & _ & Hp).
    apply wp_modify. unfold sv_flags. cbn. by rewrite Hp.
  - assert (n = NTick ∨ heard (loop w) (Notified n) = to_list (event_of n) ∧
      (match n with NTick => match loop w with Looping => onProxy Sync | _ => mret tt end | _ => onProxy (onSys (notify n)) end
        = (onProxy (onSys (notify n)) : M World unit))) as [->|[En Ea]] by (destruct n; auto).
    + cbn in *. unfold es. destruct (loop w) eqn:El; [by apply wp_ret| |by apply wp_ret].
      eapply wp_mono; [apply (Sync_world all cidr sv ep w (λ _, True) Hc Hs)|].
      { eapply wp_mono; [apply (sync_Winv ips host _ (sv_sys _ _ _ _ _ Hs))|done]. }
      intros [] w1 (Hs1 & Hl1 & Hf1 & _). cbn.
      split; [done|]. split; [congruence|]. rewrite Hf1. by destruct (sv_flags w) as [[]].
    + unfold es in *. rewrite En in *. rewrite Ea.
      eapply wp_mono; [apply (events_world all cidr sv ep w _ _ Hs Hd); intros; by apply notify_wp|].
      intros [] w1 (? & ? & ? & _). cbn. by destruct (loop w).
  - unfold es in *. cbn [heard] in *. destruct (event_of n) as [e|]; [|by apply wp_ret].
    apply Hone; [done|]. exact (noted_world all cidr sv ep w [e] Hs Hd).
  - cbn [heard] in es. destruct (loop w) eqn:El.
    + apply Hone; [done|]. by apply (noted_world all cidr).
    + assert (onProxy (Sync_gaps g) w = onProxy (ensure_masq ;; onSys (sync_with g ;; mret tt)) w) as E.
      { unfold onProxy, Sync_gaps, onSys, zoom, mbind, M_bind. destruct (ensure_masq (proxy w)) as [[] p1]; [|done].
        cbn. by destruct (sync_with g p1.2) as [[] s2]. }
      unfold wp. rewrite E.
      eapply wp_mono; [apply (masq_then_world all cidr sv ep (foldl (flip services_after) sv es)
        (foldl (flip endpoints_after) ep es) w _ (λ s', flags s' = foldl (flip flags_after) (sv_flags w) es) Hc Hs)|].
      * apply wp_bind. eapply wp_mono; [by apply (sync_with_world all cidr sv ep w g)|]. intros e s' H. by apply wp_ret.
      * intros [] w1 (? & Hl1 & _ & ?). rewrite El in Hl1. done.
    + apply Hone; [done|]. by apply (noted_world all cidr).
  - assert ((onProxy (onSys (sync_with g)) ;; mret tt : M World unit) w = onProxy (onSys (sync_with g ;; mret tt)) w) as E.
    { unfold onProxy, onSys, zoom, mbind, M_bind. by destruct (sync_with g (proxy w).2) as [[] s2]. }
    unfold wp. rewrite E. apply Hone; [done|]. apply wp_bind.
    eapply wp_mono; [by apply (sync_with_world all cidr sv ep w g)|]. intros e s' H. by apply wp_ret.
Qed.
(** ** Histories *)
Lemma acts_serving all cidr acts sv ep w :
  cidr ≠ "--wait" → serving all cidr sv ep w → forallb undisturbed acts = true → let es := happenings (loop w) acts in
  deliverable ips host es sv ep →
  wp (for_each acts act) (λ _ w',
    serving all cidr (foldl (flip services_after) sv es) (foldl (flip endpoints_after) ep es) w' ∧
    loop w' = foldl loop_after (loop w) acts ∧ sv_flags w' = foldl (flip flags_after) (sv_flags w) es) w.
Proof using Hv Hcheck NFS IR PS NS.
  intros Hc. revert sv ep w. induction acts as [|a acts IH]; intros sv ep w Hs Hu es Hd; [by apply wp_ret|].
  apply andb_true_iff in Hu as [Hu Hus]. apply deliverable_app in Hd as [Hd Hds]. apply wp_bind.
  eapply wp_mono; [exact (act_serving all cidr sv ep w a Hc Hs Hu Hd)|].
  intros [] w1 (Hs1 & Hl1 & Hf1). rewrite <-Hl1 in Hds. eapply wp_mono; [exact (IH _ _ w1 Hs1 Hus Hds)|].
  intros [] w2 (Hs2 & Hl2 & Hf2). unfold es. cbn [happenings foldl]. rewrite !foldl_app, <-Hl1, <-Hf1. done.
Qed.

Lemma loop_scheduled acts : LoopScheduled ∈ acts → foldl loop_after NotStarted acts = Looping.
Proof.
  assert (∀ acts, foldl loop_after Looping acts = Looping) as Hl.
  { clear. induction acts as [|[] acts IH]; done. }
  induction acts as [|a acts IH]; [by intros ?%elem_of_nil|]. intros Hin. cbn. destruct a as [|n|n|b g]; [apply Hl|..];
    (apply elem_of_cons in Hin as [?|Hin]; [done|]; by apply IH).
Qed.

Lemma birthCry_serving {SH EH} (server : EnnProxyServer SH EH) all cidr sv ep w :
  serving all cidr sv ep w →
  wp (birthCry server) (λ _ w', serving all cidr sv ep w' ∧ loop w' = loop w ∧ sv_flags w' = sv_flags w) w.
Proof using Type.
  intros [Hn Hm [] Ha Hc Hp Hl]. unfold birthCry. do 3 apply wp_zoom. apply wp_modify. done.
Qed.
(** Two ticks from a world whose informers have synced. *)
Lemma two_ticks all cidr sv ep w :
  cidr ≠ "--wait" → serving all cidr sv ep w → loop w = Looping → both_synced (sv_flags w) = true → opens_all →
  wp (for_each [Notified NTick; Notified NTick] act) (λ _ w',
    loop w' = Looping ∧ masqueraded all cidr (proxy w').1 ∧
    (∀ key eps, vs (abs (kern (proxy w').2)) !! key = Some eps ↔ asked_rules ips host sv ep key eps) ∧
    (∀ ip, ip ∈ bound (abs (kern (proxy w').2)) ↔ asked_bound sv ip)) w.
Proof using Hv Hcheck NFS IR PS NS.
  intros Hc Hs Hl Hb Hop. cbn [for_each act]. apply wp_bind, wp_bind, wp_gets. rewrite Hl.
  eapply wp_mono; [apply (Sync_world all cidr sv ep w (ready ips) Hc Hs)|].
  { eapply wp_mono; [exact (sync_ready ips host _ (sv_sys _ _ _ _ _ Hs) Hb)|]. by intros [] s' [? _]. }
  intros [] w1 (Hs1 & Hl1 & _ & _ & Hr). rewrite Hl in Hl1. apply wp_bind, wp_bind, wp_gets. rewrite Hl1.
  pose proof (ready_converges ips host _ (sv_sys _ _ _ _ _ Hs1) Hr Hop) as Hcv.
  eapply wp_mono; [exact (Sync_world all cidr sv ep w1 _ Hc Hs1 Hcv)|].
  intros [] w2 (Hs2 & Hl2 & _ & Hm & HQ). rewrite Hl1 in Hl2. by apply wp_ret.
Qed.

(** The running server on a node. It starts with the proxier that
    NewProxier made; its goroutines then run in any order: SyncLoop gets going,
    ticks arrive, and the informers call the handlers, tombstones and objects of
    other types included, with recordings in the gaps of the syncs. If both
    listings were reported, then two ticks later, when the stop signal comes, the kernel has a virtual service with key [key]
    and endpoints [eps] exactly when some announced service port has that
    address and those ready endpoints, the dummy device has exactly the
    announced cluster IPs, and nat POSTROUTING has the masquerade rules the
    settings ask for; SyncLoop takes the stop value. *)
Theorem server_programs_node {SH EH} (server : EnnProxyServer SH EH) (acts : list activity) (all : bool) (cidr : string) (period : Z)
    (k : K) (w0 : IO) w :
  cidr ≠ "--wait" → nat_ready (proxy w).1 → rep k → loop w = NotStarted →
  (proxy w).2 = {| px := new_proxier all cidr host period; kern := k; io := w0 |} →
  (0 < period)%Z → forallb undisturbed acts = true →
  let es := happenings NotStarted acts in
  deliverable ips host es ∅ ∅ → EvServiceSynced ∈ es → EvEndpointsSynced ∈ es → LoopScheduled ∈ acts → opens_all →
  ∃ w', until_stop server (acts ++ [Notified NTick; Notified NTick]) w = (Ret true, w') ∧
    (∀ key eps, vs (abs (kern (proxy w').2)) !! key = Some eps ↔
       asked_rules ips host (services_of es) (endpoints_of es) key eps) ∧
    (∀ ip, ip ∈ bound (abs (kern (proxy w').2)) ↔ asked_bound (services_of es) ip) ∧
    masqueraded all cidr (proxy w').1.
Proof using Hv Hcheck NFS IR PS NS.
  intros Hc Hn Hrep Hl Hp Hper Hu es Hd Hss Hes Hsch Hop.
  assert (serving all cidr ∅ ∅ w) as Hs.
  { split; rewrite ?Hp, ?Hl; first [done | by apply fresh_Winv]. }
  cut (wp (until_stop server (acts ++ [Notified NTick; Notified NTick])) (λ sent w', sent = true ∧
    masqueraded all cidr (proxy w').1 ∧
    (∀ key eps, vs (abs (kern (proxy w').2)) !! key = Some eps ↔
       asked_rules ips host (services_of es) (endpoints_of es) key eps) ∧
    (∀ ip, ip ∈ bound (abs (kern (proxy w').2)) ↔ asked_bound (services_of es) ip)) w).
  { intros (? & w' & Hrun & -> & Hm & Hr & Hb)%wp_run. by exists w'. }
  unfold until_stop. apply wp_bind. eapply wp_mono; [exact (birthCry_serving server all cidr _ _ w Hs)|].
  intros [] w1 (Hs1 & Hl1 & Hf1). rewrite Hl in Hl1. apply wp_bind, wp_for_each_app.
  eapply wp_mono; [apply (acts_serving all cidr acts _ _ w1 Hc Hs1 Hu); rewrite Hl1; exact Hd|].
  intros [] w2 (Hs2 & Hl2 & Hf2). rewrite Hl1, loop_scheduled in Hl2 by done. rewrite Hl1 in Hs2, Hf2.
  eapply wp_mono; [apply (two_ticks all cidr _ _ w2 Hc Hs2 Hl2); [|done]|].
  { rewrite Hf2. apply flags_synced; by left. }
  intros [] w3 (Hl3 & Hm & H). unfold send_stop. apply wp_bind, wp_gets. rewrite Hl3. apply wp_bind, wp_modify, wp_ret.
  done.
Qed.
End running.

(** ** From the start of the process *)
Section process.
Context {F : Type} `{FS : FileSystem F} `{FSS : !FileSystemSpec F}.
Context {N : Type} `{NF : Netfilter N} `{NFS : !NetfilterSpec N}.
Context {K : Type} `{IF : Interface K} `{IS : !IpvsSpec K} `{IR : !IpvsRobust K} `{MR : MapRange}.
Context `{NI : NodeIPInterface K} `{PO : PortOpener} `{PS : !PortOpenerSpec} `{EX : Exec} `{NO : NetOS} `{CS : Nodes.Clientset}.
Context `{TH : Throttling} `{HD : Handle K} `{HS : !HandleSpec K}.
Context (ips : list IP) `{NS : !NodeIPSpec ips}.
Context (v : Z * Z * Z) (Hv : extractIptablesVersion nf_version = OK v)
  (Hcheck : iptablesHasCheckCommand v.1.1 v.1.2 v.2 = true).
Context (BuildConfigFromFlags : nat → string → string → error) (NewForConfig : nat → error).
Abbreviation World := (@World F N K).
Implicit Types w : World.

Lemma rest_unchanged {A} (c : M (F * IO * K) A) w :
  let w' := (onFiles c w).2 in
  (proxy w').1 = (proxy w).1 ∧ loop w' = loop w ∧ EndpointsWatchConfig w' = EndpointsWatchConfig w.
Proof using Type. unfold onFiles, zoom. by destruct (c _). Qed.

(** C1: The whole program, from the start of the process on a node whose
    dummy device and iptables are in any state: unless it was asked to clean up,
    main parses the flags, constructs the server and runs it. Suppose that the
    construction succeeds, that the sync period is positive (SyncLoop panics
    otherwise) and that the pod network is not the text --wait. Then the kernel
    settings are written. Let the goroutines of the server go on in any order,
    handlers in their two halves, with other handlers recording in the middle of
    the syncs where nothing is lost ([undisturbed]: endpoints between the two
    updates, services once theirs are cleared, anything once both are; what is
    recorded between a map's update and its clearing may be lost). Suppose that
    the informers deliver consistently and that after every event the announced
    objects can be programmed: IPv4 addresses, tcp or udp, 16-bit ports, no
    virtual address claimed twice ([deliverable]); that every local port can be
    opened ([opens_all]); that the IPVS implementation, iptables with its check
    command, and the file system do what they document, and that the addresses
    of the node stay ([NodeIPSpec]). If SyncLoop got going and both listings
    were reported, two ticks in which nothing is recorded later the kernel has a
    virtual service with key [key] and endpoints [eps] exactly when some
    announced service port has that address and those ready endpoints, the dummy
    device has exactly the announced cluster IPs, and nat POSTROUTING has the
    masquerade rules that the flags and the node's pod network ask for. Then
    the stop signal makes the process panic, on its nil watchers, with all that
    in place. *)
Theorem main_programs_node (sets : list (KubeEnnProxyConfig → KubeEnnProxyConfig)) (acts : list activity) w
    (server : EnnProxyServer Proxier.Proxier Proxier.Proxier) (fi : F * IO * K) :
  let config := apply_flags sets in
  let host := ref_Name (NodeRef server) in
  let cidr := clusterCIDR (Startup.Proxier server) in
  let es := happenings NotStarted acts in
  CleanupConfig config = false → nat_ready (proxy w).1 → rep (kern (proxy w).2) → loop w = NotStarted → no_watchers w →
  NewEnnProxyServerDefault BuildConfigFromFlags NewForConfig config
    (Server.files w, io (proxy w).2, kern (proxy w).2) = (Ret (OK server), fi) →
  (0 < IpvsSyncPeriod config)%Z → cidr ≠ "--wait" → forallb undisturbed acts = true →
  deliverable ips host es ∅ ∅ → EvServiceSynced ∈ es → EvEndpointsSynced ∈ es →
  LoopScheduled ∈ acts → opens_all →
  ∃ w', main BuildConfigFromFlags NewForConfig sets (acts ++ [Notified NTick; Notified NTick]) w =
      (Panic "invalid memory address or nil pointer dereference", w') ∧
    (∀ n, n ∈ net_flags → StartupClaims.files fi.1.1 !! sysctl_path n = Some "1") ∧
    (∀ key eps, vs (abs (kern (proxy w').2)) !! key = Some eps ↔
       asked_rules ips host (services_of es) (endpoints_of es) key eps) ∧
    (∀ ip, ip ∈ bound (abs (kern (proxy w').2)) ↔ asked_bound (services_of es) ip) ∧
    masqueraded (cfg_MasqueradeAll config) cidr (proxy w').1.
Proof using Hv Hcheck NFS IR PS NS FSS HS.
  intros config host cidr es Hcl Hn Hrep Hl Hw Hnew Hper Hc Hu Hd Hss Hes Hsch Hop.
  pose proof (wlp_run _ _ _ _ _ (NewEnnProxyServerDefault_returned BuildConfigFromFlags NewForConfig config
    (Server.files w, io (proxy w).2, kern (proxy w).2) Hrep) Hnew) as (Hrep' & Hfiles & cidr' & Hpx).
  assert (cidr = cidr') as Ecidr by (unfold cidr; by rewrite Hpx).
  set (w1 := (set_proxier (Startup.Proxier server) (onFiles (NewEnnProxyServerDefault BuildConfigFromFlags NewForConfig config) w).2).2).
  destruct (rest_unchanged (NewEnnProxyServerDefault BuildConfigFromFlags NewForConfig config) w) as (E1 & E2 & E3).
  assert (kern (proxy w1).2 = fi.2) as Ek by (unfold w1, onFiles, zoom; cbn; by rewrite Hnew).
  assert (∃ w', until_stop server (acts ++ [Notified NTick; Notified NTick]) w1 = (Ret true, w') ∧
    (∀ key eps, vs (abs (kern (proxy w').2)) !! key = Some eps ↔
       asked_rules ips host (services_of es) (endpoints_of es) key eps) ∧
    (∀ ip, ip ∈ bound (abs (kern (proxy w').2)) ↔ asked_bound (services_of es) ip) ∧
    masqueraded (cfg_MasqueradeAll config) cidr (proxy w').1) as (w' & Hrun & Hrest).
  { apply (server_programs_node ips host v Hv Hcheck server acts _ _ (IpvsSyncPeriod config) (kern (proxy w1).2) (io (proxy w1).2));
      [done|unfold w1; cbn; by rewrite E1|by rewrite Ek|unfold w1; cbn; by rewrite E2| |done..].
    rewrite Ecidr. unfold host. rewrite <-Hpx. reflexivity. }
  exists w'. split; [|done]. unfold main. fold config. rewrite Hcl.
  assert (onFiles (NewEnnProxyServerDefault BuildConfigFromFlags NewForConfig config) w =
    (Ret (OK server), (onFiles (NewEnnProxyServerDefault BuildConfigFromFlags NewForConfig config) w).2)) as Ho.
  { unfold onFiles, zoom. by rewrite Hnew. }
  unfold mbind at 1, M_bind at 1. rewrite Ho. unfold mbind at 1, M_bind at 1.
  change (set_proxier (Startup.Proxier server) _) with (Ret (A := unit) tt, w1). cbv iota.
  unfold mbind at 1, M_bind at 1.
  assert (Run server (acts ++ [Notified NTick; Notified NTick]) w1 =
    (Panic "invalid memory address or nil pointer dereference", w')) as ->; [|done].
  assert (no_watchers w1) as Hw1 by (unfold no_watchers, w1; cbn; by rewrite E3).
  rewrite Run_until_stop. unfold mbind at 1, M_bind at 1. rewrite Hrun. apply StopWatcher_nil.
  eapply (wlp_run _ _ _ _ _ (until_stop_watchers server _ w1 Hw1)), Hrun.
Qed.
End process.

(** ** A node *)
#[local] Existing Instances canonical_range TestBed.bed_exec TestBed.bed_net EventsClaims.ref_nodeip EventsClaims.ref_nodeip_spec.

(** The web service is noted by its handler and programmed by a tick, while other
    handlers note its endpoints and the dns service. *)
Definition ex_acts : list activity := LoopScheduled :: Notified NServicesListed :: Notified NEndpointsListed ::
  Noted (NAddService (OService TestBed.web)) ::
  Syncing true {| between_updates := [EvEndpointsAdd TestBed.web_eps]; before_programming := []; during_programming := [];
    after_services := [EvServiceAdd TestBed.dns]; after_endpoints := [EvEndpointsAdd TestBed.dns_eps] |} ::
  Syncing false no_gaps ::
  Notified (NUpdateService (OService TestBed.web) (OService web2)) :: Notified NTick ::
  Notified (NDeleteService (OTombstone (OService TestBed.dns))) :: [].

Definition ex_world : World (F := unit) (N := RefNf) (K := RefKernel) := {|
  files := tt; proxy := (fresh_nf, {| px := new_proxier true "10.244.1.0/24" "node1" (5 * GoTime.Minute); kern := node_kernel; io := quiet_io |});
  EndpointsWatchConfig := None; ServiceWatchConfig := None; loop := NotStarted |}.

Lemma ex_acts_deliverable : deliverable TestBed.bed_ips "node1" (happenings NotStarted ex_acts) ∅ ∅.
Proof.
  cbn [happenings to_list heard event_of loop_after ex_acts told no_gaps app between_updates before_programming
    during_programming after_services after_endpoints]. solve_deliverable.
Qed.

Lemma ref_version : extractIptablesVersion (nf_version (N := RefNf)) = OK (1, 6, 1)%Z.
Proof. vm_compute. reflexivity. Qed.

Lemma server_programs_node_witness :
  ∃ w', until_stop bed_server (ex_acts ++ [Notified NTick; Notified NTick]) ex_world = (Ret true, w') ∧
    masqueraded true "10.244.1.0/24" (proxy w').1.
Proof.
  destruct (server_programs_node TestBed.bed_ips "node1" (1, 6, 1)%Z ref_version eq_refl
    bed_server ex_acts true "10.244.1.0/24" (5 * GoTime.Minute) node_kernel quiet_io ex_world) as (w' & Hrun & _ & _ & Hm).
  - discriminate.
  - split; [exact I|]. eexists. vm_compute. reflexivity.
  - exact node_rep.
  - reflexivity.
  - reflexivity.
  - reflexivity.
  - reflexivity.
  - exact ex_acts_deliverable.
  - by_eval.
  - by_eval.
  - left.
  - exact TestBed.bed_opens.
  - exists w'. split; [exact Hrun|exact Hm].
Defined.

(** A node on which the construction succeeds. *)
Definition node_exec : Exec := {|
  LookPath _ _ := OK "/usr/sbin/conntrack"; CombinedOutput _ _ _ := (module_lines IpvsModules, None) |}.
Definition node_client : Nodes.Clientset := {|
  Nodes.Nodes_Get _ name := OK {| Nodes.node_Name := name; Nodes.PodCIDR := "10.244.1.0/24";
    Nodes.node_Addresses := [{| Nodes.na_Type := "InternalIP"; Nodes.na_Address := "10.0.0.7" |}] |} |}.
Definition node_server : EnnProxyServer Proxier.Proxier Proxier.Proxier :=
  let p := new_proxier true "10.244.1.0/24" "node1" (5 * GoTime.Minute) in
  {| Startup.Config := set_bools false true false (set_Master "https://10.0.0.1" NewKubeEnnProxyConfig);
     Startup.Proxier := p; s_ConfigSyncPeriod := ConfigSyncPeriod NewKubeEnnProxyConfig;
     NodeRef := {| ref_Kind := "Node"; ref_Name := "node1"; ref_UID := "node1"; ref_Namespace := "" |};
     ServiceEventHandler := p; EndpointsEventHandler := p |}.
Definition node_world : World (F := gmap string string) (N := RefNf) (K := RefKernel) := {|
  files := ∅; proxy := (fresh_nf, {| px := zero_proxier; kern := node_kernel; io := quiet_io |});
  EndpointsWatchConfig := None; ServiceWatchConfig := None; loop := NotStarted |}.
Definition node_flags : list (KubeEnnProxyConfig → KubeEnnProxyConfig) :=
  [set_Master "https://10.0.0.1"; λ c, set_bools (CleanupConfig c) true (GlogToStderr c) c].

#[local] Instance node_handle : Handle RefKernel := mret None.
#[local] Instance node_handle_spec : HandleSpec RefKernel.
Proof. intros k Hk. by apply wp_ret. Qed.

Lemma main_programs_node_witness :
  ∃ w', @main _ mem_fs RefNf _ RefKernel _ canonical_range _ _ node_exec _ node_client ex_throttling node_handle
      (λ _ _ _, None) (λ _, None) node_flags (ex_acts ++ [Notified NTick; Notified NTick]) node_world =
      (Panic "invalid memory address or nil pointer dereference", w') ∧
    masqueraded true "10.244.1.0/24" (proxy w').1.
Proof.
  set (r := @NewEnnProxyServerDefault _ mem_fs _ node_client node_exec ex_throttling (λ _ _ _, None) (λ _, None)
    _ node_handle (apply_flags node_flags) (∅, quiet_io, node_kernel)).
  assert (r = (Ret (OK node_server), r.2)) as Hr by (vm_compute; reflexivity).
  destruct (@main_programs_node _ mem_fs mem_fs_spec RefNf _ _ RefKernel _ _ _ canonical_range _ _ _ node_exec _ node_client
    ex_throttling node_handle node_handle_spec
    TestBed.bed_ips _ (1, 6, 1)%Z ref_version eq_refl (λ _ _ _, None) (λ _, None) node_flags ex_acts node_world
    node_server r.2) as (w' & Hrun & _ & _ & _ & Hm).
  - reflexivity.
  - split; [exact I|]. eexists. vm_compute. reflexivity.
  - exact node_rep.
  - reflexivity.
  - reflexivity.
  - exact Hr.
  - reflexivity.
  - discriminate.
  - reflexivity.
  - exact ex_acts_deliverable.
  - by_eval.
  - by_eval.
  - left.
  - exact TestBed.bed_opens.
  - exists w'. split; [exact Hrun|exact Hm].
Defined.
