(* ===== verification/ServerCleanup.v ===== *)
(** * Cleaning up (kube-enn-proxy.go, app/server.go, CleanupLeftovers)

    The other thing the program can be asked to do: remove what the proxier
    left in the kernel. The errors of the three parts are dropped, so what
    matters is that each returns. *)

From S2P Require Import Prelude GoNet GoTime ProxyTypes Ipvs Host Ports Nodes GoIptables IptablesFacts Proxier Masquerade MasqClaims Startup StartupClaims FakeIpvs EnnIpvs RefKernel EnnClaims TestBed Events EventsClaims Server ServerClaims ServerRun.
Import GoIptables RefNf Ports EnnIpvs Ref Proxier Masquerade Startup Server.

(** The system calls return, and an iptables command that was found can be run:
    it prints or exits with a status. *)
Class NetfilterReturns (N : Type) `{Netfilter N} : Prop := {
  LookPath_returns p n : wp (nf_LookPath p) (λ _ _, True) n;
  Run_returns p args n : wp (nf_Run p args) (λ r _, ∀ err, r ≠ NotRun err) n;
  OpenLock_returns n : wp sys_OpenLock (λ _ _, True) n;
  Flock_returns fd n : wp (sys_Flock fd) (λ _ _, True) n;
  Close_returns fd n : wp (sys_Close fd) (λ _ _, True) n;
}.

Section iptables.
Context {N : Type} `{NF : Netfilter N} `{NR : !NetfilterReturns N}.
Abbreviation returns c := (∀ n : N, wp c (λ _ _, True) n).

Lemma returns_bind {A B} (c : M N A) (f : A → M N B) : returns c → (∀ a, returns (f a)) → returns (c ≫= f).
Proof. intros Hc Hf n. apply wp_bind. eapply wp_mono; [apply Hc|]. intros a n' _. apply Hf. Qed.

Lemma returns_ret {A} (a : A) : returns (mret a : M N A).
Proof. done. Qed.

Lemma Run_any p args : returns (nf_Run p args).
Proof using NR. intros n. eapply wp_mono; [apply Run_returns|]. done. Qed.

Lemma runWithOutput_returns ipt args : returns (runWithOutput ipt args).
Proof using NR.
  assert (∀ args, returns (run_command ipt args)) as Hc.
  { intros args' n. apply wp_bind. eapply wp_mono; [apply Run_returns|]. intros [] n' Hr; [by apply wp_ret..|].
    by destruct (Hr err). }
  unfold runWithOutput. destruct (hasWait ipt); [apply Hc|]. apply returns_bind; [apply OpenLock_returns|].
  intros [fmu|]; [|apply returns_ret]. apply returns_bind.
  { apply returns_bind; [apply Flock_returns|]. intros r. apply returns_ret. }
  intros [ul|]; [|apply returns_ret]. apply returns_bind; [apply Hc|]. intros r. apply returns_bind; [|intros; apply returns_ret].
  destruct ul; [apply Close_returns|apply returns_ret].
Qed.

Lemma cleanUpIptablesMASQ_returns : returns cleanUpIptablesMASQ.
Proof using NR.
  apply returns_bind.
  { apply returns_bind; [apply LookPath_returns|]. intros [path|]; [|apply returns_ret].
    apply returns_bind; [|intros; apply returns_ret]. apply returns_bind; [|intros; apply returns_ret].
    apply returns_bind; [apply Run_any|intros; apply returns_ret]. }
  intros [ipt|]; [|apply returns_ret]. apply returns_bind.
  { apply returns_bind; [apply runWithOutput_returns|intros; apply returns_ret]. }
  intros [lines|]; [|apply returns_ret]. generalize 0%Z. induction lines as [|l lines IH]; intros i; [apply returns_ret|].
  cbn [delete_masq]. destruct (_ && _); [|apply IH]. apply returns_bind.
  { apply returns_bind; [apply runWithOutput_returns|intros; apply returns_ret]. }
  intros [e|]; [apply returns_ret|apply IH].
Qed.
End iptables.

(** C26: Asked to clean up, the process opens an IPVS handle first. If that fails
    (the kernel has no ip_vs, say), it panics with the error and has touched
    nothing: iptables and the dummy device stay as they are. If it succeeds,
    the process exits with code 0 after emptying the kernel: whatever the
    commands answer (as long as an iptables that is found can be run), on a
    kernel that behaves as documented there is no virtual service left, of the
    proxier or of anyone else, and no dummy device, whose addresses went with
    it. In neither case a server is constructed: the node's files are not
    touched. *)
Theorem main_cleans_up {F : Type} `{FS : FileSystem F} {N : Type} `{NF : Netfilter N} `{NR : !NetfilterReturns N}
    {K : Type} `{KN : Kernel K} `{KS : !KernelSpec K} `{MR : MapRange} `{NI : !Nodes.NodeIPInterface K} `{PO : PortOpener}
    `{EX : Exec} `{NO : NetOS} `{CS : Nodes.Clientset} `{TH : Throttling} `{HD : !Handle K}
    (build : nat → string → string → error) (newc : nat → error)
    (sets : list (KubeEnnProxyConfig → KubeEnnProxyConfig)) (before : list activity) (w : World (F := F) (N := N) (K := K))
    (err : error) (k : K) :
  CleanupConfig (apply_flags sets) = true → libipvs_New (kern (proxy w).2) = (Ret err, k) → krep k →
  ∃ out w', main build newc sets before w = (out, w') ∧ Server.files w' = Server.files w ∧
    io (proxy w').2 = io (proxy w).2 ∧ krep (kern (proxy w').2) ∧
    match err with
    | Some e => out = Panic e ∧ (proxy w').1 = (proxy w).1 ∧ kern (proxy w').2 = k
    | None => out = Ret (Exit 0 "") ∧
        kabs (kern (proxy w').2) = {| vs := ∅; dummy := None;
          bound := match dummy (kabs k) with Some _ => ∅ | None => bound (kabs k) end |}
    end.
Proof.
  intros Hcl Hnew Hrep.
  assert (NewEnnIpvs (kern (proxy w).2) = (match err with Some e => Panic e | None => Ret tt end, k)) as Ho.
  { unfold NewEnnIpvs, mbind, M_bind. rewrite Hnew. by destruct err. }
  destruct err as [e|].
  { eexists _, _. split.
    - unfold main. rewrite Hcl. unfold CleanUpAndExit, FakeProxier, onProxy, onSys, onK, mbind, M_bind, zoom.
      cbn [proxy fst snd kern]. rewrite Ho. reflexivity.
    - cbn. done. }
  set (w1 := (onProxy (onSys (onK FakeProxier)) w).2).
  assert (onProxy (onSys (onK FakeProxier)) w = (Ret zero_proxier, w1)) as E1.
  { unfold w1, onProxy, onSys, onK, zoom, FakeProxier, mbind, M_bind. rewrite Ho. reflexivity. }
  assert (kern (proxy w1).2 = k ∧ Server.files w1 = Server.files w ∧ io (proxy w1).2 = io (proxy w).2) as (Hk & Hf & Hi).
  { unfold w1, onProxy, onSys, onK, zoom, FakeProxier, mbind, M_bind. by rewrite Ho. }
  rewrite <-Hf, <-Hi, <-Hk. rewrite <-Hk in Hrep.
  cut (wp (main build newc sets before) (λ o w', o = Exit 0 "" ∧ krep (kern (proxy w').2) ∧
    kabs (kern (proxy w').2) =
      {| vs := ∅; dummy := None;
         bound := match dummy (kabs (kern (proxy w1).2)) with Some _ => ∅ | None => bound (kabs (kern (proxy w1).2)) end |} ∧
    Server.files w' = Server.files w1 ∧ io (proxy w').2 = io (proxy w1).2) w).
  { intros (o & w' & Hrun & -> & ? & ? & ? & ?)%wp_run. eexists _, w'. split; [exact Hrun|]. done. }
  unfold main. rewrite Hcl. apply wp_bind, wp_bind. unfold wp at 1. rewrite E1.
  apply wp_bind, wp_zoom, wp_modify, wp_zoom. cbn [proxy fst snd px kern io].
  apply wp_bind, wp_zoom. eapply wp_mono; [apply cleanUpIptablesMASQ_returns|]. intros e n1 _. cbn [fst snd].
  apply wp_bind, wp_zoom. cbn [fst snd]. apply wp_bind, wp_zoom. cbn [kern].
  eapply wp_mono; [by apply enn_FlushIpvs_spec|]. intros e2 k2 (_ & Hr2 & Ha2). apply wp_ret, wp_zoom. cbn [fst snd].
  apply wp_bind, wp_zoom. cbn [kern]. eapply wp_mono; [by apply enn_DeleteDummyLink_run|]. intros e3 k3 [Hr3 Ha3].
  apply wp_ret, wp_ret. cbn. rewrite Ha3, Ha2. done.
Qed.

(** ** A node with rules to clean up *)
#[local] Instance ref_returns : NetfilterReturns RefNf.
Proof.
  assert (∀ op table chain r l n, wp (operate op table chain r l) (λ r _, ∀ err, r ≠ NotRun err) n) as Hop.
  { intros. unfold operate. repeat (case_decide; [by repeat case_match|]). done. }
  split; try done. intros p args n. cbn [nf_Run ref_Netfilter]. unfold ref_run.
  destruct args as [|a [|b [|op [|chain r]]]]; try done; [by apply wp_ret; case_decide|]. case_decide; [|done].
  apply wp_bind, wp_get. destruct (rn_rules n !! (b, chain)); [apply Hop|done].
Qed.

#[local] Existing Instance TestBed.bed_net.

Definition clean_flags : list (KubeEnnProxyConfig → KubeEnnProxyConfig) :=
  [λ c, set_bools true (cfg_MasqueradeAll c) (GlogToStderr c) c].

(** The kernel of the node with a virtual service and the dummy device. *)
Definition used_kernel : RefKernel :=
  (enn_GetDummyLink (enn_AddIpvsService (Some EnnClaims.ex_svc) EnnClaims.ex_kernel).2).2.
Definition used_world : World (F := gmap string string) (N := RefNf) (K := RefKernel) := {|
  Server.files := ∅; proxy := (fresh_nf, {| px := zero_proxier; kern := used_kernel; io := {| tick := 0; trace := [] |} |});
  EndpointsWatchConfig := None; ServiceWatchConfig := None; loop := NotStarted |}.

Lemma used_rep : krep used_kernel.
Proof.
  pose proof (enn_AddIpvsService_spec EnnClaims.ex_kernel EnnClaims.ex_svc (boot_rep _ _) EnnClaims.ex_svc_wf) as H1.
  apply wp_run in H1 as (e1 & n1 & R1 & _ & Hr1 & _). pose proof (enn_GetDummyLink_spec n1 Hr1) as H2.
  apply wp_run in H2 as (e2 & n2 & R2 & Hr2 & _). unfold used_kernel. rewrite R1. cbn [snd]. by rewrite R2.
Qed.

(** On the node, with a handle that opens and with one that does not. *)
Abbreviation clean h := (@main _ mem_fs RefNf _ RefKernel _ canonical_range EventsClaims.ref_nodeip ListenPortOpener
  TestBed.bed_exec TestBed.bed_net node_client ex_throttling h (λ _ _ _, None) (λ _, None) clean_flags [] used_world).
Lemma main_cleans_up_witness :
  vs (kabs used_kernel) ≠ ∅ ∧
  (∃ w', clean (mret None) = (Ret (Exit 0 ""), w') ∧ vs (kabs (kern (proxy w').2)) = ∅) ∧
  ∃ w', clean (mret (Some "operation not supported")) = (Panic "operation not supported", w').
Proof.
  split; [intros H; apply (f_equal size) in H; vm_compute in H; discriminate|]. split.
  - destruct (@main_cleans_up _ mem_fs RefNf _ ref_returns RefKernel _ ref_KernelSpec canonical_range EventsClaims.ref_nodeip
      ListenPortOpener TestBed.bed_exec TestBed.bed_net node_client ex_throttling (mret None) (λ _ _ _, None) (λ _, None)
      clean_flags [] used_world None used_kernel eq_refl eq_refl used_rep) as (out & w' & Hrun & _ & _ & _ & Hout & Ha).
    exists w'. rewrite Hout in Hrun. split; [exact Hrun|]. rewrite Ha. reflexivity.
  - destruct (@main_cleans_up _ mem_fs RefNf _ ref_returns RefKernel _ ref_KernelSpec canonical_range EventsClaims.ref_nodeip
      ListenPortOpener TestBed.bed_exec TestBed.bed_net node_client ex_throttling (mret (Some "operation not supported"))
      (λ _ _ _, None) (λ _, None) clean_flags [] used_world (Some "operation not supported") used_kernel eq_refl eq_refl used_rep)
      as (out & w' & Hrun & _ & _ & _ & Hout & _).
    exists w'. rewrite Hout in Hrun. exact Hrun.
Defined.
